(* ===== verification/_CoqProject ===== *)
-Q . S2P
Prelude.v
Sha256.v
Crypto.v
Json.v
JsonText.v
TsKeys.v
Committee.v
Pool.v
Config.v
ConfigProps.v
Logger.v
Message.v
Store.v
Commitor.v
DagCommitor.v
Elector.v
Transmitor.v
Network.v
NetworkProps.v
Spb.v
SpbExec.v
SpbCert.v
SpbProps.v
Core.v
CoreExec.v
CoreInst.v
CoreProps.v
CoreForge.v
CoreOut.v
System.v
Agreement.v
Divergence.v
Sched.v
BigSpb.v
BigProps.v
BigCore.v
Loop.v
BigCoreProps.v
DagSpb.v
DagCore.v
DagCoreProps.v
Startup.v
