(* ===== verification/Prelude.v ===== *)
(** * s2PAC: a verification library for the 2PAC consensus node

    The program is a node of a Byzantine fault tolerant consensus protocol
    written in Go.  A node draws batches of transactions from a pool, proposes
    them in blocks, runs one two-step broadcast per proposer and view, elects
    a leader of the view by a threshold signature, commits the leader's block
    when the broadcast's certificates allow it, and reports what it holds so
    that all nodes move to the next view.

    ** Parts and files

    - [Prelude]: bytes, machine integers with their wrap-around, the outcomes
      of Go calls ([Res]: value, error, panic), the state-and-effect monad
      [GoM] with trace specifications ([spec_at], [Trace]), base-2 printing,
      counting, tactics and hint databases.
    - [Sha256]: SHA-256, checked on the standard's test vectors.
    - [Crypto] ([src/crypto/crypto.go]): hasher, signatures, the signing
      service, hexadecimal key files.  ed25519 and the threshold signatures of
      kyber are the class [Prims] with its laws [PrimsLaws]; [demo_prims] is a
      concrete instance.
    - [Committee] ([src/core/config.go]): parameters, members, addresses,
      thresholds.
    - [Pool] ([src/pool]): ring buffer, batches, load generator.
    - [Message] ([src/core/message.go]): blocks, certificates and the seven
      messages with their constructors, hashes and verification.
    - [Store] ([src/store], [storeBlock] and [getBlock] of [src/core/core.go]):
      the database interface as the class [DB], the NutsDB adapter, the store
      service, block storage over the codec class [BlockCodec].
    - [Commitor] ([src/core/commitor.go]) and [DagCommitor]
      ([src/core/dag_commitor.go]): the two committers.
    - [Elector] ([src/core/elector.go]): leader election.
    - [Transmitor] ([src/core/transimtor.go]): queues, and the effects of the
      consensus code: [Send], [Self] (into the own receive channel), [Spawn].
    - [Spb] ([src/core/spb.go]): the lean broadcast.  A method is cut where it
      releases a lock or finishes an atomic operation; a piece that has more to
      do spawns the next.  [SpbExec] is the transition system of all
      interleavings of these pieces, [SpbCert] and [SpbProps] its theorems.
    - [Core] ([src/core/core.go]): the main loop of the lean protocol, one
      definition per handler; [processCoin] is cut at its reads of a broadcast
      instance ([MainPC] says where the loop stands).  [CoreExec] is the
      transition system of a whole node: main loop, goroutines, committer,
      and a network that may deliver any message at any time.  [CoreInst]
      relates the instances inside a node to [SpbExec], [CoreProps] has the
      theorems about nodes, [CoreForge] what the votes of one member do to one.
    - [CoreOut]: what a node sends, whatever it receives.  [System]: several
      nodes and a network that delivers only what nodes sent; [Agreement]: what
      nodes agree on; [Divergence]: executions of four correct nodes.
    - [Sched]: the transition system of a node with goroutines, generic in the
      core; [BigSpb], [BigProps] ([src/core/bigspb.go]) and [BigCore], [Loop],
      [BigCoreProps] ([src/core/bigcore.go]): the big-block variant;
      [DagSpb] ([src/core/dag_bitspb.go]) and [DagCore], [DagCoreProps]
      ([src/core/dag_bigcore.go]): the DAG variant.
    - [Json], [JsonText]: what the program uses of Go's [encoding/json],
      [strconv] and [encoding/base64], down to the bytes, with the proofs that
      printed text is read back.  [TsKeys] ([src/crypto/crypto.go]): generated
      keys and the JSON of threshold keys; the groups of kyber are the class
      [Kyber] with [KyberLaws].  [Config], [ConfigProps]
      ([src/config/config.go]): the files of keys, committee and parameters on
      an abstract file system.  [Logger] ([src/logger]): levels and log files.
    - [Network], [NetworkProps] ([src/network], the goroutines of
      [src/core/transimtor.go]): codec, sender with one goroutine per
      connection, receiver, channels with their capacity.
    - [Startup] ([src/core/consensus.go], [src/node/node.go], [src/main.go]):
      from the commands and files to a running node.

    A record models a struct, an inductive type an enum or an interface, a
    Go map is a [gmap] or [gset]; code that ranges over a map takes the order
    as an argument.  A pointer the code may find nil is an [option].  A panic
    ends the process.  Channels are lists, unbounded except in [Network].

    ** What the theorems show

    - Broadcast: at most one certificate per height and only from a quorum;
      the speed certificate; no schedule is infinite, and with messages the
      handlers accept one stops early only where a send has to wait; for a
      proposer that does not equivocate, the decision certificate says that the
      two blocks, the certificate and the final vote were seen, provided no
      certificate names the zero digest ([zero_certificate_decides] shows why),
      and a drained instance that saw them holds it, in any order of arrival;
      when a message crashes an instance.
    - Node: each instance inside a node behaves as an instance alone
      (refinement); one proposal and one report per view; views change only on
      reports that justify it; what a commit by the decision certificate
      rests on; which old messages are ignored; which reports crash a node,
      and what one faulty member can do with its coin and its votes.
    - System: nodes that run the program agree, within a view, on the leader and
      on the block committed by decision certificates.  Across views they need
      not: [fault_free_fork] is an execution without faults in which two nodes
      commit contradicting sequences, [fault_free_stall] one that ends in the
      first view with every message delivered and handled and nothing to run.
    - Election: agreement of all nodes, one leader per view, failed elections.
    - Committers: no block twice, parents first, exactly the reachable blocks,
      termination with the iterations that are enough, and the loop on a
      missing parent.
    - Pool: the ring buffer implements a first-in first-out queue; batch
      numbers are unique; the size at which it stalls.
    - Variants: the decision certificate of a big-block instance rests on its two
      blocks and votes for them (for a proposer that does not equivocate and
      without votes for the zero digest); one proposal per view; the DAG node
      moves forward through the rounds, possibly leaving out a second height,
      each time with a quorum of certificates of the round its block refers to;
      what the big-block variant miscounts.
    - Files and start-up: generated files are read back as what was generated,
      at every node, as are committees filed under their members' numbers with
      ASCII addresses, and parameters; nodes started from them verify each other's messages.
    - Network: a connection delivers in order and without gaps; a peer
      whose connection breaks stops the sender; on which received values the
      receiving goroutines panic.
    - Messages, store, committee: signatures verify, what hashes separate and
      confuse, blocks are read back, quorums intersect, broadcasts reach all.

    ** Bounds and fuel

    [Commitor.walk] and [DagCommitor.dag_loop] take fuel: the loops depend on
    a store that grows.  [commit_terminates] and [dag_commit_terminates] give
    amounts that are enough; [missing_parent_spins] shows when none is.  Vote
    counters are 32-bit and the theorems on quorums ask for fewer than 2^32
    votes; batch numbers for less than 2^63.  Executions are relations and need
    no fuel; [do_acts], [do_nacts], [do_sacts] and [do_lacts] run given schedules
    ([do_all] with as many steps as its fuel).  The JSON reader takes
    fuel: [Decode] gives it twice the length of the text and one, which is
    enough ([Decode_fuel]).  Waiting for the peers at start-up is counted in
    tries, which the theorems leave open.

    ** Not modelled

    The bytes of gob streams, the TCP protocol, binding and accepting a port,
    the parsing of command line flags (library code); the text of log lines and
    the benchmark scripts; the pauses of the start-up; in the
    executions of a node, the capacities of the channels inside it (1000 in the
    transmitter) and what blocks on them: [spb_drains] takes the sends that are
    accepted as a parameter, [Network] has the capacities of the transmitter's
    goroutines, the sender and the receiver; the order
    in which two channels of different kinds receive what one piece sends;
    gob's encoding of blocks and nutsdb, which are class parameters with their
    documented laws.  The committers read a store that keeps one block per
    digest: a later block with the same hash ([Block_Hash_ambiguous]) would
    overwrite it.  Open: refinement of the big-block and DAG nodes to their
    instances as [CoreInst] does for the lean node, networks of such nodes, and
    agreement on speed commits. *)
From Stdlib Require Export ZArith Lia.
From Stdlib Require Strings.Byte.
From stdpp Require Export prelude gmap list strings.
#[global] Open Scope Z_scope.

(** ** Bytes *)

Abbreviation byte := Byte.byte.
Abbreviation bytes := (list Byte.byte).

#[global] Instance byte_eq_dec : EqDecision byte.
Proof. intros x y. destruct (Byte.byte_eq_dec x y); [by left | by right]. Defined.

#[global] Instance byte_countable : Countable byte.
Proof. by apply (inj_countable Byte.to_N Byte.of_N), Byte.of_to_N. Defined.

(** [byte(z)]: the conversion keeps the low eight bits. *)
Definition byte_of_Z (z : Z) : byte :=
  default Byte.x00 (Byte.of_N (Z.to_N (z mod 256))).

Definition Z_of_byte (b : byte) : Z := Z.of_N (Byte.to_N b).

Lemma Z_of_byte_range b : 0 <= Z_of_byte b < 256.
Proof. unfold Z_of_byte. pose proof (Byte.to_N_bounded b). lia. Qed.

Lemma byte_of_Z_of_byte b : byte_of_Z (Z_of_byte b) = b.
Proof.
  unfold byte_of_Z. rewrite Z.mod_small by apply Z_of_byte_range.
  unfold Z_of_byte. by rewrite N2Z.id, Byte.of_to_N.
Qed.

Lemma Z_of_byte_of_Z z : Z_of_byte (byte_of_Z z) = z mod 256.
Proof.
  unfold byte_of_Z, Z_of_byte. pose proof (Z.mod_pos_bound z 256 ltac:(lia)).
  destruct (Byte.of_N (Z.to_N (z mod 256))) as [b|] eqn:E; simpl.
  - apply Byte.to_of_N in E. lia.
  - apply Byte.of_N_None_iff in E. lia.
Qed.

(** ** Machine integers

    Go's [int] and the named type [NodeID] are 64-bit two's complement,
    [int32] is 32-bit and [uint8] is unsigned.  They are kept as [Z] and the
    wrap-around is written where the code computes. *)

Definition wrap (w z : Z) : Z := (z + 2 ^ (w - 1)) mod 2 ^ w - 2 ^ (w - 1).
Abbreviation wrap64 := (wrap 64).
Abbreviation wrap32 := (wrap 32).

Definition int_range (w z : Z) : Prop := - 2 ^ (w - 1) <= z < 2 ^ (w - 1).
Abbreviation is_int := (int_range 64).
Abbreviation is_int32 := (int_range 32).
Definition is_uint8 (z : Z) : Prop := 0 <= z < 256.

#[global] Instance int_range_dec w z : Decision (int_range w z).
Proof. unfold int_range. apply _. Defined.
#[global] Instance is_uint8_dec z : Decision (is_uint8 z).
Proof. unfold is_uint8. apply _. Defined.

Lemma wrap_range w z : 0 < w -> int_range w (wrap w z).
Proof.
  intros Hw. unfold int_range, wrap.
  assert (2 ^ w = 2 * 2 ^ (w - 1)) as E.
  { rewrite <- Z.pow_succ_r by lia. f_equal. lia. }
  pose proof (Z.mod_pos_bound (z + 2 ^ (w - 1)) (2 ^ w) ltac:(lia)). lia.
Qed.

Lemma wrap_id w z : 0 < w -> int_range w z -> wrap w z = z.
Proof.
  unfold int_range, wrap. intros Hw Hz.
  assert (2 ^ w = 2 * 2 ^ (w - 1)) as E.
  { rewrite <- Z.pow_succ_r by lia. f_equal. lia. }
  rewrite Z.mod_small by lia. lia.
Qed.

(** ** Outcomes of Go code

    A call returns a value, returns an [error], or panics.  A panic ends the
    process: nothing recovers in this program. *)

Inductive GoError : Type :=
| ErrSignature (msgTyp view node : Z)
| ErrReference (msgTyp view node : Z)
| ErrUsedElect (msgTyp view node : Z)
| ErrDocG
| ErrNotFoundKey
| ErrHexLength
| ErrHexByte (b : byte)
| ErrLib (code : Z).

#[global] Instance GoError_eq_dec : EqDecision GoError.
Proof. solve_decision. Defined.

Inductive Res (A : Type) : Type :=
| Ok (a : A)
| Err (e : GoError)
| Panic.
Arguments Ok {A} _.
Arguments Err {A} _.
Arguments Panic {A}.

#[global] Instance Res_ret : MRet Res := fun _ a => Ok a.
#[global] Instance Res_bind : MBind Res := fun _ _ k m =>
  match m with Ok a => k a | Err e => Err e | Panic => Panic end.

(** ** Stateful Go code

    A method that mutates its receiver of type [S] and has externally visible
    effects of type [E] (sends on channels, goroutines it starts).  An error
    keeps the mutations made before it, as the source does. *)

Definition GoM (S E A : Type) : Type := S -> Res A * S * list E.

Section GoM.
Context {S E : Type}.

#[global] Instance GoM_ret : MRet (GoM S E) := fun _ a s => (Ok a, s, []).
#[global] Instance GoM_bind : MBind (GoM S E) := fun _ _ k m s =>
  match m s with
  | (Ok a, s', es) => let '(r, s'', es') := k a s' in (r, s'', es ++ es')
  | (Err e, s', es) => (Err e, s', es)
  | (Panic, s', es) => (Panic, s', es)
  end.

Definition get : GoM S E S := fun s => (Ok s, s, []).
Definition modify (f : S -> S) : GoM S E unit := fun s => (Ok tt, f s, []).
Definition emit (e : E) : GoM S E unit := fun s => (Ok tt, s, [e]).
Definition emit_all (es : list E) : GoM S E unit := fun s => (Ok tt, s, es).
Definition throw {A} (e : GoError) : GoM S E A := fun s => (Err e, s, []).
Definition panic {A} : GoM S E A := fun s => (Panic, s, []).
Definition lift {A} (r : Res A) : GoM S E A := fun s => (r, s, []).
End GoM.
Arguments GoM_bind {_ _ _ _} _ _ _ /.
Arguments GoM_ret {_ _ _} _ _ /.

Definition res_of {A S E} (x : Res A * S * list E) : Res A := x.1.1.
Definition st_of {A S E} (x : Res A * S * list E) : S := x.1.2.
Definition eff_of {A S E} (x : Res A * S * list E) : list E := x.2.

(** *** What a method may do

    A trace relation relates the state before, the state after and the effects
    in between, and composes; [spec_at s m Q] says that running [m] from [s]
    stays within [Q], whatever it returns. *)

Definition spec_at {S E A} (s : S) (m : GoM S E A) (Q : S -> S -> list E -> Prop) : Prop :=
  forall r s' es, m s = (r, s', es) -> Q s s' es.

Class Trace {S E} (Q : S -> S -> list E -> Prop) : Prop := {
  trace_refl s : Q s s [];
  trace_app s1 s2 s3 es1 es2 : Q s1 s2 es1 -> Q s2 s3 es2 -> Q s1 s3 (es1 ++ es2);
}.

Section spec.
Context {S E : Type} (Q : S -> S -> list E -> Prop) `{!Trace Q}.

Lemma spec_ret {A} s (a : A) : spec_at s (mret a : GoM S E A) Q.
Proof. intros r s' es [= <- <- <-]. apply trace_refl. Qed.
Lemma spec_throw {A} s e : spec_at s (throw e : GoM S E A) Q.
Proof. intros r s' es [= <- <- <-]. apply trace_refl. Qed.
Lemma spec_panic {A} s : spec_at s (panic : GoM S E A) Q.
Proof. intros r s' es [= <- <- <-]. apply trace_refl. Qed.
Lemma spec_lift {A} s (x : Res A) : spec_at s (lift x : GoM S E A) Q.
Proof. intros r s' es [= <- <- <-]. apply trace_refl. Qed.
Lemma spec_get s : spec_at s (get : GoM S E S) Q.
Proof. intros r s' es [= <- <- <-]. apply trace_refl. Qed.
Lemma spec_modify s f : Q s (f s) [] -> spec_at s (modify f : GoM S E unit) Q.
Proof. intros H r s' es [= <- <- <-]. done. Qed.
Lemma spec_emit s e : Q s s [e] -> spec_at s (emit e : GoM S E unit) Q.
Proof. intros H r s' es [= <- <- <-]. done. Qed.

(** The rest of a method may rely on what its beginning did. *)
Lemma spec_bind_rel {A B} s (m : GoM S E A) (k : A -> GoM S E B) :
  spec_at s m Q -> (forall a s' es, Q s s' es -> spec_at s' (k a) Q) -> spec_at s (m ≫= k) Q.
Proof.
  intros Hm Hk r s' es. unfold mbind, GoM_bind. destruct (m s) as [[[a|e|] s1] es1] eqn:E1; simpl.
  - destruct (k a s1) as [[r2 s2] es2] eqn:E2. intros [= <- <- <-].
    apply Hm in E1. eapply trace_app; [exact E1|by eapply Hk].
  - intros [= <- <- <-]. by eapply Hm.
  - intros [= <- <- <-]. by eapply Hm.
Qed.

Lemma spec_bind {A B} s (m : GoM S E A) (k : A -> GoM S E B) :
  spec_at s m Q -> (forall a s', spec_at s' (k a) Q) -> spec_at s (m ≫= k) Q.
Proof. intros Hm Hk. apply spec_bind_rel; auto. Qed.

Lemma spec_get_bind {B} s (k : S -> GoM S E B) : spec_at s (k s) Q -> spec_at s (get ≫= k) Q.
Proof.
  intros Hk r s' es. unfold mbind, GoM_bind, get. destruct (k s s) as [[r2 s2] es2] eqn:E2.
  intros [= <- <- <-]. by eapply Hk.
Qed.

Lemma spec_lift_bind {A B} s (x : Res A) (k : A -> GoM S E B) :
  (forall a, x = Ok a -> spec_at s (k a) Q) -> spec_at s (lift x ≫= k) Q.
Proof.
  intros Hk r s' es. unfold mbind, GoM_bind, lift. destruct x as [a|e|].
  - destruct (k a s) as [[r2 s2] es2] eqn:E2. intros [= <- <- <-]. by eapply Hk.
  - intros [= <- <- <-]. apply trace_refl.
  - intros [= <- <- <-]. apply trace_refl.
Qed.
End spec.

Lemma surjective_pairing3 {A S E} (x : Res A * S * list E) : x = (res_of x, st_of x, eff_of x).
Proof. by destruct x as [[] ]. Qed.

(** ** [strconv.AppendInt(nil, z, 2)]: the base-2 digits of [z] *)

Fixpoint bits_of_pos (p : positive) (acc : bytes) : bytes :=
  match p with
  | xH => Byte.x31 :: acc
  | xO p => bits_of_pos p (Byte.x30 :: acc)
  | xI p => bits_of_pos p (Byte.x31 :: acc)
  end.

Definition AppendInt2 (z : Z) : bytes :=
  match z with
  | Z0 => [Byte.x30]
  | Zpos p => bits_of_pos p []
  | Zneg p => Byte.x2d :: bits_of_pos p []
  end.

(** The value a digit string denotes, most significant digit first. *)
Definition digit (b : byte) : option Z :=
  if decide (b = Byte.x30) then Some 0 else if decide (b = Byte.x31) then Some 1 else None.

Fixpoint parse_bits (acc : Z) (l : bytes) : option Z :=
  match l with
  | [] => Some acc
  | b :: l => d ← digit b; parse_bits (2 * acc + d) l
  end.

Definition parse_int2 (l : bytes) : option Z :=
  match l with
  | [] => None
  | b :: l' => if decide (b = Byte.x2d) then Z.opp <$> parse_bits 0 l' else parse_bits 0 l
  end.

Lemma parse_bits_of_pos p l :
  parse_bits 0 (bits_of_pos p l) = parse_bits (Z.pos p) l.
Proof.
  revert l. induction p as [p IH|p IH|]; intros l; simpl; [rewrite IH..|done]; done.
Qed.

Lemma bits_of_pos_digits p l :
  Forall (fun b => b = Byte.x30 \/ b = Byte.x31) l ->
  Forall (fun b => b = Byte.x30 \/ b = Byte.x31) (bits_of_pos p l).
Proof. revert l. induction p; intros l Hl; simpl; auto. Qed.

Lemma bits_of_pos_ne p l : bits_of_pos p l <> [].
Proof. revert l. induction p; intros l; simpl; auto. Qed.

(** Printing in base 2 loses nothing: the digits parse back to the number. *)
Lemma parse_AppendInt2 z : parse_int2 (AppendInt2 z) = Some z.
Proof.
  destruct z as [|p|p]; simpl; [done| |].
  - pose proof (parse_bits_of_pos p []) as E.
    pose proof (bits_of_pos_digits p [] (Forall_nil_2 _)) as F.
    destruct (bits_of_pos p []) as [|b l] eqn:D; [by apply bits_of_pos_ne in D|].
    unfold parse_int2. apply Forall_cons in F as [[-> | ->] _]; done.
  - by rewrite parse_bits_of_pos.
Qed.

#[global] Instance AppendInt2_inj : Inj (=) (=) AppendInt2.
Proof. intros x y E. apply (f_equal parse_int2) in E. rewrite !parse_AppendInt2 in E. by simplify_eq. Qed.

(** ** Automation *)

Create HintDb go.
#[export] Hint Resolve Z_of_byte_range wrap_range : go.
Create Rewrite HintDb go_rw.
#[export] Hint Rewrite byte_of_Z_of_byte Z_of_byte_of_Z parse_AppendInt2 @length_app @app_nil_r : go_rw.

(** Splits every [match] and [if] of the goal and closes what equations close. *)
Ltac go_case := repeat (case_match; simplify_eq/=; try done).
(** Unfolds the state monad. *)
Ltac gom :=
  cbv [mbind mret GoM_bind GoM_ret Res_bind Res_ret get modify emit emit_all throw panic lift].
Ltac go_inv := repeat (case_match || simplify_eq/=); try done.

(** Walks a method with the rules of [spec_at]; leaves the primitive steps. *)
Ltac spec_step :=
  match goal with
  | |- spec_at _ (mret _) _ => apply spec_ret; apply _
  | |- spec_at _ (throw _) _ => apply spec_throw; apply _
  | |- spec_at _ panic _ => apply spec_panic; apply _
  | |- spec_at _ (lift _) _ => apply spec_lift; apply _
  | |- spec_at _ get _ => apply spec_get; apply _
  | |- spec_at _ (modify _) _ => apply spec_modify
  | |- spec_at _ (emit _) _ => apply spec_emit
  | |- spec_at _ (mbind _ get) _ => apply spec_get_bind; [apply _|]
  | |- spec_at _ (mbind _ (lift _)) _ => apply spec_lift_bind; [apply _|intros ? ?]
  | |- spec_at _ (mbind _ _) _ => apply spec_bind; [apply _| |intros ? ?]
  | |- spec_at _ (if _ then _ else _) _ => case_match
  | |- spec_at _ (match _ with _ => _ end) _ => case_match
  end.

(** ** Lists *)

Lemma NoDup_take {A} n (l : list A) : NoDup l -> NoDup (take n l).
Proof. intros H. eapply sublist_NoDup; [done|apply sublist_take]. Qed.
Lemma NoDup_drop {A} n (l : list A) : NoDup l -> NoDup (drop n l).
Proof. intros H. eapply sublist_NoDup; [done|apply sublist_drop]. Qed.

(** A loop that appends the selected elements is a filter and a map. *)
Lemma foldl_append_filter {A B} (Q : A -> Prop) `{!forall x, Decision (Q x)} (f : A -> B) l acc :
  foldl (fun out e => if decide (Q e) then out ++ [f e] else out) acc l = acc ++ (f <$> filter Q l).
Proof.
  revert acc. induction l as [|x l IH]; intros acc; simpl; [by rewrite app_nil_r|].
  rewrite IH, filter_cons. case_decide; [|done]. by rewrite fmap_cons, <- app_assoc.
Qed.

Lemma filter_all {A} (Q : A -> Prop) `{!forall x, Decision (Q x)} l : Forall Q l -> filter Q l = l.
Proof. induction 1; [done|]. rewrite filter_cons_True by done. by f_equal. Qed.

(** Filling a map in a loop, when the keys are distinct. *)
Lemma foldl_insert `{Countable K} {A} (l : list (K * A)) :
  NoDup l.*1 -> foldl (fun g kv => <[kv.1 := kv.2]> g) (∅ : gmap K A) l = list_to_map l.
Proof.
  intros Hn. assert (forall g : gmap K A, (forall k, k ∈ l.*1 -> g !! k = None) ->
    foldl (fun g kv => <[kv.1 := kv.2]> g) g l = (list_to_map l : gmap K A) ∪ g) as Hg.
  { induction l as [|[k v] l IH]; intros g Hg; simpl; [by rewrite map_empty_union|].
    apply NoDup_cons in Hn as [Hk Hn]. rewrite IH; [|done|].
    - apply map_eq. intros i. rewrite !lookup_union, !lookup_insert. case_decide as E; subst; [|done].
      rewrite (not_elem_of_list_to_map_1 (M := gmap K)) by done. by destruct (g !! i).
    - intros k' Hk'. rewrite lookup_insert_ne by (intros ->; by apply Hk). apply Hg. by right. }
  rewrite Hg; [by rewrite map_union_empty|]. intros. apply lookup_empty.
Qed.

(** ** Wrap-around arithmetic *)

Lemma wrap_small w z : 0 < w -> - 2 ^ (w - 1) <= z < 2 ^ (w - 1) -> wrap w z = z.
Proof. intros. by apply wrap_id. Qed.

Lemma wrap_add_l w x y : 0 < w -> wrap w (wrap w x + y) = wrap w (x + y).
Proof.
  intros Hw. unfold wrap. f_equal.
  replace ((x + 2 ^ (w - 1)) mod 2 ^ w - 2 ^ (w - 1) + y + 2 ^ (w - 1))
    with ((x + 2 ^ (w - 1)) mod 2 ^ w + y) by lia.
  rewrite Z.add_mod_idemp_l by (apply Z.pow_nonzero; lia). f_equal. lia.
Qed.

Ltac wrap_lia := rewrite wrap_small by (simpl; lia).

Lemma length_omap_le {A B} (f : A -> option B) l : (length (omap f l) <= length l)%nat.
Proof. induction l as [|x l IH]; csimpl; [lia|]. destruct (f x); csimpl; lia. Qed.

(** Values in one period of the wrap-around are told apart. *)
Lemma wrap_inj w x y : 0 < w -> 0 <= x < 2 ^ w -> 0 <= y < 2 ^ w -> wrap w x = wrap w y -> x = y.
Proof.
  intros Hw Hx Hy E. unfold wrap in E.
  assert ((x + 2 ^ (w - 1)) mod 2 ^ w = (y + 2 ^ (w - 1)) mod 2 ^ w) as E' by lia.
  rewrite <- (Z.mod_small x (2 ^ w)), <- (Z.mod_small y (2 ^ w)) by lia.
  assert ((x + 2 ^ (w - 1) - 2 ^ (w - 1)) mod 2 ^ w = (y + 2 ^ (w - 1) - 2 ^ (w - 1)) mod 2 ^ w) as E2.
  { rewrite (Zminus_mod (x + _)), (Zminus_mod (y + _)). by rewrite E'. }
  by rewrite !Z.add_simpl_r in E2.
Qed.

(** ** Counting *)

Fixpoint count {A} (f : A -> bool) (l : list A) : Z :=
  match l with [] => 0 | x :: l => (if f x then 1 else 0) + count f l end.

Lemma count_app {A} (f : A -> bool) l1 l2 : count f (l1 ++ l2) = count f l1 + count f l2.
Proof. induction l1 as [|x l1 IH]; simpl; lia. Qed.
Lemma count_nonneg {A} (f : A -> bool) l : 0 <= count f l.
Proof. induction l as [|x l IH]; simpl; [lia|]. destruct (f x); lia. Qed.
Lemma count_le_length {A} (f : A -> bool) l : count f l <= Z.of_nat (length l).
Proof. induction l as [|x l IH]; simpl; [lia|]. destruct (f x); lia. Qed.
Lemma count_fmap {A B} (f : B -> bool) (g : A -> B) l : count f (g <$> l) = count (f ∘ g) l.
Proof. induction l as [|x l IH]; csimpl; [done|]. by rewrite IH. Qed.
Lemma count_zero {A} (f : A -> bool) l : (forall x, f x = false) -> count f l = 0.
Proof. intros H. induction l as [|x l IH]; simpl; [done|]. by rewrite H. Qed.
Lemma count_pos {A} (f : A -> bool) l : 0 < count f l <-> exists x, x ∈ l /\ f x = true.
Proof.
  split.
  - induction l as [|x l IH]; simpl; [lia|]. destruct (f x) eqn:E; [exists x; set_solver|].
    intros (y & ? & ?)%IH. exists y. set_solver.
  - intros (x & (l1 & l2 & ->)%list_elem_of_split & E). rewrite count_app. simpl. rewrite E.
    pose proof (count_nonneg f l1). pose proof (count_nonneg f l2). lia.
Qed.
#[export] Hint Rewrite @count_app @count_fmap : go_rw.

(** Closed decidable goals by evaluation. *)
Ltac vm_decide := match goal with |- ?Q => refine (bool_decide_unpack Q _); vm_compute; exact I end.

(** The value of a computation that returned one, without unfolding it. *)
Lemma default_Some {A} (d : A) (o : option A) :
  match o with Some _ => true | None => false end = true -> o = Some (default d o).
Proof. by destruct o. Qed.

(** ** Two-element arrays

    [[2]T] indexed by a [uint8]: [None] stands for an index out of range. *)

Definition get2 {A} (a : A * A) (i : Z) : option A :=
  if decide (i = 0) then Some a.1 else if decide (i = 1) then Some a.2 else None.

Definition set2 {A} (a : A * A) (i : Z) (x : A) : A * A :=
  if decide (i = 0) then (x, a.2) else if decide (i = 1) then (a.1, x) else a.

Lemma get2_set2_eq {A} (a : A * A) i x : i = 0 \/ i = 1 -> get2 (set2 a i x) i = Some x.
Proof. intros [-> | ->]; done. Qed.

Lemma get2_set2_ne {A} (a : A * A) i j x : i <> j -> get2 (set2 a i x) j = get2 a j.
Proof. intros H. unfold get2, set2. repeat case_decide; simplify_eq; done. Qed.

Lemma get2_Some {A} (a : A * A) i x : get2 a i = Some x -> i = 0 \/ i = 1.
Proof. unfold get2. repeat case_decide; naive_solver. Qed.
