(* ===== verification/Sha256.v ===== *)
(** * SHA-256 (FIPS 180-4)

    [crypto/sha256] of Go's standard library, which [crypto.Hasher.Sum256]
    calls.  Words are 32-bit, kept as [Z].  The theorems of the other files
    hold for every hash function; this one is what their examples run. *)
From S2P Require Import Prelude.

Definition w32 (z : Z) : Z := z mod 2 ^ 32.
Definition add32 (a b : Z) : Z := w32 (a + b).
Definition rotr (n x : Z) : Z :=
  Z.lor (Z.shiftr x n) (w32 (Z.shiftl x (32 - n))).
Definition Ch (x y z : Z) : Z := Z.lxor (Z.land x y) (Z.land (w32 (Z.lnot x)) z).
Definition Maj (x y z : Z) : Z :=
  Z.lxor (Z.lxor (Z.land x y) (Z.land x z)) (Z.land y z).
Definition Sigma0 (x : Z) : Z := Z.lxor (Z.lxor (rotr 2 x) (rotr 13 x)) (rotr 22 x).
Definition Sigma1 (x : Z) : Z := Z.lxor (Z.lxor (rotr 6 x) (rotr 11 x)) (rotr 25 x).
Definition sigma0 (x : Z) : Z := Z.lxor (Z.lxor (rotr 7 x) (rotr 18 x)) (Z.shiftr x 3).
Definition sigma1 (x : Z) : Z := Z.lxor (Z.lxor (rotr 17 x) (rotr 19 x)) (Z.shiftr x 10).

(** The constants: the first 32 bits of the fractional parts of the cube
    roots (round constants) and square roots (initial state) of the primes. *)
Definition is_prime (n : Z) : bool :=
  (2 <=? n) && forallb (fun d => negb (n mod d =? 0)) (seqZ 2 (n - 2)).

Definition small_primes : list Z := filter (fun n => is_prime n = true) (seqZ 0 312).

(** The integer cube root below [2^(k+1)], bit by bit. *)
Fixpoint cbrt (k : nat) (r n : Z) : Z :=
  let r' := r + 2 ^ Z.of_nat k in
  let r := if r' * r' * r' <=? n then r' else r in
  match k with O => r | S k => cbrt k r n end.

Definition K256 : list Z := Eval vm_compute in
  (fun p => w32 (cbrt 40 0 (p * 2 ^ 96))) <$> small_primes.

Definition H256 : list Z := Eval vm_compute in
  (fun p => w32 (Z.sqrt (p * 2 ^ 64))) <$> take 8 small_primes.

Record hstate := HState { ha : Z; hb : Z; hc : Z; hd : Z; he : Z; hf : Z; hg : Z; hh : Z }.

Definition h_init : hstate :=
  let h := fun i => nth i H256 0 in
  HState (h 0%nat) (h 1%nat) (h 2%nat) (h 3%nat) (h 4%nat) (h 5%nat) (h 6%nat) (h 7%nat).

(** One round of the compression function. *)
Definition round (s : hstate) (k w : Z) : hstate :=
  let t1 := w32 (hh s + Sigma1 (he s) + Ch (he s) (hf s) (hg s) + k + w) in
  let t2 := w32 (Sigma0 (ha s) + Maj (ha s) (hb s) (hc s)) in
  HState (add32 t1 t2) (ha s) (hb s) (hc s) (add32 (hd s) t1) (he s) (hf s) (hg s).

(** The message schedule as a sliding window of sixteen words. *)
Fixpoint rounds (ks : list Z) (win : list Z) (s : hstate) : hstate :=
  match ks, win with
  | k :: ks, w :: win' =>
      let next := w32 (sigma1 (nth 13 win' 0) + nth 8 win' 0 + sigma0 (nth 0 win' 0) + w) in
      rounds ks (win' ++ [next]) (round s k w)
  | _, _ => s
  end.

Definition compress (s : hstate) (block : list Z) : hstate :=
  let r := rounds K256 block s in
  HState (add32 (ha s) (ha r)) (add32 (hb s) (hb r)) (add32 (hc s) (hc r)) (add32 (hd s) (hd r))
         (add32 (he s) (he r)) (add32 (hf s) (hf r)) (add32 (hg s) (hg r)) (add32 (hh s) (hh r)).

Definition be_word (l : bytes) : Z := foldl (fun acc b => acc * 256 + Z_of_byte b) 0 l.
Definition be_bytes (n : nat) (z : Z) : bytes :=
  (fun i => byte_of_Z (Z.shiftr z (8 * Z.of_nat i))) <$> rev (seq 0 n).

Fixpoint chunks (fuel n : nat) (l : bytes) : list bytes :=
  match fuel, l with
  | S fuel, _ :: _ => take n l :: chunks fuel n (drop n l)
  | _, _ => []
  end.

(** Padding: a one bit, zeros up to 56 modulo 64, the length in bits. *)
Definition pad (l : bytes) : bytes :=
  let n := Z.of_nat (length l) in
  let zeros := Z.to_nat ((55 - n) mod 64) in
  l ++ [Byte.x80] ++ replicate zeros Byte.x00 ++ be_bytes 8 (8 * n).

Definition sha256 (l : bytes) : bytes :=
  let p := pad l in
  let blocks := chunks (length p) 64 p in
  let s := foldl (fun s b => compress s (be_word <$> chunks 64 4 b)) h_init blocks in
  mjoin (be_bytes 4 <$> [ha s; hb s; hc s; hd s; he s; hf s; hg s; hh s]).

(** The digest is 32 bytes, [crypto.HashSize]. *)
Lemma sha256_length l : length (sha256 l) = 32%nat.
Proof. done. Qed.

Definition hex_string (l : bytes) : list Z := Z_of_byte <$> l.

(** FIPS 180-4 test vectors: the empty message and "abc". *)
Example sha256_empty : hex_string (sha256 []) =
  [0xe3; 0xb0; 0xc4; 0x42; 0x98; 0xfc; 0x1c; 0x14; 0x9a; 0xfb; 0xf4; 0xc8; 0x99; 0x6f; 0xb9; 0x24;
   0x27; 0xae; 0x41; 0xe4; 0x64; 0x9b; 0x93; 0x4c; 0xa4; 0x95; 0x99; 0x1b; 0x78; 0x52; 0xb8; 0x55].
Proof. vm_compute. reflexivity. Qed.

Example sha256_abc : hex_string (sha256 [Byte.x61; Byte.x62; Byte.x63]) =
  [0xba; 0x78; 0x16; 0xbf; 0x8f; 0x01; 0xcf; 0xea; 0x41; 0x41; 0x40; 0xde; 0x5d; 0xae; 0x22; 0x23;
   0xb0; 0x03; 0x61; 0xa3; 0x96; 0x17; 0x7a; 0x9c; 0xb4; 0x10; 0xff; 0x61; 0xf2; 0x00; 0x15; 0xad].
Proof. vm_compute. reflexivity. Qed.

(** A 56-byte message: the padding takes a second block. *)
Example sha256_two_blocks :
  take 4 (hex_string (sha256 (replicate 56 Byte.x61))) = [0xb3; 0x54; 0x39; 0xa4].
Proof. vm_compute. reflexivity. Qed.
