(* ===== verification/Crypto.v ===== *)
(** * Package crypto: hashing, signatures, the signing service, key files

    Models [src/crypto/crypto.go].  [ed25519] and kyber's [tbls]/[bls] are
    cryptographic libraries: they are the methods of the class [Prims], and
    what the code relies on is the class [PrimsLaws].  [demo_prims] is a
    concrete instance that the examples of the other files run. *)
From S2P Require Import Prelude Sha256.

(** ** Primitives *)

Class Prims : Type := {
  (** [sha256.Sum256] *)
  sum256 : bytes -> bytes;
  (** [ed25519.Sign] on a 64-byte private key *)
  ed25519_Sign : bytes -> bytes -> bytes;
  (** [ed25519.Verify] on a 32-byte public key: key, message, signature *)
  ed25519_Verify : bytes -> bytes -> bytes -> bool;
  (** [share.PriShare] and [share.PubPoly] *)
  PriShare : Type;
  PubPoly : Type;
  (** [tbls.Sign] and [tbls.Recover(suite, public, msg, sigs, t, n)] *)
  tbls_Sign : PriShare -> bytes -> Res bytes;
  tbls_Recover : PubPoly -> bytes -> list bytes -> Z -> Z -> Res bytes;
  (** [bls.Verify(suite, public.Commit(), msg, sig)] *)
  bls_Verify : PubPoly -> bytes -> bytes -> Res unit;
}.

(** [dealt pub t n shares]: the key shares [GenTSKeys(t, n)] hands out for
    the public polynomial [pub]; the partial signature of a node on a message
    is what [tbls.Sign] returns for its share. *)
Class PrimsLaws (P : Prims) : Type := {
  keypair : bytes -> bytes -> Prop;
  dealt : PubPoly -> Z -> Z -> list PriShare -> Prop;
  (** The threshold signature of a message, determined by the public key. *)
  threshold_sig : PubPoly -> bytes -> bytes;
  sum256_length m : length (sum256 m) = 32%nat;
  keypair_sizes sk pk : keypair sk pk -> length sk = 64%nat /\ length pk = 32%nat;
  ed25519_size sk pk m : keypair sk pk -> length (ed25519_Sign sk m) = 64%nat;
  ed25519_correct sk pk m : keypair sk pk -> ed25519_Verify pk m (ed25519_Sign sk m) = true;
  (** Any [t] partial signatures of distinct shares on [m] recover the one
      threshold signature of [m]: BLS signatures are unique. *)
  tbls_unique pub t n shares m (idx : list nat) (sigs : list bytes) :
    dealt pub t n shares ->
    NoDup idx -> Z.of_nat (length idx) = t ->
    Forall2 (fun i sig => exists s, shares !! i = Some s /\ tbls_Sign s m = Ok sig) idx sigs ->
    tbls_Recover pub m sigs t n = Ok (threshold_sig pub m);
}.

(** [bls] signatures on bn256 are longer than the four bytes the elector reads. *)
Definition sig_long_enough `{Prims} (pub : PubPoly) (L : PrimsLaws _) : Prop :=
  forall m, (4 <= length (threshold_sig pub m))%nat.

Definition HashSize : Z := 32.

(** [Digest] is a 32-byte array; its zero value is thirty-two zero bytes. *)
Definition Digest : Type := bytes.
Definition Digest_zero : Digest := replicate 32 Byte.x00.

#[global] Instance Digest_eq_dec : EqDecision Digest := _.
#[global] Instance Digest_countable : Countable Digest := _.

Record PublickKey := { Pubkey : bytes }.
Record PrivateKey := { Prikey : bytes }.
Record Signature := { Sig : bytes }.
Record SignatureShare := { PartialSig : bytes }.

#[global] Instance PublickKey_eq_dec : EqDecision PublickKey.
Proof. solve_decision. Defined.
#[global] Instance PrivateKey_eq_dec : EqDecision PrivateKey.
Proof. solve_decision. Defined.
#[global] Instance Signature_eq_dec : EqDecision Signature.
Proof. solve_decision. Defined.
#[global] Instance SignatureShare_eq_dec : EqDecision SignatureShare.
Proof. solve_decision. Defined.

Section crypto.
Context `{P : Prims}.

(** ** Hasher *)

Record Hasher := { h_data : bytes }.

Definition NewHasher : Hasher := {| h_data := [] |}.

Definition Hasher_Add (h : Hasher) (d : bytes) : Hasher := {| h_data := h_data h ++ d |}.

(** The deferred function clears the buffer after the sum is taken. *)
Definition Hasher_Sum256 (h : Hasher) (d : bytes) : Digest * Hasher :=
  (sum256 (h_data h ++ d), {| h_data := [] |}).

(** ** Signatures *)

(** [ed25519.Verify] panics on a key that is not 32 bytes, and answers false
    on a signature that is not 64 bytes. *)
Definition Signature_Verify (s : Signature) (pub : PublickKey) (digest : Digest) : Res bool :=
  if decide (length (Pubkey pub) = 32%nat) then
    Ok (bool_decide (length (Sig s) = 64%nat) && ed25519_Verify (Pubkey pub) digest (Sig s))
  else Panic.

(** The share is accepted whatever it holds. *)
Definition SignatureShare_Verify (s : SignatureShare) (d : Digest) : bool := true.

Record SecretShareKey := {
  sk_PubPoly : PubPoly;
  sk_PriShare : PriShare;
  sk_N : Z;
  sk_T : Z;
}.

Definition VerifyTs (skey : SecretShareKey) (digest : Digest) (intactSig : bytes) : Res unit :=
  bls_Verify (sk_PubPoly skey) digest intactSig.

Definition CombineIntactTSPartial (sigShares : list SignatureShare) (skey : SecretShareKey)
    (digest : Digest) : Res bytes :=
  let partialSigs := PartialSig <$> sigShares in
  tbls_Recover (sk_PubPoly skey) digest partialSigs (sk_T skey) (sk_N skey).

(** ** The signing service *)

Inductive sigTyp := SIG | SHARE.

(** A request; [ret] is the [any] field, empty until the service answers. *)
Inductive sigRet := RetSig (s : Signature) | RetShare (s : SignatureShare).

Record sigReq := {
  req_typ : sigTyp;
  req_digest : Digest;
  req_ret : option sigRet;
  req_err : option GoError;
}.

Record SigService := { PriKey : PrivateKey; ShareKey : SecretShareKey }.

(** What the service goroutine does with one request before [req.done()];
    [ed25519.Sign] panics on a key that is not 64 bytes. *)
Definition SigService_serve (s : SigService) (req : sigReq) : Res sigReq :=
  match req_typ req with
  | SIG =>
      if decide (length (Prikey (PriKey s)) = 64%nat) then
        Ok {| req_typ := SIG; req_digest := req_digest req;
              req_ret := Some (RetSig {| Sig := ed25519_Sign (Prikey (PriKey s)) (req_digest req) |});
              req_err := req_err req |}
      else Panic
  | SHARE =>
      match tbls_Sign (sk_PriShare (ShareKey s)) (req_digest req) with
      | Ok partialSig =>
          Ok {| req_typ := SHARE; req_digest := req_digest req;
                req_ret := Some (RetShare {| PartialSig := partialSig |}); req_err := None |}
      | Err e =>
          Ok {| req_typ := SHARE; req_digest := req_digest req;
                req_ret := Some (RetShare {| PartialSig := [] |}); req_err := Some e |}
      | Panic => Panic
      end
  end.

(** The type assertion with [_] yields the zero value when it fails. *)
Definition RequestSignature (s : SigService) (digest : Digest) : Res Signature :=
  req ← SigService_serve s {| req_typ := SIG; req_digest := digest; req_ret := None; req_err := None |};
  Ok (match req_ret req with Some (RetSig sig) => sig | _ => {| Sig := [] |} end).

(** The value and the error are both returned; callers look at the error. *)
Definition RequestTsSugnature (s : SigService) (digest : Digest)
    : Res (SignatureShare * option GoError) :=
  req ← SigService_serve s {| req_typ := SHARE; req_digest := digest; req_ret := None; req_err := None |};
  Ok (match req_ret req with Some (RetShare sh) => sh | _ => {| PartialSig := [] |} end, req_err req).
End crypto.
Arguments Hasher : clear implicits.

(** ** Key files: hexadecimal text *)

(** [encoding/hex]: the lower-case digit of a nibble and its inverse table. *)
Definition hex_digit (n : Z) : byte := byte_of_Z (if decide (n < 10) then 48 + n else 87 + n).

Definition hex_value (b : byte) : option Z :=
  let z := Z_of_byte b in
  if decide (48 <= z <= 57) then Some (z - 48)
  else if decide (97 <= z <= 102) then Some (z - 87)
  else if decide (65 <= z <= 70) then Some (z - 55)
  else None.

Fixpoint hex_Encode (src : bytes) : bytes :=
  match src with
  | [] => []
  | b :: rest =>
      hex_digit (Z.shiftr (Z_of_byte b) 4) :: hex_digit (Z.land (Z_of_byte b) 15) :: hex_Encode rest
  end.

(** Pairs of digits left to right; a lone last digit is checked before the
    length error is reported. *)
Fixpoint hex_Decode (src : bytes) : Res bytes :=
  match src with
  | [] => Ok []
  | [p] => match hex_value p with None => Err (ErrHexByte p) | Some _ => Err ErrHexLength end
  | p :: q :: rest =>
      match hex_value p, hex_value q with
      | None, _ => Err (ErrHexByte p)
      | _, None => Err (ErrHexByte q)
      | Some a, Some b => out ← hex_Decode rest; Ok (byte_of_Z (Z.lor (Z.shiftl a 4) b) :: out)
      end
  end.

Definition EncodePublicKey (pub : PublickKey) : bytes := hex_Encode (Pubkey pub).
Definition DecodePublicKey (data : bytes) : Res PublickKey :=
  pub ← hex_Decode data; Ok {| Pubkey := pub |}.
Definition EncodePrivateKey (pri : PrivateKey) : bytes := hex_Encode (Prikey pri).
Definition DecodePrivateKey (data : bytes) : Res PrivateKey :=
  pri ← hex_Decode data; Ok {| Prikey := pri |}.

(** ** Properties *)

(** A finite case analysis over the 256 bytes. *)
Definition all_bytes : list byte := byte_of_Z <$> seqZ 0 256.

Lemma elem_of_all_bytes b : b ∈ all_bytes.
Proof.
  apply list_elem_of_fmap. exists (Z_of_byte b). split; [by rewrite byte_of_Z_of_byte|].
  apply elem_of_seqZ. pose proof (Z_of_byte_range b). lia.
Qed.

Lemma byte_cases (Q : byte -> Prop) `{!forall b, Decision (Q b)} :
  forallb (fun b => bool_decide (Q b)) all_bytes = true -> forall b, Q b.
Proof.
  intros Hall b. rewrite forallb_forall in Hall. eapply bool_decide_unpack, Is_true_eq_left, Hall.
  apply list_elem_of_In, elem_of_all_bytes.
Qed.

Definition hex_pair_ok (b : byte) : Prop :=
  hex_value (hex_digit (Z.shiftr (Z_of_byte b) 4)) = Some (Z.shiftr (Z_of_byte b) 4) /\
  hex_value (hex_digit (Z.land (Z_of_byte b) 15)) = Some (Z.land (Z_of_byte b) 15) /\
  byte_of_Z (Z.lor (Z.shiftl (Z.shiftr (Z_of_byte b) 4) 4) (Z.land (Z_of_byte b) 15)) = b.

Lemma hex_pair b : hex_pair_ok b.
Proof. revert b. apply (byte_cases _). vm_compute. reflexivity. Qed.

Lemma hex_Decode_Encode l : hex_Decode (hex_Encode l) = Ok l.
Proof.
  induction l as [|b l IH]; [done|].
  destruct (hex_pair b) as (E1 & E2 & E3). simpl. rewrite E1, E2.
  rewrite IH. simpl. by rewrite E3.
Qed.

Lemma hex_Encode_length l : length (hex_Encode l) = (2 * length l)%nat.
Proof. induction l as [|b l IH]; [done|]. simpl. lia. Qed.

(** Induction two elements at a time, the shape of [hex_Decode]. *)
Lemma list_pair_ind {A} (Q : list A -> Prop) :
  Q [] -> (forall a, Q [a]) -> (forall a b l, Q l -> Q (a :: b :: l)) -> forall l, Q l.
Proof.
  intros H0 H1 H2. fix IH 1. intros [|a [|b l]]; [apply H0|apply H1|apply H2, IH].
Qed.

(** A successful decode consumed an even number of hexadecimal digits. *)
Lemma hex_Decode_ok l out :
  hex_Decode l = Ok out ->
  length l = (2 * length out)%nat /\ Forall (fun b => is_Some (hex_value b)) l.
Proof.
  revert out. induction l as [|a|a b l IH] using list_pair_ind; intros out H; simpl in H.
  - simplify_eq. done.
  - go_inv.
  - destruct (hex_value a) eqn:Ea, (hex_value b) eqn:Eb; try done.
    destruct (hex_Decode l) as [o| |] eqn:El; simplify_eq/=.
    destruct (IH _ eq_refl) as [? ?]. split; [lia|]. eauto.
Qed.

Lemma hex_Decode_no_panic l : hex_Decode l <> Panic.
Proof.
  induction l as [|a|a b l IH] using list_pair_ind; simpl; [done|by case_match|].
  destruct (hex_value a), (hex_value b), (hex_Decode l); done.
Qed.

Section signing.
Context `{P : Prims} {L : PrimsLaws P}.

(** The service signs with the node's key and returns no error. *)
Lemma RequestSignature_Ok (s : SigService) d :
  length (Prikey (PriKey s)) = 64%nat ->
  RequestSignature s d = Ok {| Sig := ed25519_Sign (Prikey (PriKey s)) d |}.
Proof. intros H. unfold RequestSignature, SigService_serve. simpl. by rewrite decide_True. Qed.

Lemma Signature_Verify_signed sk pk d :
  keypair sk pk ->
  Signature_Verify {| Sig := ed25519_Sign sk d |} {| Pubkey := pk |} d = Ok true.
Proof.
  intros K. unfold Signature_Verify. simpl.
  destruct (keypair_sizes _ _ K) as [_ Hpk]. pose proof (ed25519_size _ _ d K).
  rewrite decide_True, bool_decide_true by done. simpl. by rewrite ed25519_correct.
Qed.
End signing.

(** ** A concrete instance

    Transparent stand-ins with the laws above, so that examples compute: the
    digest pads its input, a signature is the key next to the message, a
    partial signature is the signer's index next to the message. *)

Definition pad32 (l : bytes) : bytes := take 32 (l ++ replicate 32 Byte.x00).

Lemma pad32_length l : length (pad32 l) = 32%nat.
Proof. unfold pad32. rewrite length_take, length_app, length_replicate. lia. Qed.

Definition demo_prims (hash : bytes -> bytes) : Prims := {|
  sum256 := hash;
  ed25519_Sign sk m := take 32 sk ++ pad32 m;
  ed25519_Verify pk m sig := bool_decide (sig = pk ++ pad32 m);
  PriShare := nat;
  PubPoly := unit;
  tbls_Sign i m := Ok (byte_of_Z (Z.of_nat i) :: m);
  tbls_Recover _ m sigs t _ :=
    if decide (t <= Z.of_nat (length (filter (fun s => tail s = m) sigs)))
    then Ok (pad32 m) else Err (ErrLib 1);
  bls_Verify _ m sig := if decide (sig = pad32 m) then Ok tt else Err (ErrLib 2);
|}.

Lemma demo_partial_sigs (shares : list nat) m (idx : list nat) (sigs : list bytes) :
  Forall2 (fun i sig => exists s, shares !! i = Some s /\
     Ok (byte_of_Z (Z.of_nat s) :: m) = Ok sig) idx sigs ->
  filter (fun s => tail s = m) sigs = sigs.
Proof.
  induction 1 as [|i sig idx sigs (s & _ & E) _ IH]; [done|]. simplify_eq.
  rewrite filter_cons_True by done. by rewrite IH.
Qed.

#[program] Definition demo_laws (hash : bytes -> bytes)
    (Hlen : forall m, length (hash m) = 32%nat) : PrimsLaws (demo_prims hash) := {|
  keypair sk pk := length sk = 64%nat /\ pk = take 32 sk;
  dealt _ _ n shares := shares = seq 0 (Z.to_nat n);
  threshold_sig _ m := pad32 m;
|}.
Next Obligation. done. Qed.
Next Obligation. intros hash _ sk pk (H & ->). rewrite length_take. lia. Qed.
Next Obligation.
  intros hash _ sk pk m (H & ->). simpl. rewrite length_app, pad32_length, length_take. lia.
Qed.
Next Obligation. intros hash _ sk pk m (H & ->). simpl. by rewrite bool_decide_true. Qed.
Next Obligation.
  intros hash _ pub t n shares m idx sigs _ _ Ht F. cbn.
  rewrite (demo_partial_sigs shares m idx sigs) by done.
  apply Forall2_length in F. rewrite decide_True by lia. done.
Qed.
