(* ===== verification/Json.v ===== *)
(** * The JSON text that keys and configuration files are kept in

    What [src/crypto/crypto.go] and [src/config/config.go] use of Go's
    [encoding/json], [encoding/base64] and [strconv] (Go 1.21): printing, plain
    or indented with tabs, with the escapes of [json.Encoder]; reading the first
    value of a stream; decimal numbers; base-64 text of byte slices; structs,
    slices and maps.  [JsonText] proves that what was printed is read back. *)
From Stdlib Require Import Decimal.
From stdpp Require Import sorting.
From S2P Require Import Prelude.

(** ** Values *)

(** A number is kept as its literal. *)
#[local] Unset Elimination Schemes.
Inductive json : Type :=
| JNull
| JBool (b : bool)
| JNum (lit : bytes)
| JStr (s : bytes)
| JArr (l : list json)
| JObj (m : list (bytes * json)).
#[local] Set Elimination Schemes.

Lemma json_ind (Q : json -> Prop) :
  Q JNull -> (forall b, Q (JBool b)) -> (forall lit, Q (JNum lit)) -> (forall s, Q (JStr s)) ->
  (forall l, Forall Q l -> Q (JArr l)) -> (forall m, Forall (fun kv => Q kv.2) m -> Q (JObj m)) ->
  forall j, Q j.
Proof.
  intros H1 H2 H3 H4 H5 H6. fix IH 1. intros [|b|lit|s|l|m]; [done..| |].
  - apply H5. induction l; constructor; auto.
  - apply H6. induction m as [|[k v] m IHm]; constructor; simpl; auto.
Qed.

Definition ErrSyntax : GoError := ErrLib 100.
Definition ErrDepth : GoError := ErrLib 101.
Definition ErrType : GoError := ErrLib 102.
Definition ErrNumSyntax : GoError := ErrLib 103.
Definition ErrNumRange : GoError := ErrLib 104.
Definition ErrBase64 : GoError := ErrLib 105.

(** The bytes of a string constant. *)
Definition bs (s : string) : bytes := String.list_byte_of_string s.

(** ** Printing *)

(** Plain text, or [SetIndent] with a tab per level. *)
Inductive style := Compact | Tabs (depth : nat).

Definition deeper (st : style) : style := match st with Compact => Compact | Tabs d => Tabs (S d) end.
Definition newline (st : style) : bytes :=
  match st with Compact => [] | Tabs d => Byte.x0a :: replicate d Byte.x09 end.
Definition colon (st : style) : bytes := match st with Compact => [Byte.x3a] | Tabs _ => [Byte.x3a; Byte.x20] end.

Definition hex4 (z : Z) : bytes :=
  let d n := byte_of_Z (if decide (n < 10) then 48 + n else 87 + n) in
  [d (z / 4096 mod 16); d (z / 256 mod 16); d (z / 16 mod 16); d (z mod 16)].

(** How many bytes the UTF-8 encoding at the head of the text takes; [None]
    when it is not valid. *)
Definition utf8_size (l : bytes) : option nat :=
  let cont z := bool_decide (128 <= z <= 191) in
  match Z_of_byte <$> take 4 l with
  | a :: rest =>
      if decide (a < 128) then Some 1%nat
      else if decide (194 <= a <= 223) then
        match rest with b :: _ => if cont b then Some 2%nat else None | _ => None end
      else if decide (224 <= a <= 239) then
        match rest with
        | b :: c :: _ =>
            let lo := if decide (a = 224) then 160 else 128 in
            let hi := if decide (a = 237) then 159 else 191 in
            if bool_decide (lo <= b <= hi) && cont c then Some 3%nat else None
        | _ => None
        end
      else if decide (240 <= a <= 244) then
        match rest with
        | b :: c :: d :: _ =>
            let lo := if decide (a = 240) then 144 else 128 in
            let hi := if decide (a = 244) then 143 else 191 in
            if bool_decide (lo <= b <= hi) && cont c && cont d then Some 4%nat else None
        | _ => None
        end
      else None
  | [] => None
  end.

(** One byte below 128 in a quoted string; [<], [>] and [&] are escaped for HTML. *)
Definition escape (b : byte) : bytes :=
  let z := Z_of_byte b in
  if decide (z = 34 \/ z = 92) then [Byte.x5c; b]
  else if decide (z = 10) then bs "\n"
  else if decide (z = 13) then bs "\r"
  else if decide (z = 9) then bs "\t"
  else if decide (z < 32 \/ z = 60 \/ z = 62 \/ z = 38) then bs "\u" ++ hex4 z
  else [b].

(** The body of a quoted string: bytes that are not UTF-8 are replaced, and
    the line separators U+2028 and U+2029 escaped. *)
Fixpoint quote_body (skip : nat) (s : bytes) : bytes :=
  match s, skip with
  | [], _ => []
  | b :: s', S n => b :: quote_body n s'
  | b :: s', O =>
      match utf8_size s with
      | None => bs "\ufffd" ++ quote_body 0 s'
      | Some 1%nat => escape b ++ quote_body 0 s'
      | Some n =>
          match s' with
          | b2 :: b3 :: s3 =>
              if decide ([b; b2; b3] = [Byte.xe2; Byte.x80; Byte.xa8]) then bs "\u2028" ++ quote_body 0 s3
              else if decide ([b; b2; b3] = [Byte.xe2; Byte.x80; Byte.xa9]) then bs "\u2029" ++ quote_body 0 s3
              else b :: quote_body (pred n) s'
          | _ => b :: quote_body (pred n) s'
          end
      end
  end.

Definition quote (s : bytes) : bytes := Byte.x22 :: quote_body 0 s ++ [Byte.x22].

Fixpoint join (sep : bytes) (l : list bytes) : bytes :=
  match l with
  | [] => []
  | [x] => x
  | x :: l => x ++ sep ++ join sep l
  end.

Fixpoint print (st : style) (j : json) : bytes :=
  match j with
  | JNull => bs "null"
  | JBool b => if b then bs "true" else bs "false"
  | JNum lit => lit
  | JStr s => quote s
  | JArr [] => bs "[]"
  | JArr l =>
      [Byte.x5b] ++ newline (deeper st)
      ++ join ([Byte.x2c] ++ newline (deeper st)) (map (print (deeper st)) l) ++ newline st ++ [Byte.x5d]
  | JObj [] => bs "{}"
  | JObj m =>
      [Byte.x7b] ++ newline (deeper st)
      ++ join ([Byte.x2c] ++ newline (deeper st))
           (map (fun kv => quote kv.1 ++ colon st ++ print (deeper st) kv.2) m) ++ newline st ++ [Byte.x7d]
  end.

(** [Encoder.Encode] ends the value with a newline. *)
Definition Encode (st : style) (j : json) : bytes := print st j ++ [Byte.x0a].

(** ** Reading *)

Definition is_space (b : byte) : bool := bool_decide (Z_of_byte b ∈ [32; 9; 10; 13]).
Definition is_digit (b : byte) : bool := bool_decide (48 <= Z_of_byte b <= 57).

Fixpoint skip_space (l : bytes) : bytes :=
  match l with b :: l' => if is_space b then skip_space l' else l | [] => [] end.

Definition hex_val (b : byte) : option Z :=
  let z := Z_of_byte b in
  if decide (48 <= z <= 57) then Some (z - 48)
  else if decide (97 <= z <= 102) then Some (z - 87)
  else if decide (65 <= z <= 70) then Some (z - 55)
  else None.

Definition hex4_val (a b c d : byte) : option Z :=
  a ← hex_val a; b ← hex_val b; c ← hex_val c; d ← hex_val d; Some (4096 * a + 256 * b + 16 * c + d).

(** [utf8.AppendRune] *)
Definition utf8_encode (r : Z) : bytes :=
  byte_of_Z <$>
  (if decide (r < 128) then [r]
   else if decide (r < 2048) then [192 + r / 64; 128 + r mod 64]
   else if decide (r < 65536) then [224 + r / 4096; 128 + r / 64 mod 64; 128 + r mod 64]
   else [240 + r / 262144; 128 + r / 4096 mod 64; 128 + r / 64 mod 64; 128 + r mod 64]).

Definition replacement : bytes := utf8_encode 65533.

(** The escapes of one letter. *)
Definition unescape (b : byte) : option byte :=
  let z := Z_of_byte b in
  if decide (z = 34 \/ z = 92 \/ z = 47) then Some b
  else if decide (z = 98) then Some Byte.x08
  else if decide (z = 102) then Some Byte.x0c
  else if decide (z = 110) then Some Byte.x0a
  else if decide (z = 114) then Some Byte.x0d
  else if decide (z = 116) then Some Byte.x09
  else None.

Definition high_surrogate (r : Z) : bool := bool_decide (55296 <= r < 56320).
Definition low_surrogate (r : Z) : bool := bool_decide (56320 <= r < 57344).

(** After the opening quote: the string, and what follows the closing quote.
    A lone surrogate and bytes that are not UTF-8 become U+FFFD. *)
Fixpoint unquote (skip : nat) (l : bytes) : Res (bytes * bytes) :=
  match l, skip with
  | [], _ => Err ErrSyntax
  | b :: l', S n => '(s, r) ← unquote n l'; Ok (b :: s, r)
  | b :: l', O =>
      if decide (b = Byte.x22) then Ok ([], l')
      else if decide (b = Byte.x5c) then
        match l' with
        | [] => Err ErrSyntax
        | e :: l2 =>
            if decide (e = Byte.x75) then
              match l2 with
              | h1 :: h2 :: h3 :: h4 :: l3 =>
                  match hex4_val h1 h2 h3 h4 with
                  | None => Err ErrSyntax
                  | Some r1 =>
                      if high_surrogate r1 then
                        match l3 with
                        | b' :: u' :: g1 :: g2 :: g3 :: g4 :: l4 =>
                            match (if decide (b' = Byte.x5c /\ u' = Byte.x75) then hex4_val g1 g2 g3 g4 else None) with
                            | Some r2 =>
                                if low_surrogate r2 then
                                  '(s, r) ← unquote 0 l4;
                                  Ok (utf8_encode ((r1 - 55296) * 1024 + (r2 - 56320) + 65536) ++ s, r)
                                else '(s, r) ← unquote 0 l3; Ok (replacement ++ s, r)
                            | None => '(s, r) ← unquote 0 l3; Ok (replacement ++ s, r)
                            end
                        | _ => '(s, r) ← unquote 0 l3; Ok (replacement ++ s, r)
                        end
                      else '(s, r) ← unquote 0 l3;
                           Ok ((if low_surrogate r1 then replacement else utf8_encode r1) ++ s, r)
                  end
              | _ => Err ErrSyntax
              end
            else match unescape e with
                 | Some x => '(s, r) ← unquote 0 l2; Ok (x :: s, r)
                 | None => Err ErrSyntax
                 end
        end
      else if decide (Z_of_byte b < 32) then Err ErrSyntax
      else match utf8_size l with
           | None => '(s, r) ← unquote 0 l'; Ok (replacement ++ s, r)
           | Some n => '(s, r) ← unquote (pred n) l'; Ok (b :: s, r)
           end
  end.

(** The longest run of digits. *)
Fixpoint span_digits (l : bytes) : bytes * bytes :=
  match l with
  | b :: l' => if is_digit b then let '(ds, r) := span_digits l' in (b :: ds, r) else ([], l)
  | [] => ([], [])
  end.

(** The text after [prefix]. *)
Fixpoint after (prefix l : bytes) : option bytes :=
  match prefix, l with
  | [], _ => Some l
  | p :: prefix, b :: l => if decide (p = b) then after prefix l else None
  | _, [] => None
  end.

Definition some_digits (l : bytes) : Res (bytes * bytes) :=
  let '(ds, r) := span_digits l in if decide (ds = []) then Err ErrSyntax else Ok (ds, r).

(** The parts of a number: integer digits without leading zeros, fraction, exponent. *)
Definition scan_int (l : bytes) : Res (bytes * bytes) :=
  match after [Byte.x30] l with
  | Some r => Ok ([Byte.x30], r)
  | None => some_digits l
  end.

Definition scan_frac (l : bytes) : Res (bytes * bytes) :=
  match after [Byte.x2e] l with
  | Some r => '(ds, r') ← some_digits r; Ok (Byte.x2e :: ds, r')
  | None => Ok ([], l)
  end.

Definition scan_exp (l : bytes) : Res (bytes * bytes) :=
  match l with
  | e :: r =>
      if decide (e = Byte.x65 \/ e = Byte.x45) then
        let '(sg, r1) :=
          match r with s :: r1 => if decide (s = Byte.x2b \/ s = Byte.x2d) then ([s], r1) else ([], r) | [] => ([], r) end in
        '(ds, r2) ← some_digits r1; Ok (e :: sg ++ ds, r2)
      else Ok ([], l)
  | [] => Ok ([], l)
  end.

Definition scan_number (l : bytes) : Res (bytes * bytes) :=
  let '(sg, l) := match after [Byte.x2d] l with Some r => ([Byte.x2d], r) | None => ([], l) end in
  '(i, l) ← scan_int l;
  '(f, l) ← scan_frac l;
  '(e, l) ← scan_exp l;
  Ok (sg ++ i ++ f ++ e, l).

(** The literals [null], [true], [false]. *)
Definition scan_word (l : bytes) : option (json * bytes) :=
  match after (bs "null") l, after (bs "true") l, after (bs "false") l with
  | Some r, _, _ => Some (JNull, r)
  | _, Some r, _ => Some (JBool true, r)
  | _, _, Some r => Some (JBool false, r)
  | _, _, _ => None
  end.

Definition maxNestingDepth : Z := 10000.

(** A value, the elements of an array after [[] or [,], the members of an
    object after [{] or [,]; [d] is the nesting depth, [fuel] bounds the
    recursion, which always consumes input. *)
Fixpoint parse_value (fuel : nat) (d : Z) (l : bytes) : Res (json * bytes) :=
  match fuel, skip_space l with
  | O, _ | _, [] => Err ErrSyntax
  | S fuel, b :: r =>
      if decide (b = Byte.x7b) then
        if decide (maxNestingDepth <= d) then Err ErrDepth else
        match after [Byte.x7d] (skip_space r) with
        | Some r' => Ok (JObj [], r')
        | None => '(m, r') ← parse_members fuel (d + 1) r; Ok (JObj m, r')
        end
      else if decide (b = Byte.x5b) then
        if decide (maxNestingDepth <= d) then Err ErrDepth else
        match after [Byte.x5d] (skip_space r) with
        | Some r' => Ok (JArr [], r')
        | None => '(vs, r') ← parse_elems fuel (d + 1) r; Ok (JArr vs, r')
        end
      else if decide (b = Byte.x22) then '(s, r') ← unquote 0 r; Ok (JStr s, r')
      else match scan_word (b :: r) with
           | Some res => Ok res
           | None => '(lit, r') ← scan_number (b :: r); Ok (JNum lit, r')
           end
  end
with parse_elems (fuel : nat) (d : Z) (l : bytes) : Res (list json * bytes) :=
  match fuel with
  | O => Err ErrSyntax
  | S fuel =>
      '(v, r) ← parse_value fuel d l;
      match after [Byte.x2c] (skip_space r), after [Byte.x5d] (skip_space r) with
      | Some r', _ => '(vs, r'') ← parse_elems fuel d r'; Ok (v :: vs, r'')
      | _, Some r' => Ok ([v], r')
      | _, _ => Err ErrSyntax
      end
  end
with parse_members (fuel : nat) (d : Z) (l : bytes) : Res (list (bytes * json) * bytes) :=
  match fuel, after [Byte.x22] (skip_space l) with
  | S fuel, Some r =>
      '(k, r1) ← unquote 0 r;
      match after [Byte.x3a] (skip_space r1) with
      | Some r2 =>
          '(v, r3) ← parse_value fuel d r2;
          match after [Byte.x2c] (skip_space r3), after [Byte.x7d] (skip_space r3) with
          | Some r4, _ => '(m, r5) ← parse_members fuel d r4; Ok ((k, v) :: m, r5)
          | _, Some r4 => Ok ([(k, v)], r4)
          | _, _ => Err ErrSyntax
          end
      | None => Err ErrSyntax
      end
  | _, _ => Err ErrSyntax
  end.

(** [Decoder.Decode] reads the first value and leaves what follows. *)
Definition Decode (l : bytes) : Res json := '(j, _) ← parse_value (S (2 * length l)) 0 l; Ok j.

(** ** Decimal numbers *)

Fixpoint dec_bytes (u : uint) : bytes :=
  match u with
  | Nil => []
  | D0 u => Byte.x30 :: dec_bytes u
  | D1 u => Byte.x31 :: dec_bytes u
  | D2 u => Byte.x32 :: dec_bytes u
  | D3 u => Byte.x33 :: dec_bytes u
  | D4 u => Byte.x34 :: dec_bytes u
  | D5 u => Byte.x35 :: dec_bytes u
  | D6 u => Byte.x36 :: dec_bytes u
  | D7 u => Byte.x37 :: dec_bytes u
  | D8 u => Byte.x38 :: dec_bytes u
  | D9 u => Byte.x39 :: dec_bytes u
  end.

(** [strconv.Itoa] *)
Definition Itoa (z : Z) : bytes :=
  match Z.to_int z with Decimal.Pos u => dec_bytes u | Decimal.Neg u => Byte.x2d :: dec_bytes u end.

(** The value of a run of digits. *)
Definition dec_digit (b : byte) (u : uint) : option uint :=
  match Z_of_byte b - 48 with
  | 0 => Some (D0 u) | 1 => Some (D1 u) | 2 => Some (D2 u) | 3 => Some (D3 u) | 4 => Some (D4 u)
  | 5 => Some (D5 u) | 6 => Some (D6 u) | 7 => Some (D7 u) | 8 => Some (D8 u) | 9 => Some (D9 u)
  | _ => None
  end.

Fixpoint dec_uint (l : bytes) : option uint :=
  match l with
  | [] => Some Nil
  | b :: l => u ← dec_uint l; dec_digit b u
  end.

Definition dec_value (l : bytes) : option Z := Z.of_uint <$> dec_uint l.

(** [strconv.Atoi]: the value that goes with an error is 0 for a syntax error
    and the nearest [int] when the number is out of range. *)
Definition Atoi (l : bytes) : Z * option GoError :=
  let '(neg, ds) :=
    match l with
    | b :: r => if decide (b = Byte.x2d) then (true, r) else if decide (b = Byte.x2b) then (false, r) else (false, l)
    | [] => (false, [])
    end in
  match (if decide (ds = []) then None else dec_value ds) with
  | None => (0, Some ErrNumSyntax)
  | Some n =>
      let z := if neg then - n else n in
      if decide (z < - 2 ^ 63) then (- 2 ^ 63, Some ErrNumRange)
      else if decide (2 ^ 63 - 1 < z) then (2 ^ 63 - 1, Some ErrNumRange)
      else (z, None)
  end.

(** A JSON number into a field of type [int]. *)
Definition int_of_lit (lit : bytes) : Res Z :=
  match Atoi lit with (z, None) => Ok z | (_, Some _) => Err ErrType end.

(** *** [float64]

    A finite number as sign, mantissa and binary exponent. *)
Record float64 := { f_neg : bool; f_man : Z; f_exp : Z }.

(** The nearest [float64] to the positive rational [n/d], ties to even;
    [None] when it overflows. *)
Definition float_round (n d : Z) : option (Z * Z) :=
  let k := Z.log2 n - Z.log2 d in
  let below := if decide (0 <= k) then bool_decide (n < d * 2 ^ k) else bool_decide (n * 2 ^ (- k) < d) in
  let e := Z.max (-1074) (k - 52 - (if below then 1 else 0)) in
  let '(n', d') := if decide (0 <= e) then (n, d * 2 ^ e) else (n * 2 ^ (- e), d) in
  let q := n' / d' in
  let r := n' mod d' in
  let q' := if decide (d' < 2 * r \/ (2 * r = d' /\ Z.odd q = true)) then q + 1 else q in
  if decide (1024 <= Z.log2 q' + e) then None else Some (q', e).

(** The parts of a literal: sign, digits as one integer, power of ten. *)
Definition lit_parts (lit : bytes) : option (bool * Z * Z) :=
  let '(neg, l) := match after [Byte.x2d] lit with Some r => (true, r) | None => (false, lit) end in
  let '(i, l) := span_digits l in
  let '(f, l) := match after [Byte.x2e] l with Some r => span_digits r | None => ([], l) end in
  let '(x, err) := match l with _ :: e => Atoi e | [] => (0, None) end in
  m ← dec_value (i ++ f);
  Some (neg, m, x - Z.of_nat (length f)).

(** A JSON number into an [interface{}]: an overflow is an error. *)
Definition float_of_lit (lit : bytes) : Res float64 :=
  match lit_parts lit with
  | None => Err ErrType
  | Some (neg, m, x) =>
      if decide (m = 0) then Ok {| f_neg := neg; f_man := 0; f_exp := 0 |} else
      match (if decide (0 <= x) then float_round (m * 10 ^ x) 1 else float_round m (10 ^ (- x))) with
      | None => Err ErrType
      | Some (q, e) => Ok {| f_neg := neg; f_man := q; f_exp := e |}
      end
  end.

(** [int(f)]: truncation; amd64 answers the least [int] out of range. *)
Definition int_of_float (f : float64) : Z :=
  let a := if decide (0 <= f_exp f) then f_man f * 2 ^ f_exp f else f_man f / 2 ^ (- f_exp f) in
  let z := if f_neg f then - a else a in
  if decide (is_int z) then z else - 2 ^ 63.

(** Every number of a value read into an [interface{}] must be a [float64]. *)
Fixpoint numbers_ok (j : json) : bool :=
  match j with
  | JNum lit => match float_of_lit lit with Ok _ => true | _ => false end
  | JArr l => forallb numbers_ok l
  | JObj m => forallb (fun kv => numbers_ok kv.2) m
  | _ => true
  end.

(** ** Base 64 *)

Definition b64_digit (z : Z) : byte :=
  byte_of_Z (if decide (z < 26) then 65 + z else if decide (z < 52) then 71 + z
             else if decide (z < 62) then z - 4 else if decide (z = 62) then 43 else 47).

Definition b64_value (b : byte) : option Z :=
  let z := Z_of_byte b in
  if decide (65 <= z <= 90) then Some (z - 65)
  else if decide (97 <= z <= 122) then Some (z - 71)
  else if decide (48 <= z <= 57) then Some (z + 4)
  else if decide (z = 43) then Some 62
  else if decide (z = 47) then Some 63
  else None.

Definition b64_pad : byte := Byte.x3d.

(** [base64.StdEncoding], padded. *)
Fixpoint b64_encode (l : bytes) : bytes :=
  match l with
  | [] => []
  | [a] => let a := Z_of_byte a in [b64_digit (a / 4); b64_digit (a mod 4 * 16); b64_pad; b64_pad]
  | [a; b] =>
      let a := Z_of_byte a in let b := Z_of_byte b in
      [b64_digit (a / 4); b64_digit (a mod 4 * 16 + b / 16); b64_digit (b mod 16 * 4); b64_pad]
  | a :: b :: c :: l =>
      let a := Z_of_byte a in let b := Z_of_byte b in let c := Z_of_byte c in
      b64_digit (a / 4) :: b64_digit (a mod 4 * 16 + b / 16) :: b64_digit (b mod 16 * 4 + c / 64)
      :: b64_digit (c mod 64) :: b64_encode l
  end.

(** The last quantum may be padded, and nothing may follow it; bits beyond the
    last byte are not checked. *)
Fixpoint b64_quanta (l : bytes) : Res bytes :=
  match l with
  | [] => Ok []
  | w :: x :: y :: z :: l =>
      match b64_value w, b64_value x with
      | Some w, Some x =>
          let b1 := byte_of_Z (w * 4 + x / 16) in
          match b64_value y, b64_value z with
          | Some y, Some z =>
              out ← b64_quanta l;
              Ok (b1 :: byte_of_Z (x mod 16 * 16 + y / 4) :: byte_of_Z (y mod 4 * 64 + z) :: out)
          | Some y, None =>
              if decide (z = b64_pad /\ l = []) then Ok [b1; byte_of_Z (x mod 16 * 16 + y / 4)] else Err ErrBase64
          | None, _ =>
              if decide (y = b64_pad /\ z = b64_pad /\ l = []) then Ok [b1] else Err ErrBase64
          end
      | _, _ => Err ErrBase64
      end
  | _ => Err ErrBase64
  end.

(** Line ends in the text are skipped. *)
Definition b64_decode (l : bytes) : Res bytes :=
  b64_quanta (filter (fun b => b <> Byte.x0a /\ b <> Byte.x0d) l).

(** ** Into Go values *)

(** Field names are compared exactly, then with letters folded: the Kelvin
    sign and the long s fold to [K] and [S]. *)
Fixpoint fold_name (s : bytes) : bytes :=
  match s with
  | [] => []
  | b :: s' =>
      let z := Z_of_byte b in
      if decide (97 <= z <= 122) then byte_of_Z (z - 32) :: fold_name s'
      else match s' with
           | b2 :: s2 =>
               if decide (b = Byte.xc5 /\ b2 = Byte.xbf) then Byte.x53 :: fold_name s2
               else match s2 with
                    | b3 :: s3 =>
                        if decide ([b; b2; b3] = [Byte.xe2; Byte.x84; Byte.xaa]) then Byte.x4b :: fold_name s3
                        else b :: fold_name s'
                    | [] => b :: fold_name s'
                    end
           | [] => b :: fold_name s'
           end
  end.

(** A field of a struct [S]: its name and what a value does to it. *)
Definition field (S : Type) : Type := bytes * (json -> S -> Res S).

Definition find_field {S} (fields : list (field S)) (k : bytes) : option (json -> S -> Res S) :=
  match list_find (fun f => f.1 = k) fields with
  | Some (_, f) => Some f.2
  | None => (fun x => x.2.2) <$> list_find (fun f => fold_name f.1 = fold_name k) fields
  end.

(** Members set their fields in order; unknown members are skipped. *)
Definition decode_struct {S} (fields : list (field S)) (j : json) (s : S) : Res S :=
  match j with
  | JNull => Ok s
  | JObj m =>
      foldl (fun acc kv => s ← acc; match find_field fields kv.1 with Some set => set kv.2 s | None => Ok s end) (Ok s) m
  | _ => Err ErrType
  end.

(** Into an [int], a [bool], a [[]byte] that held [old]. *)
Definition decode_int (j : json) (old : Z) : Res Z :=
  match j with JNull => Ok old | JNum lit => int_of_lit lit | _ => Err ErrType end.

Definition decode_bool (j : json) (old : bool) : Res bool :=
  match j with JNull => Ok old | JBool b => Ok b | _ => Err ErrType end.

(** A slice is filled element by element, reusing what it held. *)
Fixpoint decode_slice {A} (elem : json -> A -> Res A) (zero : A) (l : list json) (old : list A) : Res (list A) :=
  match l with
  | [] => Ok []
  | j :: l => x ← elem j (default zero (head old)); xs ← decode_slice elem zero l (tail old); Ok (x :: xs)
  end.

Definition decode_uint8 (j : json) (old : byte) : Res byte :=
  match j with
  | JNull => Ok old
  | JNum lit =>
      match (if decide (lit = []) then None else dec_value lit) with
      | Some z => if decide (z < 256) then Ok (byte_of_Z z) else Err ErrType
      | None => Err ErrType
      end
  | _ => Err ErrType
  end.

Definition decode_bytes (j : json) (old : bytes) : Res bytes :=
  match j with
  | JNull => Ok []
  | JStr s => b64_decode s
  | JArr l => decode_slice decode_uint8 Byte.x00 l old
  | _ => Err ErrType
  end.

Definition decode_list {A} (elem : json -> A -> Res A) (zero : A) (j : json) (old : list A) : Res (list A) :=
  match j with
  | JNull => Ok []
  | JArr l => decode_slice elem zero l old
  | _ => Err ErrType
  end.

(** [map[string]interface{}]: the last of equal keys counts. *)
Definition go_map (m : list (bytes * json)) : gmap bytes json := foldl (fun g kv => <[kv.1 := kv.2]> g) ∅ m.

Definition decode_map (j : json) : Res (gmap bytes json) :=
  if numbers_ok j then
    match j with JNull => Ok ∅ | JObj m => Ok (go_map m) | _ => Err ErrType end
  else Err ErrType.

(** Maps are printed with their keys in order. *)
Fixpoint bytes_le (s t : bytes) : bool :=
  match s, t with
  | [], _ => true
  | _ :: _, [] => false
  | a :: s, b :: t => bool_decide (Z_of_byte a < Z_of_byte b) || (bool_decide (a = b) && bytes_le s t)
  end.

Definition key_le (x y : bytes * json) : Prop := bytes_le x.1 y.1 = true.

#[global] Instance key_le_dec x y : Decision (key_le x y).
Proof. unfold key_le. apply _. Defined.

Definition JMap (m : gmap bytes json) : json := JObj (merge_sort key_le (map_to_list m)).
