(* ===== verification/JsonText.v ===== *)
(** * Reading back JSON text

    [json_parse_print]: a printed document is read back whatever follows it;
    [Decode_fuel]: the fuel of the reader is enough for every text; decimal
    numbers, floats and base 64 are inverted. *)
From Stdlib Require Import Decimal DecimalZ DecimalPos.
From stdpp Require Import sorting.
From S2P Require Import Prelude Json.

(** ** What was printed is read back *)

Definition ascii (b : byte) : Prop := Z_of_byte b < 128.
#[global] Instance ascii_dec b : Decision (ascii b).
Proof. unfold ascii. apply _. Defined.

(** *** Strings *)

Lemma unquote_escape b l : ascii b -> unquote 0 (escape b ++ l) = '(s, r) ← unquote 0 l; Ok (b :: s, r).
Proof. intros H. destruct b; try (exfalso; revert H; vm_compute; done); reflexivity. Qed.

Lemma utf8_size_ascii b l : ascii b -> utf8_size (b :: l) = Some 1%nat.
Proof. unfold ascii, utf8_size. intros H. cbn [take fmap list_fmap]. by rewrite decide_True. Qed.

Lemma unquote_quote s rest : Forall ascii s -> unquote 0 (quote_body 0 s ++ Byte.x22 :: rest) = Ok (s, rest).
Proof.
  induction 1 as [|b s Hb _ IH]; [done|]. cbn [quote_body]. rewrite utf8_size_ascii by done.
  rewrite <- app_assoc, unquote_escape by done. by rewrite IH.
Qed.

(** *** Spaces and prefixes *)

Definition spaces (l : bytes) : Prop := Forall (fun b => is_space b = true) l.

Lemma newline_spaces st : spaces (newline st).
Proof. destruct st as [|d]; [constructor|]. constructor; [done|]. by apply Forall_replicate. Qed.

Lemma skip_spaces ws l : spaces ws -> skip_space (ws ++ l) = skip_space l.
Proof. induction 1 as [|b ws E _ IH]; [done|]. simpl. by rewrite E. Qed.
Lemma skip_space_head b l : is_space b = false -> skip_space (b :: l) = b :: l.
Proof. intros E. simpl. by rewrite E. Qed.

Lemma parse_value_spaces fuel d ws l : spaces ws -> parse_value fuel d (ws ++ l) = parse_value fuel d l.
Proof. intros H. destruct fuel; simpl; [done|]. by rewrite skip_spaces. Qed.

(** *** Numbers *)

(** A number may end before this text. *)
Definition delim (l : bytes) : Prop :=
  match l with [] => True | b :: _ => is_digit b = false /\ b <> Byte.x2e /\ b <> Byte.x65 /\ b <> Byte.x45 end.

Lemma span_digits_dec u rest : delim rest -> span_digits (dec_bytes u ++ rest) = (dec_bytes u, rest).
Proof.
  intros H. induction u as [|u IH|u IH|u IH|u IH|u IH|u IH|u IH|u IH|u IH|u IH]; simpl; try by rewrite IH.
  destruct rest as [|b rest]; [done|]. simpl. destruct H as [-> _]. done.
Qed.

Lemma after_head p b l : p <> b -> after [p] (b :: l) = None.
Proof. intros H. simpl. by rewrite decide_False. Qed.

Lemma some_digits_dec u rest : u <> Nil -> delim rest -> some_digits (dec_bytes u ++ rest) = Ok (dec_bytes u, rest).
Proof.
  intros Hu Hr. unfold some_digits. rewrite span_digits_dec by done. by destruct u.
Qed.

(** The digits of an integer: [0], or no leading zero. *)
Definition norm_digits (u : uint) : Prop := u = D0 Nil \/ (u <> Nil /\ forall u', u <> D0 u').

Lemma nzhead_norm u : nzhead u <> Nil -> norm_digits (nzhead u).
Proof. intros H. right. split; [done|]. intros u' E. by apply (DecimalFacts.nzhead_nonzero u u'). Qed.

Lemma to_int_norm z :
  match Z.to_int z with Decimal.Pos u => norm_digits u | Decimal.Neg u => norm_digits u end.
Proof.
  pose proof (DecimalZ.to_of (Z.to_int z)) as E. rewrite DecimalZ.of_to in E.
  destruct (Z.to_int z) as [u|u]; simpl in E.
  - injection E as E. rewrite E. unfold unorm.
    destruct (nzhead u) eqn:Eu; [by left|rewrite <- Eu; apply nzhead_norm; congruence..].
  - destruct (nzhead u) eqn:Eu; [done|injection E as E; rewrite E, <- Eu; apply nzhead_norm; congruence..].
Qed.

Lemma scan_int_dec u rest : norm_digits u -> delim rest -> scan_int (dec_bytes u ++ rest) = Ok (dec_bytes u, rest).
Proof.
  intros [->|[Hn Hz]] Hr; [done|]. unfold scan_int.
  destruct u as [|u|u|u|u|u|u|u|u|u|u]; [done|by destruct (Hz u)|..];
    rewrite <- some_digits_dec by done; done.
Qed.

Lemma scan_frac_exp rest : delim rest -> scan_frac rest = Ok ([], rest) /\ scan_exp rest = Ok ([], rest).
Proof.
  intros H. unfold scan_frac, scan_exp. destruct rest as [|b rest]; [done|]. destruct H as (_ & H1 & H2 & H3).
  rewrite after_head by done. split; [done|]. rewrite decide_False; [done|]. tauto.
Qed.

Lemma scan_dec sg u rest : norm_digits u -> delim rest ->
  ('(i, l) ← scan_int (dec_bytes u ++ rest); '(f, l) ← scan_frac l; '(e, l) ← scan_exp l;
   (Ok (sg ++ i ++ f ++ e, l) : Res (bytes * bytes))) = Ok (sg ++ dec_bytes u, rest).
Proof.
  intros Hu Hr. rewrite scan_int_dec by done. destruct (scan_frac_exp rest Hr) as [E1 E2]. simpl. rewrite E1. simpl. rewrite E2. simpl.
  by rewrite !app_nil_r.
Qed.

Lemma scan_number_Itoa z rest : delim rest -> scan_number (Itoa z ++ rest) = Ok (Itoa z, rest).
Proof.
  intros Hr. pose proof (to_int_norm z) as Hz. unfold Itoa, scan_number. destruct (Z.to_int z) as [u|u].
  - assert (after [Byte.x2d] (dec_bytes u ++ rest) = None) as ->.
    { destruct Hz as [->|[Hz _]]; [done|]. by destruct u. }
    exact (scan_dec [] u rest Hz Hr).
  - cbn [after app]. rewrite decide_True by done. exact (scan_dec [Byte.x2d] u rest Hz Hr).
Qed.

(** *** Values *)

(** What the program prints: ASCII strings and integers. *)
Fixpoint plain (j : json) : Prop :=
  match j with
  | JNull | JBool _ => True
  | JNum lit => exists z, lit = Itoa z
  | JStr s => Forall ascii s
  | JArr l => foldr (fun j Q => plain j /\ Q) True l
  | JObj m => foldr (fun kv Q => (Forall ascii kv.1 /\ plain kv.2) /\ Q) True m
  end.

Fixpoint depth (j : json) : Z :=
  match j with
  | JArr l => 1 + foldr (fun j d => depth j `max` d) 0 l
  | JObj m => 1 + foldr (fun kv d => depth kv.2 `max` d) 0 m
  | _ => 0
  end.

Lemma foldr_Forall {A} (Q : A -> Prop) l : foldr (fun x R => Q x /\ R) True l <-> Forall Q l.
Proof. induction l as [|x l IH]; simpl; [done|]. by rewrite IH, Forall_cons. Qed.
Lemma depth_max {A} (f : A -> Z) l x : x ∈ l -> f x <= foldr (fun x d => f x `max` d) 0 l.
Proof. induction 1 as [x l|x y l _ IH]; simpl; lia. Qed.

(** The first byte of a value. *)
Lemma dec_head u : u <> Nil -> exists b l, dec_bytes u = b :: l /\ is_digit b = true.
Proof. destruct u; intros H; [done|by eexists _, _..]. Qed.

Definition starts (l : bytes) : Prop :=
  exists b l', l = b :: l' /\ is_space b = false /\ b <> Byte.x5d.

Lemma digit_other b c : is_digit b = true -> is_digit c = false -> b <> c.
Proof. congruence. Qed.
Lemma digit_space b : is_digit b = true -> is_space b = false.
Proof. by destruct b. Qed.

Lemma Itoa_head z : exists b l, Itoa z = b :: l /\ (is_digit b = true \/ b = Byte.x2d).
Proof.
  pose proof (to_int_norm z) as Hz. unfold Itoa. destruct (Z.to_int z) as [u|u]; [|eauto].
  destruct (dec_head u) as (b & l & -> & Hb); [destruct Hz as [->|[? _]]; done|eauto].
Qed.

Lemma print_starts st j : plain j -> starts (print st j).
Proof.
  unfold starts. destruct j as [|[]|lit|s|[|j l]|[|kv m]]; simpl; intros Hp; try by eexists _, _.
  destruct Hp as [z ->]. destruct (Itoa_head z) as (b & l & -> & [Hb| ->]); [|by eexists _, _].
  exists b, l. split_and!; [done|by apply digit_space|by eapply digit_other].
Qed.

(** Reading back one value, with enough fuel, wherever it stands. *)
Definition reads (j : json) : Prop := forall st d fuel rest,
  (length (print st j) <= fuel)%nat -> d + depth j <= maxNestingDepth -> delim rest ->
  parse_value fuel d (print st j ++ rest) = Ok (j, rest).

Lemma reads_num z : reads (JNum (Itoa z)).
Proof.
  intros st d fuel rest Hf _ Hr. cbn [print] in *. pose proof (scan_number_Itoa z rest Hr) as Hs.
  destruct (Itoa_head z) as (b & l & E & Hb). rewrite E in *. destruct fuel as [|fuel]; [simpl in Hf; lia|].
  cbn [app] in *. assert (is_space b = false /\ b <> Byte.x7b /\ b <> Byte.x5b /\ b <> Byte.x22) as (H1 & H2 & H3 & H4).
  { destruct Hb as [Hb| ->]; [|done]. split_and!; [by apply digit_space|by eapply digit_other..]. }
  assert (scan_word (b :: l ++ rest) = None) as H5.
  { destruct Hb as [Hb| ->]; [|done]. 
    assert (forall p w, is_digit p = false -> after (p :: w) (b :: l ++ rest) = None) as Ha.
    { intros p w Hp. simpl. rewrite decide_False; [done|]. apply not_eq_sym. by eapply digit_other. }
    unfold scan_word. change (bs "null") with (Byte.x6e :: bs "ull").
    change (bs "true") with (Byte.x74 :: bs "rue"). change (bs "false") with (Byte.x66 :: bs "alse").
    rewrite (Ha Byte.x6e), (Ha Byte.x74), (Ha Byte.x66) by done. done. }
  cbn [parse_value]. rewrite skip_space_head by done. rewrite !decide_False by done. rewrite H5, Hs. done.
Qed.

Lemma parse_elems_ok st d l : forall fuel rest,
  l <> [] -> Forall reads l -> Forall (fun j => d + depth j <= maxNestingDepth) l ->
  (length (join ([Byte.x2c] ++ newline (deeper st)) (map (print (deeper st)) l)) < fuel)%nat ->
  parse_elems fuel d (join ([Byte.x2c] ++ newline (deeper st)) (map (print (deeper st)) l) ++ newline st ++ Byte.x5d :: rest)
  = Ok (l, rest).
Proof.
  induction l as [|j l IH]; intros fuel rest Hne Hr Hd Hf; [done|]. apply Forall_cons in Hr as [Hj Hr].
  apply Forall_cons in Hd as [Hdj Hd]. destruct fuel as [|fuel]; [lia|]. cbn [parse_elems].
  destruct l as [|j' l].
  - cbn [map join] in *. rewrite Hj; [|lia|done|by destruct st]. cbn. 
    rewrite skip_spaces by apply newline_spaces. done.
  - cbn [map] in *. change (join ?s (?x :: ?y :: ?l)) with (x ++ s ++ join s (y :: l)) in *.
    rewrite !length_app in Hf. simpl length in Hf at 2. rewrite <- !app_assoc.
    rewrite Hj; [|lia|done|done]. cbn [mbind Res_bind app]. rewrite skip_space_head by done.
    cbn [after]. rewrite decide_True by done.
    assert (forall x, parse_elems fuel d (newline (deeper st) ++ x) = parse_elems fuel d x) as Hsp.
    { intros x. destruct fuel; [done|]. cbn [parse_elems]. by rewrite parse_value_spaces by apply newline_spaces. }
    rewrite Hsp, IH; [done|done|done|done|lia].
Qed.

Definition print_member (st : style) (kv : bytes * json) : bytes := quote kv.1 ++ colon st ++ print (deeper st) kv.2.

Lemma colon_spaces st x : exists ws, colon st ++ x = Byte.x3a :: ws ++ x /\ spaces ws.
Proof. destruct st; [exists []|exists [Byte.x20]]; repeat constructor. Qed.

Lemma parse_members_spaces fuel d ws l : spaces ws -> parse_members fuel d (ws ++ l) = parse_members fuel d l.
Proof. intros H. destruct fuel; [done|]. cbn [parse_members]. by rewrite skip_spaces. Qed.

(** One member and what follows it. *)
Lemma parse_member st d fuel k v rest :
  Forall ascii k -> reads v -> d + depth v <= maxNestingDepth ->
  (length (print_member st (k, v)) <= fuel)%nat -> delim rest ->
  parse_members (S fuel) d (print_member st (k, v) ++ rest) =
  match after [Byte.x2c] (skip_space rest), after [Byte.x7d] (skip_space rest) with
  | Some r4, _ => '(m, r5) ← parse_members fuel d r4; Ok ((k, v) :: m, r5)
  | _, Some r4 => Ok ([(k, v)], r4)
  | _, _ => Err ErrSyntax
  end.
Proof.
  intros Hk Hv Hd Hf Hr. unfold print_member, quote in *. cbn [fst snd] in *.
  cbn [parse_members]. rewrite !length_app in Hf. rewrite <- !app_assoc, <- app_comm_cons, <- app_assoc.
  rewrite skip_space_head by done. cbn [after]. rewrite decide_True by done.
  cbn [app]. rewrite unquote_quote by done. cbn [mbind Res_bind].
  destruct (colon_spaces st (print (deeper st) v ++ rest)) as (ws & -> & Hws). rewrite skip_space_head by done.
  cbn [after]. rewrite decide_True by done. rewrite parse_value_spaces by done.
  rewrite Hv; [done|simpl in Hf; lia|done|done].
Qed.

Lemma parse_members_ok st d m : forall fuel rest,
  m <> [] -> Forall (fun kv => Forall ascii kv.1) m -> Forall (fun kv => reads kv.2) m ->
  Forall (fun kv => d + depth kv.2 <= maxNestingDepth) m ->
  (length (join ([Byte.x2c] ++ newline (deeper st)) (map (print_member st) m)) < fuel)%nat ->
  parse_members fuel d (join ([Byte.x2c] ++ newline (deeper st)) (map (print_member st) m) ++ newline st ++ Byte.x7d :: rest)
  = Ok (m, rest).
Proof.
  induction m as [|[k v] m IH]; intros fuel rest Hne Hk Hr Hd Hf; [done|].
  apply Forall_cons in Hk as [Hk1 Hk]. apply Forall_cons in Hr as [Hr1 Hr]. apply Forall_cons in Hd as [Hd1 Hd].
  destruct fuel as [|fuel]; [lia|]. destruct m as [|kv' m].
  - cbn [map join] in *. rewrite parse_member; [|done|done|done|lia|by destruct st].
    rewrite skip_spaces by apply newline_spaces. done.
  - cbn [map] in *. change (join ?s (?x :: ?y :: ?l)) with (x ++ s ++ join s (y :: l)) in *.
    rewrite !length_app in Hf. simpl length in Hf at 2. rewrite <- !app_assoc.
    rewrite parse_member; [|done|done|done|lia|done]. cbn [app]. rewrite skip_space_head by done.
    cbn [after]. rewrite decide_True by done. rewrite parse_members_spaces by apply newline_spaces.
    rewrite IH; [done|done|done|done|done|lia].
Qed.

Lemma parse_elems_spaces fuel d ws l : spaces ws -> parse_elems fuel d (ws ++ l) = parse_elems fuel d l.
Proof. intros H. destruct fuel; [done|]. cbn [parse_elems]. by rewrite parse_value_spaces. Qed.

Lemma depth_elem {A} (f : A -> Z) d l :
  d + (1 + foldr (fun x d => f x `max` d) 0 l) <= maxNestingDepth ->
  d < maxNestingDepth /\ Forall (fun x => d + 1 + f x <= maxNestingDepth) l.
Proof.
  intros Hd. assert (0 <= foldr (fun x d => f x `max` d) 0 l) by (clear; induction l; simpl; lia).
  split; [lia|]. apply Forall_forall. intros x Hx. pose proof (depth_max f _ _ Hx). lia.
Qed.

(** A container that is not empty does not look empty. *)
Lemma not_closed c st l rest : c = Byte.x5d \/ c = Byte.x7d ->
  (exists b l', l = b :: l' /\ is_space b = false /\ b <> c) ->
  after [c] (skip_space (newline st ++ l ++ rest)) = None.
Proof.
  intros _ (b & l' & -> & Hs & Hb). rewrite skip_spaces by apply newline_spaces. cbn [app].
  rewrite skip_space_head by done. by apply after_head.
Qed.

Lemma join_head sep x l : exists l', join sep (x :: l) = x ++ l'.
Proof. destruct l as [|y l]; [exists []; by rewrite app_nil_r|]. by eexists. Qed.

Lemma reads_arr j l : plain j -> Forall reads (j :: l) -> reads (JArr (j :: l)).
Proof.
  intros Hj Hr st d [|fuel] rest Hf Hd _; [simpl in Hf; lia|]. cbn [depth] in Hd.
  apply (depth_elem depth) in Hd as [Hd0 Hdl].
  change (print st (JArr (j :: l))) with
    (Byte.x5b :: newline (deeper st) ++ join ([Byte.x2c] ++ newline (deeper st)) (map (print (deeper st)) (j :: l))
     ++ newline st ++ [Byte.x5d]) in *.
  cbn [length] in Hf. rewrite !length_app in Hf. rewrite <- app_comm_cons, <- !app_assoc. cbn [parse_value].
  rewrite skip_space_head by done. rewrite decide_False, decide_True by done. rewrite decide_False by lia.
  rewrite not_closed, parse_elems_spaces by
    (apply newline_spaces || by left || (cbn [map]; destruct (join_head ([Byte.x2c] ++ newline (deeper st))
       (print (deeper st) j) (map (print (deeper st)) l)) as [l' ->];
       destruct (print_starts (deeper st) j Hj) as (b & l2 & -> & ? & ?); by eexists _, _)).
  change ([Byte.x5d] ++ rest) with (Byte.x5d :: rest). rewrite parse_elems_ok; [done|done|done|done|simpl in Hf |- *; lia].
Qed.

Lemma reads_obj kv m :
  Forall (fun kv => Forall ascii kv.1) (kv :: m) -> Forall (fun kv => reads kv.2) (kv :: m) -> reads (JObj (kv :: m)).
Proof.
  intros Hk Hr st d [|fuel] rest Hf Hd _; [simpl in Hf; lia|]. cbn [depth] in Hd.
  apply (depth_elem (fun kv => depth kv.2)) in Hd as [Hd0 Hdl].
  change (print st (JObj (kv :: m))) with
    (Byte.x7b :: newline (deeper st) ++ join ([Byte.x2c] ++ newline (deeper st)) (map (print_member st) (kv :: m))
     ++ newline st ++ [Byte.x7d]) in *.
  cbn [length] in Hf. rewrite !length_app in Hf. rewrite <- app_comm_cons, <- !app_assoc. cbn [parse_value].
  rewrite skip_space_head by done. rewrite decide_True by done. rewrite decide_False by lia.
  rewrite not_closed, parse_members_spaces by
    (apply newline_spaces || by right || (cbn [map]; destruct (join_head ([Byte.x2c] ++ newline (deeper st))
       (print_member st kv) (map (print_member st) m)) as [l' ->]; by eexists _, _)).
  change ([Byte.x7d] ++ rest) with (Byte.x7d :: rest). rewrite parse_members_ok; [done|done|done|done|done|simpl in Hf |- *; lia].
Qed.

Lemma reads_empty : reads (JArr []) /\ reads (JObj []).
Proof.
  split; intros st d [|fuel] rest Hf Hd _; try (simpl in Hf; lia); cbn [print depth foldr] in *.
  - change (bs "[]" ++ rest) with (Byte.x5b :: Byte.x5d :: rest). cbn [parse_value]. rewrite skip_space_head by done.
    rewrite decide_False, decide_True by done. rewrite decide_False by lia. done.
  - change (bs "{}" ++ rest) with (Byte.x7b :: Byte.x7d :: rest). cbn [parse_value]. rewrite skip_space_head by done.
    rewrite decide_True by done. rewrite decide_False by lia. done.
Qed.

Lemma Forall_impl_Forall {A} (Q R : A -> Prop) l : Forall (fun x => Q x -> R x) l -> Forall Q l -> Forall R l.
Proof. induction 1; [done|]. intros [? ?]%Forall_cons. constructor; auto. Qed.

Lemma json_reads j : plain j -> reads j.
Proof.
  induction j as [|b|lit|s|l IH|m IH] using json_ind; intros Hp.
  - intros st d [|fuel] rest Hf _ _; [simpl in Hf; lia|done].
  - intros st d [|fuel] rest Hf _ _; [destruct b; simpl in Hf; lia|]. by destruct b.
  - destruct Hp as [z ->]. apply reads_num.
  - intros st d [|fuel] rest Hf _ _; [simpl in Hf; lia|]. cbn [print]. unfold quote. rewrite <- app_comm_cons, <- app_assoc.
    cbn [parse_value]. rewrite skip_space_head by done. rewrite !decide_False, decide_True by done.
    cbn [app]. by rewrite unquote_quote.
  - destruct l as [|j l]; [apply reads_empty|].
    simpl in Hp. apply (foldr_Forall plain (j :: l)) in Hp.
    apply reads_arr; [by apply Forall_cons in Hp as [? _]|]. by eapply Forall_impl_Forall.
  - destruct m as [|kv m]; [apply reads_empty|].
    simpl in Hp. apply (foldr_Forall (fun kv => Forall ascii kv.1 /\ plain kv.2) (kv :: m)) in Hp.
    apply Forall_and in Hp as [Hk Hp]. apply reads_obj; [done|]. by eapply (Forall_impl_Forall (fun kv => plain kv.2)).
Qed.

(** The document is read back whatever follows it, as in a file that was longer
    before it was written again. *)
Lemma json_parse_print st j rest :
  plain j -> depth j <= maxNestingDepth -> Decode (Encode st j ++ rest) = Ok j.
Proof.
  intros Hp Hd. unfold Decode, Encode. rewrite <- app_assoc.
  rewrite (json_reads j Hp); [done|rewrite length_app; lia|lia|done].
Qed.

(** *** The fuel of [Decode] is enough: more changes nothing *)

Definition shrinks {A} (l : bytes) (res : Res (A * bytes)) : Prop :=
  forall x r, res = Ok (x, r) -> (length r < length l)%nat.

Lemma shrinks_bind {A B} l l' (res : Res (A * bytes)) (k : A -> bytes -> Res (B * bytes)) :
  shrinks l' res -> (length l' <= length l)%nat -> (forall x r, shrinks (Byte.x00 :: r) (k x r)) ->
  shrinks l ('(x, r) ← res; k x r).
Proof.
  intros H1 Hl H2 y r'. destruct res as [[x r]| |]; [|done..]. simpl. intros E%H2. specialize (H1 x r eq_refl).
  simpl in E. lia.
Qed.
Lemma shrinks_ok {A} (x : A) l r : (length r < length l)%nat -> shrinks l (Ok (x, r)).
Proof. by intros H y r' [= <- <-]. Qed.
Lemma shrinks_err {A} l e : shrinks (A := A) l (Err e).
Proof. done. Qed.

Lemma skip_space_length l : (length (skip_space l) <= length l)%nat.
Proof. induction l as [|b l IH]; simpl; [done|]. destruct (is_space b); simpl; lia. Qed.
Lemma after_length p l r : after p l = Some r -> length l = (length p + length r)%nat.
Proof.
  revert l. induction p as [|b p IH]; intros l; simpl; [by intros [= <-]|]. destruct l as [|c l]; [done|].
  case_decide; [|done]. intros E%IH. simpl. lia.
Qed.
Lemma span_digits_length l : (length (span_digits l).2 + length (span_digits l).1 = length l)%nat.
Proof.
  induction l as [|b l IH]; simpl; [done|]. destruct (is_digit b); [|done]. destruct (span_digits l). simpl in *. lia.
Qed.
Lemma some_digits_shrinks l : shrinks l (some_digits l).
Proof.
  unfold some_digits. pose proof (span_digits_length l) as H. destruct (span_digits l) as [ds r]. simpl in H.
  case_decide as E; [done|]. apply shrinks_ok. destruct ds; [done|]. simpl in H. lia.
Qed.

Lemma unquote_shrinks n l : shrinks l (unquote n l).
Proof.
  assert (forall m l n, (length l < m)%nat -> shrinks l (unquote n l)) as H by
    (clear; induction m as [|m IH]; [lia|]; intros [|b l] [|n] Hl; cbn [unquote]; try done; simpl in Hl;
     [|eapply (shrinks_bind _ l); [apply IH; lia|simpl; lia|intros; apply shrinks_ok; simpl; lia]];
     repeat first [ done | apply shrinks_ok; simpl; lia
       | match goal with
         | |- shrinks _ (mbind _ (unquote _ ?l')) =>
             eapply (shrinks_bind _ l'); [apply IH; simpl in *; lia|simpl in *; lia|intros; apply shrinks_ok; simpl; lia]
         | |- shrinks _ (if ?c then _ else _) => destruct c
         | |- shrinks _ (match ?l with _ => _ end) => destruct l as [|? l]
         | |- shrinks _ (match ?x with _ => _ end) => destruct x
         end ]).
  by eapply (H (S (length l))); [lia].
Qed.

Lemma scan_int_shrinks l : shrinks l (scan_int l).
Proof.
  unfold scan_int. destruct (after _ l) as [r|] eqn:E; [|apply some_digits_shrinks].
  apply after_length in E. apply shrinks_ok. simpl in E. lia.
Qed.
Lemma scan_frac_shrinks l : shrinks (Byte.x00 :: l) (scan_frac l).
Proof.
  unfold scan_frac. destruct (after _ l) as [r|] eqn:E; [|apply shrinks_ok; simpl; lia]. apply after_length in E.
  eapply shrinks_bind; [apply some_digits_shrinks|simpl in *; lia|]. intros; apply shrinks_ok; simpl; lia.
Qed.
Lemma scan_exp_shrinks l : shrinks (Byte.x00 :: l) (scan_exp l).
Proof.
  unfold scan_exp. destruct l as [|e l]; [apply shrinks_ok; simpl; lia|]. case_decide; [|apply shrinks_ok; simpl; lia].
  assert (exists sg r1, (match l with s :: r1 => if decide (s = Byte.x2b \/ s = Byte.x2d) then ([s], r1) else ([], l)
    | [] => ([], l) end) = (sg, r1) /\ (length r1 <= length l)%nat) as (sg & r1 & -> & Hr).
  { destruct l as [|s l]; [by eexists _, _|]. case_decide; eexists _, _; split; try done. simpl. lia. }
  eapply shrinks_bind; [apply some_digits_shrinks|simpl; lia|]. intros; apply shrinks_ok; simpl; lia.
Qed.
Lemma scan_number_shrinks l : shrinks l (scan_number l).
Proof.
  unfold scan_number.
  assert (exists sg r, match after [Byte.x2d] l with Some r => ([Byte.x2d], r) | None => ([], l) end = (sg, r) /\
    (length r <= length l)%nat) as (sg & r & -> & Hr).
  { destruct (after _ l) as [r|] eqn:E; eexists _, _; (split; [done|]); [apply after_length in E; simpl in E; lia|done]. }
  eapply shrinks_bind; [apply scan_int_shrinks|done|]. intros i r1.
  eapply shrinks_bind; [apply scan_frac_shrinks|done|]. intros f r2.
  eapply shrinks_bind; [apply scan_exp_shrinks|done|]. intros; apply shrinks_ok; simpl; lia.
Qed.
Lemma scan_word_length l j r : scan_word l = Some (j, r) -> (length r < length l)%nat.
Proof.
  unfold scan_word. destruct (after (bs "null") l) eqn:E1; [|destruct (after (bs "true") l) eqn:E2;
    [|destruct (after (bs "false") l) eqn:E3; [|done]]]; intros [= <- <-];
    [apply after_length in E1; rewrite E1|apply after_length in E2; rewrite E2|apply after_length in E3; rewrite E3];
    simpl; lia.
Qed.

(** What is read is consumed. *)
Ltac shrink :=
  repeat first [ done | apply shrinks_ok; simpl in *; lia
    | match goal with
      | |- shrinks _ (mbind _ _) => eapply shrinks_bind; [eauto using unquote_shrinks, scan_number_shrinks|simpl in *; lia|intros]
      | |- shrinks _ (if ?c then _ else _) => destruct c
      | |- shrinks _ (match after ?p (skip_space ?l) with _ => _ end) =>
          pose proof (skip_space_length l);
          let E := fresh "E" in destruct (after p (skip_space l)) eqn:E; [apply after_length in E|]
      end ].

Lemma parse_shrinks fuel : forall d l,
  shrinks l (parse_value fuel d l) /\ shrinks l (parse_elems fuel d l) /\ shrinks l (parse_members fuel d l).
Proof.
  induction fuel as [|fuel IH]; intros d l; [done|].
  assert (forall d l, shrinks l (parse_value fuel d l)) as Hv by apply IH.
  assert (forall d l, shrinks l (parse_elems fuel d l)) as He by apply IH.
  assert (forall d l, shrinks l (parse_members fuel d l)) as Hm by apply IH.
  pose proof (skip_space_length l) as Hl. split_and!; cbn [parse_value parse_elems parse_members].
  - destruct (skip_space l) as [|b r] eqn:El; [done|].
    destruct (scan_word (b :: r)) as [[j r']|] eqn:Ew; [apply scan_word_length in Ew|]; shrink.
  - eapply shrinks_bind; [done|done|]. intros v r. shrink.
  - destruct (after _ _) as [r|] eqn:E; [|done]. apply after_length in E.
    eapply shrinks_bind; [apply unquote_shrinks|simpl in E; lia|]. intros k r1. shrink.
Qed.

Lemma bind_cong {A B} (res res' : Res (A * bytes)) (k k' : A -> bytes -> Res B) :
  res = res' -> (forall x r, res = Ok (x, r) -> k x r = k' x r) -> ('(x, r) ← res; k x r) = ('(x, r) ← res'; k' x r).
Proof. intros <- H. destruct res as [[x r]| |]; [|done..]. by apply H. Qed.

(** Twice the length of the text is enough fuel. *)
Lemma parse_fuel fuel : forall fuel' d l,
  ((2 * length l < fuel)%nat -> (2 * length l < fuel')%nat -> parse_value fuel d l = parse_value fuel' d l) /\
  ((2 * length l + 1 < fuel)%nat -> (2 * length l + 1 < fuel')%nat -> parse_elems fuel d l = parse_elems fuel' d l) /\
  ((2 * length l + 1 < fuel)%nat -> (2 * length l + 1 < fuel')%nat -> parse_members fuel d l = parse_members fuel' d l).
Proof.
  induction fuel as [|fuel IH]; intros [|fuel'] d l; [split_and!; lia..|].
  pose proof (skip_space_length l) as Hl. split_and!; intros H1 H2; cbn [parse_value parse_elems parse_members].
  - destruct (skip_space l) as [|b r]; [done|]. simpl in Hl. pose proof (skip_space_length r).
    repeat case_decide; try done; destruct (after _ _); try done; (apply bind_cong; [apply IH; lia|done]).
  - apply bind_cong; [apply IH; lia|]. intros v r E%(proj1 (parse_shrinks fuel d l)). pose proof (skip_space_length r).
    destruct (after [Byte.x2c] _) as [r'|] eqn:Ea; [|done]. apply after_length in Ea. simpl in Ea.
    apply bind_cong; [apply IH; lia|done].
  - destruct (after [Byte.x22] _) as [r|] eqn:Er; [|done]. apply after_length in Er. simpl in Er.
    apply bind_cong; [done|]. intros k r1 E1%unquote_shrinks. pose proof (skip_space_length r1).
    destruct (after [Byte.x3a] _) as [r2|] eqn:E2; [|done]. apply after_length in E2. simpl in E2.
    apply bind_cong; [apply IH; lia|]. intros v r3 E3%(proj1 (parse_shrinks fuel d r2)). pose proof (skip_space_length r3).
    destruct (after [Byte.x2c] _) as [r4|] eqn:E4; [|done]. apply after_length in E4. simpl in E4.
    apply bind_cong; [apply IH; lia|done].
Qed.

Lemma Decode_fuel fuel l : (2 * length l < fuel)%nat -> Decode l = '(j, _) ← parse_value fuel 0 l; Ok j.
Proof. intros H. unfold Decode. f_equal. apply parse_fuel; lia. Qed.

(** ** Numbers and byte slices *)

Lemma dec_uint_bytes u : dec_uint (dec_bytes u) = Some u.
Proof. induction u as [|u IH|u IH|u IH|u IH|u IH|u IH|u IH|u IH|u IH|u IH]; [done|simpl; by rewrite IH..]. Qed.

Lemma dec_value_bytes u : dec_value (dec_bytes u) = Some (Z.of_uint u).
Proof. unfold dec_value. by rewrite dec_uint_bytes. Qed.

Lemma Itoa_cases z :
  (exists u, Itoa z = dec_bytes u /\ u <> Nil /\ Z.of_uint u = z) \/
  (exists u, Itoa z = Byte.x2d :: dec_bytes u /\ u <> Nil /\ - Z.of_uint u = z).
Proof.
  pose proof (to_int_norm z) as Hn. pose proof (DecimalZ.of_to z) as E. unfold Itoa.
  destruct (Z.to_int z) as [u|u]; [left|right]; exists u; (split_and!; [done| |done]);
    destruct Hn as [->|[? _]]; done.
Qed.

Lemma dec_not_sign u b l : dec_bytes u = b :: l -> b <> Byte.x2d /\ b <> Byte.x2b.
Proof. destruct u; simpl; intros; simplify_eq; done. Qed.

Lemma Atoi_Itoa z : is_int z -> Atoi (Itoa z) = (z, None).
Proof.
  unfold int_range. simpl. intros Hz. unfold Atoi.
  destruct (Itoa_cases z) as [(u & -> & Hu & E)|(u & -> & Hu & E)].
  - destruct (dec_bytes u) as [|b l] eqn:Eu; [by destruct u|].
    destruct (dec_not_sign u b l Eu) as [? ?]. rewrite !decide_False by done. rewrite <- Eu.
    rewrite dec_value_bytes, E. rewrite !decide_False by lia. done.
  - rewrite decide_True by done. rewrite decide_False by (by destruct u). rewrite dec_value_bytes, E.
    rewrite !decide_False by lia. done.
Qed.

Lemma int_of_lit_Itoa z : is_int z -> int_of_lit (Itoa z) = Ok z.
Proof. intros H. unfold int_of_lit. by rewrite Atoi_Itoa. Qed.

(** Integers below 2^53 pass through [float64] unchanged. *)
Lemma float_round_int n : 0 < n < 2 ^ 53 -> exists e, float_round n 1 = Some (n * 2 ^ (- e), e) /\ -52 <= e <= 0.
Proof.
  intros Hn. unfold float_round. cbv zeta. change (Z.log2 1) with 0. rewrite Z.sub_0_r.
  assert (0 <= Z.log2 n <= 52) as Hl.
  { split; [apply Z.log2_nonneg|]. apply Z.lt_succ_r. apply Z.log2_lt_pow2; [lia|]. apply Hn. }
  pose proof (Z.log2_spec n ltac:(lia)) as [Hlo Hhi]. rewrite (decide_True (P := 0 <= Z.log2 n)) by lia.
  rewrite bool_decide_false by lia. replace (Z.log2 n - 52 - 0) with (Z.log2 n - 52) by lia.
  rewrite Z.max_r by lia. remember (Z.log2 n - 52) as e eqn:Ee.
  assert (0 < 2 ^ (- e)) as Hp by (apply Z.pow_pos_nonneg; lia).
  assert ((if decide (0 <= e) then (n, 1 * 2 ^ e) else (n * 2 ^ (- e), 1)) = (n * 2 ^ (- e), 1)) as ->.
  { case_decide; [|done]. assert (e = 0) as -> by lia. simpl. f_equal; lia. }
  cbv iota. rewrite Z.div_1_r, Z.mod_1_r. rewrite (decide_False (P := 1 < 2 * 0 \/ _)) by lia. exists e. split; [|lia].
  rewrite decide_False; [done|]. rewrite Z.log2_mul_pow2 by lia. lia.
Qed.

Lemma of_uint_nonneg u : 0 <= Z.of_uint u.
Proof. unfold Z.of_uint. lia. Qed.

Lemma lit_parts_Itoa z : exists neg, lit_parts (Itoa z) = Some (neg, Z.abs z, 0) /\ (if neg then z <= 0 else 0 <= z).
Proof.
  unfold lit_parts. destruct (Itoa_cases z) as [(u & -> & Hu & E)|(u & -> & Hu & E)]; pose proof (of_uint_nonneg u).
  - exists false. assert (after [Byte.x2d] (dec_bytes u) = None) as -> by by destruct u.
    rewrite <- (app_nil_r (dec_bytes u)), span_digits_dec by done. simpl. rewrite app_nil_r, dec_value_bytes. simpl.
    split; [|lia]. do 3 f_equal. lia.
  - exists true. cbn [after]. rewrite decide_True by done.
    rewrite <- (app_nil_r (dec_bytes u)), span_digits_dec by done. simpl. rewrite app_nil_r, dec_value_bytes. simpl.
    split; [|lia]. do 3 f_equal. lia.
Qed.

Lemma int_of_float_Itoa z : - 2 ^ 53 < z < 2 ^ 53 -> exists f, float_of_lit (Itoa z) = Ok f /\ int_of_float f = z.
Proof.
  intros Hz. unfold float_of_lit.
  destruct (lit_parts_Itoa z) as (neg & -> & Hneg). case_decide as H0.
  { eexists. split; [done|]. unfold int_of_float. simpl. destruct neg; (rewrite decide_True; [lia|]; unfold int_range; simpl; lia). }
  rewrite decide_True by lia. rewrite Z.pow_0_r, Z.mul_1_r.
  destruct (float_round_int (Z.abs z)) as (e & -> & He); [lia|]. eexists. split; [done|]. unfold int_of_float. simpl.
  assert ((if decide (0 <= e) then Z.abs z * 2 ^ (- e) * 2 ^ e else Z.abs z * 2 ^ (- e) / 2 ^ (- e)) = Z.abs z) as ->.
  { case_decide; [assert (e = 0) as -> by lia; simpl; lia|]. apply Z.div_mul. apply Z.pow_nonzero; lia. }
  destruct neg; rewrite decide_True; try lia; unfold int_range; simpl; lia.
Qed.

(** *** Base 64 *)

Lemma b64_value_digit z : 0 <= z < 64 -> b64_value (b64_digit z) = Some z.
Proof.
  intros Hz. assert (Forall (fun z => b64_value (b64_digit z) = Some z) (seqZ 0 64)) as H by vm_decide.
  rewrite Forall_forall in H. apply H, elem_of_seqZ. lia.
Qed.
Lemma b64_digit_text z : 0 <= z < 64 -> ascii (b64_digit z) /\ b64_digit z <> Byte.x0a /\ b64_digit z <> Byte.x0d.
Proof.
  intros Hz. assert (Forall (fun z => ascii (b64_digit z) /\ b64_digit z <> Byte.x0a /\ b64_digit z <> Byte.x0d)
    (seqZ 0 64)) as H by vm_decide.
  rewrite Forall_forall in H. apply H, elem_of_seqZ. lia.
Qed.

(** Three elements at a time. *)
Lemma list_triple_ind {A} (Q : list A -> Prop) :
  Q [] -> (forall a, Q [a]) -> (forall a b, Q [a; b]) -> (forall a b c l, Q l -> Q (a :: b :: c :: l)) -> forall l, Q l.
Proof. intros H0 H1 H2 H3. fix IH 1. intros [|a [|b [|c l]]]; [apply H0|apply H1|apply H2|apply H3, IH]. Qed.

Lemma byte_of_Z_eq z b : z = Z_of_byte b -> byte_of_Z z = b.
Proof. intros ->. apply byte_of_Z_of_byte. Qed.

Ltac b64_bytes :=
  repeat match goal with |- context [Z_of_byte ?b] => lazymatch goal with
    | _ : 0 <= Z_of_byte b < 256 |- _ => fail | _ => pose proof (Z_of_byte_range b) end end.

Lemma b64_quanta_encode l : b64_quanta (b64_encode l) = Ok l.
Proof.
  induction l as [|a|a b|a b c l IH] using list_triple_ind; [done|..]; cbn [b64_encode b64_quanta]; b64_bytes;
    rewrite !b64_value_digit by (Z.div_mod_to_equations; lia); cbn [b64_value b64_pad].
  - rewrite decide_True by done. do 2 f_equal. apply byte_of_Z_eq. Z.div_mod_to_equations; lia.
  - rewrite decide_True by done. do 2 f_equal; [|f_equal]; apply byte_of_Z_eq; Z.div_mod_to_equations; lia.
  - rewrite IH. simpl. do 2 f_equal; [|f_equal; [|f_equal]]; apply byte_of_Z_eq; Z.div_mod_to_equations; lia.
Qed.

Lemma b64_encode_text l : Forall (fun b => ascii b /\ b <> Byte.x0a /\ b <> Byte.x0d) (b64_encode l).
Proof.
  induction l as [|a|a b|a b c l IH] using list_triple_ind; [constructor|..]; cbn [b64_encode]; b64_bytes;
    repeat (constructor; [first [done | apply b64_digit_text; Z.div_mod_to_equations; lia]|]); done.
Qed.

Lemma b64_decode_encode l : b64_decode (b64_encode l) = Ok l.
Proof.
  unfold b64_decode. rewrite filter_all; [apply b64_quanta_encode|].
  eapply Forall_impl; [apply b64_encode_text|]. simpl. tauto.
Qed.
Lemma b64_ascii l : Forall ascii (b64_encode l).
Proof. eapply Forall_impl; [apply b64_encode_text|]. simpl. tauto. Qed.

(** *** Maps *)

Lemma go_map_list m : NoDup m.*1 -> go_map m = list_to_map m.
Proof. apply foldl_insert. Qed.

Lemma JMap_perm (m : gmap bytes json) : merge_sort key_le (map_to_list m) ≡ₚ map_to_list m.
Proof. apply merge_sort_Permutation. Qed.

Lemma go_map_JMap (m : gmap bytes json) : go_map (merge_sort key_le (map_to_list m)) = m.
Proof.
  assert (NoDup (merge_sort key_le (map_to_list m)).*1) as Hn.
  { rewrite JMap_perm. apply NoDup_fst_map_to_list. }
  rewrite go_map_list by done. rewrite <- (list_to_map_to_list m) at 2.
  apply (list_to_map_proper (M := gmap bytes)); [done|]. apply JMap_perm.
Qed.

#[global] Arguments Itoa : simpl never.
#[global] Arguments int_of_lit : simpl never.
#[global] Arguments float_of_lit : simpl never.
#[global] Arguments int_of_float : simpl never.
#[global] Arguments b64_encode : simpl never.
#[global] Arguments b64_decode : simpl never.
#[global] Arguments bs : simpl never.

(** A field is found by its name. *)
Lemma find_field_lookup {S} (fields : list (field S)) i k set :
  fields !! i = Some (k, set) -> NoDup fields.*1 -> find_field fields k = Some set.
Proof.
  intros Hi Hn. unfold find_field.
  assert (list_find (fun f => f.1 = k) fields = Some (i, (k, set))) as ->; [|done].
  apply list_find_Some. split_and!; [done..|]. intros j [k' set'] Hj Hlt E. simpl in E. subst k'.
  assert (j = i); [|lia]. 
  apply (NoDup_lookup fields.*1 j i k Hn); rewrite list_lookup_fmap;
    [exact (f_equal (fmap fst) Hj)|exact (f_equal (fmap fst) Hi)].
Qed.
