(* ===== verification/TsKeys.v ===== *)
(** * Threshold keys: generation and text form

    Models the second half of [src/crypto/crypto.go].  Secret shares and public
    polynomials belong to kyber: the class [Kyber] has what the code calls, and
    [KyberLaws] that a marshalled scalar or point unmarshals to itself.  The
    random source of key generation is an argument. *)
From S2P Require Import Prelude Sha256 Crypto Json JsonText.

Class Kyber (P : Prims) : Type := {
  Scalar : Type;
  Point : Type;
  (** The fields of [share.PriShare]; a struct literal builds one. *)
  share_I : PriShare -> Z;
  share_V : PriShare -> Scalar;
  mkPriShare : Z -> Scalar -> PriShare;
  share_Hash : PriShare -> bytes;
  scalar_MarshalBinary : Scalar -> Res bytes;
  scalar_UnmarshalBinary : bytes -> Res Scalar;
  (** [PubPoly.Info] and [share.NewPubPoly] on G2 *)
  pub_Info : PubPoly -> Point * list Point;
  NewPubPoly : Point -> list Point -> PubPoly;
  point_MarshalBinary : Point -> Res bytes;
  point_UnmarshalBinary : bytes -> Res Point;
  (** [share.NewPriPoly] on a secret and randomness, [Commit], [Shares] *)
  PriPoly : Type;
  Seed : Type;
  NewPriPoly : Z -> Seed -> PriPoly;
  pri_Commit : PriPoly -> PubPoly;
  pri_Shares : PriPoly -> Z -> list PriShare;
}.

Class KyberLaws {P : Prims} (K : Kyber P) : Prop := {
  share_eta s : mkPriShare (share_I s) (share_V s) = s;
  share_I_int s : is_int (share_I s);
  scalar_roundtrip v b : scalar_MarshalBinary v = Ok b -> scalar_UnmarshalBinary b = Ok v;
  info_eta p : NewPubPoly (pub_Info p).1 (pub_Info p).2 = p;
  point_roundtrip v b : point_MarshalBinary v = Ok b -> point_UnmarshalBinary b = Ok v;
}.

Section tskeys.
Context {P : Prims} {K : Kyber P}.

(** [ed25519.GenerateKey] returns public key, private key and an error; the
    private key comes first here. *)
Definition GenED25519Keys (generated : Res (bytes * bytes)) : Res (bytes * bytes) :=
  match generated with
  | Ok (pubKey, privKey) => Ok (privKey, pubKey)
  | _ => Panic
  end.

Definition GenTSKeys (t n : Z) (random : Seed) : list PriShare * PubPoly :=
  let priPoly := NewPriPoly t random in
  (pri_Shares priPoly n, pri_Commit priPoly).

(** [encode] and [decode] for the two structs below. *)
Definition encode (data : json) : bytes := Encode Compact data.

Definition decode {S} (fields : list (field S)) (zero : S) (s : bytes) : Res S :=
  j ← Decode s; decode_struct fields j zero.

(** ** Secret shares *)

Record TSPartialMarshalled := { I : Z; Binary : bytes }.

Definition MarshallTSPartialKey (priShare : PriShare) : Res TSPartialMarshalled :=
  shareAsBytes ← scalar_MarshalBinary (share_V priShare);
  Ok {| I := share_I priShare; Binary := shareAsBytes |}.

Definition UnMarshallTSPartialKey (par : TSPartialMarshalled) : Res PriShare :=
  v ← scalar_UnmarshalBinary (Binary par);
  Ok (mkPriShare (I par) v).

Definition TSPartial_json (par : TSPartialMarshalled) : json :=
  JObj [(bs "I", JNum (Itoa (I par))); (bs "Binary", JStr (b64_encode (Binary par)))].

Definition TSPartial_fields : list (field TSPartialMarshalled) := [
  (bs "I", fun j par => x ← decode_int j (I par); Ok {| I := x; Binary := Binary par |});
  (bs "Binary", fun j par => x ← decode_bytes j (Binary par); Ok {| I := I par; Binary := x |})].

Definition EncodeTSPartialKey (priShare : PriShare) : Res bytes :=
  mtspk ← MarshallTSPartialKey priShare;
  Ok (encode (TSPartial_json mtspk)).

Definition DecodeTSPartialKey (data : bytes) : Res PriShare :=
  par ← decode TSPartial_fields {| I := 0; Binary := [] |} data;
  UnMarshallTSPartialKey par.

Definition EqualTSPartialKey (p1 p2 : PriShare) : bool :=
  bool_decide (share_I p1 = share_I p2) && bool_decide (share_Hash p1 = share_Hash p2).

(** ** Public polynomials *)

Record TSPublicMarshalled := { BaseBytes : bytes; CommitBytes : list bytes }.

(** The loop over the commitments stops at the first error. *)
Fixpoint marshal_points (commits : list Point) : Res (list bytes) :=
  match commits with
  | [] => Ok []
  | commit :: commits => b ← point_MarshalBinary commit; bs ← marshal_points commits; Ok (b :: bs)
  end.

Fixpoint unmarshal_points (l : list bytes) : Res (list Point) :=
  match l with
  | [] => Ok []
  | cb :: l => tmp ← point_UnmarshalBinary cb; ps ← unmarshal_points l; Ok (tmp :: ps)
  end.

Definition MarshallTSPublicKey (pubKey : PubPoly) : Res TSPublicMarshalled :=
  let '(base, commits) := pub_Info pubKey in
  baseAsBytes ← point_MarshalBinary base;
  commitBytes ← marshal_points commits;
  Ok {| BaseBytes := baseAsBytes; CommitBytes := commitBytes |}.

Definition UnMarshallTSPublicKey (tspm : TSPublicMarshalled) : Res PubPoly :=
  baseDecoded ← point_UnmarshalBinary (BaseBytes tspm);
  commitsDecoded ← unmarshal_points (CommitBytes tspm);
  Ok (NewPubPoly baseDecoded commitsDecoded).

Definition TSPublic_json (tspm : TSPublicMarshalled) : json :=
  JObj [(bs "BaseBytes", JStr (b64_encode (BaseBytes tspm)));
        (bs "CommitBytes", JArr (JStr ∘ b64_encode <$> CommitBytes tspm))].

Definition TSPublic_fields : list (field TSPublicMarshalled) := [
  (bs "BaseBytes", fun j t => x ← decode_bytes j (BaseBytes t); Ok {| BaseBytes := x; CommitBytes := CommitBytes t |});
  (bs "CommitBytes", fun j t =>
     x ← decode_list decode_bytes [] j (CommitBytes t); Ok {| BaseBytes := BaseBytes t; CommitBytes := x |})].

Definition EncodeTSPublicKey (pubkey : PubPoly) : Res bytes :=
  tspm ← MarshallTSPublicKey pubkey;
  Ok (encode (TSPublic_json tspm)).

Definition DecodeTSPublicKey (data : bytes) : Res PubPoly :=
  tspm ← decode TSPublic_fields {| BaseBytes := []; CommitBytes := [] |} data;
  UnMarshallTSPublicKey tspm.

(** ** Round trips *)

Lemma bs_ascii (s : string) : forallb (fun b => bool_decide (ascii b)) (bs s) = true -> Forall ascii (bs s).
Proof. intros H. apply Forall_forall. intros b Hb%list_elem_of_In. rewrite forallb_forall in H. by apply H, bool_decide_eq_true in Hb. Qed.

Lemma TSPartial_decode par rest : is_int (I par) ->
  decode TSPartial_fields {| I := 0; Binary := [] |} (encode (TSPartial_json par) ++ rest) = Ok par.
Proof.
  intros Hi. unfold decode, encode. rewrite json_parse_print; [| |done].
  - cbn. rewrite (find_field_lookup TSPartial_fields 0 _ _ eq_refl) by vm_decide. cbn.
    rewrite int_of_lit_Itoa by done. cbn.
    rewrite (find_field_lookup TSPartial_fields 1 _ _ eq_refl) by vm_decide. cbn.
    rewrite b64_decode_encode. cbn. by destruct par.
  - cbn. split_and!; eauto using b64_ascii; by apply bs_ascii.
Qed.

Lemma decode_slice_bytes l old : decode_slice decode_bytes [] (JStr ∘ b64_encode <$> l) old = Ok l.
Proof. revert old. induction l as [|b l IH]; intros old; csimpl; [done|]. rewrite b64_decode_encode. cbn. by rewrite IH. Qed.

Lemma TSPublic_decode t rest :
  decode TSPublic_fields {| BaseBytes := []; CommitBytes := [] |} (encode (TSPublic_json t) ++ rest) = Ok t.
Proof.
  unfold decode, encode. rewrite json_parse_print.
  - cbn. rewrite (find_field_lookup TSPublic_fields 0 _ _ eq_refl) by vm_decide. cbn. rewrite b64_decode_encode. cbn.
    rewrite (find_field_lookup TSPublic_fields 1 _ _ eq_refl) by vm_decide. cbn. rewrite decode_slice_bytes. cbn.
    by destruct t.
  - cbn. split_and!; [by apply bs_ascii|apply b64_ascii|by apply bs_ascii| |done].
    induction (CommitBytes t); csimpl; eauto using b64_ascii.
  - cbn. assert (foldr (fun j d => depth j `max` d) 0 (JStr ∘ b64_encode <$> CommitBytes t) <= 0) as H.
    { induction (CommitBytes t); csimpl; lia. }
    unfold maxNestingDepth. lia.
Qed.

Context {L : KyberLaws K}.

Lemma unmarshal_marshal ps l : marshal_points ps = Ok l -> unmarshal_points l = Ok ps.
Proof.
  revert l. induction ps as [|p ps IH]; intros l; simpl; [by intros [= <-]|].
  destruct (point_MarshalBinary p) as [b| |] eqn:Eb; [|done..]. simpl.
  destruct (marshal_points ps) as [bs'| |]; [|done..]. simpl. intros [= <-]. simpl.
  rewrite (point_roundtrip _ _ Eb). simpl. by rewrite (IH bs').
Qed.

Lemma partial_key_roundtrip s b rest : EncodeTSPartialKey s = Ok b -> DecodeTSPartialKey (b ++ rest) = Ok s.
Proof.
  unfold EncodeTSPartialKey, MarshallTSPartialKey, DecodeTSPartialKey.
  destruct (scalar_MarshalBinary _) as [v| |] eqn:Ev; [|done..]. simpl. intros [= <-].
  rewrite TSPartial_decode by apply share_I_int. simpl. unfold UnMarshallTSPartialKey. simpl.
  rewrite (scalar_roundtrip _ _ Ev). simpl. by rewrite share_eta.
Qed.

Lemma public_key_roundtrip p b rest : EncodeTSPublicKey p = Ok b -> DecodeTSPublicKey (b ++ rest) = Ok p.
Proof.
  unfold EncodeTSPublicKey, MarshallTSPublicKey, DecodeTSPublicKey. pose proof (info_eta p) as E.
  destruct (pub_Info p) as [base commits]. simpl in E.
  destruct (point_MarshalBinary base) as [b0| |] eqn:Eb; [|done..]. simpl.
  destruct (marshal_points commits) as [cs| |] eqn:Ec; [|done..]. simpl. intros [= <-].
  rewrite TSPublic_decode. simpl. unfold UnMarshallTSPublicKey. simpl.
  rewrite (point_roundtrip _ _ Eb). simpl. rewrite (unmarshal_marshal _ _ Ec). simpl. by rewrite E.
Qed.
End tskeys.
