(* ===== verification/Committee.v ===== *)
(** * Package core: parameters and the committee

    Models [src/core/config.go].  [Authorities] is a Go map: what iterates it
    takes the iteration order as an argument, a permutation of the entries. *)
From S2P Require Import Prelude Crypto.

Record Parameters := {
  SyncTimeout : Z;
  NetwrokDelay : Z;
  MinBlockDelay : Z;
  DDos : bool;
  Faults : Z;
  RetryDelay : Z;
  Protocol : Z;
  Latency : list (list Z);
}.

Definition DefaultParameters : Parameters := {|
  SyncTimeout := 500; NetwrokDelay := 2000; MinBlockDelay := 0; DDos := false;
  Faults := 0; RetryDelay := 5000; Protocol := 0; Latency := [];
|}.

Abbreviation NodeID := Z.
Definition NONE : NodeID := -1.

Record Authority := { Name : PublickKey; Id : NodeID; Addr : string }.

(** The zero value a missing key reads as. *)
Definition Authority_zero : Authority := {| Name := {| Pubkey := [] |}; Id := 0; Addr := "" |}.

Record Committee := { Authorities : gmap NodeID Authority }.

(** A [range] over the map visits its entries in some order. *)
Definition range_order (c : Committee) (order : list (NodeID * Authority)) : Prop :=
  order ≡ₚ map_to_list (Authorities c).

Definition Committee_ID (order : list (NodeID * Authority)) (name : PublickKey) : NodeID :=
  match list_find (fun e => Pubkey (Name e.2) = Pubkey name) order with
  | Some (_, (id, _)) => id
  | None => NONE
  end.

Definition IDByAddres (order : list (NodeID * Authority)) (address : string) : NodeID :=
  match list_find (fun e => Addr e.2 = address) order with
  | Some (_, (id, _)) => id
  | None => NONE
  end.

Definition Committee_Size (c : Committee) : Z := Z.of_nat (size (Authorities c)).

Definition Committee_Name (c : Committee) (id : NodeID) : PublickKey :=
  Name (default Authority_zero (Authorities c !! id)).

Definition Address (c : Committee) (id : NodeID) : string :=
  Addr (default Authority_zero (Authorities c !! id)).

Definition BroadCast (order : list (NodeID * Authority)) (id : NodeID) : list string :=
  foldl (fun addrs e => if decide (e.1 <> id) then addrs ++ [Addr e.2] else addrs) [] order.

(** Go's integer division truncates. *)
Definition HightThreshold (c : Committee) : Z :=
  let n := Z.of_nat (size (Authorities c)) in 2 * ((n - 1) ÷ 3) + 1.

Definition LowThreshold (c : Committee) : Z :=
  let n := Z.of_nat (size (Authorities c)) in (n - 1) ÷ 3 + 1.

(** ** Thresholds *)

(** The number of faults the thresholds are meant for. *)
Definition max_faults (c : Committee) : Z := (Committee_Size c - 1) / 3.

Lemma thresholds_faults c :
  (0 < size (Authorities c))%nat ->
  HightThreshold c = 2 * max_faults c + 1 /\ LowThreshold c = max_faults c + 1 /\
  0 <= max_faults c /\ 3 * max_faults c + 1 <= Committee_Size c <= 3 * max_faults c + 3.
Proof.
  unfold HightThreshold, LowThreshold, max_faults, Committee_Size. intros Hn.
  rewrite Z.quot_div_nonneg by lia. split_and!; Z.to_euclidean_division_equations; lia.
Qed.

Lemma HightThreshold_pos c : 0 < HightThreshold c.
Proof.
  unfold HightThreshold. destruct (size (Authorities c)) as [|n]; [done|].
  rewrite Z.quot_div_nonneg by lia. pose proof (Z.div_pos (Z.of_nat (S n) - 1) 3). lia.
Qed.

Lemma HightThreshold_le_size c :
  (0 < size (Authorities c))%nat -> HightThreshold c <= Committee_Size c - max_faults c.
Proof. intros H. destruct (thresholds_faults c H) as (-> & _ & ? & ?). lia. Qed.

(** A quorum: members of the committee, at least [HightThreshold] of them. *)
Definition quorum (c : Committee) (S : gset NodeID) : Prop :=
  S ⊆ dom (Authorities c) /\ HightThreshold c <= Z.of_nat (size S).

Lemma size_intersection_ge (U A B : gset NodeID) :
  A ⊆ U -> B ⊆ U -> (size A + size B <= size U + size (A ∩ B))%nat.
Proof.
  intros HA HB.
  pose proof (size_union_alt A B) as E.
  pose proof (subseteq_size (A ∪ B) U ltac:(set_solver)) as S1.
  assert (size B = size (B ∖ A) + size (A ∩ B))%nat as E2.
  { rewrite <- size_union by set_solver. f_equal. apply leibniz_equiv.
    intros x. destruct (decide (x ∈ A)); set_solver. }
  lia.
Qed.

(** The last and the first [h] of [n] members: two quorums that overlap as
    little as possible. *)
Lemma window_sets (l : list NodeID) (h : nat) :
  NoDup l -> (h <= length l)%nat ->
  let A : gset NodeID := list_to_set (take h l) in
  let B : gset NodeID := list_to_set (drop (length l - h) l) in
  size A = h /\ size B = h /\ size (A ∩ B) = (2 * h - length l)%nat.
Proof.
  intros Hnd Hh A B.
  assert (size A = h) as EA.
  { unfold A. rewrite size_list_to_set by (by apply NoDup_take). rewrite length_take. lia. }
  assert (size B = h) as EB.
  { unfold B. rewrite size_list_to_set by (by apply NoDup_drop). rewrite length_drop. lia. }
  split_and!; [done..|].
  assert (A ∩ B = list_to_set (drop (length l - h) (take h l))) as ->.
  { apply set_eq. intros x. unfold A, B. rewrite elem_of_intersection, !elem_of_list_to_set.
    rewrite !list_elem_of_lookup. setoid_rewrite lookup_drop. split.
    - intros [[i Hi] [j Hj]]. apply lookup_take_Some in Hi as [Hi Hlt].
      assert (i = length l - h + j)%nat by (eapply NoDup_lookup; eauto). subst i.
      exists j. by apply lookup_take_Some.
    - intros [j Hj]. apply lookup_take_Some in Hj as [Hj Hlt].
      split; [exists (length l - h + j)%nat; by apply lookup_take_Some | by exists j]. }
  rewrite size_list_to_set by (by apply NoDup_drop, NoDup_take).
  rewrite length_drop, length_take. lia.
Qed.

(** C22. Two quorums of votes always share more than [f] nodes, so at least one
    honest one, exactly when the committee size is [3f+1]: for every other
    size two sets of [HightThreshold] members overlap in at most [f]. *)
Theorem quorum_intersection (c : Committee) :
  (0 < size (Authorities c))%nat ->
  (forall A B, quorum c A -> quorum c B -> LowThreshold c <= Z.of_nat (size (A ∩ B)))
  <-> Committee_Size c mod 3 = 1.
Proof.
  intros Hn. destruct (thresholds_faults c Hn) as (EH & EL & Hf & Hs).
  unfold quorum. rewrite EH, EL. unfold Committee_Size in *.
  set (f := max_faults c) in *. set (U := dom (Authorities c)).
  assert (size U = size (Authorities c)) as EU by apply size_dom.
  split.
  - intros Hall.
    set (h := Z.to_nat (2 * f + 1)). set (l := elements U).
    destruct (window_sets l h (NoDup_elements U)) as (SA & SB & SI).
    { change (length l) with (size U). lia. }
    specialize (Hall (list_to_set (take h l)) (list_to_set (drop (length l - h) l))).
    rewrite SI, SA, SB in Hall. change (length l) with (size U) in Hall.
    assert (forall k : list NodeID, k ⊆ l -> (list_to_set k : gset NodeID) ⊆ U) as Hsub.
    { intros k Hk x Hx. apply elem_of_list_to_set in Hx. by apply elem_of_elements, Hk. }
    ospecialize (Hall _ _).
    { split; [apply Hsub, sublist_subseteq, sublist_take | lia]. }
    { split; [apply Hsub, sublist_subseteq, sublist_drop | lia]. }
    Z.to_euclidean_division_equations; lia.
  - intros Hmod A B [HA SA] [HB SB].
    pose proof (size_intersection_ge U A B HA HB).
    Z.to_euclidean_division_equations; lia.
Qed.

Definition demo_committee (n : nat) : Committee := {|
  Authorities := list_to_map ((fun i => (Z.of_nat i,
    {| Name := {| Pubkey := replicate 32 (byte_of_Z (Z.of_nat i)) |};
       Id := Z.of_nat i; Addr := "" |})) <$> seq 0 n) |}.

Lemma quorum_intersection_witness :
  (forall A B, quorum (demo_committee 4) A -> quorum (demo_committee 4) B ->
     LowThreshold (demo_committee 4) <= Z.of_nat (size (A ∩ B)))
  <-> Committee_Size (demo_committee 4) mod 3 = 1.
Proof. apply (quorum_intersection (demo_committee 4)). vm_compute. lia. Defined.

(** ** Lookup by key and by address, broadcast *)

Lemma BroadCast_filter order id :
  BroadCast order id = Addr ∘ snd <$> filter (fun e => e.1 <> id) order.
Proof. unfold BroadCast. by rewrite (foldl_append_filter (fun e => e.1 <> id) (fun e => Addr e.2)). Qed.

(** Whatever order the map is iterated in, a broadcast from [id] addresses
    every other member exactly once and never the sender. *)
Theorem BroadCast_others (c : Committee) order id :
  range_order c order ->
  BroadCast order id ≡ₚ (Addr ∘ snd <$> map_to_list (delete id (Authorities c))) /\
  (id ∈ dom (Authorities c) -> Z.of_nat (length (BroadCast order id)) = Committee_Size c - 1).
Proof.
  intros Ho. rewrite BroadCast_filter.
  assert (filter (fun e => e.1 <> id) order ≡ₚ map_to_list (delete id (Authorities c))) as E.
  { rewrite Ho. destruct (Authorities c !! id) as [a|] eqn:Ea.
    - rewrite <- (map_to_list_delete _ _ _ Ea), filter_cons_False by naive_solver.
      rewrite filter_all; [done|]. apply Forall_forall. intros [k v] H%elem_of_map_to_list; simpl.
      intros ->. by rewrite lookup_delete_eq in H.
    - rewrite delete_id by done. rewrite filter_all; [done|].
      apply Forall_forall. intros [k v] H%elem_of_map_to_list; simpl. naive_solver. }
  split; [by rewrite E|]. intros [a Ha]%elem_of_dom.
  rewrite length_fmap, (Permutation_length E), length_map_to_list.
  rewrite map_size_delete_Some by done. unfold Committee_Size.
  pose proof (map_size_ne_0_lookup_2 (Authorities c) id ltac:(eauto)). lia.
Qed.

Lemma BroadCast_others_witness :
  length (BroadCast (map_to_list (Authorities (demo_committee 4))) 2) = 3%nat.
Proof.
  pose proof (proj2 (BroadCast_others (demo_committee 4) _ 2 (Permutation_refl _))) as H.
  apply Nat2Z.inj. rewrite H; [done|]. apply elem_of_dom. vm_compute. eauto.
Defined.
