(* ===== verification/Pool.v ===== *)
(** * Package pool: the transaction queue and its batches

    Models [src/pool]: the ring buffer [txQueue], the load generator
    [txMaker] and [Pool].  The abstract queue [fifo] is what the ring buffer
    implements when the batch size is smaller than the buffer. *)
From S2P Require Import Prelude.

Abbreviation Transaction := bytes.

Record Batch := { ID : Z; Txs : list Transaction }.

#[global] Instance Batch_eq_dec : EqDecision Batch.
Proof. solve_decision. Defined.

Module PoolParameters.
Record t := { Rate : Z; TxSize : Z; BatchSize : Z; MaxQueueSize : Z }.

Definition DefaultParameters : t :=
  {| Rate := 1000; TxSize := 16; BatchSize := 200; MaxQueueSize := 10000 |}.
End PoolParameters.

(** The channel the batches leave through is part of the state. *)
Record txQueue := {
  queue : list Transaction;
  batchChannel : list Batch;
  wind : Z;
  rind : Z;
  nums : Z;
  maxQueueSize : Z;
  batchSize : Z;
  N : Z;
  QId : Z;
  bcnt : Z;
}.

(** [make([]T, n)] panics on a negative length. *)
Definition newTxQueue (maxQueueSize batchSize N Id : Z) : Res txQueue :=
  if decide (maxQueueSize < 0) then Panic else
  Ok {| queue := replicate (Z.to_nat maxQueueSize) []; batchChannel := [];
        wind := 0; rind := -1; nums := 0;
        maxQueueSize := maxQueueSize; batchSize := batchSize; N := N; QId := Id; bcnt := 0 |}.

(** The loop of [make]: [i] more transactions, the batch collected so far. *)
Fixpoint make_loop (i : nat) (q : txQueue) (txs : list Transaction) : Res (txQueue * list Transaction) :=
  match i with
  | O => Ok (q, txs)
  | S i =>
      if decide (maxQueueSize q = 0) then Panic else
      let r := Z.rem (wrap64 (rind q + 1)) (maxQueueSize q) in
      match queue q !! Z.to_nat r with
      | Some tx =>
          if decide (r < 0) then Panic else
          make_loop i
            {| queue := queue q; batchChannel := batchChannel q; wind := wind q; rind := r;
               nums := wrap64 (nums q - 1); maxQueueSize := maxQueueSize q; batchSize := batchSize q;
               N := N q; QId := QId q; bcnt := bcnt q |} (txs ++ [tx])
      | None => Panic
      end
  end.

(** The batch is sent, then the deferred function counts it. *)
Definition txQueue_make (q : txQueue) : Res txQueue :=
  let id := wrap64 (QId q + N q * bcnt q) in
  '(q', txs) ← make_loop (Z.to_nat (batchSize q)) q [];
  Ok {| queue := queue q'; batchChannel := batchChannel q' ++ [{| ID := id; Txs := txs |}];
        wind := wind q'; rind := rind q'; nums := nums q'; maxQueueSize := maxQueueSize q';
        batchSize := batchSize q'; N := N q'; QId := QId q'; bcnt := wrap64 (bcnt q' + 1) |}.

(** One iteration of [run]: a transaction arrives. *)
Definition txQueue_run (q : txQueue) (tx : Transaction) : Res txQueue :=
  if decide (wind q = rind q) then Ok q
  else if decide (0 <= wind q < Z.of_nat (length (queue q))) then
    if decide (maxQueueSize q = 0) then Panic else
    let q1 := {| queue := <[Z.to_nat (wind q) := tx]> (queue q); batchChannel := batchChannel q;
                 wind := Z.rem (wrap64 (wind q + 1)) (maxQueueSize q); rind := rind q;
                 nums := wrap64 (nums q + 1); maxQueueSize := maxQueueSize q; batchSize := batchSize q;
                 N := N q; QId := QId q; bcnt := bcnt q |} in
    if decide (batchSize q1 <= nums q1) then txQueue_make q1 else Ok q1
  else Panic.

Fixpoint txQueue_run_all (q : txQueue) (txs : list Transaction) : Res txQueue :=
  match txs with
  | [] => Ok q
  | tx :: txs => q' ← txQueue_run q tx; txQueue_run_all q' txs
  end.

(** [get]: a batch when the channel holds one, else the empty batch -1. *)
Definition txQueue_get (q : txQueue) : Batch * txQueue :=
  match batchChannel q with
  | b :: rest =>
      (b, {| queue := queue q; batchChannel := rest; wind := wind q; rind := rind q; nums := nums q;
             maxQueueSize := maxQueueSize q; batchSize := batchSize q; N := N q; QId := QId q; bcnt := bcnt q |})
  | [] => ({| ID := -1; Txs := [] |}, q)
  end.

Definition PRECISION : Z := 20.
Definition BURST_DURATION : Z := 1000 ÷ PRECISION.

Record txMaker := { txSize : Z; rate : Z }.

(** What one tick of the maker sends. *)
Definition txMaker_run_tick (m : txMaker) : Res (list Transaction) :=
  let nums := rate m ÷ PRECISION in
  if decide (0 < nums /\ txSize m < 0) then Panic
  else Ok (replicate (Z.to_nat nums) (replicate (Z.to_nat (txSize m)) Byte.x00)).

Record Pool := { p_parameters : PoolParameters.t; p_queue : txQueue; p_maker : txMaker }.

Definition NewPool (parameters : PoolParameters.t) (N Id : Z) : Res Pool :=
  q ← newTxQueue (PoolParameters.MaxQueueSize parameters) (PoolParameters.BatchSize parameters) N Id;
  Ok {| p_parameters := parameters; p_queue := q;
        p_maker := {| txSize := PoolParameters.TxSize parameters; rate := PoolParameters.Rate parameters |} |}.

(** One tick of a running pool: the maker's burst goes through the queue. *)
Definition Pool_Run_tick (p : Pool) : Res Pool :=
  txs ← txMaker_run_tick (p_maker p);
  q ← txQueue_run_all (p_queue p) txs;
  Ok {| p_parameters := p_parameters p; p_queue := q; p_maker := p_maker p |}.

Definition GetBatch (p : Pool) : Batch * Pool :=
  let '(b, q) := txQueue_get (p_queue p) in
  (b, {| p_parameters := p_parameters p; p_queue := q; p_maker := p_maker p |}).

(** ** The abstract queue *)

Record fifo := { f_pending : list Transaction; f_out : list Batch; f_count : nat }.

Definition fifo_add (size : nat) (id : nat -> Z) (f : fifo) (tx : Transaction) : fifo :=
  let p := f_pending f ++ [tx] in
  if decide (size <= length p)%nat
  then {| f_pending := []; f_out := f_out f ++ [{| ID := id (f_count f); Txs := p |}];
          f_count := S (f_count f) |}
  else {| f_pending := p; f_out := f_out f; f_count := f_count f |}.

Definition fifo_empty : fifo := {| f_pending := []; f_out := []; f_count := 0 |}.

(** ** The ring buffer implements the abstract queue *)

Section ring.
Context (m b : Z) (Hb : 0 < b <= m) (Hm : m < 2 ^ 62).

Definition slot (r i : Z) : nat := Z.to_nat ((r + 1 + i) mod m).

(** The unread transactions are in the slots after the read index. *)
Definition holds (q : txQueue) (txs : list Transaction) : Prop :=
  forall i tx, txs !! i = Some tx -> queue q !! slot (rind q) (Z.of_nat i) = Some tx.

Record ring_ok (q : txQueue) : Prop := {
  ring_max : maxQueueSize q = m;
  ring_batch : batchSize q = b;
  ring_len : Z.of_nat (length (queue q)) = m;
  ring_rind : -1 <= rind q < m;
  ring_nums : 0 <= nums q < b;
  ring_wind : wind q = (rind q + 1 + nums q) mod m;
}.

Record refines (Id' N' : Z) (q : txQueue) (f : fifo) : Prop := {
  ref_ring : ring_ok q;
  ref_len : Z.of_nat (length (f_pending f)) = nums q;
  ref_holds : holds q (f_pending f);
  ref_out : batchChannel q = f_out f;
  ref_count : bcnt q = wrap64 (Z.of_nat (f_count f));
  ref_id : QId q = Id' /\ N q = N';
}.

Lemma slot_step r i : -1 <= r < m -> slot ((r + 1) mod m) i = slot r (1 + i).
Proof.
  intros. unfold slot. f_equal.
  replace ((r + 1) mod m + 1 + i) with ((r + 1) mod m + (1 + i)) by lia.
  rewrite Z.add_mod_idemp_l by lia. f_equal; lia.
Qed.

Lemma slot_inj r i j : 0 <= i < m -> 0 <= j < m -> slot r i = slot r j -> i = j.
Proof.
  unfold slot. intros Hi Hj E.
  pose proof (Z.mod_pos_bound (r + 1 + i) m ltac:(lia)).
  pose proof (Z.mod_pos_bound (r + 1 + j) m ltac:(lia)).
  assert ((r + 1 + i) mod m = (r + 1 + j) mod m) as E' by lia.
  pose proof (Z.div_mod (r + 1 + i) m ltac:(lia)).
  pose proof (Z.div_mod (r + 1 + j) m ltac:(lia)).
  set (k := (r + 1 + i) / m - (r + 1 + j) / m). assert (m * k = i - j) by lia.
  destruct (Z.lt_trichotomy k 0) as [?|[->|?]]; nia.
Qed.

(** Reading [txs] moves the read index past them and nothing else. *)
Lemma make_loop_spec txs q acc :
  maxQueueSize q = m -> -1 <= rind q < m ->
  Z.of_nat (length txs) <= nums q < m + 1 -> holds q txs ->
  exists q', make_loop (length txs) q acc = Ok (q', acc ++ txs) /\
    queue q' = queue q /\ batchChannel q' = batchChannel q /\ wind q' = wind q /\
    -1 <= rind q' < m /\
    (rind q' + 1) mod m = (rind q + 1 + Z.of_nat (length txs)) mod m /\
    (txs <> [] -> 0 <= rind q') /\
    nums q' = nums q - Z.of_nat (length txs) /\
    maxQueueSize q' = m /\ batchSize q' = batchSize q /\ N q' = N q /\ QId q' = QId q /\
    bcnt q' = bcnt q.
Proof.
  revert q acc. induction txs as [|tx txs IH]; intros q acc Em Hr Hn Hh; simpl.
  { exists q. rewrite app_nil_r. split_and!; try done; try lia; by rewrite Z.add_0_r. }
  rewrite Em, decide_False by lia. wrap_lia.
  rewrite Z.rem_mod_nonneg by lia.
  pose proof (Z.mod_pos_bound (rind q + 1) m ltac:(lia)) as Hr'.
  pose proof (Hh 0%nat tx eq_refl) as E0. unfold slot in E0. rewrite Z.add_0_r in E0.
  rewrite E0, decide_False by lia. simpl in Hn.
  set (q1 := Build_txQueue _ _ _ _ _ _ _ _ _ _).
  assert (holds q1 txs) as Hh1.
  { intros i t Hi. simpl. rewrite slot_step by done.
    replace (1 + Z.of_nat i) with (Z.of_nat (S i)) by lia. by apply Hh. }
  assert (nums q1 = nums q - 1) as En by (simpl; by wrap_lia).
  destruct (IH q1 (acc ++ [tx]) eq_refl ltac:(simpl; lia) ltac:(lia) Hh1)
    as (q' & E & H1 & H2 & H3 & H4 & H5 & H6 & H7 & H8 & H9 & H10 & H11 & H12).
  rewrite En in H7. exists q'. rewrite E, <- app_assoc. simpl in *.
  split_and!; try done; try lia.
  - rewrite H5. replace ((rind q + 1) mod m + 1 + Z.of_nat (length txs))
      with ((rind q + 1) mod m + (1 + Z.of_nat (length txs))) by lia.
    rewrite Z.add_mod_idemp_l by lia. f_equal. lia.
  - intros _. destruct txs; [|by apply H6]. simpl in E. simplify_eq. simpl. lia.
Qed.

Lemma wind_not_rind q : b < m -> ring_ok q -> wind q <> rind q.
Proof.
  intros Hbm [_ _ _ Hr Hn Ew] E. rewrite Ew in E.
  pose proof (Z.mod_pos_bound (rind q + 1 + nums q) m ltac:(lia)).
  pose proof (Z.div_mod (rind q + 1 + nums q) m ltac:(lia)).
  set (k := (rind q + 1 + nums q) / m) in *.
  destruct (Z.lt_trichotomy k 0) as [?|[?|?]]; nia.
Qed.

(** Writing at the write index appends to the unread transactions. *)
Lemma holds_put q txs tx :
  ring_ok q -> Z.of_nat (length txs) = nums q -> holds q txs ->
  forall i t, (txs ++ [tx]) !! i = Some t ->
    <[Z.to_nat (wind q) := tx]> (queue q) !! slot (rind q) (Z.of_nat i) = Some t.
Proof.
  intros [_ _ El Hr Hn Ew] En Hh i t Hi.
  assert (slot (rind q) (nums q) = Z.to_nat (wind q)) as Es by (unfold slot; by rewrite Ew).
  pose proof (Z.mod_pos_bound (rind q + 1 + nums q) m ltac:(lia)).
  apply lookup_snoc_Some in Hi as [[Hlt Hi]|[-> <-]].
  - rewrite list_lookup_insert_ne; [by apply Hh|]. rewrite <- Es. intros E.
    apply slot_inj in E; lia.
  - rewrite En, Es. apply list_lookup_insert_eq. lia.
Qed.

Definition batch_id (Id' N' : Z) (k : nat) : Z := wrap64 (Id' + N' * wrap64 (Z.of_nat k)).

(** One transaction: the ring never reports full, and does what the
    abstract queue does. *)
Lemma run_refines Id' N' q f tx :
  b < m -> refines Id' N' q f ->
  exists q', txQueue_run q tx = Ok q' /\
    refines Id' N' q' (fifo_add (Z.to_nat b) (batch_id Id' N') f tx).
Proof.
  intros Hbm [Hok En Hh Eo Ec [Ei EN]]. pose proof (wind_not_rind q Hbm Hok) as Hne.
  pose proof (holds_put q (f_pending f) tx Hok En Hh) as Hput.
  destruct Hok as [Em Eb El Hr Hn Ew].
  pose proof (Z.mod_pos_bound (rind q + 1 + nums q) m ltac:(lia)).
  unfold txQueue_run. rewrite decide_False, decide_True by lia.
  rewrite Em, decide_False by lia. do 2 wrap_lia. rewrite Z.rem_mod_nonneg by lia.
  assert ((wind q + 1) mod m = (rind q + 1 + (nums q + 1)) mod m) as Ew'.
  { rewrite Ew, Z.add_mod_idemp_l by lia. f_equal. lia. }
  simpl. rewrite Eb. unfold fifo_add. rewrite length_app; simpl.
  case_decide; case_decide; try lia.
  - set (q1 := Build_txQueue _ _ _ _ _ _ _ _ _ _).
    destruct (make_loop_spec (f_pending f ++ [tx]) q1 [])
      as (q' & E & G1 & G2 & G3 & G4 & G5 & G6 & G7 & G8 & G9 & G10 & G11 & G12);
      [done|done|rewrite length_app; simpl; lia|done|].
    rewrite length_app in E, G5, G7; simpl in *.
    unfold txQueue_make. replace (Z.to_nat (batchSize q1)) with (length (f_pending f) + 1)%nat
      by (simpl; lia).
    rewrite E. simpl. eexists. split; [done|].
    split; simpl; [|lia|intros i t Hi; by rewrite lookup_nil in Hi| | |by rewrite G10, G11].
    + split; simpl; try done; try lia; [by rewrite G1, length_insert|].
      rewrite G3, Ew'. replace (rind q' + 1 + nums q') with (rind q' + 1) by lia.
      rewrite G5. f_equal. lia.
    + rewrite G2, Eo. unfold batch_id. by rewrite <- Ei, <- EN, Ec.
    + rewrite G12, Ec, wrap_add_l by lia. f_equal. lia.
  - eexists. split; [done|]. split; simpl; try done; [|rewrite length_app; simpl; lia].
    split; simpl; try done; [by rewrite length_insert|lia].
Qed.

Lemma run_all_refines Id' N' txs q f :
  b < m -> refines Id' N' q f ->
  exists q', txQueue_run_all q txs = Ok q' /\
    refines Id' N' q' (foldl (fifo_add (Z.to_nat b) (batch_id Id' N')) f txs).
Proof.
  revert q f. induction txs as [|tx txs IH]; intros q f Hbm R; simpl; [by eauto|].
  destruct (run_refines Id' N' q f tx Hbm R) as (q' & -> & R'). simpl. by apply IH.
Qed.

Lemma newTxQueue_refines Id' N' :
  exists q, newTxQueue m b N' Id' = Ok q /\ refines Id' N' q fifo_empty.
Proof.
  unfold newTxQueue. rewrite decide_False by lia. eexists. split; [done|].
  split; simpl; try done. split; simpl; try done; try lia.
  rewrite length_replicate. lia.
Qed.
End ring.

(** ** What the pool delivers *)

Section fifo.
Context (size : nat) (id : nat -> Z) (Hsize : (0 < size)%nat).

(** The abstract queue loses, repeats and reorders nothing, cuts full
    batches only and numbers them in order. *)
Record fifo_inv (txs : list Transaction) (f : fifo) : Prop := {
  fi_all : mjoin (Txs <$> f_out f) ++ f_pending f = txs;
  fi_full : Forall (fun x => length (Txs x) = size) (f_out f);
  fi_part : (length (f_pending f) < size)%nat;
  fi_ids : ID <$> f_out f = id <$> seq 0 (f_count f);
}.

Lemma fifo_add_inv txs f tx : fifo_inv txs f -> fifo_inv (txs ++ [tx]) (fifo_add size id f tx).
Proof.
  intros [E F L I]. unfold fifo_add. pose proof (length_app (f_pending f) [tx]) as El. simpl in El.
  case_decide; split; simpl; try done; try lia.
  - rewrite fmap_app, join_app. simpl. by rewrite !app_nil_r, app_assoc, E.
  - apply Forall_app. split; [done|]. apply Forall_singleton. simpl. lia.
  - change (ID <$> (f_out f ++ [Build_Batch (id (f_count f)) (f_pending f ++ [tx])])
            = id <$> seq 0 (S (f_count f))). by rewrite seq_S, !fmap_app, I.
  - by rewrite app_assoc, E.
Qed.

Lemma fifo_run_inv txs0 txs f : fifo_inv txs0 f -> fifo_inv (txs0 ++ txs) (foldl (fifo_add size id) f txs).
Proof.
  revert txs0 f. induction txs as [|tx txs IH]; intros txs0 f I; simpl; [by rewrite app_nil_r|].
  replace (txs0 ++ tx :: txs) with ((txs0 ++ [tx]) ++ txs) by (by rewrite <- app_assoc).
  by apply IH, fifo_add_inv.
Qed.

Lemma fifo_empty_inv : fifo_inv [] fifo_empty.
Proof. by split. Qed.
End fifo.

(** A run of the queue from a new one. *)
Lemma txQueue_run_spec (m b n id : Z) (txs : list Transaction) :
  0 < b < m -> m < 2 ^ 62 ->
  exists q0 q rest, newTxQueue m b n id = Ok q0 /\ txQueue_run_all q0 txs = Ok q /\
    mjoin (Txs <$> batchChannel q) ++ rest = txs /\
    Z.of_nat (length rest) = nums q /\ nums q < b /\ holds m q rest /\
    Forall (fun x => Z.of_nat (length (Txs x)) = b) (batchChannel q) /\
    ID <$> batchChannel q = batch_id id n <$> seq 0 (length (batchChannel q)).
Proof.
  intros Hb Hm. destruct (newTxQueue_refines m b ltac:(lia) id n) as (q0 & E0 & R0).
  destruct (run_all_refines m b ltac:(lia) Hm id n txs q0 _ ltac:(lia) R0) as (q & E & [Hok El Hh Eo Ec _]).
  assert (0 < Z.to_nat b)%nat as Hs by lia.
  pose proof (fifo_run_inv _ (batch_id id n) Hs [] txs _ (fifo_empty_inv _ (batch_id id n) Hs)) as [A F L I].
  set (f := foldl _ _ _) in *. exists q0, q, (f_pending f).
  assert (length (f_out f) = f_count f) as Elen.
  { rewrite <- (length_fmap ID), I, length_fmap, length_seq. done. }
  rewrite Eo, Elen. split_and!; try done; try lia.
  eapply Forall_impl; [done|]. simpl. lia.
Qed.

(** C21. With a batch size below the buffer size the pool accepts every
    transaction: the batches it sends, followed by fewer than [batchSize]
    transactions still in the ring, are exactly the transactions received, in
    order; every batch is full and the k-th one is numbered [Id + N*k]. *)
Theorem txQueue_delivers (m b n id : Z) (txs : list Transaction) :
  0 < b < m -> m < 2 ^ 62 ->
  exists q0 q rest, newTxQueue m b n id = Ok q0 /\ txQueue_run_all q0 txs = Ok q /\
    mjoin (Txs <$> batchChannel q) ++ rest = txs /\
    Z.of_nat (length rest) = nums q /\ nums q < b /\ holds m q rest /\
    Forall (fun x => Z.of_nat (length (Txs x)) = b) (batchChannel q) /\
    ID <$> batchChannel q = batch_id id n <$> seq 0 (length (batchChannel q)).
Proof. apply txQueue_run_spec. Qed.

Lemma txQueue_delivers_witness :
  exists q0 q rest, newTxQueue 4 3 4 1 = Ok q0 /\
    txQueue_run_all q0 (replicate 7 [Byte.x00]) = Ok q /\
    mjoin (Txs <$> batchChannel q) ++ rest = replicate 7 [Byte.x00] /\
    Z.of_nat (length rest) = nums q /\ nums q < 3 /\ holds 4 q rest /\
    Forall (fun x => Z.of_nat (length (Txs x)) = 3) (batchChannel q) /\
    ID <$> batchChannel q = batch_id 1 4 <$> seq 0 (length (batchChannel q)).
Proof. apply (txQueue_delivers 4 3 4 1); lia. Defined.

Lemma batch_id_inj (n i j : Z) (k l : nat) :
  0 <= i < n -> 0 <= j < n ->
  i + n * Z.of_nat k < 2 ^ 63 -> j + n * Z.of_nat l < 2 ^ 63 ->
  batch_id i n k = batch_id j n l -> i = j /\ k = l.
Proof.
  intros Hi Hj Hk Hl. unfold batch_id.
  assert (Z.of_nat k < 2 ^ 63) by nia. assert (Z.of_nat l < 2 ^ 63) by nia.
  rewrite !(wrap_small 64 (Z.of_nat _)) by (simpl; lia).
  rewrite !wrap_small by (simpl; nia). intros E.
  assert (n * (Z.of_nat k - Z.of_nat l) = j - i) by lia.
  assert (Z.of_nat k = Z.of_nat l) by nia. split; nia.
Qed.

(** The number of the batch at a position of what a new queue has sent. *)
Lemma txQueue_batch_number (m b n id : Z) (txs : list Transaction) q0 q k x :
  0 < b < m -> m < 2 ^ 62 -> newTxQueue m b n id = Ok q0 -> txQueue_run_all q0 txs = Ok q ->
  batchChannel q !! k = Some x -> ID x = batch_id id n k.
Proof.
  intros Hb Hm E0 E Hx. destruct (txQueue_run_spec m b n id txs Hb Hm) as (q0' & q' & rest & E0' & E' & _ & _ & _ & _ & _ & Hids).
  rewrite E0 in E0'. injection E0' as <-. rewrite E in E'. injection E' as <-. apply lookup_lt_Some in Hx as Hk.
  assert ((ID <$> batchChannel q) !! k = Some (ID x)) as H by (by rewrite list_lookup_fmap, Hx).
  rewrite Hids, list_lookup_fmap, lookup_seq_lt in H by done. by simplify_eq/=.
Qed.

(** C27. Batch numbers identify batches across the network: let two nodes [i] and
    [j] of [n] run their queues, with batch sizes below their buffer sizes, on
    any transactions; if a batch that [i] has sent and a batch that [j] has sent
    have the same number, they are the same batch of the same node, as long as
    [n] times the number of batches sent is at most 2^63. *)
Theorem batch_numbers_unique (n i j m1 b1 m2 b2 : Z) (txs1 txs2 : list Transaction) p1 p2 q1 q2 (k l : nat) x y :
  0 <= i < n -> 0 <= j < n -> 0 < b1 < m1 -> m1 < 2 ^ 62 -> 0 < b2 < m2 -> m2 < 2 ^ 62 ->
  newTxQueue m1 b1 n i = Ok p1 -> txQueue_run_all p1 txs1 = Ok q1 ->
  newTxQueue m2 b2 n j = Ok p2 -> txQueue_run_all p2 txs2 = Ok q2 ->
  n * Z.of_nat (length (batchChannel q1)) <= 2 ^ 63 -> n * Z.of_nat (length (batchChannel q2)) <= 2 ^ 63 ->
  batchChannel q1 !! k = Some x -> batchChannel q2 !! l = Some y -> ID x = ID y -> i = j /\ k = l.
Proof.
  intros Hi Hj Hb1 Hm1 Hb2 Hm2 E1 R1 E2 R2 L1 L2 Hx Hy.
  rewrite (txQueue_batch_number _ _ _ _ _ _ _ _ _ Hb1 Hm1 E1 R1 Hx), (txQueue_batch_number _ _ _ _ _ _ _ _ _ Hb2 Hm2 E2 R2 Hy).
  apply lookup_lt_Some in Hx, Hy. apply batch_id_inj; [done..|nia|nia].
Qed.

(** Nodes 1 and 2 of four, each with two batches of three. *)
Module BatchDemo.
Definition start (id : Z) : txQueue := match newTxQueue 4 3 4 id with Ok q => q | _ => Build_txQueue [] [] 0 0 0 0 0 0 0 0 end.
Definition ran (id : Z) : txQueue := match txQueue_run_all (start id) (replicate 7 [Byte.x00]) with Ok q => q | _ => start id end.
End BatchDemo.

Lemma batch_numbers_unique_witness :
  (ID <$> batchChannel (BatchDemo.ran 1)) = [1; 5] /\ (ID <$> batchChannel (BatchDemo.ran 2)) = [2; 6] /\ 1%nat = 1%nat.
Proof.
  split; [reflexivity|]. split; [reflexivity|].
  refine (proj2 (batch_numbers_unique 4 1 1 4 3 4 3 (replicate 7 [Byte.x00]) (replicate 7 [Byte.x00]) (BatchDemo.start 1)
    (BatchDemo.start 1) (BatchDemo.ran 1) (BatchDemo.ran 1) 1 1 {| ID := 5; Txs := replicate 3 [Byte.x00] |}
    {| ID := 5; Txs := replicate 3 [Byte.x00] |} _ _ _ _ _ _ _ _ _ _ _ _ _ _ _)).
  1-6: lia.
  1-4: vm_compute; reflexivity.
  1-2: vm_decide.
  all: vm_compute; reflexivity.
Defined.

(** ** A batch as large as the buffer *)

Section stall.
Context (m : Z) (Hm : 0 < m < 2 ^ 62).

(** Before the first batch the ring fills from slot 0; after it, one slot
    stays unused and the ring reports full one transaction too early. *)
Record stalling (q : txQueue) : Prop := {
  st_sizes : maxQueueSize q = m /\ batchSize q = m /\ Z.of_nat (length (queue q)) = m;
  st_wind : wind q = nums q;
  st_phase : (rind q = -1 /\ 0 <= nums q < m /\ batchChannel q = []) \/
             (rind q = m - 1 /\ 0 <= nums q < m /\ length (batchChannel q) = 1%nat);
}.

Lemma stalling_run q tx : stalling q -> exists q', txQueue_run q tx = Ok q' /\ stalling q'.
Proof.
  intros [(Em & Eb & El) Ew Hp]. unfold txQueue_run.
  case_decide; [by eexists; split; [done|split]|].
  rewrite decide_True, Em, decide_False by lia. do 2 wrap_lia. rewrite Z.rem_mod_nonneg by lia.
  simpl. rewrite Eb. case_decide as Hfull.
  - set (q1 := Build_txQueue _ _ _ _ _ _ _ _ _ _). destruct Hp as [(Er & Hn & Ebc)|?]; [|lia].
    assert (Z.of_nat (length (queue q1)) = m) as El1 by (simpl; by rewrite length_insert).
    assert (holds m q1 (queue q1)) as Hh.
    { intros i t Hi. apply lookup_lt_Some in Hi as Hlt. unfold slot. simpl (rind q1).
      rewrite Er, Z.mod_small by lia. by replace (Z.to_nat _) with i by lia. }
    destruct (make_loop_spec m m ltac:(lia) ltac:(lia) (queue q1) q1 [])
      as (q' & E & G1 & G2 & G3 & G4 & G5 & G6 & G7 & G8 & G9 & _); [done|simpl; lia|rewrite El1; simpl; lia|done|].
    unfold txQueue_make. replace (Z.to_nat (batchSize q1)) with (length (queue q1)) by (simpl in *; lia).
    rewrite E. simpl. eexists. split; [done|].
    assert (rind q' = m - 1) as Er'.
    { rewrite El1 in G5. simpl (rind q1) in G5. rewrite Er in G5.
      replace (-1 + 1 + m) with (0 + 1 * m) in G5 by lia. rewrite Z_mod_plus_full, Z.mod_0_l in G5 by lia.
      destruct (decide (rind q' = m - 1)); [done|]. rewrite Z.mod_small in G5 by lia.
      assert (queue q1 <> []) as Hne by (intros E0; rewrite E0 in El1; simpl in El1; lia).
      apply G6 in Hne. lia. }
    split; simpl; [by rewrite G1, G8, G9| |].
    + rewrite G3, G7, El1. simpl (wind q1). simpl (nums q1).
      replace (wind q + 1) with m by lia. rewrite Z.mod_same by lia. lia.
    + right. rewrite G7, El1, G2, Er'. simpl. rewrite Ebc. simpl. lia.
  - eexists. split; [done|]. split; simpl; [by rewrite length_insert|rewrite Z.mod_small; lia|].
    destruct Hp as [(?&?&?)|(?&?&?)]; [left|right]; split_and!; try done; lia.
Qed.

Lemma stalling_run_all txs q : stalling q -> exists q', txQueue_run_all q txs = Ok q' /\ stalling q'.
Proof.
  revert q. induction txs as [|tx txs IH]; intros q S; simpl; [by eauto|].
  destruct (stalling_run q tx S) as (q' & -> & S'). simpl. by apply IH.
Qed.
End stall.

(** With [BatchSize = MaxQueueSize] the pool produces one batch and then
    drops every transaction that would complete a second one. *)
Theorem txQueue_stalls (m n id : Z) (txs : list Transaction) :
  0 < m < 2 ^ 62 ->
  exists q0 q, newTxQueue m m n id = Ok q0 /\ txQueue_run_all q0 txs = Ok q /\
    (length (batchChannel q) <= 1)%nat.
Proof.
  intros Hm. unfold newTxQueue. rewrite decide_False by lia.
  set (q0 := Build_txQueue _ _ _ _ _ _ _ _ _ _). exists q0.
  destruct (stalling_run_all m Hm txs q0) as (q & E & S).
  - split; simpl; try done; [rewrite length_replicate; lia|left; split_and!; try done; lia].
  - exists q. split_and!; [done..|]. destruct (st_phase _ _ S) as [(_ & _ & ->)|(_ & _ & ->)]; simpl; lia.
Qed.

Lemma txQueue_stalls_witness :
  exists q0 q, newTxQueue 2 2 4 0 = Ok q0 /\ txQueue_run_all q0 (replicate 9 []) = Ok q /\
    (length (batchChannel q) <= 1)%nat.
Proof. apply (txQueue_stalls 2 4 0 (replicate 9 [])). lia. Defined.
