(* ===== verification/Config.v ===== *)
(** * Package config: key, committee and parameter files

    Models [src/config/config.go] on a file system that maps names to
    contents; opening a name in [denied] fails.  [savetoFile] does not truncate:
    what a longer file held stays behind the new text.  Key generation takes
    its random keys as an argument; iterations over a map take their order. *)
From stdpp Require Import sorting.
From S2P Require Import Prelude Sha256 Crypto Json JsonText TsKeys Committee Pool.

Record FS := { files : gmap bytes bytes; denied : gset bytes }.

Definition str (b : bytes) : string := String.string_of_list_byte b.

(** A write at the start of a file that held [old]. *)
Definition overwrite (content old : bytes) : bytes := content ++ drop (length content) old.

Definition savetoFile (fs : FS) (filename : bytes) (data : json) : Res FS :=
  if decide (filename ∈ denied fs) then Panic else
  let old := default [] (files fs !! filename) in
  Ok {| files := <[filename := overwrite (Encode (Tabs 0) data) old]> (files fs); denied := denied fs |}.

Definition open_read (fs : FS) (filename : bytes) : option bytes :=
  if decide (filename ∈ denied fs) then None else files fs !! filename.

Definition readFromFile (fs : FS) (filename : bytes) : Res (gmap bytes json) :=
  match open_read fs filename with
  | None => Panic
  | Some text => j ← Decode text; decode_map j
  end.

(** Type assertions on an [interface{}] that panic. *)
Definition as_string (j : option json) : Res bytes := match j with Some (JStr s) => Ok s | _ => Panic end.
Definition as_float (j : option json) : Res float64 :=
  match j with Some (JNum lit) => match float_of_lit lit with Ok f => Ok f | _ => Panic end | _ => Panic end.
Definition as_map (j : json) : Res (gmap bytes json) := match j with JObj m => Ok (go_map m) | _ => Panic end.

(** A loop that panics or goes on. *)
Fixpoint res_loop {A S} (f : S -> A -> Res S) (s : S) (l : list A) : Res S :=
  match l with
  | [] => Ok s
  | x :: l => s' ← f s x; res_loop f s' l
  end.

(** ** Key files *)

Definition node_key_file (path : bytes) (i : Z) : bytes := path ++ bs "/.node-key-" ++ Itoa i ++ bs ".json".
Definition ts_key_file (path : bytes) (i : Z) : bytes := path ++ bs "/.node-ts-key-" ++ Itoa i ++ bs ".json".

Definition node_keys (pri pub : bytes) : gmap bytes json :=
  <[bs "private" := JStr (EncodePrivateKey {| Prikey := pri |})]>
  (<[bs "public" := JStr (EncodePublicKey {| Pubkey := pub |})]> ∅).

Definition GenerateKeyFiles (generated : Z -> Res (bytes * bytes)) (pairs : Z) (path : bytes) (fs : FS) : Res FS :=
  res_loop (fun fs i =>
    '(pri, pub) ← GenED25519Keys (generated i);
    savetoFile fs (node_key_file path i) (JMap (node_keys pri pub))) fs (seqZ 0 pairs).

Definition GenKeysFromFile (fs : FS) (filename : bytes) : Res (PublickKey * PrivateKey) :=
  data ← readFromFile fs filename;
  pub ← as_string (data !! bs "public");
  pri ← as_string (data !! bs "private");
  pubKey ← DecodePublicKey pub;
  priKey ← DecodePrivateKey pri;
  Ok (pubKey, priKey).

Section ts.
Context {P : Prims} {K : Kyber P}.

(** An encoding error leaves the text empty. *)
Definition or_empty (r : Res bytes) : Res bytes := match r with Err _ => Ok [] | r => r end.

Definition ts_keys (share pub : bytes) (N T : Z) : gmap bytes json :=
  <[bs "T" := JNum (Itoa T)]> (<[bs "N" := JNum (Itoa N)]>
  (<[bs "pub" := JStr pub]> (<[bs "share" := JStr share]> ∅))).

(** [shares[i]] panics when the library hands out fewer shares. *)
Definition GenerateTsKeyFiles (random : Seed) (N T : Z) (path : bytes) (fs : FS) : Res FS :=
  let '(shares, pub) := GenTSKeys T N random in
  res_loop (fun fs i =>
    match shares !! Z.to_nat i with
    | None => Panic
    | Some s =>
        share ← or_empty (EncodeTSPartialKey s);
        pubText ← or_empty (EncodeTSPublicKey pub);
        savetoFile fs (ts_key_file path i) (JMap (ts_keys share pubText N T))
    end) fs (seqZ 0 N).

Definition GenTsKeyFromFile (fs : FS) (filename : bytes) : Res SecretShareKey :=
  data ← readFromFile fs filename;
  share ← as_string (data !! bs "share");
  pub ← as_string (data !! bs "pub");
  N ← as_float (data !! bs "N");
  T ← as_float (data !! bs "T");
  priShare ← DecodeTSPartialKey share;
  pubPoly ← DecodeTSPublicKey pub;
  Ok {| sk_PubPoly := pubPoly; sk_PriShare := priShare; sk_N := int_of_float N; sk_T := int_of_float T |}.
End ts.

(** ** Parameters *)

Record Parameters := { Pool : PoolParameters.t; Consensus : Committee.Parameters }.

Definition GenDefaultParameters : Parameters :=
  {| Pool := PoolParameters.DefaultParameters; Consensus := Committee.DefaultParameters |}.

Definition JInt (z : Z) : json := JNum (Itoa z).

(** A slice; the empty one is [nil] here. *)
Definition JSlice {A} (f : A -> json) (l : list A) : json :=
  match l with [] => JNull | _ => JArr (f <$> l) end.

Definition pool_json (p : PoolParameters.t) : json := JObj [
  (bs "rate", JInt (PoolParameters.Rate p)); (bs "tx_size", JInt (PoolParameters.TxSize p));
  (bs "batch_size", JInt (PoolParameters.BatchSize p)); (bs "max_queue_size", JInt (PoolParameters.MaxQueueSize p))].

Definition consensus_json (p : Committee.Parameters) : json := JObj [
  (bs "sync_timeout", JInt (SyncTimeout p)); (bs "network_delay", JInt (NetwrokDelay p));
  (bs "min_block_delay", JInt (MinBlockDelay p)); (bs "ddos", JBool (DDos p)); (bs "faults", JInt (Faults p));
  (bs "retry_delay", JInt (RetryDelay p)); (bs "protocol", JInt (Protocol p));
  (bs "latency", JSlice (JSlice JInt) (Latency p))].

Definition Parameters_json (p : Parameters) : json :=
  JObj [(bs "pool", pool_json (Pool p)); (bs "consensus", consensus_json (Consensus p))].

Definition pool_fields : list (field PoolParameters.t) := [
  (bs "rate", fun j p => x ← decode_int j (PoolParameters.Rate p);
    Ok {| PoolParameters.Rate := x; PoolParameters.TxSize := PoolParameters.TxSize p;
          PoolParameters.BatchSize := PoolParameters.BatchSize p; PoolParameters.MaxQueueSize := PoolParameters.MaxQueueSize p |});
  (bs "tx_size", fun j p => x ← decode_int j (PoolParameters.TxSize p);
    Ok {| PoolParameters.Rate := PoolParameters.Rate p; PoolParameters.TxSize := x;
          PoolParameters.BatchSize := PoolParameters.BatchSize p; PoolParameters.MaxQueueSize := PoolParameters.MaxQueueSize p |});
  (bs "batch_size", fun j p => x ← decode_int j (PoolParameters.BatchSize p);
    Ok {| PoolParameters.Rate := PoolParameters.Rate p; PoolParameters.TxSize := PoolParameters.TxSize p;
          PoolParameters.BatchSize := x; PoolParameters.MaxQueueSize := PoolParameters.MaxQueueSize p |});
  (bs "max_queue_size", fun j p => x ← decode_int j (PoolParameters.MaxQueueSize p);
    Ok {| PoolParameters.Rate := PoolParameters.Rate p; PoolParameters.TxSize := PoolParameters.TxSize p;
          PoolParameters.BatchSize := PoolParameters.BatchSize p; PoolParameters.MaxQueueSize := x |})].

Definition consensus_fields : list (field Committee.Parameters) := [
  (bs "sync_timeout", fun j p => x ← decode_int j (SyncTimeout p);
    Ok {| SyncTimeout := x; NetwrokDelay := NetwrokDelay p; MinBlockDelay := MinBlockDelay p; DDos := DDos p;
          Faults := Faults p; RetryDelay := RetryDelay p; Protocol := Protocol p; Latency := Latency p |});
  (bs "network_delay", fun j p => x ← decode_int j (NetwrokDelay p);
    Ok {| SyncTimeout := SyncTimeout p; NetwrokDelay := x; MinBlockDelay := MinBlockDelay p; DDos := DDos p;
          Faults := Faults p; RetryDelay := RetryDelay p; Protocol := Protocol p; Latency := Latency p |});
  (bs "min_block_delay", fun j p => x ← decode_int j (MinBlockDelay p);
    Ok {| SyncTimeout := SyncTimeout p; NetwrokDelay := NetwrokDelay p; MinBlockDelay := x; DDos := DDos p;
          Faults := Faults p; RetryDelay := RetryDelay p; Protocol := Protocol p; Latency := Latency p |});
  (bs "ddos", fun j p => x ← decode_bool j (DDos p);
    Ok {| SyncTimeout := SyncTimeout p; NetwrokDelay := NetwrokDelay p; MinBlockDelay := MinBlockDelay p; DDos := x;
          Faults := Faults p; RetryDelay := RetryDelay p; Protocol := Protocol p; Latency := Latency p |});
  (bs "faults", fun j p => x ← decode_int j (Faults p);
    Ok {| SyncTimeout := SyncTimeout p; NetwrokDelay := NetwrokDelay p; MinBlockDelay := MinBlockDelay p; DDos := DDos p;
          Faults := x; RetryDelay := RetryDelay p; Protocol := Protocol p; Latency := Latency p |});
  (bs "retry_delay", fun j p => x ← decode_int j (RetryDelay p);
    Ok {| SyncTimeout := SyncTimeout p; NetwrokDelay := NetwrokDelay p; MinBlockDelay := MinBlockDelay p; DDos := DDos p;
          Faults := Faults p; RetryDelay := x; Protocol := Protocol p; Latency := Latency p |});
  (bs "protocol", fun j p => x ← decode_int j (Protocol p);
    Ok {| SyncTimeout := SyncTimeout p; NetwrokDelay := NetwrokDelay p; MinBlockDelay := MinBlockDelay p; DDos := DDos p;
          Faults := Faults p; RetryDelay := RetryDelay p; Protocol := x; Latency := Latency p |});
  (bs "latency", fun j p => x ← decode_list (decode_list decode_int 0) [] j (Latency p);
    Ok {| SyncTimeout := SyncTimeout p; NetwrokDelay := NetwrokDelay p; MinBlockDelay := MinBlockDelay p; DDos := DDos p;
          Faults := Faults p; RetryDelay := RetryDelay p; Protocol := Protocol p; Latency := x |})].

Definition parameter_fields : list (field Parameters) := [
  (bs "pool", fun j p => x ← decode_struct pool_fields j (Pool p); Ok {| Pool := x; Consensus := Consensus p |});
  (bs "consensus", fun j p => x ← decode_struct consensus_fields j (Consensus p); Ok {| Pool := Pool p; Consensus := x |})].

Definition Parameters_zero : Parameters := {|
  Pool := {| PoolParameters.Rate := 0; PoolParameters.TxSize := 0; PoolParameters.BatchSize := 0; PoolParameters.MaxQueueSize := 0 |};
  Consensus := {| SyncTimeout := 0; NetwrokDelay := 0; MinBlockDelay := 0; DDos := false; Faults := 0; RetryDelay := 0;
                  Protocol := 0; Latency := [] |} |}.

(** A missing file is an error here. *)
Definition GenParamatersFromFile (fs : FS) (filename : bytes) : Res (PoolParameters.t * Committee.Parameters) :=
  match open_read fs filename with
  | None => Err (ErrLib 110)
  | Some text =>
      j ← Decode text;
      parameters ← decode_struct parameter_fields j Parameters_zero;
      Ok (Pool parameters, Consensus parameters)
  end.

Definition GenerateSampleParameters (fs : FS) : Res FS :=
  savetoFile fs (bs "./.parameters.json") (Parameters_json GenDefaultParameters).

(** ** The committee *)

(** One entry of the file: a key that is no number counts as node 0, a name
    that is not hexadecimal as an empty key. *)
Definition read_authority (authorities : gmap NodeID Authority) (e : bytes * json) : Res (gmap NodeID Authority) :=
  let '(ID, _) := Atoi e.1 in
  info ← as_map e.2;
  nameText ← as_string (info !! bs "name");
  name ← match DecodePublicKey nameText with Err _ => Ok {| Pubkey := [] |} | r => r end;
  addr ← as_string (info !! bs "addr");
  Ok (<[ID := {| Addr := str addr; Id := ID; Name := name |}]> authorities).

(** [order] is the order in which the entries are visited. *)
Definition GenCommitteeFromFile (fs : FS) (filename : bytes) (order : gmap bytes json -> list (bytes * json)) : Res Committee :=
  data ← readFromFile fs filename;
  authorities ← res_loop read_authority ∅ (order data);
  Ok {| Authorities := authorities |}.

Definition authority_json (id : NodeID) (item : Authority) : json :=
  JMap (<[bs "addr" := JStr (bs (Addr item))]> (<[bs "node_id" := JInt id]>
        (<[bs "name" := JStr (EncodePublicKey (Name item))]> ∅))).

(** Later entries of the iteration overwrite earlier ones. *)
Definition committee_data (order : list (NodeID * Authority)) : gmap bytes json :=
  foldl (fun data e => <[Itoa e.1 := authority_json e.1 e.2]> data) ∅ order.

Definition DefaultPort : Z := 9000.

(** The keys of a generated committee: public, private key and share of each node. *)
Definition default_authority (pub : bytes) (i : Z) : Authority := {|
  Name := {| Pubkey := pub |}; Id := i; Addr := String.append "127.0.0.1:" (str (Itoa (wrap64 (DefaultPort + i)))) |}.

Section default.
Context {P : Prims} {K : Kyber P}.

Definition GenDefaultCommittee (generated : Z -> Res (bytes * bytes)) (random : Seed) (n : Z)
    : Res (Committee * list PrivateKey * list SecretShareKey) :=
  '(authorities, priKeys) ← res_loop (fun '(authorities, priKeys) i =>
      '(priKey, pubKey) ← GenED25519Keys (generated i);
      Ok (<[i := default_authority pubKey i]> authorities, priKeys ++ [{| Prikey := priKey |}])) (∅, []) (seqZ 0 n);
  let committee := {| Authorities := authorities |} in
  let '(shares, pub) := GenTSKeys (HightThreshold committee) n random in
  shareKeys ← res_loop (fun shareKeys i =>
      match shares !! Z.to_nat i with
      | None => Panic
      | Some s => Ok (shareKeys ++ [{| sk_PubPoly := pub; sk_PriShare := s; sk_N := n; sk_T := HightThreshold committee |}])
      end) [] (seqZ 0 n);
  Ok (committee, priKeys, shareKeys).

Definition GenerateSmapleCommittee (generated : Z -> Res (bytes * bytes)) (random : Seed)
    (order : Committee -> list (NodeID * Authority)) (fs : FS) : Res FS :=
  '(committee, _, _) ← GenDefaultCommittee generated random 4;
  savetoFile fs (bs "./.committee.json") (JMap (committee_data (order committee))).
End default.
