(* ===== verification/ConfigProps.v ===== *)
(** * Files written by one command are read back by another *)
From stdpp Require Import sorting.
From S2P Require Import Prelude Sha256 Crypto Json JsonText TsKeys Committee Pool Config.

(** ** Text that is ASCII *)

Lemma ascii_app l1 l2 : Forall ascii l1 -> Forall ascii l2 -> Forall ascii (l1 ++ l2).
Proof. intros. by apply Forall_app. Qed.
Lemma ascii_cons b l : ascii b -> Forall ascii l -> Forall ascii (b :: l).
Proof. by constructor. Qed.
Create HintDb ascii discriminated.
#[global] Hint Resolve ascii_app ascii_cons Forall_nil_2 b64_ascii : ascii.
#[global] Hint Extern 1 (ascii _) => done : ascii.

Lemma hex_digit_ascii b : ascii (hex_digit (Z.shiftr (Z_of_byte b) 4)) /\ ascii (hex_digit (Z.land (Z_of_byte b) 15)).
Proof. revert b. apply (byte_cases _). vm_compute. reflexivity. Qed.
Lemma hex_ascii l : Forall ascii (hex_Encode l).
Proof. induction l as [|b l IH]; [constructor|]. destruct (hex_digit_ascii b). by repeat constructor. Qed.

Lemma escape_ascii b : ascii b -> Forall ascii (escape b).
Proof.
  revert b. apply (byte_cases (fun b => ascii b -> Forall ascii (escape b))). vm_compute. reflexivity.
Qed.

Lemma quote_ascii s : Forall ascii s -> Forall ascii (quote s).
Proof.
  intros Hs. apply ascii_cons; [done|]. apply ascii_app; [|by repeat constructor].
  induction Hs as [|b s Hb _ IH]; [constructor|]. cbn [quote_body]. rewrite utf8_size_ascii by done.
  apply ascii_app; [by apply escape_ascii|done].
Qed.

Lemma dec_ascii u : Forall ascii (dec_bytes u).
Proof. induction u; simpl; auto with ascii. Qed.
Lemma Itoa_ascii z : Forall ascii (Itoa z).
Proof. unfold Itoa. destruct (Z.to_int z); auto using dec_ascii with ascii. Qed.

Lemma newline_ascii st : Forall ascii (newline st).
Proof. destruct st; simpl; auto with ascii. apply ascii_cons; [done|]. by apply Forall_replicate. Qed.
Lemma join_ascii sep l : Forall ascii sep -> Forall (Forall ascii) l -> Forall ascii (join sep l).
Proof. intros Hs. induction 1 as [|x l Hx Hl IH]; simpl; [constructor|]. destruct l; auto with ascii. Qed.
#[global] Hint Resolve quote_ascii Itoa_ascii newline_ascii join_ascii hex_ascii : ascii.

(** Printed documents are ASCII, so that one can be a string of another. *)
Lemma print_ascii st j : plain j -> Forall ascii (print st j).
Proof.
  revert st. induction j as [|[]|lit|s|l IH|m IH] using json_ind; intros st Hp; simpl; try by apply bs_ascii.
  - destruct Hp as [z ->]. auto with ascii.
  - auto with ascii.
  - destruct l as [|j l]; [by apply bs_ascii|]. apply (foldr_Forall plain (j :: l)) in Hp.
    apply ascii_cons; [done|]. apply ascii_app; [auto with ascii|]. apply ascii_app; [|auto with ascii].
    apply join_ascii; [auto with ascii|]. 
    change (print (deeper st) j :: map (print (deeper st)) l) with (print (deeper st) <$> (j :: l)). apply Forall_fmap.
    eapply Forall_impl_Forall; [|exact Hp]. eapply Forall_impl; [exact IH|]. simpl. auto.
  - destruct m as [|kv m]; [by apply bs_ascii|].
    apply (foldr_Forall (fun kv => Forall ascii kv.1 /\ plain kv.2) (kv :: m)) in Hp.
    apply ascii_cons; [done|]. apply ascii_app; [auto with ascii|]. apply ascii_app; [|auto with ascii].
    apply join_ascii; [auto with ascii|]. 
    change (Forall (Forall ascii) (print_member st <$> (kv :: m))). apply Forall_fmap.
    eapply Forall_impl_Forall; [|exact Hp]. eapply Forall_impl; [exact IH|]. simpl.
    intros [k v] Hv [Hk Hp']. apply ascii_app; [by apply quote_ascii|].
    apply ascii_app; [destruct st; simpl; auto with ascii|by apply Hv].
Qed.

(** ** Maps as documents *)

Definition entries_ok (d : Z) (m : gmap bytes json) : Prop :=
  map_Forall (fun k v => Forall ascii k /\ plain v /\ numbers_ok v = true /\ depth v <= d) m.

Lemma JMap_entries d (m : gmap bytes json) :
  entries_ok d m -> Forall (fun kv => Forall ascii kv.1 /\ plain kv.2 /\ numbers_ok kv.2 = true /\ depth kv.2 <= d)
                      (merge_sort key_le (map_to_list m)).
Proof.
  intros H%map_Forall_to_list. rewrite JMap_perm. eapply Forall_impl; [exact H|]. by intros [k v].
Qed.

Lemma JMap_plain d m : entries_ok d m -> plain (JMap m).
Proof.
  intros H%JMap_entries. unfold JMap. cbn [plain]. apply (foldr_Forall (fun kv => Forall ascii kv.1 /\ plain kv.2)).
  eapply Forall_impl; [exact H|]. simpl. tauto.
Qed.
Lemma JMap_numbers d m : entries_ok d m -> numbers_ok (JMap m) = true.
Proof.
  intros H%JMap_entries. unfold JMap. cbn [numbers_ok]. apply forallb_forall. intros x Hx%list_elem_of_In.
  rewrite Forall_forall in H. by destruct (H x Hx) as (_ & _ & ? & _).
Qed.
Lemma JObj_depth d m : 0 <= d -> Forall (fun kv => depth kv.2 <= d) m -> depth (JObj m) <= 1 + d.
Proof. intros Hd. induction 1 as [|x l Hx _ IH]; simpl in *; lia. Qed.
Lemma JMap_depth d m : 0 <= d -> entries_ok d m -> depth (JMap m) <= 1 + d.
Proof.
  intros Hd H%JMap_entries. apply JObj_depth; [done|]. eapply Forall_impl; [exact H|]. simpl. tauto.
Qed.

Lemma entries_insert d m k v :
  Forall ascii k -> plain v -> numbers_ok v = true -> depth v <= d -> entries_ok d m -> entries_ok d (<[k := v]> m).
Proof. intros. by apply map_Forall_insert_2. Qed.
Lemma entries_empty d : entries_ok d ∅.
Proof. apply map_Forall_empty. Qed.

(** ** Files *)

(** The file holds the document. *)
Definition holds (fs : FS) (filename : bytes) (j : json) : Prop :=
  exists text, open_read fs filename = Some text /\ Decode text = Ok j.

Definition document (j : json) : Prop := plain j /\ depth j <= maxNestingDepth.

Lemma save_holds fs fs' f j : document j -> savetoFile fs f j = Ok fs' -> holds fs' f j.
Proof.
  intros [Hp Hd]. unfold savetoFile. case_decide as Hf; [done|]. intros [= <-]. unfold holds, open_read. simpl.
  rewrite decide_False by done. rewrite lookup_insert_eq. eexists. split; [done|]. by apply json_parse_print.
Qed.
Lemma save_other fs fs' f g j j' : savetoFile fs f j = Ok fs' -> g <> f -> holds fs g j' -> holds fs' g j'.
Proof.
  unfold savetoFile. case_decide as Hf; [done|]. intros [= <-] Hne. unfold holds, open_read. simpl.
  by rewrite lookup_insert_ne.
Qed.

(** A loop that writes one document per round: it keeps other files and leaves
    all its documents. *)
Definition saves {A} (f : FS -> A -> Res FS) (name : A -> bytes) (doc : A -> json -> Prop) : Prop :=
  forall fs x fs', f fs x = Ok fs' -> exists j, doc x j /\ savetoFile fs (name x) j = Ok fs'.

Lemma loop_keeps {A} (f : FS -> A -> Res FS) name doc l fs fs' g j :
  saves f name doc -> g ∉ name <$> l -> res_loop f fs l = Ok fs' -> holds fs g j -> holds fs' g j.
Proof.
  intros Hf. revert fs. induction l as [|x l IH]; intros fs Hg; csimpl in *; [by intros [= <-]|].
  destruct (f fs x) as [fs1| |] eqn:E; [|done..]. simpl. intros Hl Hh. apply Hf in E as (j' & _ & E).
  eapply IH; [set_solver|done|]. eapply save_other; [done|set_solver|done].
Qed.

Lemma loop_saved {A} (f : FS -> A -> Res FS) (name : A -> bytes) (doc : A -> json -> Prop) l fs fs' :
  saves f name doc -> (forall x j, doc x j -> document j) -> NoDup (name <$> l) -> res_loop f fs l = Ok fs' ->
  forall x, x ∈ l -> exists j, doc x j /\ holds fs' (name x) j.
Proof.
  intros Hf Hd. revert fs. induction l as [|y l IH]; intros fs Hn; csimpl in *; [set_solver|].
  apply NoDup_cons in Hn as [Hy Hn]. destruct (f fs y) as [fs1| |] eqn:E; [|done..]. simpl. intros Hl x Hx.
  apply elem_of_cons in Hx as [->|Hx]; [|by eapply IH].
  apply Hf in E as (j & Hj & E). exists j. split; [done|]. eapply loop_keeps; [done|done|done|]. eapply save_holds; eauto.
Qed.

Lemma read_map fs f m d : entries_ok d m -> holds fs f (JMap m) -> readFromFile fs f = Ok m.
Proof.
  intros Hm (text & E & Et). unfold readFromFile. rewrite E, Et. cbn [mbind Res_bind]. unfold decode_map.
  rewrite (JMap_numbers d) by done. unfold JMap. by rewrite go_map_JMap.
Qed.

Lemma Itoa_inj z z' : Itoa z = Itoa z' -> z = z'.
Proof.
  intros E. destruct (Itoa_cases z) as [(u & E1 & Hu & Eu)|(u & E1 & Hu & Eu)],
    (Itoa_cases z') as [(u' & E1' & Hu' & Eu')|(u' & E1' & Hu' & Eu')]; rewrite E1, E1' in E.
  - apply (f_equal dec_uint) in E. rewrite !dec_uint_bytes in E. congruence.
  - destruct (dec_bytes u) as [|b l] eqn:Ed; [by destruct u|]. apply dec_not_sign in Ed. naive_solver.
  - destruct (dec_bytes u') as [|b l] eqn:Ed; [by destruct u'|]. apply dec_not_sign in Ed. naive_solver.
  - injection E as E. apply (f_equal dec_uint) in E. rewrite !dec_uint_bytes in E. congruence.
Qed.

Lemma file_names_distinct (pre suf : bytes) l : NoDup l -> NoDup ((fun i => pre ++ Itoa i ++ suf) <$> l).
Proof.
  apply NoDup_fmap_2. intros x y E%app_inv_head%app_inv_tail. by apply Itoa_inj.
Qed.

(** ** Key files *)

Lemma entries_1 d k v : Forall ascii k -> plain v -> numbers_ok v = true -> depth v <= d -> entries_ok d (<[k := v]> ∅).
Proof. intros. apply entries_insert; auto using entries_empty. Qed.

Lemma node_keys_entries pri pub : entries_ok 0 (node_keys pri pub).
Proof.
  unfold node_keys. apply entries_insert; [by apply bs_ascii|apply hex_ascii|done|done|].
  apply entries_1; [by apply bs_ascii|apply hex_ascii|done|done].
Qed.

Lemma number_Itoa z : - 2 ^ 53 < z < 2 ^ 53 -> numbers_ok (JNum (Itoa z)) = true.
Proof. intros H. destruct (int_of_float_Itoa z H) as (f & E & _). cbn [numbers_ok]. by rewrite E. Qed.

Lemma ts_keys_entries share pub N T :
  Forall ascii share -> Forall ascii pub -> - 2 ^ 53 < N < 2 ^ 53 -> - 2 ^ 53 < T < 2 ^ 53 ->
  entries_ok 0 (ts_keys share pub N T).
Proof.
  intros Hs Hp HN HT. unfold ts_keys. apply entries_insert; [by apply bs_ascii|by eexists|by apply number_Itoa|done|].
  apply entries_insert; [by apply bs_ascii|by eexists|by apply number_Itoa|done|].
  apply entries_insert; [by apply bs_ascii|done|done|done|]. apply entries_1; [by apply bs_ascii|done|done|done].
Qed.

Lemma document_JMap d m : 0 <= d < 100 -> entries_ok d m -> document (JMap m).
Proof.
  intros Hd Hm. split; [by eapply JMap_plain|]. pose proof (JMap_depth d m ltac:(lia) Hm). unfold maxNestingDepth. lia.
Qed.

Lemma node_file_distinct path l : NoDup l -> NoDup (node_key_file path <$> l).
Proof.
  intros H. apply (file_names_distinct (path ++ bs "/.node-key-") (bs ".json")) in H.
  erewrite list_fmap_ext; [exact H|]. intros ? i _. unfold node_key_file. by rewrite <- app_assoc.
Qed.
Lemma ts_file_distinct path l : NoDup l -> NoDup (ts_key_file path <$> l).
Proof.
  intros H. apply (file_names_distinct (path ++ bs "/.node-ts-key-") (bs ".json")) in H.
  erewrite list_fmap_ext; [exact H|]. intros ? i _. unfold ts_key_file. by rewrite <- app_assoc.
Qed.

Lemma node_keys_read fs f pri pub :
  holds fs f (JMap (node_keys pri pub)) -> GenKeysFromFile fs f = Ok ({| Pubkey := pub |}, {| Prikey := pri |}).
Proof.
  intros H. unfold GenKeysFromFile. rewrite (read_map _ _ _ _ (node_keys_entries pri pub) H). cbn [mbind Res_bind].
  unfold node_keys. rewrite (lookup_insert_ne _ (bs "private") (bs "public")) by vm_decide.
  rewrite !lookup_insert_eq. cbn [as_string mbind Res_bind].
  unfold DecodePublicKey, DecodePrivateKey, EncodePublicKey, EncodePrivateKey. by rewrite !hex_Decode_Encode.
Qed.

Section ts.
Context {P : Prims} {K : Kyber P} {L : KyberLaws K}.

Lemma encode_ascii j : plain j -> Forall ascii (encode j).
Proof. intros H. apply ascii_app; [by apply print_ascii|by repeat constructor]. Qed.

Lemma EncodeTSPartialKey_ascii s b : EncodeTSPartialKey s = Ok b -> Forall ascii b.
Proof.
  unfold EncodeTSPartialKey. destruct (MarshallTSPartialKey s); [|done..]. intros [= <-]. apply encode_ascii.
  cbn. split_and!; eauto using b64_ascii; by apply bs_ascii.
Qed.
Lemma EncodeTSPublicKey_ascii p b : EncodeTSPublicKey p = Ok b -> Forall ascii b.
Proof.
  unfold EncodeTSPublicKey. destruct (MarshallTSPublicKey p) as [t| |]; [|done..]. intros [= <-]. apply encode_ascii.
  cbn. split_and!; [by apply bs_ascii|apply b64_ascii|by apply bs_ascii| |done].
  induction (CommitBytes t); csimpl; eauto using b64_ascii.
Qed.

Lemma ts_keys_lookup share pub N T :
  ts_keys share pub N T !! bs "share" = Some (JStr share) /\ ts_keys share pub N T !! bs "pub" = Some (JStr pub) /\
  ts_keys share pub N T !! bs "N" = Some (JNum (Itoa N)) /\ ts_keys share pub N T !! bs "T" = Some (JNum (Itoa T)).
Proof.
  unfold ts_keys. split_and!; [do 3 (rewrite lookup_insert_ne by vm_decide)|do 2 (rewrite lookup_insert_ne by vm_decide)|
    rewrite lookup_insert_ne by vm_decide|]; apply lookup_insert_eq.
Qed.

Lemma ts_keys_read fs f s p share pub N T :
  EncodeTSPartialKey s = Ok share -> EncodeTSPublicKey p = Ok pub -> - 2 ^ 53 < N < 2 ^ 53 -> - 2 ^ 53 < T < 2 ^ 53 ->
  holds fs f (JMap (ts_keys share pub N T)) ->
  GenTsKeyFromFile fs f = Ok {| sk_PubPoly := p; sk_PriShare := s; sk_N := N; sk_T := T |}.
Proof.
  intros Hs Hp HN HT H. unfold GenTsKeyFromFile.
  assert (entries_ok 0 (ts_keys share pub N T)) as He
    by eauto using ts_keys_entries, EncodeTSPartialKey_ascii, EncodeTSPublicKey_ascii.
  rewrite (read_map _ _ _ _ He H). cbn [mbind Res_bind].
  destruct (ts_keys_lookup share pub N T) as (E1 & E2 & E3 & E4). rewrite E1, E2, E3, E4. cbn [as_string as_float mbind Res_bind].
  destruct (int_of_float_Itoa N HN) as (fN & EN & EN'). rewrite EN. cbn [mbind Res_bind].
  destruct (int_of_float_Itoa T HT) as (fT & ET & ET'). rewrite ET. cbn [mbind Res_bind].
  rewrite <- (app_nil_r share), (partial_key_roundtrip s) by done. cbn [mbind Res_bind].
  rewrite <- (app_nil_r pub), (public_key_roundtrip p) by done. cbn [mbind Res_bind]. by rewrite EN', ET'.
Qed.
End ts.

Lemma key_files_saved generated pairs path fs fs' i :
  GenerateKeyFiles generated pairs path fs = Ok fs' -> 0 <= i < pairs ->
  exists pub pri, generated i = Ok (pub, pri) /\ holds fs' (node_key_file path i) (JMap (node_keys pri pub)).
Proof.
  intros H Hi. unfold GenerateKeyFiles in H.
  eapply (loop_saved _ (node_key_file path)
    (fun i j => exists pub pri, generated i = Ok (pub, pri) /\ j = JMap (node_keys pri pub))) with (x := i) in H.
  - destruct H as (j & (pub & pri & E & ->) & Hh). eauto.
  - intros fs0 x fs1. unfold GenED25519Keys. destruct (generated x) as [[pub pri]| |]; [|done..].
    intros E. eauto 10.
  - intros x j (pub & pri & _ & ->). apply (document_JMap 0); [lia|]. apply node_keys_entries.
  - apply node_file_distinct, NoDup_seqZ.
  - by apply elem_of_seqZ.
Qed.

Section saved.
Context {P : Prims} {K : Kyber P} {L : KyberLaws K}.

(** All keys of a dealing have a binary form. *)
Definition marshals (random : Seed) (N T : Z) : Prop :=
  (exists b, EncodeTSPublicKey (GenTSKeys T N random).2 = Ok b) /\
  Forall (fun s => exists b, EncodeTSPartialKey s = Ok b) (GenTSKeys T N random).1.

Lemma ts_files_saves N T path pub shares :
  Forall (fun s => exists b, EncodeTSPartialKey s = Ok b) shares ->
  saves (fun fs i =>
    match shares !! Z.to_nat i with
    | None => Panic
    | Some s =>
        share ← or_empty (EncodeTSPartialKey s);
        pubText ← or_empty (Ok pub);
        savetoFile fs (ts_key_file path i) (JMap (ts_keys share pubText N T))
    end) (ts_key_file path)
    (fun i j => exists s share, shares !! Z.to_nat i = Some s /\ EncodeTSPartialKey s = Ok share /\
                j = JMap (ts_keys share pub N T)).
Proof.
  intros Hs fs0 x fs1. destruct (shares !! Z.to_nat x) as [s|] eqn:E; [|done].
  rewrite Forall_forall in Hs. destruct (Hs s) as [b Hb]; [by eapply list_elem_of_lookup_2|].
  rewrite Hb. simpl. intros. eauto 10.
Qed.

(** The file of node [i] holds share [s] of the dealing. *)
Definition ts_file_ok (random : Seed) (N T : Z) (fs : FS) (f : bytes) (s : PriShare) : Prop :=
  exists share pub, EncodeTSPartialKey s = Ok share /\ EncodeTSPublicKey (GenTSKeys T N random).2 = Ok pub /\
    holds fs f (JMap (ts_keys share pub N T)).

Lemma ts_file_read random N T fs f s :
  - 2 ^ 53 < N < 2 ^ 53 -> - 2 ^ 53 < T < 2 ^ 53 -> ts_file_ok random N T fs f s ->
  GenTsKeyFromFile fs f = Ok {| sk_PubPoly := (GenTSKeys T N random).2; sk_PriShare := s; sk_N := N; sk_T := T |}.
Proof. intros HN HT (share & pub & Es & Ep & Hh). by eapply ts_keys_read. Qed.

Lemma ts_files_saved random N T path fs fs' :
  marshals random N T -> - 2 ^ 53 < N < 2 ^ 53 -> - 2 ^ 53 < T < 2 ^ 53 ->
  GenerateTsKeyFiles random N T path fs = Ok fs' ->
  (forall i, 0 <= i < N -> exists s, (GenTSKeys T N random).1 !! Z.to_nat i = Some s /\
    ts_file_ok random N T fs' (ts_key_file path i) s) /\
  (forall g j, (forall i, g <> ts_key_file path i) -> holds fs g j -> holds fs' g j).
Proof.
  intros [[pub Hpub] Hs] HN HT H. unfold GenerateTsKeyFiles in H. unfold ts_file_ok.
  destruct (GenTSKeys T N random) as [shares p]. simpl in *. rewrite Hpub in H.
  pose proof (ts_files_saves N T path pub shares Hs) as Hsv. split.
  - intros i Hi. eapply loop_saved with (x := i) in H; [|exact Hsv| | |by apply elem_of_seqZ].
    + destruct H as (j & (s & share & E & Es & ->) & Hh). eauto 10.
    + intros x j (s & share & _ & Es & ->). apply (document_JMap 0); [lia|].
      eauto using ts_keys_entries, EncodeTSPartialKey_ascii, EncodeTSPublicKey_ascii.
    + apply ts_file_distinct, NoDup_seqZ.
  - intros g j Hg. eapply loop_keeps; [exact Hsv| |exact H].
    intros (i & -> & _)%list_elem_of_fmap. by apply (Hg i).
Qed.

Lemma node_ts_file path i i' : node_key_file path i <> ts_key_file path i'.
Proof. unfold node_key_file, ts_key_file. intros E%app_inv_head. done. Qed.
End saved.

(** C19. Keys survive their files: after the commands that write the key files
    of all nodes, every node reads back exactly its own key pair, and its own
    share of the threshold key with the numbers it was dealt for, whatever the
    files held before. *)
Theorem key_files_roundtrip {P : Prims} {K : Kyber P} {L : KyberLaws K} generated random (N T : Z) path fs fs1 fs2 :
  GenerateKeyFiles generated N path fs = Ok fs1 -> GenerateTsKeyFiles random N T path fs1 = Ok fs2 ->
  marshals random N T -> N < 2 ^ 53 -> - 2 ^ 53 < T < 2 ^ 53 ->
  forall i, 0 <= i < N ->
  (exists pub pri, generated i = Ok (pub, pri) /\
     GenKeysFromFile fs2 (node_key_file path i) = Ok ({| Pubkey := pub |}, {| Prikey := pri |})) /\
  (exists s, (GenTSKeys T N random).1 !! Z.to_nat i = Some s /\
     GenTsKeyFromFile fs2 (ts_key_file path i)
     = Ok {| sk_PubPoly := (GenTSKeys T N random).2; sk_PriShare := s; sk_N := N; sk_T := T |}).
Proof.
  intros H1 H2 Hm HN HT i Hi. apply ts_files_saved in H2 as [H2 Hk]; [|done|lia|done]. split.
  2: { destruct (H2 i Hi) as (s & Es & Hs). exists s. split; [done|]. apply ts_file_read; [lia|done..]. }
  destruct (key_files_saved _ _ _ _ _ _ H1 Hi) as (pub & pri & E & Hh). exists pub, pri. split; [done|].
  apply node_keys_read, Hk; [|done]. intros i'. apply node_ts_file.
Qed.

(** ** Parameters *)

Definition pool_ints (p : PoolParameters.t) : Prop :=
  is_int (PoolParameters.Rate p) /\ is_int (PoolParameters.TxSize p) /\ is_int (PoolParameters.BatchSize p) /\
  is_int (PoolParameters.MaxQueueSize p).

Definition consensus_ints (p : Committee.Parameters) : Prop :=
  is_int (SyncTimeout p) /\ is_int (NetwrokDelay p) /\ is_int (MinBlockDelay p) /\ is_int (Faults p) /\
  is_int (RetryDelay p) /\ is_int (Protocol p) /\ Forall (Forall is_int) (Latency p).

Ltac read_field fields i :=
  rewrite (find_field_lookup fields i _ _ eq_refl) by vm_decide; cbn; rewrite ?int_of_lit_Itoa by done; cbn.

Lemma decode_pool p old : pool_ints p -> decode_struct pool_fields (pool_json p) old = Ok p.
Proof.
  intros (? & ? & ? & ?). cbn. read_field pool_fields 0%nat. read_field pool_fields 1%nat.
  read_field pool_fields 2%nat. read_field pool_fields 3%nat. by destruct p.
Qed.

Lemma decode_slice_ok {A} (elem : json -> A -> Res A) (f : A -> json) zero l old :
  Forall (fun x => forall o, elem (f x) o = Ok x) l -> decode_slice elem zero (f <$> l) old = Ok l.
Proof. intros H. revert old. induction H as [|x l Hx _ IH]; intros old; csimpl; [done|]. by rewrite Hx, IH. Qed.

Lemma decode_JSlice {A} (elem : json -> A -> Res A) (f : A -> json) zero l old :
  Forall (fun x => forall o, elem (f x) o = Ok x) l -> decode_list elem zero (JSlice f l) old = Ok l.
Proof. intros H. unfold JSlice. destruct l as [|x l]; [done|]. by apply decode_slice_ok. Qed.

Lemma decode_consensus p old : consensus_ints p -> decode_struct consensus_fields (consensus_json p) old = Ok p.
Proof.
  intros (? & ? & ? & ? & ? & ? & Hl). cbn. read_field consensus_fields 0%nat. read_field consensus_fields 1%nat.
  read_field consensus_fields 2%nat. read_field consensus_fields 3%nat. read_field consensus_fields 4%nat.
  read_field consensus_fields 5%nat. read_field consensus_fields 6%nat. read_field consensus_fields 7%nat.
  rewrite decode_JSlice; [by destruct p|]. eapply Forall_impl; [exact Hl|]. intros x Hx o. apply decode_JSlice.
  eapply Forall_impl; [exact Hx|]. intros z Hz o'. cbn. by apply int_of_lit_Itoa.
Qed.

Lemma JSlice_plain {A} (f : A -> json) l : (forall x, plain (f x)) -> plain (JSlice f l).
Proof. intros H. unfold JSlice. destruct l as [|x l]; [done|]. apply foldr_Forall, Forall_fmap, Forall_true. done. Qed.
Lemma JArr_depth d l : 0 <= d -> Forall (fun j => depth j <= d) l -> depth (JArr l) <= 1 + d.
Proof. intros Hd. induction 1 as [|x l Hx _ IH]; simpl in *; lia. Qed.
Lemma JSlice_depth {A} (f : A -> json) d l : 0 <= d -> (forall x, depth (f x) <= d) -> depth (JSlice f l) <= 1 + d.
Proof.
  intros Hd H. unfold JSlice. destruct l as [|x l]; [simpl; lia|]. apply JArr_depth; [done|].
  apply Forall_fmap, Forall_true. done.
Qed.

Lemma Parameters_document p : document (Parameters_json p).
Proof.
  assert (forall s v, forallb (fun b => bool_decide (ascii b)) (bs s) = true -> plain v -> Forall ascii (bs s) /\ plain v)
    as Hkv by (intros; split; [by apply bs_ascii|done]).
  assert (plain (pool_json (Pool p)) /\ plain (consensus_json (Consensus p))) as [H1 H2].
  { split; apply (foldr_Forall (fun kv => Forall ascii kv.1 /\ plain kv.2));
      repeat (apply Forall_cons; split; [apply Hkv; [done|first [done | by eexists | idtac]]|]); try done.
    apply JSlice_plain. intros l. apply JSlice_plain. intros z. by eexists. }
  split; [by repeat (split; [by apply Hkv|])|].
  assert (depth (pool_json (Pool p)) <= 1) by (apply (JObj_depth 0); [lia|]; by repeat constructor).
  assert (depth (consensus_json (Consensus p)) <= 3) as Hc.
  { apply (JObj_depth 2); [lia|]. repeat (constructor; [simpl; lia || idtac|]); [|constructor].
    apply (JSlice_depth _ 1); [lia|]. intros l. by apply (JSlice_depth _ 0). }
  assert (depth (Parameters_json p) <= 4); [|unfold maxNestingDepth; lia].
  apply (JObj_depth 3); [lia|]. repeat constructor; simpl snd; lia.
Qed.

Lemma parameters_read fs f p :
  pool_ints (Pool p) -> consensus_ints (Consensus p) -> holds fs f (Parameters_json p) ->
  GenParamatersFromFile fs f = Ok (Pool p, Consensus p).
Proof.
  intros Hp Hc (text & E & Et). unfold GenParamatersFromFile. rewrite E, Et. cbn [mbind Res_bind].
  unfold Parameters_json, decode_struct. cbn [foldl mbind Res_bind fst snd].
  rewrite (find_field_lookup parameter_fields 0 _ _ eq_refl) by vm_decide. rewrite decode_pool by done. cbn [mbind Res_bind].
  rewrite (find_field_lookup parameter_fields 1 _ _ eq_refl) by vm_decide. rewrite decode_consensus by done. done.
Qed.

(** ** The committee *)

(** What the committee file can carry: each member is filed under its own
    number ([GenCommitteeFromFile] sets [Id] to the key, whatever it was), the
    number is exact as a float64, and the address is ASCII text. *)
Definition consistent (c : Committee) : Prop :=
  map_Forall (fun id item => is_int id /\ Id item = id /\ - 2 ^ 53 < id < 2 ^ 53 /\ Forall ascii (bs (Addr item)))
    (Authorities c).

Definition authority_map (id : NodeID) (item : Authority) : gmap bytes json :=
  <[bs "addr" := JStr (bs (Addr item))]> (<[bs "node_id" := JInt id]>
  (<[bs "name" := JStr (EncodePublicKey (Name item))]> ∅)).

Lemma authority_entries id item :
  - 2 ^ 53 < id < 2 ^ 53 -> Forall ascii (bs (Addr item)) -> entries_ok 0 (authority_map id item).
Proof.
  intros Hid Ha. unfold authority_map. apply entries_insert; [by apply bs_ascii|done|done|done|].
  apply entries_insert; [by apply bs_ascii|by eexists|by apply number_Itoa|done|].
  apply entries_1; [by apply bs_ascii|apply hex_ascii|done|done].
Qed.

Lemma str_bs s : str (bs s) = s.
Proof. apply String.string_of_list_byte_of_string. Qed.

Lemma read_authority_json acc id item :
  is_int id -> Id item = id -> read_authority acc (Itoa id, authority_json id item) = Ok (<[id := item]> acc).
Proof.
  intros Hi Hid. unfold read_authority. cbn [fst snd]. rewrite Atoi_Itoa by done.
  change (authority_json id item) with (JMap (authority_map id item)). unfold JMap, as_map. rewrite go_map_JMap.
  cbn [mbind Res_bind]. unfold authority_map. rewrite lookup_insert_eq.
  do 2 (rewrite lookup_insert_ne by vm_decide). rewrite lookup_insert_eq. cbn [as_string mbind Res_bind].
  unfold DecodePublicKey, EncodePublicKey. rewrite hex_Decode_Encode. cbn [mbind Res_bind]. rewrite str_bs.
  destruct item as [[pk] i a]. simpl in *. by subst.
Qed.

Definition entry_text (e : NodeID * Authority) : bytes * json := (Itoa e.1, authority_json e.1 e.2).

Lemma committee_data_list order :
  NoDup order.*1 -> map_to_list (committee_data order) ≡ₚ entry_text <$> order.
Proof.
  intros Hn. assert (committee_data order = go_map (entry_text <$> order)) as ->.
  { assert (forall g : gmap bytes json, foldl (fun data e => <[Itoa e.1 := authority_json e.1 e.2]> data) g order
      = foldl (fun g kv => <[kv.1 := kv.2]> g) g (entry_text <$> order)) as H; [|apply H].
    clear Hn. induction order as [|e order IH]; intros g; csimpl; [done|]. apply IH. }
  assert (NoDup (entry_text <$> order).*1) as Hn'.
  { rewrite <- list_fmap_compose.
    assert ((fst ∘ entry_text <$> order) = Itoa <$> order.*1) as -> by (rewrite <- list_fmap_compose; done).
    apply NoDup_fmap_2; [|done]. intros x y. apply Itoa_inj. }
  rewrite go_map_list by done. by apply map_to_list_to_map.
Qed.

Lemma committee_data_ok c order : range_order c order -> consistent c -> entries_ok 1 (committee_data order).
Proof.
  intros Ho Hc. unfold entries_ok. apply map_Forall_to_list. rewrite committee_data_list.
  2: { unfold range_order in Ho. rewrite Ho. apply NoDup_fst_map_to_list. }
  apply Forall_fmap. apply map_Forall_to_list in Hc. rewrite <- Ho in Hc. eapply Forall_impl; [exact Hc|].
  intros [id item] (Hi & Hid & Hr & Ha). simpl. pose proof (authority_entries id item Hr Ha) as He.
  split_and!; [apply Itoa_ascii|by eapply (JMap_plain 0)|by eapply (JMap_numbers 0)|by apply (JMap_depth 0)].
Qed.

Lemma res_loop_authorities order acc :
  Forall (fun e => is_int e.1 /\ Id e.2 = e.1) order ->
  res_loop read_authority acc (entry_text <$> order) = Ok (foldl (fun m e => <[e.1 := e.2]> m) acc order).
Proof.
  intros H. revert acc. induction H as [|[id item] order [Hi Hid] _ IH]; intros acc; csimpl; [done|].
  change (entry_text (id, item)) with (Itoa id, authority_json id item).
  rewrite read_authority_json by done. cbn [mbind Res_bind]. apply IH.
Qed.

Lemma committee_read fs f c order visit :
  range_order c order -> consistent c -> (forall m, visit m ≡ₚ map_to_list m) ->
  holds fs f (JMap (committee_data order)) -> GenCommitteeFromFile fs f visit = Ok c.
Proof.
  intros Ho Hc Hv Hh. unfold GenCommitteeFromFile. rewrite (read_map _ _ _ 1 (committee_data_ok c order Ho Hc) Hh).
  cbn [mbind Res_bind]. assert (NoDup order.*1) as Hn.
  { unfold range_order in Ho. rewrite Ho. apply NoDup_fst_map_to_list. }
  pose proof (Hv (committee_data order)) as Hp. rewrite committee_data_list in Hp by done.
  apply Permutation_map_inv in Hp as (order' & -> & Hp'). change (map entry_text order') with (entry_text <$> order').
  apply map_Forall_to_list in Hc. rewrite <- Ho, Hp' in Hc. rewrite res_loop_authorities.
  - cbn [mbind Res_bind]. rewrite foldl_insert by (by rewrite <- Hp'). destruct c as [auths]. do 2 f_equal. simpl in *.
    rewrite <- (list_to_map_to_list auths). apply (list_to_map_proper (M := gmap NodeID)); [by rewrite <- Hp'|].
    by rewrite <- Hp'.
  - eapply Forall_impl; [exact Hc|]. intros [id item] (? & ? & _). done.
Qed.

(** C20. A committee and parameters that were saved are read back unchanged,
    whatever the file held before and in whatever order maps are visited.  For
    the committee this is under [consistent]: every member's [Id] is its key in
    the map, of absolute value below 2^53, and its address is ASCII; for the
    parameters their numbers must fit Go's int. *)
Theorem config_files_roundtrip fs fs' f (c : Committee) (p : Config.Parameters) order visit :
  (range_order c order -> consistent c -> (forall m, visit m ≡ₚ map_to_list m) ->
   savetoFile fs f (JMap (committee_data order)) = Ok fs' -> GenCommitteeFromFile fs' f visit = Ok c) /\
  (pool_ints (Pool p) -> consensus_ints (Consensus p) ->
   savetoFile fs f (Parameters_json p) = Ok fs' -> GenParamatersFromFile fs' f = Ok (Pool p, Consensus p)).
Proof.
  split.
  - intros Ho Hc Hv Hs. eapply committee_read; eauto. eapply save_holds; [|done].
    apply (document_JMap 1); [lia|]. by eapply committee_data_ok.
  - intros Hp Hc Hs. apply parameters_read; [done..|]. eapply save_holds; [|done]. apply Parameters_document.
Qed.

(** ** Concrete files *)

(** Shares are numbers, written in unary; points carry nothing. *)
Definition demo_kyber : Kyber (demo_prims sha256) := {|
  Scalar := nat; Point := unit;
  share_I := (fun i : nat => wrap64 (Z.of_nat i)) : PriShare (Prims := demo_prims sha256) -> Z;
  share_V := (fun i : nat => i) : PriShare (Prims := demo_prims sha256) -> nat;
  mkPriShare := (fun _ i => i) : Z -> nat -> PriShare (Prims := demo_prims sha256);
  share_Hash := (fun i : nat => replicate i Byte.x00) : PriShare (Prims := demo_prims sha256) -> bytes;
  scalar_MarshalBinary i := Ok (replicate i Byte.x00);
  scalar_UnmarshalBinary b := Ok (length b);
  pub_Info := (fun _ => (tt, [tt; tt])) : PubPoly (Prims := demo_prims sha256) -> unit * list unit;
  NewPubPoly := (fun _ _ => tt) : unit -> list unit -> PubPoly (Prims := demo_prims sha256);
  point_MarshalBinary _ := Ok [];
  point_UnmarshalBinary _ := Ok tt;
  PriPoly := unit; Seed := unit;
  NewPriPoly _ _ := tt;
  pri_Commit := (fun _ => tt) : unit -> PubPoly (Prims := demo_prims sha256);
  pri_Shares := (fun _ n => seq 0 (Z.to_nat n)) : unit -> Z -> list (PriShare (Prims := demo_prims sha256));
|}.

#[global] Instance demo_kyber_laws : KyberLaws demo_kyber.
Proof.
  split; simpl; try done.
  - intros s. by apply wrap_range.
  - intros v b [= <-]. by rewrite length_replicate.
  - by intros [].
  - by intros [] b [= <-].
Qed.

Module ConfigDemo.
Definition fs0 : FS := {| files := ∅; denied := ∅ |}.
Definition generated (i : Z) : Res (bytes * bytes) :=
  Ok (replicate 32 (byte_of_Z i), replicate 64 (byte_of_Z i)).
Definition saved (r : Res FS) : FS := match r with Ok fs => fs | _ => fs0 end.
Definition fs1 : FS := saved (GenerateKeyFiles generated 4 [] fs0).
Definition fs2 : FS := saved (GenerateTsKeyFiles (K := demo_kyber) tt 4 3 [] fs1).
Definition fs3 : FS := saved (savetoFile fs2 (bs "c") (JMap (committee_data (map_to_list (Authorities (demo_committee 4)))))).
Definition fs4 : FS := saved (savetoFile fs2 (bs "p") (Parameters_json GenDefaultParameters)).
End ConfigDemo.

Lemma key_files_roundtrip_witness :
  GenKeysFromFile ConfigDemo.fs2 (node_key_file [] 2)
  = Ok ({| Pubkey := replicate 32 (byte_of_Z 2) |}, {| Prikey := replicate 64 (byte_of_Z 2) |}).
Proof.
  destruct (key_files_roundtrip (K := demo_kyber) ConfigDemo.generated tt 4 3 [] ConfigDemo.fs0 ConfigDemo.fs1
    ConfigDemo.fs2) with (i := 2) as [(pub & pri & E & H) _]; try lia.
  - reflexivity.
  - reflexivity.
  - split; [by eexists|]. by repeat (constructor; [by eexists|]).
  - injection E as <- <-. exact H.
Defined.

Lemma config_files_roundtrip_witness :
  GenCommitteeFromFile ConfigDemo.fs3 (bs "c") map_to_list = Ok (demo_committee 4) /\
  GenParamatersFromFile ConfigDemo.fs4 (bs "p") = Ok (PoolParameters.DefaultParameters, DefaultParameters).
Proof.
  split.
  - apply (proj1 (config_files_roundtrip ConfigDemo.fs2 ConfigDemo.fs3 (bs "c") (demo_committee 4) GenDefaultParameters
      (map_to_list (Authorities (demo_committee 4))) map_to_list));
      [unfold range_order; reflexivity|vm_decide|intros m; reflexivity|reflexivity].
  - apply (proj2 (config_files_roundtrip ConfigDemo.fs2 ConfigDemo.fs4 (bs "p") (demo_committee 4) GenDefaultParameters
      (map_to_list (Authorities (demo_committee 4))) map_to_list)); [vm_decide..|reflexivity].
Defined.
