(* ===== verification/Logger.v ===== *)
(** * Package logger: levels and log files

    Models [src/logger/logger.go] and [src/logger/writer.go]: four loggers, the
    writer each writes to now ([logs]) and the one it writes to when its level
    is on ([out]).  Opening a log file creates it; what an older file holds
    stays. *)
From S2P Require Import Prelude Sha256 Crypto Json JsonText TsKeys Committee Pool Config.

Definition InfoLevel : Z := 1.
Definition DebugLevel : Z := 2.
Definition ErrorLevel : Z := 4.
Definition WarnLevel : Z := 8.
Definition TestLevel : Z := Z.lor (Z.lor (Z.lor InfoLevel DebugLevel) ErrorLevel) WarnLevel.
Definition DeployLevel : Z := Z.lor (Z.lor InfoLevel ErrorLevel) WarnLevel.
Definition LevelNum : nat := 4.

Inductive Writer := Stdout | Discard | FileWriter (path : bytes).

Record Loggers := { out : list Writer; logs : list Writer }.

Definition initial_loggers : Loggers := {| out := replicate LevelNum Stdout; logs := replicate LevelNum Stdout |}.

(** [logs[i].SetOutput(w)] *)
Definition set_log (i : nat) (w : Writer) (lg : Loggers) : Loggers := {| out := out lg; logs := <[i := w]> (logs lg) |}.

Definition level_on (level : Z) (i : nat) : bool := bool_decide (Z.land (Z.shiftr level (Z.of_nat i)) 1 = 1).

Definition SetLevel (level : Z) (lg : Loggers) : Loggers :=
  foldl (fun lg i => if level_on level i then set_log i (default Discard (out lg !! i)) lg else set_log i Discard lg)
    lg (seq 0 LevelNum).

Definition SetOutput (level : Z) (w : Writer) (lg : Loggers) : Loggers :=
  foldl (fun lg i => if level_on level i then
                       let lg := set_log i w lg in {| out := <[i := w]> (out lg); logs := logs lg |}
                     else lg) lg (seq 0 LevelNum).

Definition NewFileWriter (fs : FS) (path : bytes) : Res (FS * Writer) :=
  if decide (path ∈ denied fs) then Panic else
  Ok ({| files := <[path := default [] (files fs !! path)]> (files fs); denied := denied fs |}, FileWriter path).

(** Where a line of logger [i] is written, if anywhere. *)
Definition line_goes (lg : Loggers) (i : nat) : option Writer :=
  match logs lg !! i with Some Discard => None | w => w end.

(** ** The log files of a node

    Step 1 of [NewNode]. *)

Definition log_file (name : string) (logPath : bytes) (nodeID : Z) : bytes :=
  logPath ++ bs "/node-" ++ bs name ++ bs "-" ++ Itoa nodeID ++ bs ".log".

Definition init_logs (logPath : bytes) (logLevel nodeID : Z) (fs : FS) (lg : Loggers) : Res (FS * Loggers) :=
  '(fs, info) ← NewFileWriter fs (log_file "info" logPath nodeID);
  let lg := SetOutput InfoLevel info lg in
  '(fs, debug) ← NewFileWriter fs (log_file "debug" logPath nodeID);
  let lg := SetOutput DebugLevel debug lg in
  '(fs, warn) ← NewFileWriter fs (log_file "warn" logPath nodeID);
  let lg := SetOutput WarnLevel warn lg in
  '(fs, error) ← NewFileWriter fs (log_file "error" logPath nodeID);
  let lg := SetOutput ErrorLevel error lg in
  Ok (fs, SetLevel logLevel lg).

(** The files in the order of the loggers. *)
Definition log_names : list string := ["info"; "debug"; "error"; "warn"].

(** Files that could be read can still be read, with the same content. *)
Definition fs_ext (fs fs' : FS) : Prop := forall f text, open_read fs f = Some text -> open_read fs' f = Some text.

Lemma NewFileWriter_ext fs path fs' w : NewFileWriter fs path = Ok (fs', w) -> fs_ext fs fs' /\ denied fs' = denied fs.
Proof.
  unfold NewFileWriter. case_decide; [done|]. intros [= <- <-]. split; [|done]. intros f text. unfold open_read. simpl.
  case_decide; [done|]. destruct (decide (path = f)) as [->|Hne]; [|by rewrite lookup_insert_ne].
  intros E. by rewrite lookup_insert_eq, E.
Qed.

Lemma SetLevel_line level lg i : (i < LevelNum)%nat -> length (out lg) = LevelNum -> length (logs lg) = LevelNum ->
  logs (SetLevel level lg) !! i = if level_on level i then out lg !! i else Some Discard.
Proof.
  intros Hi Ho Hl. destruct lg as [o l]. simpl in *.
  destruct o as [|w0 [|w1 [|w2 [|w3 []]]]], l as [|m0 [|m1 [|m2 [|m3 []]]]]; try done. unfold SetLevel. cbn [seq LevelNum foldl].
  destruct (level_on level 0) eqn:E0, (level_on level 1) eqn:E1, (level_on level 2) eqn:E2, (level_on level 3) eqn:E3;
    destruct i as [|[|[|[|]]]]; simpl; rewrite ?E0, ?E1, ?E2, ?E3; try done; unfold LevelNum in Hi; lia.
Qed.

(** Every file that is not denied can be opened, and then each logger writes
    to its own file exactly when its bit of the level is set. *)
Lemma init_logs_routes logPath logLevel nodeID fs lg :
  length (out lg) = LevelNum -> length (logs lg) = LevelNum ->
  Forall (fun name => log_file name logPath nodeID ∉ denied fs) log_names ->
  exists fs' lg', init_logs logPath logLevel nodeID fs lg = Ok (fs', lg') /\ fs_ext fs fs' /\
    forall i name, log_names !! i = Some name ->
      line_goes lg' i = if level_on logLevel i then Some (FileWriter (log_file name logPath nodeID)) else None.
Proof.
  intros Ho Hl Hd. unfold init_logs.
  assert (forall fs1 name, denied fs1 = denied fs -> name ∈ log_names -> exists fs2,
    NewFileWriter fs1 (log_file name logPath nodeID) = Ok (fs2, FileWriter (log_file name logPath nodeID)) /\
    fs_ext fs1 fs2 /\ denied fs2 = denied fs) as Hopen.
  { intros fs1 name Ed Hin. rewrite Forall_forall in Hd. specialize (Hd _ Hin).
    destruct (NewFileWriter fs1 (log_file name logPath nodeID)) as [[fs2 w]| |] eqn:E.
    - apply NewFileWriter_ext in E as Hx. unfold NewFileWriter in E. case_decide; [done|]. exists fs2.
      destruct Hx as [Hx1 Hx2]. split_and!; [by injection E as <- <-|done|congruence].
    - unfold NewFileWriter in E. by case_decide.
    - unfold NewFileWriter in E. case_decide; [congruence|done]. }
  destruct (Hopen fs "info") as (f1 & -> & X1 & D1); [done|vm_decide|]. cbn [mbind Res_bind].
  destruct (Hopen f1 "debug") as (f2 & -> & X2 & D2); [done|vm_decide|]. cbn [mbind Res_bind].
  destruct (Hopen f2 "warn") as (f3 & -> & X3 & D3); [done|vm_decide|]. cbn [mbind Res_bind].
  destruct (Hopen f3 "error") as (f4 & -> & X4 & D4); [done|vm_decide|]. cbn [mbind Res_bind].
  eexists _, _. split_and!; [reflexivity|by intros f text H; apply X4, X3, X2, X1|].
  intros i name Hn. destruct lg as [o l]. simpl in Ho, Hl.
  destruct o as [|w0 [|w1 [|w2 [|w3 []]]]], l as [|m0 [|m1 [|m2 [|m3 []]]]]; try done.
  unfold line_goes. rewrite SetLevel_line; [|by apply lookup_lt_Some in Hn|done|done].
  destruct i as [|[|[|[|]]]]; simplify_eq/=; by destruct (level_on _ _).
Qed.
