(* ===== verification/Message.v ===== *)
(** * Package core: blocks and messages

    Models [src/core/message.go] and the message-type constants.  A pointer
    field that the code tests or dereferences is an [option]; dereferencing
    [nil] panics.  [Shares] and [References] hold no [nil] entries: gob neither
    encodes nor decodes one. *)
From S2P Require Import Prelude Sha256 Crypto Committee Pool.

Definition HEIGHT_1 : Z := 0.
Definition HEIGHT_2 : Z := 1.

Definition LEVEL_2 : Z := 0.
Definition LEVEL_1 : Z := 1.
Definition LEVEL_0 : Z := 2.

Definition ProposeType : Z := 0.
Definition VoteType : Z := 1.
Definition FinVoteType : Z := 2.
Definition SpeedVoteType : Z := 3.
Definition ElectType : Z := 4.
Definition RandomCoinType : Z := 5.
Definition ReportType : Z := 6.
Definition DocGQCType : Z := 7.

Record BlockQC := {
  qc_View : Z;
  qc_Height : Z;
  qc_Proposer : NodeID;
  qc_ParentBlockHash : Digest;
  qc_Shares : gmap NodeID SignatureShare;
}.

Record Block := {
  b_Author : NodeID;
  b_View : Z;
  b_Height : Z;
  b_Batch : Batch;
  b_Qc : option BlockQC;
  b_References : list BlockQC;
}.

Record ReportMsg := {
  r_Author : NodeID;
  r_View : Z;
  r_Level : Z;
  r_BlockQc : option BlockQC;
  r_Signature : Signature;
}.

Record DocGQCMsg := { d_View : Z; d_Level : Z; d_Shares : list ReportMsg }.

Record ProposeMsg := {
  p_Author : NodeID;
  p_B : option Block;
  p_View : Z;
  p_Height : Z;
  p_DocG : option DocGQCMsg;
  p_Signature : Signature;
}.

Record VoteMsg := {
  v_Author : NodeID;
  v_Proposer : NodeID;
  v_BlockHash : Digest;
  v_View : Z;
  v_Height : Z;
  v_Signature : Signature;
}.

Record FinVoteMsg := {
  fv_Author : NodeID;
  fv_View : Z;
  fv_Qc : option BlockQC;
  fv_Signature : Signature;
}.

Record SpeedVoteMsg := {
  sv_Author : NodeID;
  sv_Proposer : NodeID;
  sv_BlockHash : Digest;
  sv_View : Z;
  sv_Signature : Signature;
}.

Record ElectMsg := { e_Author : NodeID; e_View : Z; e_SigShare : SignatureShare }.

Record RandomCoinMsg := {
  rc_Leader : NodeID;
  rc_View : Z;
  rc_Author : NodeID;
  rc_Signature : Signature;
}.

#[global] Instance BlockQC_eq_dec : EqDecision BlockQC.
Proof. solve_decision. Defined.
#[global] Instance Block_eq_dec : EqDecision Block.
Proof. solve_decision. Defined.
#[global] Instance ReportMsg_eq_dec : EqDecision ReportMsg.
Proof. solve_decision. Defined.
#[global] Instance DocGQCMsg_eq_dec : EqDecision DocGQCMsg.
Proof. solve_decision. Defined.
#[global] Instance ProposeMsg_eq_dec : EqDecision ProposeMsg.
Proof. solve_decision. Defined.
#[global] Instance VoteMsg_eq_dec : EqDecision VoteMsg.
Proof. solve_decision. Defined.
#[global] Instance FinVoteMsg_eq_dec : EqDecision FinVoteMsg.
Proof. solve_decision. Defined.
#[global] Instance SpeedVoteMsg_eq_dec : EqDecision SpeedVoteMsg.
Proof. solve_decision. Defined.
#[global] Instance ElectMsg_eq_dec : EqDecision ElectMsg.
Proof. solve_decision. Defined.
#[global] Instance RandomCoinMsg_eq_dec : EqDecision RandomCoinMsg.
Proof. solve_decision. Defined.

(** The interface [ConsensusMessage]: the types with both [MsgType] and
    [Hash].  [DocGQCMsg] has no [Hash] and is not one of them. *)
Inductive ConsensusMessage : Type :=
| MPropose (p : ProposeMsg)
| MVote (v : VoteMsg)
| MFinVote (fv : FinVoteMsg)
| MSpeedVote (sv : SpeedVoteMsg)
| MElect (e : ElectMsg)
| MCoin (rc : RandomCoinMsg)
| MReport (r : ReportMsg).

#[global] Instance ConsensusMessage_eq_dec : EqDecision ConsensusMessage.
Proof. solve_decision. Defined.

Definition MsgType (m : ConsensusMessage) : Z :=
  match m with
  | MPropose _ => ProposeType
  | MVote _ => VoteType
  | MFinVote _ => FinVoteType
  | MSpeedVote _ => SpeedVoteType
  | MElect _ => ElectType
  | MCoin _ => RandomCoinType
  | MReport _ => ReportType
  end.

Section message.
Context `{P : Prims}.

(** A hasher fed with the given parts in order, then summed. *)
Definition hash_parts (parts : list bytes) : Digest :=
  (Hasher_Sum256 (foldl Hasher_Add NewHasher parts) []).1.

(** *** Block *)

Definition Block_Hash (b : Block) : Digest :=
  hash_parts [AppendInt2 (b_Author b); AppendInt2 (b_View b); AppendInt2 (b_Height b);
              AppendInt2 (ID (b_Batch b))].

(** *** ProposeMsg *)

Definition ProposeMsg_Hash (p : ProposeMsg) : Res Digest :=
  match p_B p with
  | None => Panic
  | Some B =>
      Ok (hash_parts [AppendInt2 (p_Author p); AppendInt2 (p_View p); AppendInt2 (p_Height p);
                      Block_Hash B])
  end.

Definition NewProposeMsg (B : Block) (sigService : SigService) : Res ProposeMsg :=
  let p := {| p_Author := b_Author B; p_B := Some B; p_View := b_View B; p_Height := b_Height B;
              p_DocG := None; p_Signature := {| Sig := [] |} |} in
  h ← ProposeMsg_Hash p;
  sig ← RequestSignature sigService h;
  Ok {| p_Author := p_Author p; p_B := p_B p; p_View := p_View p; p_Height := p_Height p;
        p_DocG := p_DocG p; p_Signature := sig |}.

Definition ProposeMsg_Verify (p : ProposeMsg) (committee : Committee) : Res bool :=
  let pub := Committee_Name committee (p_Author p) in
  h ← ProposeMsg_Hash p;
  Signature_Verify (p_Signature p) pub h.

(** *** VoteMsg *)

Definition VoteMsg_Hash (v : VoteMsg) : Digest :=
  hash_parts [AppendInt2 (v_View v); AppendInt2 (v_Height v); AppendInt2 (v_Proposer v); v_BlockHash v].

Definition NewVoteMsg (Author : NodeID) (B : Block) (sigService : SigService) : Res VoteMsg :=
  let v := {| v_Author := Author; v_Proposer := b_Author B; v_BlockHash := Block_Hash B;
              v_View := b_View B; v_Height := b_Height B; v_Signature := {| Sig := [] |} |} in
  sig ← RequestSignature sigService (VoteMsg_Hash v);
  Ok {| v_Author := v_Author v; v_Proposer := v_Proposer v; v_BlockHash := v_BlockHash v;
        v_View := v_View v; v_Height := v_Height v; v_Signature := sig |}.

Definition VoteMsg_Verify (v : VoteMsg) (committee : Committee) : Res bool :=
  Signature_Verify (v_Signature v) (Committee_Name committee (v_Author v)) (VoteMsg_Hash v).

(** *** FinVoteMsg *)

Definition FinVoteMsg_Hash (f : FinVoteMsg) : Digest :=
  hash_parts [AppendInt2 (fv_Author f); AppendInt2 (fv_View f)].

Definition NewFinVoteMsg (Author : NodeID) (View : Z) (qc : option BlockQC) (sigService : SigService)
    : Res FinVoteMsg :=
  let f := {| fv_Author := Author; fv_View := View; fv_Qc := qc; fv_Signature := {| Sig := [] |} |} in
  sig ← RequestSignature sigService (FinVoteMsg_Hash f);
  Ok {| fv_Author := fv_Author f; fv_View := fv_View f; fv_Qc := fv_Qc f; fv_Signature := sig |}.

Definition FinVoteMsg_Verify (f : FinVoteMsg) (committee : Committee) : Res bool :=
  Signature_Verify (fv_Signature f) (Committee_Name committee (fv_Author f)) (FinVoteMsg_Hash f).

(** *** SpeedVoteMsg *)

Definition SpeedVoteMsg_Hash (v : SpeedVoteMsg) : Digest :=
  hash_parts [AppendInt2 (sv_View v); AppendInt2 (sv_Proposer v); sv_BlockHash v].

Definition NewSpeedVoteMsg (Author : NodeID) (qc : BlockQC) (sigService : SigService) : Res SpeedVoteMsg :=
  let v := {| sv_Author := Author; sv_Proposer := qc_Proposer qc; sv_BlockHash := qc_ParentBlockHash qc;
              sv_View := qc_View qc; sv_Signature := {| Sig := [] |} |} in
  sig ← RequestSignature sigService (SpeedVoteMsg_Hash v);
  Ok {| sv_Author := sv_Author v; sv_Proposer := sv_Proposer v; sv_BlockHash := sv_BlockHash v;
        sv_View := sv_View v; sv_Signature := sig |}.

Definition SpeedVoteMsg_Verify (v : SpeedVoteMsg) (committee : Committee) : Res bool :=
  Signature_Verify (sv_Signature v) (Committee_Name committee (sv_Author v)) (SpeedVoteMsg_Hash v).

(** *** BlockQC: [order] is the iteration order of [Shares].  The method
    answers whether combining the shares failed. *)

Definition BlockQC_Verify (q : BlockQC) (order : list (NodeID * SignatureShare)) (sigService : SigService)
    : Res bool :=
  let h := hash_parts [AppendInt2 (qc_View q); AppendInt2 (qc_Height q); AppendInt2 (qc_Proposer q);
                       qc_ParentBlockHash q] in
  match CombineIntactTSPartial order.*2 (ShareKey sigService) h with
  | Ok _ => Ok false
  | Err _ => Ok true
  | Panic => Panic
  end.

(** *** ElectMsg *)

Definition elect_digest (view : Z) : Digest := hash_parts [AppendInt2 view].

Definition ElectMsg_Hash (m : ElectMsg) : Digest := elect_digest (e_View m).

Definition NewElectMsg (Author : NodeID) (view : Z) (sigService : SigService) : Res ElectMsg :=
  '(share, err) ← RequestTsSugnature sigService (elect_digest view);
  match err with
  | Some e => Err e
  | None => Ok {| e_Author := Author; e_View := view; e_SigShare := share |}
  end.

Definition ElectMsg_Verify (m : ElectMsg) : bool := SignatureShare_Verify (e_SigShare m) (ElectMsg_Hash m).

(** *** RandomCoinMsg *)

Definition RandomCoinMsg_Hash (m : RandomCoinMsg) : Digest :=
  hash_parts [AppendInt2 (rc_View m); AppendInt2 (rc_Leader m); AppendInt2 (rc_Author m)].

Definition NewRandomCoinMsg (Leader Author : NodeID) (View : Z) (sigService : SigService) : Res RandomCoinMsg :=
  let m := {| rc_Leader := Leader; rc_View := View; rc_Author := Author; rc_Signature := {| Sig := [] |} |} in
  sig ← RequestSignature sigService (RandomCoinMsg_Hash m);
  Ok {| rc_Leader := rc_Leader m; rc_View := rc_View m; rc_Author := rc_Author m; rc_Signature := sig |}.

Definition RandomCoinMsg_Verify (m : RandomCoinMsg) (committee : Committee) : Res bool :=
  Signature_Verify (rc_Signature m) (Committee_Name committee (rc_Author m)) (RandomCoinMsg_Hash m).

(** *** ReportMsg: the quorum certificate is not part of what is signed *)

Definition ReportMsg_Hash (r : ReportMsg) : Digest :=
  hash_parts [AppendInt2 (r_Author r); AppendInt2 (r_View r); AppendInt2 (r_Level r)].

Definition NewReportMsg (Author : NodeID) (View Level : Z) (qc : option BlockQC) (sigService : SigService)
    : Res ReportMsg :=
  let r := {| r_Author := Author; r_View := View; r_Level := Level; r_BlockQc := qc;
              r_Signature := {| Sig := [] |} |} in
  sig ← RequestSignature sigService (ReportMsg_Hash r);
  Ok {| r_Author := r_Author r; r_View := r_View r; r_Level := r_Level r; r_BlockQc := r_BlockQc r;
        r_Signature := sig |}.

Definition ReportMsg_Verify (r : ReportMsg) (committee : Committee) : Res bool :=
  Signature_Verify (r_Signature r) (Committee_Name committee (r_Author r)) (ReportMsg_Hash r).

(** *** DocGQCMsg: the answers of the shares are not looked at *)

Definition NewDocGQCMsg (View Level : Z) (shares : list ReportMsg) : DocGQCMsg :=
  {| d_View := View; d_Level := Level; d_Shares := shares |}.

Fixpoint DocG_loop (shares : list ReportMsg) (committee : Committee) : Res unit :=
  match shares with
  | [] => Ok tt
  | share :: rest => _ ← ReportMsg_Verify share committee; DocG_loop rest committee
  end.

Definition DocGQCMsg_Verify (d : DocGQCMsg) (committee : Committee) : Res bool :=
  _ ← DocG_loop (d_Shares d) committee; Ok true.

(** What [Hash] covers, of the interface. *)
Definition Msg_Hash (m : ConsensusMessage) : Res Digest :=
  match m with
  | MPropose p => ProposeMsg_Hash p
  | MVote v => Ok (VoteMsg_Hash v)
  | MFinVote f => Ok (FinVoteMsg_Hash f)
  | MSpeedVote v => Ok (SpeedVoteMsg_Hash v)
  | MElect e => Ok (ElectMsg_Hash e)
  | MCoin r => Ok (RandomCoinMsg_Hash r)
  | MReport r => Ok (ReportMsg_Hash r)
  end.
End message.

(** ** What the hashes cover *)

Lemma hash_parts_concat `{Prims} parts : hash_parts parts = sum256 (mjoin parts).
Proof.
  unfold hash_parts, Hasher_Sum256. simpl. rewrite app_nil_r. f_equal.
  enough (forall h, h_data (foldl Hasher_Add h parts) = h_data h ++ mjoin parts) as E by apply E.
  induction parts as [|p parts IH]; intros h; simpl; [by rewrite app_nil_r|].
  rewrite IH. simpl. by rewrite <- app_assoc.
Qed.

Definition block_payload (b : Block) : bytes :=
  AppendInt2 (b_Author b) ++ AppendInt2 (b_View b) ++ AppendInt2 (b_Height b) ++ AppendInt2 (ID (b_Batch b)).

Lemma Block_Hash_payload `{Prims} b : Block_Hash b = sum256 (block_payload b).
Proof. unfold Block_Hash, block_payload. rewrite hash_parts_concat. simpl. by rewrite app_nil_r. Qed.

(** Among the blocks one author makes in one view, the hash separates the
    heights and the batches, as far as SHA-256 separates the two inputs. *)
Theorem Block_Hash_separates `{Prims} (b1 b2 : Block) :
  b_Author b1 = b_Author b2 -> b_View b1 = b_View b2 ->
  (b_Height b1 = HEIGHT_1 \/ b_Height b1 = HEIGHT_2) ->
  (b_Height b2 = HEIGHT_1 \/ b_Height b2 = HEIGHT_2) ->
  (sum256 (block_payload b1) = sum256 (block_payload b2) -> block_payload b1 = block_payload b2) ->
  Block_Hash b1 = Block_Hash b2 ->
  b_Height b1 = b_Height b2 /\ ID (b_Batch b1) = ID (b_Batch b2).
Proof.
  intros EA EV H1 H2 Hcr. rewrite !Block_Hash_payload. intros E%Hcr.
  unfold block_payload in E. rewrite EA, EV in E. do 2 apply app_inv_head in E.
  destruct H1 as [E1|E1], H2 as [E2|E2]; rewrite E1, E2 in *; simpl in E; simplify_eq; done.
Qed.

Definition demo_block (author view height batch : Z) : Block :=
  {| b_Author := author; b_View := view; b_Height := height;
     b_Batch := {| ID := batch; Txs := [] |}; b_Qc := None; b_References := [] |}.

(** The same block with transactions in its batch. *)
Definition demo_block_txs (author view height batch : Z) : Block :=
  {| b_Author := author; b_View := view; b_Height := height;
     b_Batch := {| ID := batch; Txs := [[Byte.x00]] |}; b_Qc := None; b_References := [] |}.

Lemma Block_Hash_separates_witness :
  b_Height (demo_block 2 5 0 7) = b_Height (demo_block_txs 2 5 0 7) /\
  ID (b_Batch (demo_block 2 5 0 7)) = ID (b_Batch (demo_block_txs 2 5 0 7)).
Proof.
  apply (Block_Hash_separates (H := demo_prims sha256) (demo_block 2 5 0 7) (demo_block_txs 2 5 0 7)); auto.
Defined.

(** C38. Across authors and views it does not: the decimal-free concatenation
    of base-2 digits is ambiguous, so block (author 1, view 2) and block
    (author 3, view 0) hash alike for every height, batch number and hash
    function. *)
Theorem Block_Hash_ambiguous `{Prims} (height : Z) (batch1 batch2 : Batch) qc1 qc2 refs1 refs2 :
  ID batch1 = ID batch2 ->
  Block_Hash {| b_Author := 1; b_View := 2; b_Height := height; b_Batch := batch1;
                b_Qc := qc1; b_References := refs1 |} =
  Block_Hash {| b_Author := 3; b_View := 0; b_Height := height; b_Batch := batch2;
                b_Qc := qc2; b_References := refs2 |}.
Proof. intros E. rewrite !Block_Hash_payload. unfold block_payload. simpl. by rewrite E. Qed.

Lemma Block_Hash_ambiguous_witness :
  Block_Hash (P := demo_prims sha256) (demo_block 1 2 0 0) = Block_Hash (P := demo_prims sha256) (demo_block 3 0 0 0).
Proof. apply (Block_Hash_ambiguous (H := demo_prims sha256) 0 (Build_Batch 0 []) (Build_Batch 0 [])). reflexivity. Defined.

(** ** Signing and verifying *)

Section signed.
Context `{P : Prims} {L : PrimsLaws P}.
Context (c : Committee) (s : SigService) (me : NodeID) (pk : bytes).

(** The node's private key matches the key the committee lists for it. *)
Definition registered : Prop :=
  keypair (Prikey (PriKey s)) pk /\ Committee_Name c me = {| Pubkey := pk |}.

Lemma registered_sign d : registered ->
  exists sig, RequestSignature s d = Ok sig /\ Signature_Verify sig (Committee_Name c me) d = Ok true.
Proof.
  intros [K ->]. rewrite RequestSignature_Ok by (by eapply keypair_sizes).
  eexists. split; [done|]. by apply Signature_Verify_signed.
Qed.
End signed.

(** Closes [exists m, New... = Ok m /\ m.Verify = Ok true]. *)
Ltac sign_case R :=
  match goal with
  | |- context [RequestSignature _ ?d] =>
      let sig := fresh "sig" in let E := fresh "E" in let V := fresh "V" in
      destruct (registered_sign _ _ _ _ d R) as (sig & E & V);
      rewrite E; simpl; eexists; split; [reflexivity|exact V]
  end.

(** Every kind of message that node [me] signs with [s] passes [Verify] at a
    node with committee [c]. *)
Definition all_verify `{P : Prims} (c : Committee) (s : SigService) (me : NodeID) : Prop :=
  (forall B, b_Author B = me ->
     exists m, NewProposeMsg B s = Ok m /\ ProposeMsg_Verify m c = Ok true) /\
  (forall B, exists m, NewVoteMsg me B s = Ok m /\ VoteMsg_Verify m c = Ok true) /\
  (forall view qc, exists m, NewFinVoteMsg me view qc s = Ok m /\ FinVoteMsg_Verify m c = Ok true) /\
  (forall qc, exists m, NewSpeedVoteMsg me qc s = Ok m /\ SpeedVoteMsg_Verify m c = Ok true) /\
  (forall leader view, exists m, NewRandomCoinMsg leader me view s = Ok m /\ RandomCoinMsg_Verify m c = Ok true) /\
  (forall view level qc, exists m, NewReportMsg me view level qc s = Ok m /\ ReportMsg_Verify m c = Ok true).

Lemma registered_all_verify `{L : PrimsLaws} (c : Committee) (s : SigService) (me : NodeID) (pk : bytes) :
  registered c s me pk -> all_verify c s me.
Proof.
  intros R. unfold all_verify. split_and!.
  - intros B <-. unfold NewProposeMsg. simpl. sign_case R.
  - intros B. unfold NewVoteMsg. sign_case R.
  - intros view qc. unfold NewFinVoteMsg. sign_case R.
  - intros qc. unfold NewSpeedVoteMsg. sign_case R.
  - intros leader view. unfold NewRandomCoinMsg. sign_case R.
  - intros view level qc. unfold NewReportMsg. sign_case R.
Qed.

(** Every signed message a node builds passes [Verify] at each node whose
    committee lists its public key. *)
Theorem signed_messages_verify `{L : PrimsLaws} (c : Committee) (s : SigService) (me : NodeID) (pk : bytes) :
  registered c s me pk ->
  (forall B, b_Author B = me ->
     exists m, NewProposeMsg B s = Ok m /\ ProposeMsg_Verify m c = Ok true) /\
  (forall B, exists m, NewVoteMsg me B s = Ok m /\ VoteMsg_Verify m c = Ok true) /\
  (forall view qc, exists m, NewFinVoteMsg me view qc s = Ok m /\ FinVoteMsg_Verify m c = Ok true) /\
  (forall qc, exists m, NewSpeedVoteMsg me qc s = Ok m /\ SpeedVoteMsg_Verify m c = Ok true) /\
  (forall leader view, exists m, NewRandomCoinMsg leader me view s = Ok m /\ RandomCoinMsg_Verify m c = Ok true) /\
  (forall view level qc, exists m, NewReportMsg me view level qc s = Ok m /\ ReportMsg_Verify m c = Ok true).
Proof. apply registered_all_verify. Qed.

(** A key file and committee for the examples: node [i]'s private key is its
    index repeated, its public key the first half. *)
Definition demo_service (hash : bytes -> bytes) (i : nat) (n t : Z) : SigService (P := demo_prims hash) :=
  {| PriKey := {| Prikey := replicate 64 (byte_of_Z (Z.of_nat i)) |};
     ShareKey := Build_SecretShareKey (P := demo_prims hash) tt i n t |}.

Lemma signed_messages_verify_witness :
  exists m, NewVoteMsg (P := demo_prims sha256) 2 (demo_block 1 0 0 0) (demo_service sha256 2 4 3) = Ok m /\
            VoteMsg_Verify (P := demo_prims sha256) m (demo_committee 4) = Ok true.
Proof.
  refine (proj1 (proj2 (signed_messages_verify (L := demo_laws sha256 sha256_length)
    (demo_committee 4) (demo_service sha256 2 4 3) 2 (replicate 32 (byte_of_Z 2)) _)) _).
  split; [split; reflexivity|reflexivity].
Defined.

(** A message that names an author outside the committee crashes the
    node that verifies it: the missing entry reads as an empty key, on which
    [ed25519.Verify] panics. *)
Theorem unknown_author_panics `{Prims} (c : Committee) (id : NodeID) :
  Authorities c !! id = None ->
  (forall p, p_Author p = id -> ProposeMsg_Verify p c = Panic) /\
  (forall v, v_Author v = id -> VoteMsg_Verify v c = Panic) /\
  (forall f, fv_Author f = id -> FinVoteMsg_Verify f c = Panic) /\
  (forall v, sv_Author v = id -> SpeedVoteMsg_Verify v c = Panic) /\
  (forall m, rc_Author m = id -> RandomCoinMsg_Verify m c = Panic) /\
  (forall r, r_Author r = id -> ReportMsg_Verify r c = Panic).
Proof.
  intros Hno. assert (Committee_Name c id = {| Pubkey := [] |}) as E.
  { unfold Committee_Name. by rewrite Hno. }
  split_and!; intros m <-; try (by cbv [VoteMsg_Verify FinVoteMsg_Verify SpeedVoteMsg_Verify
    RandomCoinMsg_Verify ReportMsg_Verify Signature_Verify]; rewrite E).
  unfold ProposeMsg_Verify. destruct (ProposeMsg_Hash m) eqn:Eh; simpl; [|..|done].
  - unfold Signature_Verify. by rewrite E.
  - unfold ProposeMsg_Hash in Eh. by case_match.
Qed.

Lemma unknown_author_panics_witness :
  VoteMsg_Verify (P := demo_prims sha256) {| v_Author := 9; v_Proposer := 0; v_BlockHash := []; v_View := 0;
    v_Height := 0; v_Signature := {| Sig := [] |} |} (demo_committee 4) = Panic.
Proof.
  apply (proj1 (proj2 (unknown_author_panics (H := demo_prims sha256) (demo_committee 4) 9 eq_refl))). reflexivity.
Defined.

(** [DocGQCMsg.Verify] never rejects and [BlockQC.Verify] accepts exactly
    the certificates whose shares do not combine. *)
Theorem certificates_unchecked `{Prims} (c : Committee) (s : SigService) :
  (forall d, DocGQCMsg_Verify d c <> Ok false) /\
  (forall q order, BlockQC_Verify q order s = Ok true <->
     exists e, CombineIntactTSPartial order.*2 (ShareKey s)
       (hash_parts [AppendInt2 (qc_View q); AppendInt2 (qc_Height q); AppendInt2 (qc_Proposer q);
                    qc_ParentBlockHash q]) = Err e).
Proof.
  split.
  - intros d. unfold DocGQCMsg_Verify. by destruct (DocG_loop (d_Shares d) c).
  - intros q order. unfold BlockQC_Verify. case_match; naive_solver.
Qed.
