(* ===== verification/Store.v ===== *)
(** * Package store and block storage

    Models [src/store] and [storeBlock]/[getBlock] of [src/core/core.go].
    The Go interface [DB] is the class [DB]; [DBLaws] is what its clients rely
    on.  nutsdb is a third-party database: the class [Nutsdb].  [encoding/gob]
    on blocks is the class [BlockCodec]. *)
From S2P Require Import Prelude Sha256 Crypto Committee Pool Message.

(** ** The DB interface *)

Class DB (D : Type) : Type := {
  Put : D -> bytes -> bytes -> option GoError * D;
  Get : D -> bytes -> bytes * option GoError;
}.

(** A successful write is what later reads of that key return, and leaves
    other keys alone; a failed write changes nothing. *)
Class DBLaws (D : Type) `{!DB D} : Prop := {
  get_put_eq d k v d' : Put d k v = (None, d') -> Get d' k = (v, None);
  get_put_ne d k k' v e d' : k <> k' -> Put d k v = (e, d') -> Get d' k' = Get d k';
  put_fail d k v e d' : Put d k v = (Some e, d') -> d' = d;
}.

(** ** NutsDB *)

(** nutsdb: [View] and [Update] run the closure in a transaction, or refuse
    with an error when the database is closed. *)
Class Nutsdb (D : Type) : Type := {
  nuts_begin : D -> option GoError;
  tx_Get : D -> string -> bytes -> bytes * option GoError;
  tx_Put : D -> string -> bytes -> bytes -> Z -> option GoError * D;
}.

Definition DefaultBucket : string := "DefaultBucket".

(** The error of [View] itself is dropped: a closed database reads as the
    named results' zero values, no bytes and no error. *)
Definition NutsDB_Get `{Nutsdb D} (nuts : D) (key : bytes) : bytes * option GoError :=
  match nuts_begin nuts with
  | Some _ => ([], None)
  | None => tx_Get nuts DefaultBucket key
  end.

(** [Update] rolls back when the closure returns an error. *)
Definition NutsDB_Put `{Nutsdb D} (nuts : D) (key val : bytes) : option GoError * D :=
  match nuts_begin nuts with
  | Some e => (Some e, nuts)
  | None =>
      match tx_Put nuts DefaultBucket key val 0 with
      | (Some e, _) => (Some e, nuts)
      | (None, nuts') => (None, nuts')
      end
  end.

#[global] Instance NutsDB `{Nutsdb D} : DB D := { Put := NutsDB_Put; Get := NutsDB_Get }.

(** nutsdb's documented behaviour on one bucket. *)
Class NutsdbLaws (D : Type) `{!Nutsdb D} : Prop := {
  nuts_open d b k v ttl e d' : tx_Put d b k v ttl = (e, d') -> nuts_begin d' = nuts_begin d;
  tx_get_put_eq d b k v ttl d' : tx_Put d b k v ttl = (None, d') -> tx_Get d' b k = (v, None);
  tx_get_put_ne d b k k' v ttl d' :
    k <> k' -> tx_Put d b k v ttl = (None, d') -> tx_Get d' b k' = tx_Get d b k';
}.

(** ** The store service *)

Inductive storeTyp := READ | WRITE.

Record storeReq := { sr_typ : storeTyp; sr_key : bytes; sr_val : bytes; sr_err : option GoError }.

Section store.
Context {D : Type} `{!DB D}.

Record Store := { db : D }.

(** What the service goroutine does with a request before [req.done()]. *)
Definition Store_serve (s : Store) (req : storeReq) : storeReq * Store :=
  match sr_typ req with
  | READ =>
      let '(val, err) := Get (db s) (sr_key req) in
      ({| sr_typ := READ; sr_key := sr_key req; sr_val := val; sr_err := err |}, s)
  | WRITE =>
      let '(err, d) := Put (db s) (sr_key req) (sr_val req) in
      ({| sr_typ := WRITE; sr_key := sr_key req; sr_val := sr_val req; sr_err := err |}, {| db := d |})
  end.

Definition Store_Read (s : Store) (key : bytes) : bytes * option GoError :=
  let '(req, _) := Store_serve s {| sr_typ := READ; sr_key := key; sr_val := []; sr_err := None |} in
  (sr_val req, sr_err req).

Definition Store_Write (s : Store) (key val : bytes) : option GoError * Store :=
  let '(req, s') := Store_serve s {| sr_typ := WRITE; sr_key := key; sr_val := val; sr_err := None |} in
  (sr_err req, s').

(** The requests waiting in the channel are answered in order. *)
Fixpoint Store_serve_all (s : Store) (reqs : list storeReq) : list storeReq * Store :=
  match reqs with
  | [] => ([], s)
  | r :: rest =>
      let '(r', s') := Store_serve s r in
      let '(rs, s'') := Store_serve_all s' rest in
      (r' :: rs, s'')
  end.
End store.
Arguments Store : clear implicits.

(** ** Blocks in the store *)

(** [gob] on [Block]: [Encode] may refuse, [Decode] reads what [Encode] wrote. *)
Class BlockCodec : Type := {
  Block_Encode : Block -> Res bytes;
  Block_Decode : bytes -> Res Block;
}.

Class BlockCodecLaws (C : BlockCodec) : Prop := {
  decode_encode b data : Block_Encode b = Ok data -> Block_Decode data = Ok b;
  encode_no_panic b : Block_Encode b <> Panic;
}.

Section blocks.
Context {D : Type} `{!DB D} `{P : Prims} `{C : BlockCodec}.

(** The error of [store.Write] is not looked at. *)
Definition storeBlock (s : Store D) (block : Block) : Res (Store D) :=
  match Block_Encode block with
  | Err e => Err e
  | Panic => Panic
  | Ok val => Ok (Store_Write s (Block_Hash block) val).2
  end.

Definition getBlock (s : Store D) (digest : Digest) : Res Block :=
  match Store_Read s digest with
  | (_, Some e) => Err e
  | (data, None) => Block_Decode data
  end.
End blocks.

(** ** Properties *)

(** NutsDB implements the interface while the database is open. *)
#[global] Instance NutsDB_laws `{NutsdbLaws D} : (forall d : D, nuts_begin d = None) -> DBLaws D.
Proof.
  intros Hopen. split; intros *; unfold Put, Get, NutsDB, NutsDB_Put, NutsDB_Get; rewrite !Hopen.
  - case_match eqn:E. case_match; [done|]. intros [= <-]. by eapply tx_get_put_eq.
  - intros Hne. case_match eqn:E. case_match; intros [= <- <-]; [done|]. by eapply tx_get_put_ne.
  - case_match eqn:E. by case_match; intros [= <- <-].
Qed.

Section block_properties.
Context {D : Type} `{!DB D} `{!DBLaws D} `{P : Prims} `{C : BlockCodec} `{!BlockCodecLaws C}.

Lemma Read_Write_eq (s s' : Store D) k v : Store_Write s k v = (None, s') -> Store_Read s' k = (v, None).
Proof.
  unfold Store_Write, Store_Read, Store_serve. simpl.
  destruct (Put (db s) k v) as [e d] eqn:E. intros [= -> <-]. simpl.
  by rewrite (get_put_eq _ _ _ _ E).
Qed.

Lemma Read_Write_ne (s s' : Store D) k k' v e :
  k <> k' -> Store_Write s k v = (e, s') -> Store_Read s' k' = Store_Read s k'.
Proof.
  unfold Store_Write, Store_Read, Store_serve. simpl. intros Hne.
  destruct (Put (db s) k v) as [e0 d] eqn:E. intros [= <- <-]. simpl.
  rewrite (get_put_ne _ _ _ _ _ _ Hne E). by destruct (Get (db s) k').
Qed.

Lemma storeBlock_other (s s' : Store D) b d :
  storeBlock s b = Ok s' -> d <> Block_Hash b -> getBlock s' d = getBlock s d.
Proof.
  unfold storeBlock, getBlock. intros H Hd. case_match; simplify_eq.
  destruct (Store_Write s (Block_Hash b) a) as [e s''] eqn:E. simpl.
  by rewrite (Read_Write_ne _ _ _ _ _ _ (not_eq_sym Hd) E).
Qed.

(** [storeBlock] reports success whatever the write reports. *)
Lemma storeBlock_write_error (s : Store D) b data :
  Block_Encode b = Ok data -> storeBlock s b = Ok (Store_Write s (Block_Hash b) data).2.
Proof. intros E. unfold storeBlock. by rewrite E. Qed.

Lemma getBlock_storeBlock (s s' : Store D) b data :
  Block_Encode b = Ok data -> Store_Write s (Block_Hash b) data = (None, s') ->
  storeBlock s b = Ok s' /\ getBlock s' (Block_Hash b) = Ok b.
Proof.
  intros E W. rewrite (storeBlock_write_error _ _ _ E), W. split; [done|].
  unfold getBlock. rewrite (Read_Write_eq _ _ _ _ W). by eapply decode_encode.
Qed.
End block_properties.

(** What the commit loops see: the block, or nothing on any failure. *)
Definition stored `{!DB D} `{Prims} `{BlockCodec} (s : Store D) (d : Digest) : option Block :=
  match getBlock s d with Ok b => Some b | _ => None end.

(** C26. A stored block is read back unchanged under its hash and no other
    digest changes meaning; when the database refuses the write, [storeBlock]
    still reports success and the store is as before. *)
Theorem storeBlock_getBlock `{!DB D} `{!DBLaws D} `{P : Prims} `{C : BlockCodec} `{!BlockCodecLaws C}
    (s : Store D) (b : Block) (data : bytes) :
  Block_Encode b = Ok data ->
  exists s', storeBlock s b = Ok s' /\
    (forall d, d <> Block_Hash b -> getBlock s' d = getBlock s d) /\
    ((Put (db s) (Block_Hash b) data).1 = None -> getBlock s' (Block_Hash b) = Ok b) /\
    (forall e, (Put (db s) (Block_Hash b) data).1 = Some e -> s' = s).
Proof.
  intros E. destruct (Put (db s) (Block_Hash b) data) as [e d'] eqn:EP.
  assert (Store_Write s (Block_Hash b) data = (e, {| db := d' |})) as W.
  { unfold Store_Write, Store_serve. simpl. by rewrite EP. }
  exists {| db := d' |}. assert (storeBlock s b = Ok {| db := d' |}) as ES.
  { rewrite (storeBlock_write_error _ _ _ E). by rewrite W. }
  split_and!; [done|intros d Hd; by eapply storeBlock_other| |].
  - simpl. intros ->. by eapply getBlock_storeBlock.
  - simpl. intros e' ->. apply put_fail in EP. subst. by destruct s.
Qed.

(** ** A concrete store

    An in-memory map, and a codec that prints the number stdpp's [Countable]
    assigns to a block. *)

#[global] Instance mem_db : DB (gmap bytes bytes) := {
  Put d k v := (None, <[k := v]> d);
  Get d k := match d !! k with Some v => (v, None) | None => ([], Some ErrNotFoundKey) end;
}.

#[global] Instance mem_db_laws : DBLaws (gmap bytes bytes).
Proof.
  split; simpl; intros *; [|intros Hne|]; intros [= <-]; subst; simpl.
  - by rewrite lookup_insert_eq.
  - by rewrite lookup_insert_ne.
Qed.

#[global] Instance SignatureShare_countable : Countable SignatureShare.
Proof. by apply (inj_countable' PartialSig Build_SignatureShare); intros []. Defined.
#[global] Instance BlockQC_countable : Countable BlockQC.
Proof.
  by apply (inj_countable' (fun q => (qc_View q, qc_Height q, qc_Proposer q, qc_ParentBlockHash q, qc_Shares q))
    (fun '(a, b, c, d, e) => Build_BlockQC a b c d e)); intros [].
Defined.
#[global] Instance Batch_countable : Countable Batch.
Proof. by apply (inj_countable' (fun q => (ID q, Txs q)) (fun '(a, b) => Build_Batch a b)); intros []. Defined.
#[global] Instance Block_countable : Countable Block.
Proof.
  by apply (inj_countable' (fun q => (b_Author q, b_View q, b_Height q, b_Batch q, b_Qc q, b_References q))
    (fun '(a, b, c, d, e, f) => Build_Block a b c d e f)); intros [].
Defined.

#[global] Instance demo_codec : BlockCodec := {
  Block_Encode b := Ok (AppendInt2 (Zpos (encode b)));
  Block_Decode l :=
    match parse_int2 l with
    | Some (Zpos p) => match decode p with Some b => Ok b | None => Err (ErrLib 3) end
    | _ => Err (ErrLib 3)
    end;
}.

#[global] Instance demo_codec_laws : BlockCodecLaws demo_codec.
Proof.
  split; [|done]. intros b data E. unfold Block_Decode, demo_codec.
  assert (parse_int2 data = Some (Zpos (encode b))) as ->.
  { injection E as <-. apply (parse_AppendInt2 (Zpos (encode b))). }
  by rewrite countable.decode_encode.
Qed.

Definition mem_store_empty : Store (gmap bytes bytes) := {| db := ∅ |}.

Lemma storeBlock_getBlock_witness :
  exists s', storeBlock (P := demo_prims pad32) mem_store_empty (demo_block 1 0 0 4) = Ok s' /\
    getBlock s' (Block_Hash (P := demo_prims pad32) (demo_block 1 0 0 4)) = Ok (demo_block 1 0 0 4).
Proof.
  destruct (storeBlock_getBlock (P := demo_prims pad32) (C := demo_codec) mem_store_empty (demo_block 1 0 0 4)
    (AppendInt2 (Zpos (encode (demo_block 1 0 0 4)))) eq_refl)
    as (s' & E & _ & G & _).
  exists s'. split; [exact E|]. apply G. reflexivity.
Defined.
