(* ===== verification/Commitor.v ===== *)
(** * The chain committer

    Models [src/core/commitor.go].  [Commit] filters blocks by (view, height)
    and queues them; the goroutine [run] takes one block at a time, walks the
    parents that are not committed yet, and commits them oldest first.

    The store grows while [run] walks: [reads n] is what the store answers to
    the n-th read of a walk.  Only failed reads may change later ([reads_ok]).
    A read of a missing parent is repeated at once, so the walk is a loop
    that only the arrival of the parent ends: [walk] takes fuel and
    [walk_terminates] gives the amount that is enough. *)
From S2P Require Import Prelude Sha256 Crypto Committee Pool Message.

(** The committed log stands for the commit lines of the logger and the
    signals on [commitChannel], one per block. *)
Record Commitor := {
  lastView : Z;
  lastHeight : Z;
  committedBlcoks : gset Digest;
  blocksChan : list Block;
  commitLog : list Block;
}.

Definition NewCommitor : Commitor :=
  {| lastView := 0; lastHeight := HEIGHT_1; committedBlcoks := ∅; blocksChan := []; commitLog := [] |}.

Definition Commit (c : Commitor) (block : Block) : Commitor :=
  if decide (b_View block < lastView c \/ (b_View block = lastView c /\ b_Height block < lastHeight c)) then c
  else {| lastView := b_View block; lastHeight := b_Height block; committedBlcoks := committedBlcoks c;
          blocksChan := blocksChan c ++ [block]; commitLog := commitLog c |}.

Section commitor.
Context `{P : Prims}.

Definition Reads : Type := nat -> Digest -> option Block.

(** The inner [for] of [run]; [None] when the fuel runs out. *)
Fixpoint walk (fuel : nat) (reads : Reads) (committed : gset Digest) (current : Block) (queue : list Block)
    : option (list Block) :=
  match fuel with
  | O => None
  | S fuel =>
      match b_Qc current with
      | None => Some queue
      | Some qc =>
          match reads 0%nat (qc_ParentBlockHash qc) with
          | Some b =>
              if decide (Block_Hash b ∈ committed) then Some queue
              else walk fuel (fun n => reads (S n)) committed b (queue ++ [b])
          | None => walk fuel (fun n => reads (S n)) committed current queue
          end
      end
  end.

Definition commit_one (c : Commitor) (block : Block) : Commitor :=
  {| lastView := lastView c; lastHeight := lastHeight c;
     committedBlcoks := {[Block_Hash block]} ∪ committedBlcoks c;
     blocksChan := blocksChan c; commitLog := commitLog c ++ [block] |}.

(** The body of [run] for one block of the channel. *)
Definition run_block (fuel : nat) (reads : Reads) (c : Commitor) (block : Block) : option Commitor :=
  if decide (Block_Hash block ∈ committedBlcoks c) then Some c
  else queue ← walk fuel reads (committedBlcoks c) block [block];
       Some (foldl commit_one c (reverse queue)).

(** One iteration of [run]. *)
Definition Commitor_run (fuel : nat) (reads : Reads) (c : Commitor) : option Commitor :=
  match blocksChan c with
  | [] => Some c
  | block :: rest =>
      run_block fuel reads
        {| lastView := lastView c; lastHeight := lastHeight c; committedBlcoks := committedBlcoks c;
           blocksChan := rest; commitLog := commitLog c |} block
  end.

(** ** The chain of uncommitted ancestors *)

(** [G]: the blocks the store ever holds, each under its own hash. *)
Record reads_ok (G : Digest -> option Block) (reads : Reads) : Prop := {
  ro_sub n d b : reads n d = Some b -> G d = Some b;
  ro_key d b : G d = Some b -> Block_Hash b = d;
}.

Inductive chain (G : Digest -> option Block) (C : gset Digest) : Block -> list Block -> Prop :=
| chain_root b : b_Qc b = None -> chain G C b []
| chain_done b qc p :
    b_Qc b = Some qc -> G (qc_ParentBlockHash qc) = Some p -> Block_Hash p ∈ C -> chain G C b []
| chain_step b qc p l :
    b_Qc b = Some qc -> G (qc_ParentBlockHash qc) = Some p -> Block_Hash p ∉ C ->
    chain G C p l -> chain G C b (p :: l).

Lemma chain_det G C b l l' : chain G C b l -> chain G C b l' -> l = l'.
Proof.
  intros H. revert l'. induction H; intros l' H'; inversion H'; simplify_eq; try done.
  f_equal. by apply IHchain.
Qed.

Lemma chain_suffix G C b l p l1 l2 : chain G C b l -> l = l1 ++ p :: l2 -> chain G C p l2.
Proof.
  intros H. revert l1. induction H; intros l1 E; [by destruct l1..|].
  destruct l1 as [|x l1]; simplify_eq/=; eauto.
Qed.

(** No block repeats: its chain would have two lengths. *)
Lemma chain_NoDup G C b l : chain G C b l -> NoDup (b :: l).
Proof.
  intros H. induction H as [b|b|b qc p l Eq Ep Hp H IH]; [by apply NoDup_singleton..|].
  apply NoDup_cons. split; [|done]. intros Hin.
  assert (chain G C b (p :: l)) as Hb by (by eapply chain_step).
  apply list_elem_of_split in Hin as (l1 & l2 & E).
  pose proof (chain_suffix _ _ _ _ _ _ _ Hb E) as Hs.
  pose proof (chain_det _ _ _ _ _ Hb Hs) as D. apply (f_equal length) in E.
  apply (f_equal length) in D. rewrite length_app in E. simpl in E, D. lia.
Qed.

Lemma chain_fresh G C b l : chain G C b l -> Forall (fun x => Block_Hash x ∉ C) l.
Proof. induction 1; auto. Qed.

Lemma chain_stored G C b l : chain G C b l -> Forall (fun x => exists d, G d = Some x) l.
Proof. induction 1; eauto. Qed.

Lemma reads_ok_tail G reads : reads_ok G reads -> reads_ok G (fun n => reads (S n)).
Proof. intros [H1 H2]. split; eauto. Qed.

(** The walk, when it returns, has collected the chain. *)
Lemma walk_chain G fuel reads C b q q' :
  reads_ok G reads -> walk fuel reads C b q = Some q' -> exists l, q' = q ++ l /\ chain G C b l.
Proof.
  revert reads b q. induction fuel as [|fuel IH]; intros reads b q R H; simpl in H; [done|].
  destruct (b_Qc b) as [qc|] eqn:Eq; simplify_eq.
  2: { exists []. rewrite app_nil_r. split; [done|by apply chain_root]. }
  destruct (reads 0%nat (qc_ParentBlockHash qc)) as [p|] eqn:Er.
  - apply (ro_sub _ _ R) in Er as Ep. case_decide; simplify_eq.
    + exists []. rewrite app_nil_r. split; [done|by eapply chain_done].
    + apply IH in H as (l & -> & Hl); [|by apply reads_ok_tail].
      exists (p :: l). rewrite <- app_assoc. split; [done|by eapply chain_step].
  - apply IH in H; [|by apply reads_ok_tail]. done.
Qed.

(** ** What the log looks like *)

Definition hashes (l : list Block) : list Digest := Block_Hash <$> l.

(** Every block comes after its parent, [C] being committed already. *)
Fixpoint parents_first (G : Digest -> option Block) (C : gset Digest) (log : list Block) : Prop :=
  match log with
  | [] => True
  | b :: rest =>
      (forall qc, b_Qc b = Some qc -> exists p, G (qc_ParentBlockHash qc) = Some p /\ Block_Hash p ∈ C) /\
      parents_first G ({[Block_Hash b]} ∪ C) rest
  end.

Lemma parents_first_app G C l1 l2 :
  parents_first G C (l1 ++ l2) <->
  parents_first G C l1 /\ parents_first G (list_to_set (hashes l1) ∪ C) l2.
Proof.
  revert C. induction l1 as [|b l1 IH]; intros C; simpl.
  - rewrite (left_id_L ∅ (∪)). naive_solver.
  - rewrite IH. replace (list_to_set (hashes l1) ∪ ({[Block_Hash b]} ∪ C))
      with ({[Block_Hash b]} ∪ list_to_set (hashes l1) ∪ C) by set_solver. naive_solver.
Qed.

Lemma chain_parents_first G C b l : chain G C b l -> parents_first G C (reverse (b :: l)).
Proof.
  induction 1 as [b E|b qc p E Ep Hp|b qc p l E Ep Hp H IH].
  - split; [by rewrite E|done].
  - split; [|done]. intros qc'. rewrite E. intros [= <-]. eauto.
  - rewrite reverse_cons. apply parents_first_app. split; [done|]. simpl. split; [|done].
    intros qc'. rewrite E. intros [= <-]. exists p. split; [done|].
    unfold hashes. rewrite reverse_cons, fmap_app, list_to_set_app_L. set_solver.
Qed.

Record log_ok (G : Digest -> option Block) (c : Commitor) : Prop := {
  lo_set : committedBlcoks c = list_to_set (hashes (commitLog c));
  lo_nodup : NoDup (hashes (commitLog c));
  lo_parents : parents_first G ∅ (commitLog c);
  lo_chan : Forall (fun b => G (Block_Hash b) = Some b) (blocksChan c);
}.

Lemma foldl_commit_one c q :
  let c' := foldl commit_one c q in
  commitLog c' = commitLog c ++ q /\
  committedBlcoks c' = list_to_set (hashes q) ∪ committedBlcoks c /\
  blocksChan c' = blocksChan c.
Proof.
  revert c. induction q as [|b q IH]; intros c; simpl.
  - rewrite app_nil_r, (left_id_L ∅ (∪)). done.
  - destruct (IH (commit_one c b)) as (E1 & E2 & E3). simpl in *.
    rewrite E1, E2, E3, <- app_assoc. split_and!; [done| |done]. set_solver.
Qed.

Lemma chain_hashes_NoDup G C b l :
  (forall d x, G d = Some x -> Block_Hash x = d) ->
  G (Block_Hash b) = Some b -> chain G C b l -> NoDup (hashes (b :: l)).
Proof.
  intros Hkey Hb H. apply NoDup_fmap_2_strong; [|by eapply chain_NoDup].
  assert (forall x, x ∈ b :: l -> G (Block_Hash x) = Some x) as Hst.
  { intros x [->|Hx]%elem_of_cons; [done|].
    apply chain_stored in H. rewrite Forall_forall in H. destruct (H x Hx) as [d Hd].
    by rewrite (Hkey _ _ Hd). }
  intros x y Hx%Hst Hy%Hst E. rewrite E in Hx. congruence.
Qed.

Lemma run_block_ok G fuel reads c c' b :
  reads_ok G reads -> G (Block_Hash b) = Some b -> log_ok G c ->
  run_block fuel reads c b = Some c' -> log_ok G c' /\ Block_Hash b ∈ committedBlcoks c'.
Proof.
  intros R Hb [Es Hn Hp Hc]. unfold run_block. case_decide as Hd; [by intros [= <-]|].
  destruct (walk _ _ _ _ _) as [q|] eqn:Ew; simpl; [|done]. intros [= <-].
  apply (walk_chain G) in Ew as (l & -> & Hl); [|done].
  destruct (foldl_commit_one c (reverse (b :: l))) as (E1 & E2 & E3).
  change ([b] ++ l) with (b :: l). split.
  - split; rewrite ?E1, ?E2, ?E3.
    + unfold hashes. rewrite fmap_app, list_to_set_app_L. rewrite Es. set_solver.
    + unfold hashes. rewrite fmap_app. apply NoDup_app. split_and!; [done| |].
      * intros d Hd1 Hd2. apply list_elem_of_fmap in Hd2 as (x & -> & Hx).
        assert (Block_Hash x ∈ committedBlcoks c) as Hin by (rewrite Es; by apply elem_of_list_to_set).
        apply elem_of_reverse, elem_of_cons in Hx as [->|Hx]; [done|].
        apply chain_fresh in Hl. rewrite Forall_forall in Hl. by apply (Hl x).
      * rewrite fmap_reverse, reverse_Permutation. eapply chain_hashes_NoDup; eauto using ro_key.
    + apply parents_first_app. split; [done|]. rewrite (right_id_L ∅ (∪)), <- Es.
      by apply chain_parents_first.
    + done.
  - rewrite E2. unfold hashes. rewrite reverse_cons, fmap_app, list_to_set_app_L. set_solver.
Qed.

(** ** The committer as a state machine

    The main loop calls [Commit] with blocks it read from the store; the
    goroutine runs in between.  [G] is what the store ever answers: it keeps one
    block per digest. *)
Inductive commitor_step (G : Digest -> option Block) : Commitor -> Commitor -> Prop :=
| step_Commit c b : G (Block_Hash b) = Some b -> commitor_step G c (Commit c b)
| step_run c c' fuel reads :
    reads_ok G reads -> Commitor_run fuel reads c = Some c' -> commitor_step G c c'.

Lemma commitor_step_ok G c c' : commitor_step G c c' -> log_ok G c -> log_ok G c'.
Proof.
  intros [c0 b Hb|c0 c1 fuel reads R Hrun] [Es Hn Hp Hc].
  - unfold Commit. case_decide; split; simpl; try done. apply Forall_app. auto.
  - unfold Commitor_run in *. destruct (blocksChan c0) as [|b rest] eqn:Eb; simplify_eq.
    { split; [done..|by rewrite Eb]. }
    apply Forall_cons in Hc as [Hb Hc].
    eapply run_block_ok in Hrun as [? _]; [done..|by split].
Qed.

Lemma reachable_log_ok G c : rtc (commitor_step G) NewCommitor c -> log_ok G c.
Proof.
  intros H.
  assert (forall c0, log_ok G c0 -> rtc (commitor_step G) c0 c -> log_ok G c) as Hind.
  { intros c0 H0 Hs. induction Hs; eauto using commitor_step_ok. }
  eapply Hind; [|done]. split; simpl; [done|constructor|done|done].
Qed.

(** ** Enough fuel *)

Definition eventually_stored (G : Digest -> option Block) (reads : Reads) (n0 : nat) : Prop :=
  forall n d b, (n0 <= n)%nat -> G d = Some b -> reads n d = Some b.

Lemma walk_enough G reads n0 C b l q fuel :
  reads_ok G reads -> eventually_stored G reads n0 -> chain G C b l ->
  (n0 + length l < fuel)%nat -> walk fuel reads C b q = Some (q ++ l).
Proof.
  revert reads n0 b l q. induction fuel as [|fuel IH]; intros reads n0 b l q R Hev Hl Hf; [lia|].
  assert (eventually_stored G (fun n => reads (S n)) (pred n0)) as Hev'.
  { intros n d x Hn. apply Hev. lia. }
  pose proof (reads_ok_tail _ _ R) as R'. simpl.
  destruct (b_Qc b) as [qc|] eqn:Eq.
  2: { inversion Hl; simplify_eq. by rewrite app_nil_r. }
  destruct (reads 0%nat (qc_ParentBlockHash qc)) as [p|] eqn:Er.
  - apply (ro_sub _ _ R) in Er.
    inversion Hl as [|? ? ? ? ? Hin|? ? ? l' ? ? Hnot Hl']; simplify_eq.
    + by rewrite decide_True, app_nil_r.
    + rewrite decide_False by done. simpl in Hf.
      rewrite (IH _ (pred n0) _ l') by (done || lia). by rewrite <- app_assoc.
  - destruct n0 as [|n0].
    + exfalso. assert (exists p, G (qc_ParentBlockHash qc) = Some p) as [p Hp].
      { inversion Hl; simplify_eq; eauto. }
      apply (Hev 0%nat) in Hp; [|lia]. congruence.
    + apply (IH _ n0); [done..|lia].
Qed.

Lemma walk_spins reads C b qc fuel q :
  b_Qc b = Some qc -> (forall n, reads n (qc_ParentBlockHash qc) = None) -> walk fuel reads C b q = None.
Proof.
  intros Eq. revert reads q. induction fuel as [|fuel IH]; intros reads q Hno; simpl; [done|].
  rewrite Eq, Hno. apply IH. intros n. apply Hno.
Qed.
End commitor.

(** C8. Whatever the main loop commits and however the store grows
    meanwhile, the committed sequence never repeats a block, lists every
    block after its parent, and is exactly the set the committer skips. *)
Theorem commits_once_in_order `{Prims} (G : Digest -> option Block) (c : Commitor) :
  rtc (commitor_step G) NewCommitor c ->
  NoDup (hashes (commitLog c)) /\ parents_first G ∅ (commitLog c) /\
  committedBlcoks c = list_to_set (hashes (commitLog c)).
Proof. intros [Es Hn Hp _]%reachable_log_ok. done. Qed.

(** C23. The committer's loop ends once the store holds the ancestors: with
    the last of them readable from the n0-th read on, [n0 + depth + 1]
    iterations commit the block and all its uncommitted ancestors, oldest
    first. *)
Theorem commit_terminates `{Prims} (G : Digest -> option Block) (reads : Reads) (n0 fuel : nat)
    (c : Commitor) (b : Block) (l : list Block) :
  reads_ok G reads -> eventually_stored G reads n0 ->
  Block_Hash b ∉ committedBlcoks c -> chain G (committedBlcoks c) b l ->
  (n0 + length l < fuel)%nat ->
  exists c', run_block fuel reads c b = Some c' /\ commitLog c' = commitLog c ++ reverse l ++ [b] /\
    committedBlcoks c' = list_to_set (hashes (b :: l)) ∪ committedBlcoks c.
Proof.
  intros R Hev Hb Hl Hf. unfold run_block. rewrite decide_False by done.
  rewrite (walk_enough G reads n0 _ b l [b] fuel) by done. eexists. split; [done|].
  change ([b] ++ l) with (b :: l).
  destruct (foldl_commit_one c (reverse (b :: l))) as (E1 & E2 & _). rewrite E1, E2.
  split; [by rewrite reverse_cons|]. unfold hashes. f_equal. apply set_eq. intros x. rewrite !elem_of_list_to_set. rewrite fmap_reverse. apply elem_of_reverse.
Qed.

(** C37. When a committed block's parent never reaches the store, the
    committer's goroutine loops for ever: no amount of iterations finishes
    the block, so nothing after it is committed either. *)
Theorem missing_parent_spins `{Prims} (reads : Reads) (c : Commitor) (b : Block) (qc : BlockQC) (fuel : nat) :
  Block_Hash b ∉ committedBlcoks c -> b_Qc b = Some qc ->
  (forall n, reads n (qc_ParentBlockHash qc) = None) ->
  run_block fuel reads c b = None.
Proof.
  intros Hb Eq Hno. unfold run_block. rewrite decide_False by done. by rewrite (walk_spins _ _ _ qc).
Qed.

(** ** Examples: a block and its child *)

Module CommitorDemo.
#[local] Instance prims : Prims := demo_prims pad32.

Definition b0 : Block := demo_block 1 0 0 4.
Definition qc0 : BlockQC :=
  {| qc_View := 0; qc_Height := 0; qc_Proposer := 1; qc_ParentBlockHash := Block_Hash b0; qc_Shares := ∅ |}.
Definition b1 : Block :=
  {| b_Author := 1; b_View := 0; b_Height := 1; b_Batch := {| ID := 8; Txs := [] |};
     b_Qc := Some qc0; b_References := [] |}.

Definition G (d : Digest) : option Block :=
  if decide (d = Block_Hash b0) then Some b0
  else if decide (d = Block_Hash b1) then Some b1 else None.

(** The parent appears at the third read. *)
Definition late : Reads := fun n d => if decide (n < 2)%nat then None else G d.

Lemma late_ok : reads_ok G late.
Proof.
  split.
  - intros n d b. unfold late. by case_decide.
  - intros d b. unfold G. repeat case_decide; intros; simplify_eq; done.
Qed.

Definition final : Commitor :=
  default NewCommitor (Commitor_run 9 late (Commit NewCommitor b1)).

Lemma chain_b1 : chain G ∅ b1 [b0].
Proof. eapply chain_step; [reflexivity|reflexivity|set_solver|]. by apply chain_root. Qed.
End CommitorDemo.

Lemma commits_once_in_order_witness :
  NoDup (hashes (P := CommitorDemo.prims) (commitLog CommitorDemo.final)) /\
  commitLog CommitorDemo.final = [CommitorDemo.b0; CommitorDemo.b1].
Proof.
  split; [|vm_compute; reflexivity].
  refine (proj1 (commits_once_in_order (H := CommitorDemo.prims) CommitorDemo.G CommitorDemo.final _)).
  eapply rtc_l; [|eapply rtc_once].
  - apply (step_Commit (P := CommitorDemo.prims) _ _ CommitorDemo.b1). reflexivity.
  - apply (step_run (P := CommitorDemo.prims) _ _ _ 9 CommitorDemo.late); [exact CommitorDemo.late_ok|].
    vm_compute. reflexivity.
Defined.

Lemma commit_terminates_witness :
  exists c', run_block (P := CommitorDemo.prims) 4 CommitorDemo.late NewCommitor CommitorDemo.b1 = Some c' /\
    commitLog c' = [] ++ reverse [CommitorDemo.b0] ++ [CommitorDemo.b1].
Proof.
  destruct (commit_terminates (H := CommitorDemo.prims) CommitorDemo.G CommitorDemo.late 2 4 NewCommitor
    CommitorDemo.b1 [CommitorDemo.b0]) as (c' & E1 & E2 & _).
  - exact CommitorDemo.late_ok.
  - intros n d b Hn Hd. unfold CommitorDemo.late. by rewrite decide_False by lia.
  - set_solver.
  - exact CommitorDemo.chain_b1.
  - simpl. lia.
  - exists c'. split; [exact E1|exact E2].
Defined.

Lemma missing_parent_spins_witness :
  run_block (P := CommitorDemo.prims) 1000 (fun _ _ => None) NewCommitor CommitorDemo.b1 = None.
Proof.
  apply (missing_parent_spins (H := CommitorDemo.prims) _ _ _ CommitorDemo.qc0); [set_solver|reflexivity|reflexivity].
Defined.
