(* ===== verification/DagCommitor.v ===== *)
(** * The DAG committer

    Models [src/core/dag_commitor.go]: a breadth-first traversal of the
    references of a block, committing each block when it is reached.  The store
    is read once per reference: [reads n] is what it answers to the n-th read,
    and [G] is the finite map of the blocks it ever holds. *)
From S2P Require Import Prelude Sha256 Crypto Committee Pool Message.

Record DAGCommitor := {
  dc_lastView : Z;
  dc_lastHeight : Z;
  dc_committedBlcoks : gset Digest;
  dc_blocksChan : list Block;
  dc_commitLog : list Block;
}.

Definition NewDAGCommitor : DAGCommitor :=
  {| dc_lastView := 0; dc_lastHeight := HEIGHT_1; dc_committedBlcoks := ∅; dc_blocksChan := [];
     dc_commitLog := [] |}.

Definition DAGCommitor_Commit (c : DAGCommitor) (block : Block) : DAGCommitor :=
  if decide (b_View block < dc_lastView c \/
             (b_View block = dc_lastView c /\ b_Height block < dc_lastHeight c)) then c
  else {| dc_lastView := b_View block; dc_lastHeight := b_Height block;
          dc_committedBlcoks := dc_committedBlcoks c; dc_blocksChan := dc_blocksChan c ++ [block];
          dc_commitLog := dc_commitLog c |}.

Section dag.
Context `{P : Prims}.

Definition dag_commit_one (c : DAGCommitor) (block : Block) : DAGCommitor :=
  {| dc_lastView := dc_lastView c; dc_lastHeight := dc_lastHeight c;
     dc_committedBlcoks := {[Block_Hash block]} ∪ dc_committedBlcoks c;
     dc_blocksChan := dc_blocksChan c; dc_commitLog := dc_commitLog c ++ [block] |}.

(** The references of a block that the store has, read one after the other. *)
Fixpoint read_references (reads : nat -> Digest -> option Block) (refs : list BlockQC) : list Block :=
  match refs with
  | [] => []
  | qc :: refs =>
      option_list (reads 0%nat (qc_ParentBlockHash qc)) ++ read_references (fun n => reads (S n)) refs
  end.

(** The inner [for] of [run]: the head of the queue is committed unless it
    already is, and the references the store has join the queue. *)
Fixpoint dag_loop (fuel : nat) (reads : nat -> Digest -> option Block) (c : DAGCommitor) (queue : list Block)
    : option DAGCommitor :=
  match queue, fuel with
  | [], _ => Some c
  | _ :: _, O => None
  | block :: rest, S fuel =>
      if decide (Block_Hash block ∈ dc_committedBlcoks c)
      then dag_loop fuel reads c rest
      else dag_loop fuel (fun n => reads (length (b_References block) + n)%nat) (dag_commit_one c block)
             (rest ++ read_references reads (b_References block))
  end.

(** One iteration of [run]. *)
Definition DAGCommitor_run (fuel : nat) (reads : nat -> Digest -> option Block) (c : DAGCommitor)
    : option DAGCommitor :=
  match dc_blocksChan c with
  | [] => Some c
  | block :: rest =>
      dag_loop fuel reads
        {| dc_lastView := dc_lastView c; dc_lastHeight := dc_lastHeight c;
           dc_committedBlcoks := dc_committedBlcoks c; dc_blocksChan := rest;
           dc_commitLog := dc_commitLog c |} [block]
  end.

(** ** Termination *)

(** Each block of [G] is stored under its hash. *)
Definition keyed (G : gmap Digest Block) : Prop := map_Forall (fun d b => Block_Hash b = d) G.

Definition reads_from (G : gmap Digest Block) (reads : nat -> Digest -> option Block) : Prop :=
  forall n d b, reads n d = Some b -> G !! d = Some b.

Definition in_store (G : gmap Digest Block) (b : Block) : Prop := G !! Block_Hash b = Some b.

(** The references the traversal can still enqueue. *)
Definition weight_of (C : gset Digest) (l : list (Digest * Block)) : nat :=
  sum_list_with (fun e => if decide (e.1 ∈ C) then 0%nat else length (b_References e.2)) l.
Definition weight (G : gmap Digest Block) (C : gset Digest) : nat := weight_of C (map_to_list G).

Lemma weight_of_cons C k b l :
  weight_of C ((k, b) :: l) =
  ((if decide (k ∈ C) then 0 else length (b_References b)) + weight_of C l)%nat.
Proof. done. Qed.

Lemma weight_of_other C h l : h ∉ l.*1 -> weight_of ({[h]} ∪ C) l = weight_of C l.
Proof.
  intros Hh. induction l as [|[k b] l IH]; [done|].
  rewrite fmap_cons, not_elem_of_cons in Hh. destruct Hh as [Hne Hh].
  rewrite !weight_of_cons, (IH Hh). f_equal. simpl in Hne.
  destruct (decide (k ∈ {[h]} ∪ C)), (decide (k ∈ C)); [done|set_solver..|done].
Qed.

Lemma weight_of_commit C h b l :
  NoDup l.*1 -> (h, b) ∈ l -> h ∉ C ->
  weight_of C l = (length (b_References b) + weight_of ({[h]} ∪ C) l)%nat.
Proof.
  induction l as [|[k x] l IH]; intros Hnd Hin Hh; [by apply elem_of_nil in Hin|].
  rewrite fmap_cons, NoDup_cons in Hnd. destruct Hnd as [Hk Hnd]. simpl in Hk.
  rewrite !weight_of_cons. apply elem_of_cons in Hin as [[= <- <-]|Hin].
  - rewrite weight_of_other by done. rewrite decide_False, decide_True by set_solver. lia.
  - rewrite (IH Hnd Hin Hh).
    assert (k <> h) by (intros ->; apply Hk; apply list_elem_of_fmap; by exists (h, b)).
    destruct (decide (k ∈ C)), (decide (k ∈ {[h]} ∪ C)); [lia|set_solver..|lia].
Qed.

Lemma weight_commit G C b :
  in_store G b -> Block_Hash b ∉ C ->
  weight G C = (length (b_References b) + weight G ({[Block_Hash b]} ∪ C))%nat.
Proof.
  intros Hb Hh. apply weight_of_commit; [apply NoDup_fst_map_to_list|by apply elem_of_map_to_list|done].
Qed.

Lemma read_references_in_store G reads refs :
  keyed G -> reads_from G reads ->
  Forall (in_store G) (read_references reads refs) /\ (length (read_references reads refs) <= length refs)%nat.
Proof.
  intros Hk. revert reads. induction refs as [|qc refs IH]; intros reads Hr; simpl; [by auto|].
  destruct (IH (fun n => reads (S n))) as [F L]; [intros n d x; apply Hr|].
  destruct (reads 0%nat (qc_ParentBlockHash qc)) as [b|] eqn:E; simpl; [|split; [done|lia]].
  split; [|lia]. constructor; [|done]. apply Hr in E. unfold in_store. by rewrite (Hk _ _ E).
Qed.

(** A store that does not change. *)
Lemma read_references_fixed (G : gmap Digest Block) refs :
  read_references (fun _ d => G !! d) refs = omap (fun qc => G !! qc_ParentBlockHash qc) refs.
Proof. induction refs as [|qc refs IH]; csimpl; [done|]. rewrite IH. by destruct (G !! _). Qed.

(** Every iteration consumes a unit of [length queue + weight]. *)
Lemma dag_loop_enough G fuel reads c queue :
  keyed G -> reads_from G reads -> Forall (in_store G) queue ->
  (length queue + weight G (dc_committedBlcoks c) <= fuel)%nat ->
  exists c', dag_loop fuel reads c queue = Some c'.
Proof.
  intros Hk. revert reads c queue. induction fuel as [|fuel IH]; intros reads c queue Hr Hq Hf.
  { destruct queue; [simpl; eauto|simpl in Hf; lia]. }
  destruct queue as [|b rest]; simpl; [eauto|]. apply Forall_cons in Hq as [Hb Hq]. simpl in Hf.
  assert (forall k, reads_from G (fun n => reads (k + n)%nat)) as Hr' by (intros k n d x; apply Hr).
  case_decide as Hd; apply IH; try done; [lia|..]; simpl;
    destruct (read_references_in_store G reads (b_References b) Hk Hr) as [F L].
  - by apply Forall_app.
  - rewrite length_app. rewrite (weight_commit G _ b Hb Hd) in Hf. lia.
Qed.

(** ** What is committed *)

Definition dag_hashes (l : list Block) : list Digest := Block_Hash <$> l.

Record dag_ok (c : DAGCommitor) : Prop := {
  dk_set : dc_committedBlcoks c = list_to_set (dag_hashes (dc_commitLog c));
  dk_nodup : NoDup (dag_hashes (dc_commitLog c));
}.

Lemma dag_commit_one_ok c b :
  dag_ok c -> Block_Hash b ∉ dc_committedBlcoks c -> dag_ok (dag_commit_one c b).
Proof.
  intros [Es Hn] Hb. unfold dag_hashes in *. split; simpl; unfold dag_hashes; rewrite fmap_app.
  - rewrite list_to_set_app_L, Es. set_solver.
  - apply NoDup_app. split_and!; [done| |apply NoDup_singleton].
    intros x Hx ->%list_elem_of_singleton. apply Hb. rewrite Es. by apply elem_of_list_to_set.
Qed.

Lemma dag_loop_ok fuel reads c queue c' : dag_ok c -> dag_loop fuel reads c queue = Some c' -> dag_ok c'.
Proof.
  revert reads c queue. induction fuel as [|fuel IH]; intros reads c queue Hok H;
    destruct queue as [|b rest]; simpl in H; simplify_eq; try done.
  case_decide; [by eapply IH|]. eapply IH; [|done]. by apply dag_commit_one_ok.
Qed.

(** An edge of the stored graph: a block and a stored block it references. *)
Definition edge (G : gmap Digest Block) (k k' : Digest) : Prop :=
  exists b qc p, G !! k = Some b /\ qc ∈ b_References b /\
    G !! qc_ParentBlockHash qc = Some p /\ k' = Block_Hash p.

Definition closed (G : gmap Digest Block) (C : gset Digest) : Prop :=
  forall k k', k ∈ C -> edge G k k' -> k' ∈ C.

(** The traversal's invariant: the references of what is committed are
    committed or wait in the queue. *)
Definition frontier (G : gmap Digest Block) (C : gset Digest) (queue : list Block) : Prop :=
  forall k k', k ∈ C -> edge G k k' -> k' ∈ C \/ k' ∈ dag_hashes queue.

Lemma frontier_commit G C b rest :
  in_store G b -> frontier G C (b :: rest) ->
  frontier G ({[Block_Hash b]} ∪ C)
    (rest ++ omap (fun qc => G !! qc_ParentBlockHash qc) (b_References b)).
Proof.
  intros Hb Hf k k' Hk He. unfold dag_hashes. rewrite fmap_app, elem_of_app.
  apply elem_of_union in Hk as [->%elem_of_singleton|Hk].
  - destruct He as (b' & qc & p & Eb & Hqc & Ep & ->). rewrite Hb in Eb. simplify_eq.
    right. right. apply list_elem_of_fmap. exists p. split; [done|].
    apply list_elem_of_omap. eauto.
  - destruct (Hf k k' Hk He) as [?|Hin]; [set_solver|].
    unfold dag_hashes in Hin. rewrite fmap_cons, elem_of_cons in Hin. set_solver.
Qed.

Lemma frontier_skip G C b rest : Block_Hash b ∈ C -> frontier G C (b :: rest) -> frontier G C rest.
Proof.
  intros Hb Hf k k' Hk He. destruct (Hf k k' Hk He) as [?|Hin]; [by left|].
  unfold dag_hashes in Hin. rewrite fmap_cons, elem_of_cons in Hin. set_solver.
Qed.

Lemma dag_loop_closed G fuel c queue c' :
  keyed G -> Forall (in_store G) queue -> frontier G (dc_committedBlcoks c) queue ->
  dag_loop fuel (fun _ d => G !! d) c queue = Some c' ->
  closed G (dc_committedBlcoks c') /\
  dc_committedBlcoks c ⊆ dc_committedBlcoks c' /\
  list_to_set (dag_hashes queue) ⊆ dc_committedBlcoks c'.
Proof.
  intros Hk. revert c queue. induction fuel as [|fuel IH]; intros c queue Hq Hf H;
    destruct queue as [|b rest]; simpl in H; simplify_eq; try done.
  1,2: split_and!; [intros k k' H1 H2; by destruct (Hf k k' H1 H2) as [?|?%elem_of_nil]|done|set_solver].
  apply Forall_cons in Hq as [Hb Hq]. case_decide as Hd.
  - apply IH in H as (H1 & H2 & H3); [|done|by eapply frontier_skip].
    split_and!; [done..|]. unfold dag_hashes in *. rewrite fmap_cons. set_solver.
  - destruct (read_references_in_store G (fun _ d => G !! d) (b_References b) Hk
      (fun _ _ _ E => E)) as [F _]. rewrite read_references_fixed in F, H.
    apply IH in H as (H1 & H2 & H3); [|by apply Forall_app|by apply frontier_commit].
    simpl in H2. unfold dag_hashes in *. rewrite fmap_cons. rewrite fmap_app, list_to_set_app_L in H3.
    split_and!; [done|set_solver|set_solver].
Qed.

Lemma closed_reach G C k k' : closed G C -> k ∈ C -> rtc (edge G) k k' -> k' ∈ C.
Proof. intros Hc Hk Hr. induction Hr as [|x y z Hxy _ IH]; [done|]. apply IH. by eapply Hc. Qed.

(** Conversely nothing else is committed. *)
Lemma dag_loop_reach G h fuel c queue c' :
  keyed G -> Forall (in_store G) queue -> Forall (fun b => rtc (edge G) h (Block_Hash b)) queue ->
  dag_loop fuel (fun _ d => G !! d) c queue = Some c' ->
  forall k, k ∈ dc_committedBlcoks c' -> k ∈ dc_committedBlcoks c \/ rtc (edge G) h k.
Proof.
  intros Hk. revert c queue. induction fuel as [|fuel IH]; intros c queue Hq Hh H k Hin;
    destruct queue as [|b rest]; simpl in H; simplify_eq; auto.
  apply Forall_cons in Hq as [Hb Hq]. apply Forall_cons in Hh as [Hhb Hh]. case_decide; [by eapply IH|].
  destruct (read_references_in_store G (fun _ d => G !! d) (b_References b) Hk (fun _ _ _ E => E)) as [F _].
  rewrite read_references_fixed in F, H.
  eapply IH in H as [Hc|?]; [| |by apply Forall_app| |exact Hin]; [|by auto|].
  - simpl in Hc. apply elem_of_union in Hc as [->%elem_of_singleton|?]; auto.
  - apply Forall_app. split; [done|]. apply Forall_forall. intros p (qc & Hqc & Ep)%list_elem_of_omap.
    eapply rtc_r; [done|]. exists b, qc, p. done.
Qed.
End dag.

(** C24. Committing a block of the DAG always finishes, cyclic references or
    missing blocks included: [1 + (references of the uncommitted stored
    blocks)] iterations are enough, whatever the store answers meanwhile. *)
Theorem dag_commit_terminates `{Prims} (G : gmap Digest Block) reads (c : DAGCommitor) (b : Block) (fuel : nat) :
  keyed G -> reads_from G reads -> in_store G b ->
  (1 + weight G (dc_committedBlcoks c) <= fuel)%nat ->
  exists c', dag_loop fuel reads c [b] = Some c'.
Proof. intros Hk Hr Hb Hf. apply (dag_loop_enough G); simpl; auto. Qed.

(** C16. From a committed set closed under references, committing [b] commits
    exactly the stored blocks reachable from [b] through references, each of
    them once, and leaves a closed set. *)
Theorem dag_commits_reachable `{Prims} (G : gmap Digest Block) (c c' : DAGCommitor) (b : Block) (fuel : nat) :
  keyed G -> in_store G b -> dag_ok c -> closed G (dc_committedBlcoks c) ->
  dag_loop fuel (fun _ d => G !! d) c [b] = Some c' ->
  dag_ok c' /\ closed G (dc_committedBlcoks c') /\
  (forall k, k ∈ dc_committedBlcoks c' <-> k ∈ dc_committedBlcoks c \/ rtc (edge G) (Block_Hash b) k).
Proof.
  intros Hk Hb Hok Hc Hrun. split; [by eapply dag_loop_ok|].
  destruct (dag_loop_closed G fuel c [b] c') as (Hcl & Hsub & Hin); [done|auto| |done|].
  { intros k k' H1 H2. left. by eapply Hc. }
  split; [done|]. intros k. split.
  - eapply dag_loop_reach; [done|..|done]; auto using rtc_refl.
  - intros [?|Hr]; [by apply Hsub|]. eapply closed_reach; [done| |done]. apply Hin. simpl. set_solver.
Qed.

(** ** Examples: a block that references two others, one of them missing *)

Module DagDemo.
#[local] Instance prims : Prims := demo_prims pad32.

Definition b0 : Block := demo_block 0 0 0 4.
Definition qc_to (d : Digest) : BlockQC :=
  {| qc_View := 0; qc_Height := 0; qc_Proposer := 1; qc_ParentBlockHash := d; qc_Shares := ∅ |}.
Definition b1 : Block :=
  {| b_Author := 1; b_View := 0; b_Height := 1; b_Batch := {| ID := 8; Txs := [] |};
     b_Qc := None; b_References := [qc_to (Block_Hash b0); qc_to Digest_zero; qc_to (Block_Hash b0)] |}.
Definition G : gmap Digest Block := {[ Block_Hash b0 := b0; Block_Hash b1 := b1 ]}.

Lemma G_keyed : keyed G.
Proof. unfold keyed. apply map_Forall_insert_2; [reflexivity|]. apply map_Forall_singleton. reflexivity. Qed.

Definition final : DAGCommitor := default NewDAGCommitor (dag_loop 4 (fun _ d => G !! d) NewDAGCommitor [b1]).
End DagDemo.

Lemma dag_commit_terminates_witness :
  exists c', dag_loop (P := DagDemo.prims) 4 (fun _ d => DagDemo.G !! d) NewDAGCommitor [DagDemo.b1] = Some c'.
Proof.
  apply (dag_commit_terminates (H := DagDemo.prims) DagDemo.G).
  - exact DagDemo.G_keyed.
  - intros n d b E. exact E.
  - vm_compute. reflexivity.
  - vm_compute. lia.
Defined.

Lemma dag_commits_reachable_witness :
  NoDup (dag_hashes (P := DagDemo.prims) (dc_commitLog DagDemo.final)) /\
  dc_commitLog DagDemo.final = [DagDemo.b1; DagDemo.b0].
Proof.
  split; [|vm_compute; reflexivity].
  refine (dk_nodup _ (proj1 (dag_commits_reachable (H := DagDemo.prims) DagDemo.G NewDAGCommitor
    DagDemo.final DagDemo.b1 4 DagDemo.G_keyed _ _ _ _))).
  - vm_compute. reflexivity.
  - split; [reflexivity|constructor].
  - intros k k' Hk. exfalso. revert Hk. apply not_elem_of_empty.
  - vm_compute. reflexivity.
Defined.
