(* ===== verification/Elector.v ===== *)
(** * Leader election

    Models [src/core/elector.go]: per view, the first [HightThreshold] elect
    messages of distinct authors are combined into a threshold signature,
    whose first four bytes pick the leader. *)
From S2P Require Import Prelude Sha256 Crypto Committee Pool Message.

Section elector.
Context `{P : Prims}.

Record Aggregator := { elects : list ElectMsg; used : gset NodeID }.

(** [randint = randint<<8 + NodeID(qc[i])] for [i] from 0 to 3. *)
Definition randint_of (qc : bytes) : Res NodeID :=
  foldl (fun acc (i : nat) =>
    randint ← acc;
    match qc !! i with
    | Some b => Ok (wrap64 (wrap64 (Z.shiftl randint 8) + Z_of_byte b))
    | None => Panic
    end) (Ok 0) [0; 1; 2; 3]%nat.

(** An error or a panic leaves the message recorded. *)
Definition Aggregator_Append (a : Aggregator) (elect : ElectMsg) (committee : Committee)
    (sigService : SigService) : Res NodeID * Aggregator :=
  if decide (e_Author elect ∈ used a) then
    (Err (ErrUsedElect ElectType (e_View elect) (e_Author elect)), a)
  else
    let a' := {| elects := elects a ++ [elect]; used := {[e_Author elect]} ∪ used a |} in
    if decide (Z.of_nat (length (elects a')) = HightThreshold committee) then
      let shares := e_SigShare <$> elects a' in
      (qc ← CombineIntactTSPartial shares (ShareKey sigService) (ElectMsg_Hash elect);
       randint ← randint_of qc;
       if decide (Committee_Size committee = 0) then Panic
       else Ok (Z.rem randint (Committee_Size committee)), a')
    else (Ok NONE, a').

Record Elector := {
  leaders : gmap Z NodeID;
  aggregator : gmap Z Aggregator;
  el_sigService : SigService;
  el_committee : Committee;
}.

Definition NewElector (sigService : SigService) (committee : Committee) : Elector :=
  {| leaders := ∅; aggregator := ∅; el_sigService := sigService; el_committee := committee |}.

Definition Aggregator_new : Aggregator := {| elects := []; used := ∅ |}.

Definition Elector_Add (e : Elector) (elect : ElectMsg) : Res NodeID * Elector :=
  let a := default Aggregator_new (aggregator e !! e_View elect) in
  let '(r, a') := Aggregator_Append a elect (el_committee e) (el_sigService e) in
  let ls := match r with
            | Ok leader => if decide (leader <> NONE) then <[e_View elect := leader]> (leaders e) else leaders e
            | _ => leaders e
            end in
  (r, {| leaders := ls; aggregator := <[e_View elect := a']> (aggregator e);
         el_sigService := el_sigService e; el_committee := el_committee e |}).

Fixpoint Elector_Add_all (e : Elector) (ms : list ElectMsg) : list (Res NodeID) * Elector :=
  match ms with
  | [] => ([], e)
  | m :: ms =>
      let '(r, e') := Elector_Add e m in
      let '(rs, e'') := Elector_Add_all e' ms in (r :: rs, e'')
  end.

(** ** The random number *)

Lemma rand_step_range r b k :
  0 <= k <= 48 -> 0 <= r < 2 ^ k ->
  0 <= wrap64 (wrap64 (Z.shiftl r 8) + Z_of_byte b) < 2 ^ (k + 8).
Proof.
  intros Hk Hr. pose proof (Z_of_byte_range b).
  assert (2 ^ k <= 2 ^ 48) by (apply Z.pow_le_mono_r; lia).
  rewrite Z.pow_add_r, Z.shiftl_mul_pow2 by lia. rewrite (wrap_small 64 (r * 2 ^ 8)) by (simpl; lia). wrap_lia. lia.
Qed.

Lemma randint_range qc r : randint_of qc = Ok r -> 0 <= r < 2 ^ 32.
Proof.
  unfold randint_of. simpl.
  destruct (qc !! 0%nat) as [b0|]; [|done]. simpl.
  destruct (qc !! 1%nat) as [b1|]; [|done]. simpl.
  destruct (qc !! 2%nat) as [b2|]; [|done]. simpl.
  destruct (qc !! 3%nat) as [b3|]; [|done]. simpl. intros [= <-].
  pose proof (rand_step_range 0 b0 0 ltac:(lia) ltac:(lia)) as R0.
  pose proof (rand_step_range _ b1 8 ltac:(lia) R0) as R1.
  pose proof (rand_step_range _ b2 16 ltac:(lia) R1) as R2.
  exact (rand_step_range _ b3 24 ltac:(lia) R2).
Qed.

Lemma randint_total qc : (4 <= length qc)%nat -> exists r, randint_of qc = Ok r.
Proof. destruct qc as [|? [|? [|? [|? ?]]]]; simpl; try lia. eauto. Qed.

(** ** Invariant *)

Record agg_ok (a : Aggregator) : Prop := {
  ag_used : used a = list_to_set (e_Author <$> elects a);
  ag_nodup : NoDup (e_Author <$> elects a);
}.

Lemma Append_ok a m c s : agg_ok a -> agg_ok (Aggregator_Append a m c s).2.
Proof.
  intros [Eu Hn]. unfold Aggregator_Append. case_decide as Hu; [by split|].
  match goal with |- agg_ok ((if _ then (_, ?a') else _).2) => assert (agg_ok a') as H' end.
  { split; simpl; rewrite fmap_app.
    - rewrite list_to_set_app_L, Eu. set_solver.
    - apply NoDup_app. split_and!; [done| |apply NoDup_singleton].
      intros x Hx ->%list_elem_of_singleton. apply Hu. rewrite Eu. by apply elem_of_list_to_set. }
  by case_decide.
Qed.

(** A leader comes out only at the moment the quorum is complete. *)
Lemma Append_leader a m c s l :
  (Aggregator_Append a m c s).1 = Ok l -> l <> NONE ->
  e_Author m ∉ used a /\ Z.of_nat (S (length (elects a))) = HightThreshold c /\
  0 <= l < Committee_Size c.
Proof.
  unfold Aggregator_Append. case_decide; [done|]. case_decide as Hlen; simpl; [|intros [= <-]; done].
  simpl in Hlen. rewrite length_app in Hlen. simpl in Hlen.
  destruct (CombineIntactTSPartial _ _ _) as [qc| |]; simpl; try done.
  destruct (randint_of qc) as [r| |] eqn:Er; simpl; try done. case_decide; [done|].
  intros [= <-] _. apply randint_range in Er. split_and!; [done|lia|..];
    unfold Committee_Size in *; pose proof (Z.rem_bound_pos r (Z.of_nat (size (Authorities c)))); lia.
Qed.

Lemma Append_length a m c s :
  length (elects (Aggregator_Append a m c s).2) =
  if decide (e_Author m ∈ used a) then length (elects a) else S (length (elects a)).
Proof.
  unfold Aggregator_Append. case_decide; [done|]. case_decide; simpl; rewrite length_app; simpl; lia.
Qed.

(** ** One leader per view *)

Definition view_agg (e : Elector) (v : Z) : Aggregator := default Aggregator_new (aggregator e !! v).
Definition elect_count (e : Elector) (v : Z) : nat := length (elects (view_agg e v)).

Lemma Elector_Add_result e m :
  (Elector_Add e m).1 = (Aggregator_Append (view_agg e (e_View m)) m (el_committee e) (el_sigService e)).1.
Proof. unfold Elector_Add, view_agg. by destruct (Aggregator_Append _ _ _ _). Qed.

Lemma Elector_Add_agg e m v :
  view_agg (Elector_Add e m).2 v =
  if decide (v = e_View m)
  then (Aggregator_Append (view_agg e (e_View m)) m (el_committee e) (el_sigService e)).2
  else view_agg e v.
Proof.
  unfold Elector_Add, view_agg. destruct (Aggregator_Append _ _ _ _) as [r a'] eqn:E. simpl.
  case_decide; subst; [by rewrite lookup_insert_eq|by rewrite lookup_insert_ne].
Qed.

Lemma Elector_Add_env e m :
  el_committee (Elector_Add e m).2 = el_committee e /\ el_sigService (Elector_Add e m).2 = el_sigService e.
Proof. unfold Elector_Add. by destruct (Aggregator_Append _ _ _ _). Qed.

Lemma elect_count_mono e m v : (elect_count e v <= elect_count (Elector_Add e m).2 v)%nat.
Proof.
  unfold elect_count. rewrite Elector_Add_agg. case_decide; [|lia]. subst. rewrite Append_length. case_decide; lia.
Qed.

(** Past the threshold the view elects nobody. *)
Lemma no_second_leader ms e v i m l :
  HightThreshold (el_committee e) <= Z.of_nat (elect_count e v) ->
  ms !! i = Some m -> e_View m = v -> (Elector_Add_all e ms).1 !! i = Some (Ok l) -> l = NONE.
Proof.
  revert e i. induction ms as [|m0 ms IH]; intros e i Hc Hi Hv Hr; [done|]. simpl in Hr.
  destruct (Elector_Add e m0) as [r e'] eqn:E1. destruct (Elector_Add_all e' ms) as [rs e''] eqn:E2.
  destruct i as [|i]; simplify_eq/=.
  - destruct (decide (l = NONE)); [done|]. pose proof (Elector_Add_result e m) as Er. rewrite E1 in Er.
    symmetry in Er. simpl in Er. apply Append_leader in Er as (_ & Hlen & _); [|done].
    unfold elect_count in Hc. lia.
  - apply (IH e' i); try done; [|by rewrite E2].
    pose proof (elect_count_mono e m0 (e_View m)) as Hm. destruct (Elector_Add_env e m0) as [Ec _].
    rewrite E1 in Hm, Ec. simpl in *. rewrite Ec. lia.
Qed.

Lemma leader_fills e m l :
  (Elector_Add e m).1 = Ok l -> l <> NONE ->
  Z.of_nat (elect_count (Elector_Add e m).2 (e_View m)) = HightThreshold (el_committee e).
Proof.
  rewrite Elector_Add_result. intros Hr Hl. apply Append_leader in Hr as (Hu & Hlen & _); [|done].
  unfold elect_count. rewrite Elector_Add_agg, decide_True, Append_length, decide_False by done. lia.
Qed.

Lemma first_leader_only ms e m0 l0 i m l :
  (Elector_Add_all e (m0 :: ms)).1 !! 0%nat = Some (Ok l0) -> l0 <> NONE ->
  ms !! i = Some m -> e_View m = e_View m0 ->
  (Elector_Add_all e (m0 :: ms)).1 !! S i = Some (Ok l) -> l = NONE.
Proof.
  simpl. pose proof (leader_fills e m0 l0) as Hf. destruct (Elector_Add_env e m0) as [Ec _].
  destruct (Elector_Add e m0) as [r e'] eqn:E1.
  destruct (Elector_Add_all e' ms) as [rs e''] eqn:E2. simpl in *.
  intros [= ->] Hl Hi Hv Hr. apply (no_second_leader ms e' (e_View m0) i m); try done; [|by rewrite E2].
  rewrite Hf by done. by rewrite Ec.
Qed.
End elector.

(** C25. Whatever elect messages arrive, in any order and with any repeats, a
    node elects at most one leader per view, and it is a member's index. *)
Theorem one_leader_per_view `{Prims} (e : Elector) (ms : list ElectMsg) (i j : nat) (mi mj : ElectMsg) (li lj : NodeID) :
  ms !! i = Some mi -> ms !! j = Some mj -> e_View mi = e_View mj ->
  (Elector_Add_all e ms).1 !! i = Some (Ok li) -> li <> NONE ->
  (Elector_Add_all e ms).1 !! j = Some (Ok lj) -> lj <> NONE ->
  i = j /\ 0 <= li < Committee_Size (el_committee e).
Proof.
  revert e i j. induction ms as [|m ms IH]; intros e i j Hi Hj Hv Ri Ni Rj Nj; [done|].
  destruct i as [|i], j as [|j].
  - split; [done|]. simpl in Ri. assert ((Elector_Add e m).1 = Ok li) as Er.
    { destruct (Elector_Add e m) as [r e']. destruct (Elector_Add_all e' ms). simpl in *. congruence. }
    rewrite Elector_Add_result in Er. by apply Append_leader in Er as (_ & _ & ?).
  - exfalso. apply Nj. simplify_eq/=. by eapply first_leader_only.
  - exfalso. apply Ni. simplify_eq/=. by eapply first_leader_only.
  - simpl in *. destruct (Elector_Add_env e m) as [Ec _]. destruct (Elector_Add e m) as [r e'].
    destruct (Elector_Add_all e' ms) as [rs e''] eqn:E2. simpl in *.
    specialize (IH e' i j Hi Hj Hv). rewrite E2 in IH. simpl in IH.
    destruct (IH Ri Ni Rj Nj) as [-> ?]. by rewrite <- Ec.
Qed.

(** ** Agreement *)

Section agreement.
Context `{L : PrimsLaws}.
Context (c : Committee) (pub : PubPoly) (n : Z) (shares : list PriShare) (v : Z).
Context (Hdealt : dealt pub (HightThreshold c) n shares) (Hlong : sig_long_enough pub L).
Context (Hsize : (0 < size (Authorities c))%nat).

(** An elect message with the author's own partial signature. *)
Definition valid_elect (m : ElectMsg) : Prop :=
  e_View m = v /\ 0 <= e_Author m /\
  exists s, shares !! Z.to_nat (e_Author m) = Some s /\
    tbls_Sign s (elect_digest v) = Ok (PartialSig (e_SigShare m)).

(** A node of the committee: its service holds the common public key. *)
Definition member (s : SigService) : Prop :=
  sk_PubPoly (ShareKey s) = pub /\ sk_T (ShareKey s) = HightThreshold c /\ sk_N (ShareKey s) = n.

Definition leader_of : NodeID :=
  match randint_of (threshold_sig pub (elect_digest v)) with
  | Ok r => Z.rem r (Committee_Size c)
  | _ => NONE
  end.

Lemma leader_of_range : 0 <= leader_of < Committee_Size c.
Proof.
  unfold leader_of. destruct (randint_total _ (Hlong (elect_digest v))) as [r Er]. rewrite Er.
  apply randint_range in Er. unfold Committee_Size.
  pose proof (Z.rem_bound_pos r (Z.of_nat (size (Authorities c)))). lia.
Qed.

Lemma combine_valid s ms :
  member s -> Forall valid_elect ms -> NoDup (e_Author <$> ms) ->
  Z.of_nat (length ms) = HightThreshold c ->
  CombineIntactTSPartial (e_SigShare <$> ms) (ShareKey s) (elect_digest v)
    = Ok (threshold_sig pub (elect_digest v)).
Proof.
  intros (Ep & Et & En) Hv Hn Hl. unfold CombineIntactTSPartial. rewrite Ep, Et, En.
  rewrite Forall_forall in Hv.
  eapply (tbls_unique pub _ n shares _ (Z.to_nat ∘ e_Author <$> ms)); [done|..].
  - rewrite list_fmap_compose. apply NoDup_fmap_2_strong; [|done].
    intros x y (mx & -> & Hx)%list_elem_of_fmap (my & -> & Hy)%list_elem_of_fmap E.
    destruct (Hv mx Hx) as (_ & ? & _), (Hv my Hy) as (_ & ? & _). lia.
  - by rewrite length_fmap.
  - rewrite Forall2_fmap_l, !Forall2_fmap_r. apply Forall_Forall2_diag. apply Forall_forall.
    intros m Hm. destruct (Hv m Hm) as (_ & _ & s' & E1 & E2). exists s'. done.
Qed.

Lemma Append_valid a m s :
  member s -> agg_ok a -> Forall valid_elect (elects a ++ [m]) ->
  NoDup (e_Author <$> (elects a ++ [m])) ->
  Aggregator_Append a m c s =
    (if decide (Z.of_nat (length (elects a ++ [m])) = HightThreshold c) then Ok leader_of else Ok NONE,
     {| elects := elects a ++ [m]; used := {[e_Author m]} ∪ used a |}).
Proof.
  intros Hs [Eu _] Hv Hn. unfold Aggregator_Append.
  assert (e_Author m ∉ used a) as Hnew.
  { rewrite Eu, elem_of_list_to_set. rewrite fmap_app in Hn.
    apply NoDup_app in Hn as (_ & Hd & _). intros Hin. by eapply Hd; [|apply list_elem_of_singleton]. }
  rewrite decide_False by done. cbn [elects]. case_decide as Hl; [|done].
  assert (ElectMsg_Hash m = elect_digest v) as ->.
  { apply Forall_app in Hv as [_ Hm]. apply Forall_singleton in Hm as [Em _]. unfold ElectMsg_Hash. by rewrite Em. }
  rewrite combine_valid by done. simpl. f_equal. unfold leader_of.
  destruct (randint_total _ (Hlong (elect_digest v))) as [r Er]. rewrite Er. simpl.
  rewrite decide_False; [done|]. unfold Committee_Size. lia.
Qed.

Lemma feed_valid ms e :
  el_committee e = c -> member (el_sigService e) -> agg_ok (view_agg e v) -> ms <> [] ->
  Forall valid_elect (elects (view_agg e v) ++ ms) ->
  NoDup (e_Author <$> (elects (view_agg e v) ++ ms)) ->
  Z.of_nat (length (elects (view_agg e v) ++ ms)) = HightThreshold c ->
  (Elector_Add_all e ms).1 = replicate (pred (length ms)) (Ok NONE) ++ [Ok leader_of].
Proof.
  revert e. induction ms as [|m ms IH]; intros e Ec Hs Ha Hne Hv Hn Hl; [done|].
  set (a := view_agg e v) in *.
  replace (elects a ++ m :: ms) with ((elects a ++ [m]) ++ ms) in * by (by rewrite <- app_assoc).
  assert (Forall valid_elect (elects a ++ [m])) as Hv1 by (by apply Forall_app in Hv as [? _]).
  assert (NoDup (e_Author <$> (elects a ++ [m]))) as Hn1.
  { rewrite fmap_app in Hn. by apply NoDup_app in Hn as [? _]. }
  assert (e_View m = v) as Em by (apply Forall_app in Hv1 as [_ Hm]; by apply Forall_singleton in Hm as [? _]).
  pose proof (Append_valid a m (el_sigService e) Hs Ha Hv1 Hn1) as EA.
  pose proof (Elector_Add_result e m) as Er. pose proof (Elector_Add_agg e m v) as Eg.
  destruct (Elector_Add_env e m) as [Ec' Es'].
  pose proof (Append_ok a m c (el_sigService e) Ha) as Ha'.
  rewrite Em, Ec in Er, Eg. fold a in Er, Eg. rewrite EA in Er, Eg, Ha'.
  rewrite decide_True in Eg by done. cbn [snd fst] in *.
  simpl. destruct (Elector_Add e m) as [r e'] eqn:E1. cbn [fst snd] in *.
  destruct (Elector_Add_all e' ms) as [rs e''] eqn:E2. cbn [fst]. subst r.
  rewrite length_app in Hl. destruct ms as [|m' ms].
  - simpl in *. injection E2 as <- _. rewrite decide_True; [done|]. rewrite length_app in Hl |- *. simpl in *. lia.
  - rewrite decide_False by (rewrite length_app in Hl |- *; simpl in *; lia).
    specialize (IH e'). rewrite E2, Eg in IH. cbn [fst elects] in IH. rewrite IH; try done.
    + by rewrite Ec'.
    + by rewrite Es'.
    + by rewrite length_app.
Qed.
End agreement.

(** C9. Any two nodes that receive [HightThreshold] valid elect messages of
    distinct authors for a view, possibly from different authors and in
    different orders, both elect a leader at the last message, and the same
    one. *)
Theorem election_agreement `{L : PrimsLaws} (c : Committee) (pub : PubPoly) (n : Z) (shares : list PriShare)
    (v : Z) (e1 e2 : Elector) (ms1 ms2 : list ElectMsg) :
  dealt pub (HightThreshold c) n shares -> sig_long_enough pub L -> (0 < size (Authorities c))%nat ->
  Forall (fun e => el_committee e = c /\ member c pub n (el_sigService e) /\ aggregator e !! v = None) [e1; e2] ->
  Forall (fun ms => Forall (valid_elect shares v) ms /\ NoDup (e_Author <$> ms) /\
                    Z.of_nat (length ms) = HightThreshold c) [ms1; ms2] ->
  exists leader, 0 <= leader < Committee_Size c /\
    last (Elector_Add_all e1 ms1).1 = Some (Ok leader) /\
    last (Elector_Add_all e2 ms2).1 = Some (Ok leader).
Proof.
  intros Hd Hlong Hsize He Hm. exists (leader_of c pub v).
  split; [by eapply leader_of_range|].
  assert (forall e ms, el_committee e = c /\ member c pub n (el_sigService e) /\ aggregator e !! v = None ->
    Forall (valid_elect shares v) ms /\ NoDup (e_Author <$> ms) /\ Z.of_nat (length ms) = HightThreshold c ->
    last (Elector_Add_all e ms).1 = Some (Ok (leader_of c pub v))) as Hone.
  { intros e ms (Ec & Hs & Hno) (Hv & Hn & Hl).
    assert (view_agg e v = Aggregator_new) as Ea by (unfold view_agg; by rewrite Hno).
    assert (ms <> []) by (intros ->; pose proof (HightThreshold_pos c); simpl in Hl; lia).
    assert (agg_ok Aggregator_new) by (split; [done|constructor]).
    pose proof (feed_valid c pub n shares v Hd Hlong Hsize ms e) as E. rewrite Ea in E.
    rewrite E by done. by rewrite last_snoc. }
  apply Forall_cons in He as [He1 [He2 _]%Forall_cons], Hm as [Hm1 [Hm2 _]%Forall_cons]. eauto.
Qed.

Module ElectorDemo.
#[local] Instance prims : Prims := demo_prims pad32.
Definition laws : PrimsLaws prims := demo_laws pad32 pad32_length.
Definition elect (i : nat) : ElectMsg :=
  {| e_Author := Z.of_nat i; e_View := 5;
     e_SigShare := {| PartialSig := byte_of_Z (Z.of_nat i) :: elect_digest 5 |} |}.
Definition node (i : nat) : Elector := NewElector (demo_service pad32 i 4 3) (demo_committee 4).

(** Node 0 after an elect message with an empty share and a good one. *)
Definition bad : ElectMsg := {| e_Author := 0; e_View := 5; e_SigShare := {| PartialSig := [] |} |}.
Definition spoiled : Elector := (Elector_Add_all (node 0) (bad :: (elect <$> [1]%nat))).2.

Lemma elect_valid i : (i < 4)%nat -> valid_elect (seq 0 4) 5 (elect i).
Proof.
  intros Hi. split_and!; [done|simpl; lia|]. exists i. unfold elect. simpl (e_Author _). rewrite Nat2Z.id.
  split; [by apply lookup_seq_lt|done].
Qed.
End ElectorDemo.

Lemma election_agreement_witness :
  exists leader, 0 <= leader < 4 /\
    last (Elector_Add_all (ElectorDemo.node 0) (ElectorDemo.elect <$> [0; 1; 2]%nat)).1 = Some (Ok leader) /\
    last (Elector_Add_all (ElectorDemo.node 3) (ElectorDemo.elect <$> [3; 1; 2]%nat)).1 = Some (Ok leader).
Proof.
  apply (election_agreement (L := ElectorDemo.laws) (demo_committee 4) tt 4 (seq 0 4) 5).
  - reflexivity.
  - intros m. simpl. rewrite pad32_length. lia.
  - vm_compute. lia.
  - repeat constructor.
  - repeat (apply Forall_cons; split; [|]); try apply Forall_nil; try done; (split; [|split]);
      try reflexivity; repeat (apply Forall_cons; split); try apply Forall_nil; try done;
      try (apply ElectorDemo.elect_valid; lia).
    all: vm_decide.
Defined.

(** C36. Shares are accepted unchecked, and one election is tried per view:
    if combining the first [HightThreshold] shares fails, the node reports the
    error and no later message makes it elect a leader for that view. *)
Theorem failed_election_is_final `{Prims} (e : Elector) (m : ElectMsg) (err : GoError) (ms : list ElectMsg)
    (i : nat) (mi : ElectMsg) (l : NodeID) :
  e_Author m ∉ used (view_agg e (e_View m)) ->
  Z.of_nat (S (elect_count e (e_View m))) = HightThreshold (el_committee e) ->
  CombineIntactTSPartial (e_SigShare <$> (elects (view_agg e (e_View m)) ++ [m]))
    (ShareKey (el_sigService e)) (ElectMsg_Hash m) = Err err ->
  (Elector_Add e m).1 = Err err /\
  (ms !! i = Some mi -> e_View mi = e_View m ->
   (Elector_Add_all (Elector_Add e m).2 ms).1 !! i = Some (Ok l) -> l = NONE).
Proof.
  intros Hu Hc Hcomb. split.
  - rewrite Elector_Add_result. unfold Aggregator_Append. rewrite decide_False by done. cbn [elects].
    rewrite decide_True by (rewrite length_app; simpl; unfold elect_count in Hc; lia).
    by rewrite Hcomb.
  - intros Hi Hv. apply (no_second_leader ms _ (e_View m) i mi l); [|done|done].
    destruct (Elector_Add_env e m) as [-> _]. unfold elect_count in *.
    rewrite Elector_Add_agg, decide_True, Append_length, decide_False by done. lia.
Qed.

Lemma failed_election_is_final_witness :
  (Elector_Add ElectorDemo.spoiled (ElectorDemo.elect 2)).1 = Err (ErrLib 1).
Proof.
  refine (proj1 (failed_election_is_final (H := ElectorDemo.prims) ElectorDemo.spoiled (ElectorDemo.elect 2) (ErrLib 1) [] 0
    (ElectorDemo.elect 3) 0 _ _ _)).
  - vm_decide.
  - vm_compute. reflexivity.
  - vm_compute. reflexivity.
Defined.

Lemma one_leader_per_view_witness :
  (Elector_Add_all (ElectorDemo.node 0) (ElectorDemo.elect <$> [0; 1; 2; 2]%nat)).1 =
    [Ok NONE; Ok NONE; Ok 0; Err (ErrUsedElect 4 5 2)] /\ 0 <= 0 < 4.
Proof.
  split; [vm_compute; reflexivity|].
  refine (proj2 (one_leader_per_view (H := ElectorDemo.prims) (ElectorDemo.node 0)
    (ElectorDemo.elect <$> [0; 1; 2; 2]%nat) 2 2 (ElectorDemo.elect 2) (ElectorDemo.elect 2) 0 0 _ _ _ _ _ _ _));
    try reflexivity; try discriminate; vm_compute; reflexivity.
Defined.
