(* ===== verification/Transmitor.v ===== *)
(** * Package core: the transmitter

    Models [src/core/transimtor.go], and the effects the consensus code has on
    the outside: what it hands to the transmitter, what it puts into its own
    receive channel, the goroutines it starts. *)
From S2P Require Import Prelude Sha256 Crypto Committee Pool Message.

(** [network.NetMessage]: a message and the addresses it goes to. *)
Record NetMessage := { nm_Msg : ConsensusMessage; nm_Address : list string }.

(** The state of a transmitter: the channels to the sender and to the main
    loop. *)
Record Transmitor := {
  tr_recvCh : list ConsensusMessage;
  tr_msgCh : list NetMessage;
  tr_committee : Committee;
}.

Definition NewTransmitor (committee : Committee) : Transmitor :=
  {| tr_recvCh := []; tr_msgCh := []; tr_committee := committee |}.

(** [order] is the iteration order of the committee in the broadcast. *)
Definition Transmitor_Send (tr : Transmitor) (order : list (NodeID * Authority)) (from to : NodeID)
    (msg : ConsensusMessage) : Transmitor :=
  let addr := if decide (to = NONE) then BroadCast order from else [Address (tr_committee tr) to] in
  {| tr_recvCh := tr_recvCh tr; tr_msgCh := tr_msgCh tr ++ [{| nm_Msg := msg; nm_Address := addr |}];
     tr_committee := tr_committee tr |}.

(** What the second goroutine of [NewTransmitor], or a direct send on
    [RecvChannel()], adds to the receive channel. *)
Definition Transmitor_enqueue (tr : Transmitor) (msg : ConsensusMessage) : Transmitor :=
  {| tr_recvCh := tr_recvCh tr ++ [msg]; tr_msgCh := tr_msgCh tr; tr_committee := tr_committee tr |}.

Definition Transmitor_Recv (tr : Transmitor) : option (ConsensusMessage * Transmitor) :=
  match tr_recvCh tr with
  | [] => None
  | m :: rest => Some (m, {| tr_recvCh := rest; tr_msgCh := tr_msgCh tr; tr_committee := tr_committee tr |})
  end.

(** ** Effects

    [T] is the type of the goroutines a component starts. *)
Inductive Eff (T : Type) : Type :=
| Send (from to : NodeID) (msg : ConsensusMessage)
| Self (msg : ConsensusMessage)
| Spawn (t : T).
Arguments Send {T} _ _ _.
Arguments Self {T} _.
Arguments Spawn {T} _.

Definition Eff_map {T U} (f : T -> U) (e : Eff T) : Eff U :=
  match e with
  | Send from to m => Send from to m
  | Self m => Self m
  | Spawn t => Spawn (f t)
  end.

Definition spawned {T} (effs : list (Eff T)) : list T :=
  omap (fun e => match e with Spawn t => Some t | _ => None end) effs.

(** What leaves: sends and messages to oneself. *)
Definition outputs {T} (effs : list (Eff T)) : list (Eff T) :=
  omap (fun e => match e with Spawn _ => None | _ => Some e end) effs.

Lemma spawned_app {T} (l1 l2 : list (Eff T)) : spawned (l1 ++ l2) = spawned l1 ++ spawned l2.
Proof. apply omap_app. Qed.
Lemma outputs_app {T} (l1 l2 : list (Eff T)) : outputs (l1 ++ l2) = outputs l1 ++ outputs l2.
Proof. apply omap_app. Qed.
Lemma spawned_fmap {T U} (f : U -> T) (l : list U) : spawned (Spawn ∘ f <$> l) = f <$> l.
Proof. induction l as [|x l IH]; csimpl; [done|]. by f_equal. Qed.
Lemma outputs_fmap {T U} (f : U -> T) (l : list U) : outputs (Spawn ∘ f <$> l) = [].
Proof. induction l as [|x l IH]; csimpl; done. Qed.
#[export] Hint Rewrite @spawned_app @outputs_app @spawned_fmap @outputs_fmap : go_rw.

(** ** Blocks are drawn from the pool *)

(** [generatorBlock] of the chain protocols: the next batch becomes a block. *)
Definition generatorBlock (nodeID : NodeID) (view height : Z) (qc : option BlockQC) (txpool : Pool)
    : Block * Pool :=
  let '(batch, txpool') := GetBatch txpool in
  ({| b_Author := nodeID; b_View := view; b_Height := height; b_Batch := batch; b_Qc := qc;
      b_References := [] |}, txpool').
