(* ===== verification/Network.v ===== *)
(** * Package network: the codec, the sender and the receiver

    Models [src/network/codec.go], [src/network/network.go] and the goroutines
    of [src/core/transimtor.go] that connect them to the node.  A TCP connection
    carries a stream of gob values; which dials and writes fail is chosen by
    the environment.  Channels have the capacity the code gives them: a send on
    a full channel waits, so the step does not exist. *)
From S2P Require Import Prelude Sha256 Crypto Committee Pool Message Transmitor.

(** What can be on the wire: the registered types. *)
Inductive WireMsg := WMsg (m : ConsensusMessage) | WDocG (d : DocGQCMsg).

Definition wire_type (m : WireMsg) : Z := match m with WMsg m => MsgType m | WDocG _ => DocGQCType end.

(** A gob stream: type numbers and structs. *)
Inductive GobVal := GInt (z : Z) | GMsg (m : WireMsg).

Definition chan_cap : nat := 1000.

(** The keys of [DefaultMsgTypes]. *)
Definition DefaultMsgTypes : gset Z :=
  list_to_set [ProposeType; VoteType; FinVoteType; SpeedVoteType; ElectType; RandomCoinType; ReportType; DocGQCType].

(** ** Codec *)

(** How far a write gets before the connection breaks. *)
Inductive Written := WrittenAll | WrittenType | WrittenNone.

Definition Codec_Write (m : WireMsg) (w : Written) : list GobVal * option GoError :=
  match w with
  | WrittenAll => ([GInt (wire_type m); GMsg m], None)
  | WrittenType => ([GInt (wire_type m)], Some (ErrLib 120))
  | WrittenNone => ([], Some (ErrLib 120))
  end.

Section codec.
(** gob fills a struct of the type with the given number from what was sent. *)
Context (gob_decode : Z -> WireMsg -> Res WireMsg).

(** [None]: the stream has nothing more yet.  [reflect.New] panics on a type
    that is not registered. *)
Definition Codec_Read (types : gset Z) (stream : list GobVal) : option (Res (WireMsg * list GobVal)) :=
  match stream with
  | [] => None
  | GMsg _ :: _ => Some (Err (ErrLib 121))
  | GInt t :: rest =>
      if decide (t ∈ types) then
        match rest with
        | [] => None
        | GInt _ :: _ => Some (Err (ErrLib 121))
        | GMsg m :: rest => Some (m' ← gob_decode t m; Ok (m', rest))
        end
      else Some Panic
  end.
End codec.

(** ** Sender *)

(** A connection: its channel, whether its goroutine still runs, the stream. *)
Record Conn := { cn_ch : list WireMsg; cn_running : bool; cn_wire : list GobVal }.

(** [sn_cur] is the message that [Run] is handing out and the addresses left. *)
Record Sender := {
  sn_msgCh : list (WireMsg * list string);
  sn_cur : option (WireMsg * list string);
  sn_conns : gmap string Conn;
}.

Definition NewSender : Sender := {| sn_msgCh := []; sn_cur := None; sn_conns := ∅ |}.

Definition Sender_Send (s : Sender) (msg : WireMsg * list string) : option Sender :=
  if decide (length (sn_msgCh s) < chan_cap)%nat then
    Some {| sn_msgCh := sn_msgCh s ++ [msg]; sn_cur := sn_cur s; sn_conns := sn_conns s |}
  else None.

(** A new connection; [dial] tells whether the peer answers. *)
Definition connect (dial : bool) : option Conn :=
  if dial then Some {| cn_ch := []; cn_running := true; cn_wire := [] |} else None.

Definition push (c : Conn) (m : WireMsg) : Conn :=
  {| cn_ch := cn_ch c ++ [m]; cn_running := cn_running c; cn_wire := cn_wire c |}.

(** One step of [Run]; [None] when it waits. *)
Definition Sender_Run (dial : bool) (s : Sender) : option Sender :=
  match sn_cur s with
  | None =>
      match sn_msgCh s with
      | [] => None
      | msg :: rest => Some {| sn_msgCh := rest; sn_cur := Some msg; sn_conns := sn_conns s |}
      end
  | Some (_, []) => Some {| sn_msgCh := sn_msgCh s; sn_cur := None; sn_conns := sn_conns s |}
  | Some (m, addr :: rest) =>
      let next conns := {| sn_msgCh := sn_msgCh s; sn_cur := Some (m, rest); sn_conns := conns |} in
      match sn_conns s !! addr with
      | Some conn =>
          if decide (length (cn_ch conn) < chan_cap)%nat then Some (next (<[addr := push conn m]> (sn_conns s)))
          else None
      | None =>
          match connect dial with
          | None => Some (next (sn_conns s))
          | Some conn => Some (next (<[addr := push conn m]> (sn_conns s)))
          end
      end
  end.

(** One round of a connection's goroutine: it returns at the first error. *)
Definition connect_loop (w : Written) (c : Conn) : option Conn :=
  match cn_running c, cn_ch c with
  | true, m :: rest =>
      let '(vals, err) := Codec_Write m w in
      Some {| cn_ch := rest; cn_running := match err with None => true | Some _ => false end; cn_wire := cn_wire c ++ vals |}
  | _, _ => None
  end.

Inductive sender_step : Sender -> Sender -> Prop :=
| step_send s msg s' : Sender_Send s msg = Some s' -> sender_step s s'
| step_run dial s s' : Sender_Run dial s = Some s' -> sender_step s s'
| step_write w s addr c c' : sn_conns s !! addr = Some c -> connect_loop w c = Some c' ->
    sender_step s {| sn_msgCh := sn_msgCh s; sn_cur := sn_cur s; sn_conns := <[addr := c']> (sn_conns s) |}.

(** ** Receiver *)

(** The receive channel and, per accepted connection, what is left to read;
    a connection is dropped when its goroutine returns. *)
Record Receiver := { rv_msg : list WireMsg; rv_conns : gmap nat (list GobVal) }.

Definition NewReceiver : Receiver := {| rv_msg := []; rv_conns := ∅ |}.

(** One round of [serveConn]: reading a message and putting it into the channel
    are one step, which waits while the channel is full. *)
Definition serveConn (gob_decode : Z -> WireMsg -> Res WireMsg) (types : gset Z) (i : nat) (r : Receiver) : option (Res Receiver) :=
  stream ← rv_conns r !! i;
  match Codec_Read gob_decode types stream with
  | None => None
  | Some (Ok (m, rest)) =>
      if decide (length (rv_msg r) < chan_cap)%nat then
        Some (Ok {| rv_msg := rv_msg r ++ [m]; rv_conns := <[i := rest]> (rv_conns r) |})
      else None
  | Some (Err _) => Some (Ok {| rv_msg := rv_msg r; rv_conns := delete i (rv_conns r) |})
  | Some Panic => Some Panic
  end.

(** ** The transmitter's goroutines *)

(** The assertion [msg.(ConsensusMessage)]. *)
Definition as_ConsensusMessage (m : WireMsg) : Res ConsensusMessage :=
  match m with WMsg m => Ok m | WDocG _ => Panic end.

(** From the node to the sender, and from the receiver to the node; taking a
    message and passing it on are one step. *)
Definition forward_out (tr : Transmitor) (s : Sender) : option (Transmitor * Sender) :=
  match tr_msgCh tr with
  | [] => None
  | msg :: rest =>
      s' ← Sender_Send s (WMsg (nm_Msg msg), nm_Address msg);
      Some ({| tr_recvCh := tr_recvCh tr; tr_msgCh := rest; tr_committee := tr_committee tr |}, s')
  end.

Definition forward_in (tr : Transmitor) (r : Receiver) : option (Res (Transmitor * Receiver)) :=
  match rv_msg r with
  | [] => None
  | m :: rest =>
      match as_ConsensusMessage m with
      | Ok m' =>
          if decide (length (tr_recvCh tr) < chan_cap)%nat then
            Some (Ok (Transmitor_enqueue tr m', {| rv_msg := rest; rv_conns := rv_conns r |}))
          else None
      | _ => Some Panic
      end
  end.
