(* ===== verification/NetworkProps.v ===== *)
(** * Guarantees of the network layer *)
From S2P Require Import Prelude Sha256 Crypto Committee Pool Message Transmitor Network.

(** ** One connection from end to end

    The link from a sender to the receiver at address [a]: [lk_sent] is what the
    sender accepted, [lk_moved] how many values of the stream have arrived,
    [lk_got] what the receiver put into its channel, in order. *)

Definition conn_id : nat := 0.

Record Link := {
  lk_sender : Sender;
  lk_moved : nat;
  lk_recv : Receiver;
  lk_sent : list (WireMsg * list string);
  lk_got : list WireMsg;
}.

Definition wire_of (a : string) (s : Sender) : list GobVal :=
  match sn_conns s !! a with Some c => cn_wire c | None => [] end.

Definition stream_of (r : Receiver) : list GobVal := default [] (rv_conns r !! conn_id).

Section link.
Context (gob_decode : Z -> WireMsg -> Res WireMsg) (a : string).

Inductive link_step : Link -> Link -> Prop :=
| link_send k msg s' : Sender_Send (lk_sender k) msg = Some s' ->
    link_step k {| lk_sender := s'; lk_moved := lk_moved k; lk_recv := lk_recv k; lk_sent := lk_sent k ++ [msg];
                   lk_got := lk_got k |}
| link_run k dial s' : Sender_Run dial (lk_sender k) = Some s' ->
    link_step k {| lk_sender := s'; lk_moved := lk_moved k; lk_recv := lk_recv k; lk_sent := lk_sent k; lk_got := lk_got k |}
| link_write k w addr c c' : sn_conns (lk_sender k) !! addr = Some c -> connect_loop w c = Some c' ->
    link_step k {| lk_sender := {| sn_msgCh := sn_msgCh (lk_sender k); sn_cur := sn_cur (lk_sender k);
                                   sn_conns := <[addr := c']> (sn_conns (lk_sender k)) |};
                   lk_moved := lk_moved k; lk_recv := lk_recv k; lk_sent := lk_sent k; lk_got := lk_got k |}
| link_arrive k v : wire_of a (lk_sender k) !! lk_moved k = Some v ->
    link_step k {| lk_sender := lk_sender k; lk_moved := S (lk_moved k);
                   lk_recv := {| rv_msg := rv_msg (lk_recv k);
                                 rv_conns := <[conn_id := stream_of (lk_recv k) ++ [v]]> (rv_conns (lk_recv k)) |};
                   lk_sent := lk_sent k; lk_got := lk_got k |}
| link_serve k r' : serveConn gob_decode DefaultMsgTypes conn_id (lk_recv k) = Some (Ok r') ->
    link_step k {| lk_sender := lk_sender k; lk_moved := lk_moved k; lk_recv := r'; lk_sent := lk_sent k;
                   lk_got := lk_got k ++ drop (length (rv_msg (lk_recv k))) (rv_msg r') |}
| link_take k m rest : rv_msg (lk_recv k) = m :: rest ->
    link_step k {| lk_sender := lk_sender k; lk_moved := lk_moved k;
                   lk_recv := {| rv_msg := rest; rv_conns := rv_conns (lk_recv k) |}; lk_sent := lk_sent k;
                   lk_got := lk_got k |}.

Definition link_init : Link :=
  {| lk_sender := NewSender; lk_moved := 0; lk_recv := NewReceiver; lk_sent := []; lk_got := [] |}.

(** The messages addressed to [a], once per occurrence of the address. *)
Definition copies (m : WireMsg) (addrs : list string) : list WireMsg :=
  const m <$> filter (fun x => x = a) addrs.
Definition routed (msgs : list (WireMsg * list string)) : list WireMsg := concat ((fun x => copies x.1 x.2) <$> msgs).

Lemma copies_cons m x addrs : copies m (x :: addrs) = (if decide (x = a) then [m] else []) ++ copies m addrs.
Proof. unfold copies. rewrite filter_cons. by case_decide. Qed.
Lemma routed_app l1 l2 : routed (l1 ++ l2) = routed l1 ++ routed l2.
Proof. unfold routed. by rewrite fmap_app, concat_app. Qed.
Lemma routed_cons x l : routed (x :: l) = copies x.1 x.2 ++ routed l.
Proof. done. Qed.

(** What the sender has not handed out yet. *)
Definition pending (s : Sender) : list WireMsg :=
  match sn_cur s with Some (m, addrs) => copies m addrs | None => [] end ++ routed (sn_msgCh s).

(** Whole messages on the wire. *)
Definition frames (l : list WireMsg) : list GobVal := concat ((fun m => [GInt (wire_type m); GMsg m]) <$> l).

Lemma frames_app l1 l2 : frames (l1 ++ l2) = frames l1 ++ frames l2.
Proof. unfold frames. by rewrite fmap_app, concat_app. Qed.
Lemma frames_1 m : frames [m] = [GInt (wire_type m); GMsg m].
Proof. done. Qed.

(** A connection after [written] went out whole: nothing but a type number may
    follow, and then its goroutine has ended; [lost] is what it dropped. *)
Inductive conn_ok (written lost : list WireMsg) : option Conn -> Prop :=
| no_conn : written = [] -> lost = [] -> conn_ok written lost None
| conn_up c : cn_running c = true -> cn_wire c = frames written -> lost = [] -> conn_ok written lost (Some c)
| conn_down c partial : cn_running c = false -> cn_wire c = frames written ++ partial ->
    (partial = [] \/ exists t, partial = [GInt t] /\ t ∈ DefaultMsgTypes) -> conn_ok written lost (Some c).

Definition queued (o : option Conn) : list WireMsg := match o with Some c => cn_ch c | None => [] end.

Record link_inv (k : Link) : Prop := {
  li_sent : exists dropped written lost,
    routed (lk_sent k) = (dropped ++ written ++ lost ++ queued (sn_conns (lk_sender k) !! a)) ++ pending (lk_sender k) /\
    conn_ok written lost (sn_conns (lk_sender k) !! a);
  li_moved : (lk_moved k <= length (wire_of a (lk_sender k)))%nat;
  li_got : take (lk_moved k) (wire_of a (lk_sender k)) = frames (lk_got k) ++ stream_of (lk_recv k);
}.

Lemma wire_type_registered m : wire_type m ∈ DefaultMsgTypes.
Proof. destruct m as [[]|]; vm_decide. Qed.

Lemma pending_send s msg s' : Sender_Send s msg = Some s' ->
  pending s' = pending s ++ routed [msg] /\ sn_conns s' = sn_conns s.
Proof.
  unfold Sender_Send. case_decide; [|done]. intros [= <-]. unfold pending. simpl. by rewrite routed_app, app_assoc.
Qed.

(** A step of [Run] hands at most one message to the connection, or drops it. *)
Lemma run_cases dial s s' : Sender_Run dial s = Some s' ->
  (pending s' = pending s /\ sn_conns s' !! a = sn_conns s !! a) \/
  (exists m, pending s = m :: pending s' /\ sn_conns s !! a = None /\ sn_conns s' !! a = None) \/
  (exists m c, pending s = m :: pending s' /\ sn_conns s' !! a = Some (push c m) /\
     (sn_conns s !! a = Some c \/ (sn_conns s !! a = None /\ connect true = Some c))).
Proof.
  unfold Sender_Run, pending. destruct (sn_cur s) as [[m [|x addrs]]|] eqn:Ec.
  - intros [= <-]. left. done.
  - rewrite copies_cons. destruct (sn_conns s !! x) as [c|] eqn:Ex.
    + case_decide; [|done]. intros [= <-]. simpl. case_decide as E; subst.
      * right. right. exists m, c. rewrite lookup_insert_eq. auto.
      * left. by rewrite lookup_insert_ne.
    + destruct dial; simpl; intros [= <-]; simpl; case_decide as E; subst.
      * right. right. eexists m, _. rewrite lookup_insert_eq. auto.
      * left. by rewrite lookup_insert_ne.
      * right. left. by exists m.
      * by left.
  - destruct (sn_msgCh s) as [|[m addrs] rest] eqn:Em; [done|]. intros [= <-]. left. done.
Qed.

Lemma conn_ok_push written lost o c m :
  conn_ok written lost o -> o = Some c \/ (o = None /\ connect true = Some c) -> conn_ok written lost (Some (push c m)).
Proof.
  intros H [->|[-> [= <-]]]; inversion H; subst; [by apply conn_up|by eapply conn_down|by apply conn_up].
Qed.

Lemma wire_push c m : cn_wire (push c m) = cn_wire c.
Proof. done. Qed.

(** A write: the message goes out whole, or it is lost with the connection. *)
Lemma write_cases w c c' : connect_loop w c = Some c' ->
  exists m, cn_ch c = m :: cn_ch c' /\ cn_running c = true /\
    ((cn_running c' = true /\ cn_wire c' = cn_wire c ++ frames [m]) \/
     (cn_running c' = false /\ exists partial, cn_wire c' = cn_wire c ++ partial /\
        (partial = [] \/ exists t, partial = [GInt t] /\ t ∈ DefaultMsgTypes))).
Proof.
  unfold connect_loop. destruct (cn_running c) eqn:Er; [|done]. destruct (cn_ch c) as [|m rest] eqn:Ech; [done|].
  destruct w; simpl; intros [= <-]; exists m; simpl; (split_and!; [done..|]).
  - by left.
  - right. split; [done|]. eexists. split; [done|]. right. eauto using wire_type_registered.
  - right. split; [done|]. exists []. auto.
Qed.

Lemma conn_ok_write written lost w c c' rest :
  conn_ok written lost (Some c) -> connect_loop w c = Some c' ->
  exists written' lost' ext, conn_ok written' lost' (Some c') /\
    written ++ lost ++ cn_ch c ++ rest = written' ++ lost' ++ cn_ch c' ++ rest /\ cn_wire c' = cn_wire c ++ ext.
Proof.
  intros Hok (m & Ech & Er & Hw)%write_cases. rewrite Ech.
  inversion Hok as [|? _ Ew El|? partial Er2]; subst; [|congruence].
  destruct Hw as [[Er' Ew']|[Er' (partial & Ew' & Hp)]].
  - exists (written ++ [m]), [], (frames [m]). split_and!; [|by rewrite <- app_assoc|done].
    apply conn_up; [done| |done]. by rewrite Ew', Ew, frames_app.
  - exists written, [m], partial. split_and!; [|done|done]. eapply conn_down; [done|by rewrite Ew', Ew|done].
Qed.

(** *** Reading what was written *)

Lemma frames_prefix got st written partial :
  frames got ++ st `prefix_of` frames written ++ partial ->
  partial = [] \/ (exists t, partial = [GInt t] /\ t ∈ DefaultMsgTypes) ->
  exists rest, written = got ++ rest /\ st `prefix_of` frames rest ++ partial.
Proof.
  revert written. induction got as [|m got IH]; intros written Hp Hpart; [by exists written|].
  destruct written as [|m' written].
  - simpl in Hp. destruct Hp as [x E]. destruct Hpart as [->|(t & -> & _)]; done.
  - simpl in Hp. pose proof (prefix_cons_inv_2 _ _ _ _ Hp) as Hp1.
    pose proof (prefix_cons_inv_1 _ _ _ _ Hp1) as [= ->]. apply prefix_cons_inv_2 in Hp1.
    destruct (IH _ Hp1 Hpart) as (rest & -> & Hr). by exists rest.
Qed.

Context (gob_same : forall m, gob_decode (wire_type m) m = Ok m).

(** On the frames of messages the reader finds the next one or waits. *)
Lemma Codec_Read_frames st rest partial :
  st `prefix_of` frames rest ++ partial -> partial = [] \/ (exists t, partial = [GInt t] /\ t ∈ DefaultMsgTypes) ->
  Codec_Read gob_decode DefaultMsgTypes st = None \/
  exists m st', Codec_Read gob_decode DefaultMsgTypes st = Some (Ok (m, st')) /\ st = frames [m] ++ st'.
Proof.
  intros Hp Hpart. destruct st as [|v st]; [by left|]. destruct rest as [|m rest].
  - simpl in Hp. destruct Hpart as [->|(t & -> & Ht)]; [by apply prefix_nil_not in Hp|].
    destruct Hp as [x E]. injection E as <- E. destruct st; [|done]. left. simpl. by rewrite decide_True.
  - simpl in Hp. pose proof (prefix_cons_inv_1 _ _ _ _ Hp) as ->. apply prefix_cons_inv_2 in Hp. simpl.
    rewrite decide_True by apply wire_type_registered. destruct st as [|v st]; [by left|].
    pose proof (prefix_cons_inv_1 _ _ _ _ Hp) as ->. right. exists m, st. rewrite gob_same. done.
Qed.

(** *** The invariant *)

Lemma moved_ext k ext : (lk_moved k <= length (wire_of a (lk_sender k)))%nat ->
  take (lk_moved k) (wire_of a (lk_sender k) ++ ext) = take (lk_moved k) (wire_of a (lk_sender k)).
Proof. intros H. by rewrite take_app_le. Qed.

(** Steps of the sender extend the stream. *)
Lemma link_inv_sender k s' sent' :
  link_inv k ->
  (exists dropped written lost,
    routed sent' = (dropped ++ written ++ lost ++ queued (sn_conns s' !! a)) ++ pending s' /\
    conn_ok written lost (sn_conns s' !! a)) ->
  (exists ext, wire_of a s' = wire_of a (lk_sender k) ++ ext) ->
  link_inv {| lk_sender := s'; lk_moved := lk_moved k; lk_recv := lk_recv k; lk_sent := sent'; lk_got := lk_got k |}.
Proof.
  intros [_ Hm Hg] Hs [ext E]. split; simpl; [done| |].
  - rewrite E, length_app. lia.
  - by rewrite E, moved_ext.
Qed.

Lemma link_inv_run k dial s' : link_inv k -> Sender_Run dial (lk_sender k) = Some s' ->
  link_inv {| lk_sender := s'; lk_moved := lk_moved k; lk_recv := lk_recv k; lk_sent := lk_sent k; lk_got := lk_got k |}.
Proof.
  intros HI Hr. apply link_inv_sender; [done|..]; destruct (li_sent _ HI) as (dr & wr & lo & E & Hok);
    apply run_cases in Hr as [[Ep Ec]|[(m & Ep & Ec & Ec')|(m & c & Ep & Ec & Ho)]].
  - exists dr, wr, lo. by rewrite Ep, Ec.
  - exists (dr ++ [m]), wr, lo. rewrite Ec' in *. rewrite Ec in *. inversion Hok; subst. simpl in *.
    rewrite E, Ep, !app_nil_r, <- app_assoc. done.
  - exists dr, wr, lo. rewrite Ec. split; [|by eapply conn_ok_push].
    rewrite E, Ep. simpl. destruct Ho as [->|[-> [= <-]]]; simpl; rewrite <- !app_assoc; done.
  - exists []. unfold wire_of. by rewrite Ec, app_nil_r.
  - exists []. unfold wire_of. by rewrite Ec, Ec'.
  - exists []. unfold wire_of. rewrite Ec, app_nil_r. destruct Ho as [->|[-> [= <-]]]; done.
Qed.

Lemma link_inv_write k w addr c c' : link_inv k -> sn_conns (lk_sender k) !! addr = Some c -> connect_loop w c = Some c' ->
  link_inv {| lk_sender := {| sn_msgCh := sn_msgCh (lk_sender k); sn_cur := sn_cur (lk_sender k);
                              sn_conns := <[addr := c']> (sn_conns (lk_sender k)) |};
              lk_moved := lk_moved k; lk_recv := lk_recv k; lk_sent := lk_sent k; lk_got := lk_got k |}.
Proof.
  intros HI Hc Hw. destruct (li_sent _ HI) as (dr & wr & lo & E & Hok). destruct (decide (addr = a)) as [->|Hne].
  - rewrite Hc in *. destruct (conn_ok_write wr lo w c c' [] Hok Hw) as (wr' & lo' & ext & Hok' & Eq & Ew).
    apply link_inv_sender; [done|..]; unfold wire_of; simpl; rewrite ?lookup_insert_eq.
    + exists dr, wr', lo'. split; [|done]. rewrite E. simpl. rewrite !app_nil_r in Eq. by rewrite Eq.
    + exists ext. by rewrite Hc, Ew.
  - apply link_inv_sender; [done|..]; unfold wire_of; simpl; rewrite ?lookup_insert_ne by done.
    + by exists dr, wr, lo.
    + exists []. by rewrite app_nil_r.
Qed.

(** What has arrived is a run of whole messages, then part of the next. *)
Lemma link_stream k : link_inv k -> exists dropped written partial lost rest,
  routed (lk_sent k) = (dropped ++ written ++ lost ++ queued (sn_conns (lk_sender k) !! a)) ++ pending (lk_sender k) /\
  conn_ok written lost (sn_conns (lk_sender k) !! a) /\ wire_of a (lk_sender k) = frames written ++ partial /\
  (partial = [] \/ exists t, partial = [GInt t] /\ t ∈ DefaultMsgTypes) /\
  written = lk_got k ++ rest /\ stream_of (lk_recv k) `prefix_of` frames rest ++ partial.
Proof.
  intros [(dr & wr & lo & E0 & Hok) _ Hg].
  assert (exists partial, wire_of a (lk_sender k) = frames wr ++ partial /\
    (partial = [] \/ exists t, partial = [GInt t] /\ t ∈ DefaultMsgTypes)) as (partial & Ew & Hp).
  { unfold wire_of. inversion Hok as [-> _ E|c _ Ew _ E|c partial _ Ew Hp E].
    - exists []. auto.
    - exists []. rewrite Ew, app_nil_r. auto.
    - eauto. }
  destruct (frames_prefix (lk_got k) (stream_of (lk_recv k)) wr partial) as (rest & -> & Hr); [|done|].
  - rewrite <- Hg, <- Ew. apply prefix_take.
  - exists dr, (lk_got k ++ rest), partial, lo, rest. split_and!; done.
Qed.

Lemma link_read k : link_inv k ->
  serveConn gob_decode DefaultMsgTypes conn_id (lk_recv k) <> Some Panic /\
  forall r', serveConn gob_decode DefaultMsgTypes conn_id (lk_recv k) = Some (Ok r') ->
  exists m, rv_msg r' = rv_msg (lk_recv k) ++ [m] /\ stream_of (lk_recv k) = frames [m] ++ stream_of r'.
Proof.
  intros HI. destruct (link_stream k HI) as (dr & wr & partial & lo & rest & _ & _ & _ & Hp & _ & Hs).
  unfold serveConn, stream_of in *. destruct (rv_conns (lk_recv k) !! conn_id) as [st|] eqn:Ec; [|done]. simpl in *.
  destruct (Codec_Read_frames st rest partial Hs Hp) as [->|(m & st' & -> & Est)]; [done|].
  case_decide; [|done]. split; [done|]. intros r' [= <-]. exists m. simpl. by rewrite lookup_insert_eq.
Qed.

Lemma link_inv_step k k' : link_inv k -> link_step k k' -> link_inv k'.
Proof.
  intros HI Hs. destruct Hs as [k msg s' Hs|k dial s' Hs|k w addr c c' Hc Hw|k v Hv|k r' Hr|k m rest Hm].
  - apply pending_send in Hs as [Ep Ec]. apply link_inv_sender; [done|..].
    + destruct (li_sent _ HI) as (dr & wr & lo & E & Hok). exists dr, wr, lo. rewrite Ec. split; [|done].
      by rewrite routed_app, E, Ep, <- !app_assoc.
    + exists []. unfold wire_of. by rewrite Ec, app_nil_r.
  - by eapply link_inv_run.
  - by eapply link_inv_write.
  - destruct HI as [Hs Hm Hg]. pose proof (lookup_lt_Some _ _ _ Hv). split; simpl; [done|lia|].
    rewrite (take_S_r _ _ v) by done. rewrite Hg. unfold stream_of at 2. simpl. rewrite lookup_insert_eq. simpl.
    by rewrite app_assoc.
  - destruct (link_read k HI) as [_ Hrd]. destruct (Hrd _ Hr) as (m & Em & Est). destruct HI as [Hs Hm Hg].
    split; simpl; [done..|]. rewrite Em, drop_app_length, frames_app, <- app_assoc, <- Est. done.
  - by destruct HI; split.
Qed.

Lemma link_reachable k : rtc link_step link_init k -> link_inv k.
Proof.
  intros H. assert (link_inv link_init) as H0.
  { split; simpl; [|done|done]. exists [], [], []. split; [done|]. by apply no_conn. }
  revert H0. induction H; eauto using link_inv_step.
Qed.
End link.

(** C17. Messages arrive in order: what the receiver at an address has put into
    its channel from a connection is a run without gaps or repetitions of what
    was sent to that address, the reader never crashes on it, and while the
    connection's goroutine runs nothing of the run is lost: what is missing at
    the end waits in the stream or in the connection's channel. *)
Theorem network_fifo gob_decode a k :
  (forall m, gob_decode (wire_type m) m = Ok m) -> rtc (link_step gob_decode a) link_init k ->
  serveConn gob_decode DefaultMsgTypes conn_id (lk_recv k) <> Some Panic /\
  (exists dropped rest, routed a (lk_sent k) = dropped ++ lk_got k ++ rest) /\
  forall c, sn_conns (lk_sender k) !! a = Some c -> cn_running c = true ->
    exists dropped unread, cn_wire c = frames (lk_got k ++ unread) /\
      routed a (lk_sent k) = dropped ++ lk_got k ++ unread ++ cn_ch c ++ pending a (lk_sender k).
Proof.
  intros Hg Hr%link_reachable; [|done]. split; [by eapply link_read|].
  destruct (link_stream a k Hr) as (dr & wr & partial & lo & rest & E & Hok & Ew & Hp & -> & Hs). split.
  - exists dr, (rest ++ lo ++ queued (sn_conns (lk_sender k) !! a) ++ pending a (lk_sender k)).
    rewrite E, <- !app_assoc. done.
  - intros c Hc Hrun. unfold wire_of in Ew. rewrite Hc in *. inversion Hok as [|? _ Ew' El|? ? Hf]; subst; [|congruence].
    exists dr, rest. split; [done|]. rewrite E. simpl. by rewrite <- !app_assoc.
Qed.

(** ** A dead connection *)

(** [Run] is handing a message to a full channel that nobody empties. *)
Definition stuck (a : string) (s : Sender) : Prop :=
  exists m rest c, sn_cur s = Some (m, a :: rest) /\ sn_conns s !! a = Some c /\ cn_running c = false /\
    length (cn_ch c) = chan_cap.

Lemma stuck_step a s s' : stuck a s -> sender_step s s' ->
  stuck a s' /\ sn_cur s' = sn_cur s /\
  forall b c', sn_conns s' !! b = Some c' -> exists c, sn_conns s !! b = Some c /\ cn_ch c' `suffix_of` cn_ch c.
Proof.
  intros (m & rest & c & Ecur & Ec & Er & El) Hs. destruct Hs as [s msg s' Hs|dial s s' Hs|w s addr c1 c2 Hc Hw].
  - unfold Sender_Send in Hs. case_decide; simplify_eq/=. split_and!; [by exists m, rest, c|done|]. intros b c' Hb. by exists c'.
  - unfold Sender_Run in Hs. rewrite Ecur, Ec in Hs. rewrite decide_False in Hs by lia. done.
  - apply write_cases in Hw as (m' & Ech & Er' & _). assert (addr <> a) as Hne by congruence. split_and!; [|done|].
    + exists m, rest, c. simpl. by rewrite lookup_insert_ne.
    + simpl. intros b c' Hb. destruct (decide (b = addr)) as [->|Hb'].
      * rewrite lookup_insert_eq in Hb. simplify_eq. exists c1. split; [done|]. rewrite Ech. by apply suffix_cons_r.
      * rewrite lookup_insert_ne in Hb by done. by exists c'.
Qed.

Lemma stuck_forever a s s' : stuck a s -> rtc sender_step s s' ->
  stuck a s' /\ sn_cur s' = sn_cur s /\
  forall b c', sn_conns s' !! b = Some c' -> exists c, sn_conns s !! b = Some c /\ cn_ch c' `suffix_of` cn_ch c.
Proof.
  intros Hst Hr. induction Hr as [s|s s1 s' H1 _ IH].
  { split_and!; [done..|]. intros b c' Hb. by exists c'. }
  destruct (stuck_step a s s1 Hst H1) as (Hst1 & E1 & Hc1). destruct (IH Hst1) as (Hst2 & E2 & Hc2).
  split_and!; [done|congruence|]. intros b c' Hb. destruct (Hc2 b c' Hb) as (c1 & Hb1 & Hs1). destruct (Hc1 b c1 Hb1) as (c & Hb0 & Hs0).
  exists c. split; [done|]. by etrans.
Qed.

(** No channel of a connection holds more than its capacity. *)
Definition chans_ok (s : Sender) : Prop := map_Forall (fun _ c => (length (cn_ch c) <= chan_cap)%nat) (sn_conns s).

Lemma chans_ok_step s s' : chans_ok s -> sender_step s s' -> chans_ok s'.
Proof.
  intros HI Hs. destruct Hs as [s msg s' Hs|dial s s' Hs|w s addr c1 c2 Hc Hw].
  - unfold Sender_Send in Hs. case_decide; by simplify_eq/=.
  - unfold Sender_Run in Hs. destruct (sn_cur s) as [[m [|addr rest]]|]; [by simplify_eq/=| |].
    2: by destruct (sn_msgCh s); simplify_eq/=.
    destruct (sn_conns s !! addr) as [conn|] eqn:E.
    + case_decide; simplify_eq/=. apply map_Forall_insert_2; [|done]. simpl. rewrite length_app. simpl. lia.
    + destruct dial; simplify_eq/=; [|done]. apply map_Forall_insert_2; [|done]. simpl. unfold chan_cap. lia.
  - apply write_cases in Hw as (m & Ech & _). simpl. apply map_Forall_insert_2; [|done].
    pose proof (HI _ _ Hc) as H. simpl in H. rewrite Ech in H. simpl in H. lia.
Qed.

Lemma chans_ok_steps s s' : chans_ok s -> rtc sender_step s s' -> chans_ok s'.
Proof. intros H Hr. induction Hr; eauto using chans_ok_step. Qed.

(** The connection to [a] broke when it held [c0]. *)
Definition broken (a : string) (c0 : Conn) (s : Sender) : Prop :=
  exists c, sn_conns s !! a = Some c /\ cn_running c = false /\ cn_wire c = cn_wire c0 /\ cn_ch c0 `prefix_of` cn_ch c.

Lemma broken_step a c0 s s' : broken a c0 s -> sender_step s s' -> broken a c0 s'.
Proof.
  intros (c & Ec & Er & Ew & Hp) Hs. destruct Hs as [s msg s' Hs|dial s s' Hs|w s addr c1 c2 Hc Hw].
  - unfold Sender_Send in Hs. case_decide; simplify_eq/=. by exists c.
  - unfold Sender_Run in Hs. destruct (sn_cur s) as [[m [|addr rest]]|]; [simplify_eq/=; by exists c| |].
    2: destruct (sn_msgCh s); simplify_eq/=; by exists c.
    destruct (decide (addr = a)) as [->|Hne].
    + rewrite Ec in Hs. case_decide; simplify_eq/=. exists (push c m). split; [apply lookup_insert_eq|].
      split_and!; [done..|]. simpl. by apply prefix_app_r.
    + assert (forall x, broken a c0 {| sn_msgCh := sn_msgCh s; sn_cur := Some (m, rest); sn_conns := <[addr := x]> (sn_conns s) |}) as Hb
        by (intros x; exists c; simpl; by rewrite lookup_insert_ne).
      destruct (sn_conns s !! addr); [case_decide; simplify_eq; apply Hb|].
      destruct dial; simplify_eq/=; [apply Hb|by exists c].
  - apply write_cases in Hw as (m & Ech & Er' & _). exists c. simpl. rewrite lookup_insert_ne by congruence. done.
Qed.

Lemma broken_steps a c0 s s' : broken a c0 s -> rtc sender_step s s' -> broken a c0 s'.
Proof. intros H Hr. induction Hr; eauto using broken_step. Qed.

Lemma stuck_waits a s dial : stuck a s -> Sender_Run dial s = None.
Proof. intros (m & rest & c & Ecur & Ec & _ & El). unfold Sender_Run. rewrite Ecur, Ec. by rewrite decide_False by lia. Qed.

(** Messages for a peer, one after the other, until its channel is full. *)
Lemma fill_channel a m k s c :
  sn_cur s = None -> sn_msgCh s = [] -> sn_conns s !! a = Some c -> (length (cn_ch c) + k = chan_cap)%nat ->
  exists s' c', rtc sender_step s s' /\ sn_cur s' = Some (m, [a]) /\ sn_conns s' !! a = Some c' /\
    length (cn_ch c') = chan_cap.
Proof.
  revert s c. induction k as [|k IH]; intros [msgs cur conns] c Ecur Em Ec El; simpl in *; subst.
  all: assert (rtc sender_step {| sn_msgCh := []; sn_cur := None; sn_conns := conns |}
    {| sn_msgCh := []; sn_cur := Some (m, [a]); sn_conns := conns |}) as Hh
    by (eapply rtc_l; [by apply (step_send _ (m, [a]))|]; eapply rtc_l; [by apply (step_run true)|done]).
  - eexists _, c. split; [exact Hh|]. split_and!; [done..|]. lia.
  - destruct (IH {| sn_msgCh := []; sn_cur := None; sn_conns := <[a := push c m]> conns |} (push c m)) as (s' & c' & R & H);
      [done|done|apply lookup_insert_eq|simpl; rewrite length_app; simpl; lia|].
    exists s', c'. split; [|exact H]. etrans; [exact Hh|]. eapply rtc_l.
    { apply (step_run true). unfold Sender_Run. simpl. rewrite Ec, decide_True by lia. reflexivity. }
    eapply rtc_l; [by apply (step_run true)|exact R].
Qed.

(** C34. One broken connection silences a node.  Let a write to peer [a] fail in
    any state a sender can reach.  In every continuation the connection stays
    dead: it is never dialled again, nothing more is written to it, and its
    channel is never emptied and takes at most a thousand messages.  Once it
    holds a thousand and [Run] is at a message for [a], the sender hangs for
    ever: [Run] never moves again, and no connection, to whatever other peer,
    gets a message that was not already in its own channel.  And sending to [a]
    does lead there. *)
Theorem dead_peer_silences (a : string) w s c c0 :
  rtc sender_step NewSender s -> sn_conns s !! a = Some c -> connect_loop w c = Some c0 -> w <> WrittenAll ->
  let s0 := {| sn_msgCh := sn_msgCh s; sn_cur := sn_cur s; sn_conns := <[a := c0]> (sn_conns s) |} in
  (forall s1, rtc sender_step s0 s1 -> exists c1,
     sn_conns s1 !! a = Some c1 /\ cn_running c1 = false /\ cn_wire c1 = cn_wire c0 /\
     cn_ch c0 `prefix_of` cn_ch c1 /\ (length (cn_ch c1) <= 1000)%nat /\
     (length (cn_ch c1) = 1000%nat -> forall m rest, sn_cur s1 = Some (m, a :: rest) ->
      forall s2, rtc sender_step s1 s2 ->
        sn_cur s2 = Some (m, a :: rest) /\ (forall dial, Sender_Run dial s2 = None) /\
        forall b cb, sn_conns s2 !! b = Some cb ->
          exists cb1, sn_conns s1 !! b = Some cb1 /\ cn_ch cb `suffix_of` cn_ch cb1)) /\
  (sn_cur s = None -> sn_msgCh s = [] -> forall m, exists s1 c1,
     rtc sender_step s0 s1 /\ sn_cur s1 = Some (m, [a]) /\ sn_conns s1 !! a = Some c1 /\ length (cn_ch c1) = 1000%nat).
Proof.
  intros Hs Hc Hw Hf s0.
  assert (chans_ok s0) as H0.
  { apply (chans_ok_step s); [|by eapply step_write].
    apply (chans_ok_steps NewSender); [apply map_Forall_empty|done]. }
  assert (broken a c0 s0) as Hb.
  { exists c0. unfold s0. simpl. rewrite lookup_insert_eq. split_and!; try done. revert Hw. unfold connect_loop.
    destruct (cn_running c), (cn_ch c); try done. by destruct w; intros [= <-]. }
  split.
  - intros s1 Hr1. destruct (broken_steps _ _ _ _ Hb Hr1) as (c1 & E1 & R1 & W1 & P1). exists c1.
    pose proof (chans_ok_steps _ _ H0 Hr1 _ _ E1) as L1. split_and!; try done. intros Hl m rest Ecur s2 Hr2.
    assert (stuck a s1) as Hst by (by exists m, rest, c1).
    destruct (stuck_forever a s1 s2 Hst Hr2) as (Hst2 & Ecur2 & Hsuf).
    split_and!; [by rewrite Ecur2|intros dial; by apply (stuck_waits a)|exact Hsuf].
  - intros Ecur Em m. assert (length (cn_ch c0) <= chan_cap)%nat as Hl by (apply (H0 a); apply lookup_insert_eq).
    destruct (fill_channel a m (chan_cap - length (cn_ch c0)) s0 c0) as (s1 & c1 & R1 & E1 & I1 & L1);
      [done|done|apply lookup_insert_eq|lia|]. by exists s1, c1.
Qed.

(** ** What crashes the receiving goroutines *)

(** C35. When the goroutines between a connection and the main loop panic, which
    ends the process.  A step of [serveConn] panics exactly when the next value
    of its connection is a type number that is not registered, whatever follows
    it; a step of the transmitter's forwarding goroutine panics exactly when the
    next received message is a [DocGQCMsg], which is registered but is not a
    consensus message; gob decoding itself is taken not to panic.  Neither
    goroutine looks at signatures.  (What the
    handlers of the main loop and of the instances panic on is proved where they
    are.) *)
Theorem received_values_panic gob_decode types i (r : Receiver) (tr : Transmitor) :
  (forall t m, gob_decode t m <> Panic) ->
  (serveConn gob_decode types i r = Some Panic <->
   exists t rest, rv_conns r !! i = Some (GInt t :: rest) /\ t ∉ types) /\
  (forward_in tr r = Some Panic <-> exists d rest, rv_msg r = WDocG d :: rest).
Proof.
  intros Hg. split.
  - unfold serveConn. destruct (rv_conns r !! i) as [[|[t|m] rest]|]; simpl; [naive_solver| |naive_solver..].
    case_decide as Ht; [|naive_solver]. destruct rest as [|[z|m] rest]; [naive_solver..|].
    pose proof (Hg t m). destruct (gob_decode t m); simpl; [case_decide|..]; naive_solver.
  - unfold forward_in. destruct (rv_msg r) as [|[m|d] rest]; simpl; [naive_solver| |naive_solver].
    case_decide; naive_solver.
Qed.

(** ** Concrete executions *)

Module NetDemo.
Definition gob (t : Z) (m : WireMsg) : Res WireMsg := if decide (t = wire_type m) then Ok m else Err (ErrLib 122).
Definition elect : WireMsg := WMsg (MElect {| e_Author := 1; e_View := 0; e_SigShare := {| PartialSig := [] |} |}).
Definition addr : string := "127.0.0.1:9001".

(** The message goes all the way. *)
Definition k1 : Link := {|
  lk_sender := default NewSender (Sender_Send NewSender (elect, [addr])); lk_moved := 0; lk_recv := NewReceiver;
  lk_sent := [(elect, [addr])]; lk_got := [] |}.
Definition run (k : Link) : Link := {|
  lk_sender := default NewSender (Sender_Run true (lk_sender k)); lk_moved := lk_moved k; lk_recv := lk_recv k;
  lk_sent := lk_sent k; lk_got := lk_got k |}.
Definition write (k : Link) : Link := {|
  lk_sender := {| sn_msgCh := sn_msgCh (lk_sender k); sn_cur := sn_cur (lk_sender k);
    sn_conns := <[addr := {| cn_ch := []; cn_running := true; cn_wire := frames [elect] |}]> (sn_conns (lk_sender k)) |};
  lk_moved := lk_moved k; lk_recv := lk_recv k; lk_sent := lk_sent k; lk_got := lk_got k |}.
Definition arrive (v : GobVal) (k : Link) : Link := {|
  lk_sender := lk_sender k; lk_moved := S (lk_moved k);
  lk_recv := {| rv_msg := rv_msg (lk_recv k);
                rv_conns := <[conn_id := stream_of (lk_recv k) ++ [v]]> (rv_conns (lk_recv k)) |};
  lk_sent := lk_sent k; lk_got := lk_got k |}.
Definition k2 : Link := arrive (GMsg elect) (arrive (GInt ElectType) (write (run (run k1)))).
Definition k3 : Link := {|
  lk_sender := lk_sender k2; lk_moved := lk_moved k2;
  lk_recv := {| rv_msg := [elect]; rv_conns := <[conn_id := []]> (rv_conns (lk_recv k2)) |};
  lk_sent := lk_sent k2; lk_got := [elect] |}.

(** A sender with two peers, a message for each in its channel. *)
Definition peer : string := "127.0.0.1:9002".
Definition waiting : Conn := {| cn_ch := [elect]; cn_running := true; cn_wire := [] |}.
Definition two : Sender := {| sn_msgCh := []; sn_cur := None; sn_conns := <[peer := waiting]> {[addr := waiting]} |}.
Definition broke : Conn := {| cn_ch := []; cn_running := false; cn_wire := [] |}.
Definition half : Sender := {| sn_msgCh := []; sn_cur := None; sn_conns := <[addr := broke]> (sn_conns two) |}.
End NetDemo.

Lemma two_reachable : rtc sender_step NewSender NetDemo.two.
Proof.
  eapply rtc_l; [by apply (step_send _ (NetDemo.elect, [NetDemo.addr; NetDemo.peer]))|].
  do 3 (eapply rtc_l; [by apply (step_run true)|]). apply rtc_once. by apply (step_run true).
Qed.

Lemma demo_delivered : rtc (link_step NetDemo.gob NetDemo.addr) link_init NetDemo.k3.
Proof.
  eapply rtc_l; [by apply (link_send _ _ link_init (NetDemo.elect, [NetDemo.addr]))|].
  eapply rtc_l; [by apply (link_run _ _ NetDemo.k1 true)|].
  eapply rtc_l; [by apply (link_run _ _ (NetDemo.run NetDemo.k1) true)|].
  eapply rtc_l; [by eapply (link_write _ _ (NetDemo.run (NetDemo.run NetDemo.k1)) WrittenAll NetDemo.addr)|].
  eapply rtc_l; [by apply (link_arrive _ _ (NetDemo.write (NetDemo.run (NetDemo.run NetDemo.k1))) (GInt ElectType))|].
  eapply rtc_l; [by apply (link_arrive _ _ (NetDemo.arrive (GInt ElectType)
    (NetDemo.write (NetDemo.run (NetDemo.run NetDemo.k1)))) (GMsg NetDemo.elect))|].
  apply rtc_once. by apply (link_serve NetDemo.gob NetDemo.addr NetDemo.k2).
Qed.

Lemma network_fifo_witness :
  exists dropped rest, routed NetDemo.addr [(NetDemo.elect, [NetDemo.addr])] = dropped ++ [NetDemo.elect] ++ rest.
Proof.
  refine (proj1 (proj2 (network_fifo NetDemo.gob NetDemo.addr NetDemo.k3 _ demo_delivered))).
  intros m. unfold NetDemo.gob. by rewrite decide_True.
Defined.

Lemma received_values_panic_witness :
  serveConn NetDemo.gob DefaultMsgTypes 0 {| rv_msg := []; rv_conns := {[0%nat := [GInt 99]]} |} = Some Panic.
Proof.
  apply (received_values_panic NetDemo.gob DefaultMsgTypes 0 _ (NewTransmitor (demo_committee 4))).
  - intros t m. unfold NetDemo.gob. by case_decide.
  - exists 99, []. split; [reflexivity|vm_decide].
Defined.

(** The write to [addr] fails while [peer] is alive: the sender comes to hang. *)
Lemma dead_peer_silences_witness :
  sn_conns NetDemo.half !! NetDemo.peer = Some NetDemo.waiting /\
  exists s1 c1, rtc sender_step NetDemo.half s1 /\ sn_conns s1 !! NetDemo.addr = Some c1 /\
    length (cn_ch c1) = 1000%nat /\ cn_running c1 = false /\ Sender_Run true s1 = None.
Proof.
  split; [reflexivity|].
  destruct (dead_peer_silences NetDemo.addr WrittenNone NetDemo.two NetDemo.waiting NetDemo.broke two_reachable
    eq_refl eq_refl ltac:(discriminate)) as [H1 H2].
  destruct (H2 eq_refl eq_refl NetDemo.elect) as (s1 & c1 & R & Ecur & Ec & El).
  destruct (H1 s1 R) as (c1' & Ec' & Er & _ & _ & _ & Hh). rewrite Ec in Ec'. injection Ec' as <-.
  exists s1, c1. split; [exact R|]. split; [exact Ec|]. split; [exact El|]. split; [exact Er|].
  exact (proj1 (proj2 (Hh El NetDemo.elect [] Ecur s1 (rtc_refl _ s1))) true).
Defined.
