(* ===== verification/Spb.v ===== *)
(** * Strong provable broadcast, lean variant

    Models [src/core/spb.go].  The methods run in goroutines that interleave
    with each other and with the main loop, so each method is cut where it
    releases a lock or finishes an atomic operation: a task is one such
    piece, and a piece that has more to do spawns the next one.  A schedule of
    tasks is then any interleaving of the goroutines of an instance. *)
From S2P Require Import Prelude Sha256 Crypto Committee Pool Message Transmitor.

Record SPB := {
  s_Proposer : NodeID;
  s_View : Z;
  s_preQc : option BlockQC;
  s_blockHash : Digest * Digest;
  s_blockQcs : option BlockQC * option BlockQC;
  s_unHandlePropose : list ProposeMsg;
  s_unHandleFinVote : list FinVoteMsg;
  s_voteNums : Z * Z;
  s_speedVoteNums : Z;
  s_isSpeedCert : bool;
}.

Definition NewSPB (Proposer : NodeID) (View : Z) : SPB := {|
  s_Proposer := Proposer; s_View := View; s_preQc := None; s_blockHash := (Digest_zero, Digest_zero);
  s_blockQcs := (None, None); s_unHandlePropose := []; s_unHandleFinVote := []; s_voteNums := (0, 0);
  s_speedVoteNums := 0; s_isSpeedCert := false;
|}.

(** The pieces of the methods. *)
Inductive SpbTask : Type :=
| TPropose (p : ProposeMsg)
| TProposeFlush (p : ProposeMsg)
| TProposeVote (p : ProposeMsg)
| TVote (v : VoteMsg)
| TVoteQC (v : VoteMsg)
| TFinVote (fv : FinVoteMsg)
| TFinVoteSpeed (qc : BlockQC)
| TSpeedVote (sv : SpeedVoteMsg)
| TSpeedStore.

(** What an instance reads of its [corer]. *)
Record SpbEnv `{Prims} := { env_nodeID : NodeID; env_committee : Committee; env_sigService : SigService }.

Section spb.
Context `{P : Prims} (env : SpbEnv).

(** An instance and the pool of its node. *)
Record SpbSt := { st_spb : SPB; st_pool : Pool }.

Definition SpbM := GoM SpbSt (Eff SpbTask).

Definition on_spb (f : SPB -> SPB) : SpbM unit :=
  modify (fun st => {| st_spb := f (st_spb st); st_pool := st_pool st |}).

(** *** processProposeMsg *)

Definition set_height1 (B : Block) (s : SPB) : SPB := {|
  s_Proposer := s_Proposer s; s_View := s_View s; s_preQc := b_Qc B;
  s_blockHash := set2 (s_blockHash s) HEIGHT_1 (Block_Hash B); s_blockQcs := s_blockQcs s;
  s_unHandlePropose := s_unHandlePropose s; s_unHandleFinVote := s_unHandleFinVote s;
  s_voteNums := s_voteNums s; s_speedVoteNums := s_speedVoteNums s; s_isSpeedCert := s_isSpeedCert s;
|}.

Definition set_height2 (B : Block) (s : SPB) : SPB := {|
  s_Proposer := s_Proposer s; s_View := s_View s; s_preQc := s_preQc s;
  s_blockHash := set2 (s_blockHash s) HEIGHT_2 (Block_Hash B);
  s_blockQcs := set2 (s_blockQcs s) HEIGHT_1 (b_Qc B);
  s_unHandlePropose := s_unHandlePropose s; s_unHandleFinVote := s_unHandleFinVote s;
  s_voteNums := s_voteNums s; s_speedVoteNums := s_speedVoteNums s; s_isSpeedCert := s_isSpeedCert s;
|}.

Definition keep_propose (p : ProposeMsg) (s : SPB) : SPB := {|
  s_Proposer := s_Proposer s; s_View := s_View s; s_preQc := s_preQc s; s_blockHash := s_blockHash s;
  s_blockQcs := s_blockQcs s; s_unHandlePropose := s_unHandlePropose s ++ [p];
  s_unHandleFinVote := s_unHandleFinVote s; s_voteNums := s_voteNums s;
  s_speedVoteNums := s_speedVoteNums s; s_isSpeedCert := s_isSpeedCert s;
|}.

(** Under [hMutex]; the goroutine that keeps the message ends there. *)
Definition processProposeMsg (p : ProposeMsg) : SpbM unit :=
  match p_B p with
  | None => panic
  | Some B =>
      if decide (p_Height p = HEIGHT_1) then
        _ ← on_spb (set_height1 B);
        emit (Spawn (TProposeFlush p))
      else if decide (p_Height p = HEIGHT_2) then
        match b_Qc B with
        | None => panic
        | Some qc =>
            st ← get;
            if decide ((s_blockHash (st_spb st)).1 <> qc_ParentBlockHash qc) then
              on_spb (keep_propose p)
            else
              _ ← on_spb (set_height2 B);
              emit (Spawn (TProposeFlush p))
        end
      else emit (Spawn (TProposeVote p))
  end.

(** Under [uMutex]: the kept messages are started again, and stay kept. *)
Definition processProposeMsg_flush (p : ProposeMsg) : SpbM unit :=
  st ← get;
  _ ← (if decide (p_Height p = HEIGHT_1) then
         emit_all (Spawn ∘ TPropose <$> s_unHandlePropose (st_spb st))
       else emit_all (Spawn ∘ TFinVote <$> s_unHandleFinVote (st_spb st)));
  emit (Spawn (TProposeVote p)).

Definition processProposeMsg_vote (p : ProposeMsg) : SpbM unit :=
  match p_B p with
  | None => panic
  | Some B =>
      vote ← lift (NewVoteMsg (env_nodeID env) B (env_sigService env));
      st ← get;
      if decide (s_Proposer (st_spb st) <> env_nodeID env) then
        emit (Send (env_nodeID env) (s_Proposer (st_spb st)) (MVote vote))
      else emit (Self (MVote vote))
  end.

(** *** processVoteMsg *)

Definition set_voteNums (n : Z * Z) (s : SPB) : SPB := {|
  s_Proposer := s_Proposer s; s_View := s_View s; s_preQc := s_preQc s; s_blockHash := s_blockHash s;
  s_blockQcs := s_blockQcs s; s_unHandlePropose := s_unHandlePropose s;
  s_unHandleFinVote := s_unHandleFinVote s; s_voteNums := n;
  s_speedVoteNums := s_speedVoteNums s; s_isSpeedCert := s_isSpeedCert s;
|}.

(** The atomic addition and the comparison with the value it returns. *)
Definition processVoteMsg (v : VoteMsg) : SpbM unit :=
  st ← get;
  match get2 (s_voteNums (st_spb st)) (v_Height v) with
  | None => panic
  | Some n =>
      let nums := wrap32 (n + 1) in
      _ ← on_spb (set_voteNums (set2 (s_voteNums (st_spb st)) (v_Height v) nums));
      if decide (nums = wrap32 (HightThreshold (env_committee env))) then emit (Spawn (TVoteQC v))
      else mret tt
  end.

Definition vote_qc (s : SPB) (v : VoteMsg) : BlockQC := {|
  qc_View := s_View s; qc_Height := v_Height v; qc_Proposer := v_Proposer v;
  qc_ParentBlockHash := v_BlockHash v; qc_Shares := ∅ |}.

Definition draw_block (view height : Z) (qc : option BlockQC) : SpbM Block :=
  st ← get;
  let '(block, txpool) := generatorBlock (env_nodeID env) view height qc (st_pool st) in
  _ ← modify (fun st => {| st_spb := st_spb st; st_pool := txpool |});
  mret block.

(** The quorum is complete: the next proposal, or the final vote. *)
Definition processVoteMsg_qc (v : VoteMsg) : SpbM unit :=
  st ← get;
  let qc := vote_qc (st_spb st) v in
  if decide (v_Height v = HEIGHT_1) then
    block ← draw_block (v_View v) HEIGHT_2 (Some qc);
    propose ← lift (NewProposeMsg block (env_sigService env));
    _ ← emit (Send (env_nodeID env) NONE (MPropose propose));
    emit (Self (MPropose propose))
  else
    finVote ← lift (NewFinVoteMsg (env_nodeID env) (s_View (st_spb st)) (Some qc) (env_sigService env));
    _ ← emit (Send (env_nodeID env) NONE (MFinVote finVote));
    emit (Self (MFinVote finVote)).

(** *** processFinVoteMsg *)

Definition keep_finVote (fv : FinVoteMsg) (s : SPB) : SPB := {|
  s_Proposer := s_Proposer s; s_View := s_View s; s_preQc := s_preQc s; s_blockHash := s_blockHash s;
  s_blockQcs := s_blockQcs s; s_unHandlePropose := s_unHandlePropose s;
  s_unHandleFinVote := s_unHandleFinVote s ++ [fv]; s_voteNums := s_voteNums s;
  s_speedVoteNums := s_speedVoteNums s; s_isSpeedCert := s_isSpeedCert s;
|}.

Definition set_finQc (qc : option BlockQC) (s : SPB) : SPB := {|
  s_Proposer := s_Proposer s; s_View := s_View s; s_preQc := s_preQc s; s_blockHash := s_blockHash s;
  s_blockQcs := set2 (s_blockQcs s) HEIGHT_2 qc; s_unHandlePropose := s_unHandlePropose s;
  s_unHandleFinVote := s_unHandleFinVote s; s_voteNums := s_voteNums s;
  s_speedVoteNums := s_speedVoteNums s; s_isSpeedCert := s_isSpeedCert s;
|}.

Definition processFinVoteMsg (fv : FinVoteMsg) : SpbM unit :=
  st ← get;
  if decide (fv_Author fv <> s_Proposer (st_spb st) \/ fv_View fv <> s_View (st_spb st)) then mret tt
  else
    match fv_Qc fv with
    | None => panic
    | Some qc =>
        if decide ((s_blockHash (st_spb st)).2 <> qc_ParentBlockHash qc) then on_spb (keep_finVote fv)
        else
          _ ← on_spb (set_finQc (Some qc));
          emit (Spawn (TFinVoteSpeed qc))
    end.

Definition processFinVoteMsg_speed (qc : BlockQC) : SpbM unit :=
  sv ← lift (NewSpeedVoteMsg (env_nodeID env) qc (env_sigService env));
  st ← get;
  if decide (s_Proposer (st_spb st) = env_nodeID env) then emit (Self (MSpeedVote sv))
  else emit (Send (env_nodeID env) (s_Proposer (st_spb st)) (MSpeedVote sv)).

(** *** processSpeedVoteMsg *)

Definition set_speed (n : Z) (cert : bool) (s : SPB) : SPB := {|
  s_Proposer := s_Proposer s; s_View := s_View s; s_preQc := s_preQc s; s_blockHash := s_blockHash s;
  s_blockQcs := s_blockQcs s; s_unHandlePropose := s_unHandlePropose s;
  s_unHandleFinVote := s_unHandleFinVote s; s_voteNums := s_voteNums s;
  s_speedVoteNums := n; s_isSpeedCert := cert;
|}.

Definition processSpeedVoteMsg (sv : SpeedVoteMsg) : SpbM unit :=
  st ← get;
  if decide (sv_Proposer sv <> s_Proposer (st_spb st) \/ sv_View sv <> s_View (st_spb st)) then mret tt
  else
    let nums := wrap32 (s_speedVoteNums (st_spb st) + 1) in
    _ ← on_spb (set_speed nums (s_isSpeedCert (st_spb st)));
    if decide (nums = wrap32 (HightThreshold (env_committee env))) then emit (Spawn TSpeedStore)
    else mret tt.

Definition processSpeedVoteMsg_store : SpbM unit :=
  on_spb (fun s => set_speed (s_speedVoteNums s) true s).

(** *** What the main loop reads *)

Definition SpeedCert (s : SPB) : bool := s_isSpeedCert s.

Definition DecCert (s : SPB) : bool :=
  bool_decide ((s_blockQcs s).1 <> None /\ (s_blockQcs s).2 <> None).

Definition SPB_BlockHash (s : SPB) (height : Z) : Digest :=
  default Digest_zero (get2 (s_blockHash s) height).

Definition QCLEvel (s : SPB) : Z * option BlockQC :=
  match s_blockQcs s with
  | (Some _, Some qc2) => (LEVEL_2, Some qc2)
  | (Some qc1, None) => (LEVEL_1, Some qc1)
  | (None, _) => (LEVEL_0, s_preQc s)
  end.

(** *** Tasks *)

Definition spb_step (t : SpbTask) : SpbM unit :=
  match t with
  | TPropose p => processProposeMsg p
  | TProposeFlush p => processProposeMsg_flush p
  | TProposeVote p => processProposeMsg_vote p
  | TVote v => processVoteMsg v
  | TVoteQC v => processVoteMsg_qc v
  | TFinVote fv => processFinVoteMsg fv
  | TFinVoteSpeed qc => processFinVoteMsg_speed qc
  | TSpeedVote sv => processSpeedVoteMsg sv
  | TSpeedStore => processSpeedVoteMsg_store
  end.

(** A schedule: tasks in the order they run.  A panic ends the process. *)
Fixpoint spb_run (ts : list SpbTask) : SpbM unit :=
  match ts with
  | [] => mret tt
  | t :: ts => _ ← spb_step t; spb_run ts
  end.
End spb.
