(* ===== verification/SpbExec.v ===== *)
(** * Executions of a lean broadcast instance

    The goroutines of one [SPB] instance as a transition system: messages the
    main loop hands over start tasks, and any started task may run next.  The
    cases of [spb_case] are the branches of the methods; every invariant is
    proved by going through them once. *)
From S2P Require Import Prelude Sha256 Crypto Committee Pool Message Transmitor Spb.

(** ** The branches *)

Section cases.
Context `{P : Prims} (env : SpbEnv).

Definition quorum_size : Z := wrap32 (HightThreshold (env_committee env)).

Inductive spb_case : SpbTask -> SPB -> SPB -> list (Eff SpbTask) -> Prop :=
| SC_propose1 p B s :
    p_B p = Some B -> p_Height p = HEIGHT_1 ->
    spb_case (TPropose p) s (set_height1 B s) [Spawn (TProposeFlush p)]
| SC_propose2_keep p B qc s :
    p_B p = Some B -> p_Height p = HEIGHT_2 -> b_Qc B = Some qc ->
    (s_blockHash s).1 <> qc_ParentBlockHash qc ->
    spb_case (TPropose p) s (keep_propose p s) []
| SC_propose2 p B qc s :
    p_B p = Some B -> p_Height p = HEIGHT_2 -> b_Qc B = Some qc ->
    (s_blockHash s).1 = qc_ParentBlockHash qc ->
    spb_case (TPropose p) s (set_height2 B s) [Spawn (TProposeFlush p)]
| SC_propose_other p B s :
    p_B p = Some B -> p_Height p <> HEIGHT_1 -> p_Height p <> HEIGHT_2 ->
    spb_case (TPropose p) s s [Spawn (TProposeVote p)]
| SC_flush1 p s :
    p_Height p = HEIGHT_1 ->
    spb_case (TProposeFlush p) s s
      ((Spawn ∘ TPropose <$> s_unHandlePropose s) ++ [Spawn (TProposeVote p)])
| SC_flush2 p s :
    p_Height p <> HEIGHT_1 ->
    spb_case (TProposeFlush p) s s
      ((Spawn ∘ TFinVote <$> s_unHandleFinVote s) ++ [Spawn (TProposeVote p)])
| SC_vote p B m s e :
    p_B p = Some B -> NewVoteMsg (env_nodeID env) B (env_sigService env) = Ok m ->
    e = Send (env_nodeID env) (s_Proposer s) (MVote m) \/ e = Self (MVote m) ->
    spb_case (TProposeVote p) s s [e]
| SC_count v n s :
    get2 (s_voteNums s) (v_Height v) = Some n -> wrap32 (n + 1) <> quorum_size ->
    spb_case (TVote v) s (set_voteNums (set2 (s_voteNums s) (v_Height v) (wrap32 (n + 1))) s) []
| SC_quorum v n s :
    get2 (s_voteNums s) (v_Height v) = Some n -> wrap32 (n + 1) = quorum_size ->
    spb_case (TVote v) s (set_voteNums (set2 (s_voteNums s) (v_Height v) (wrap32 (n + 1))) s)
      [Spawn (TVoteQC v)]
| SC_qc1 v batch m s :
    v_Height v = HEIGHT_1 ->
    NewProposeMsg {| b_Author := env_nodeID env; b_View := v_View v; b_Height := HEIGHT_2; b_Batch := batch;
                     b_Qc := Some (vote_qc s v); b_References := [] |} (env_sigService env) = Ok m ->
    spb_case (TVoteQC v) s s [Send (env_nodeID env) NONE (MPropose m); Self (MPropose m)]
| SC_qc2 v m s :
    v_Height v <> HEIGHT_1 ->
    NewFinVoteMsg (env_nodeID env) (s_View s) (Some (vote_qc s v)) (env_sigService env) = Ok m ->
    spb_case (TVoteQC v) s s [Send (env_nodeID env) NONE (MFinVote m); Self (MFinVote m)]
| SC_fin_skip fv s :
    fv_Author fv <> s_Proposer s \/ fv_View fv <> s_View s -> spb_case (TFinVote fv) s s []
| SC_fin_keep fv qc s :
    fv_Author fv = s_Proposer s -> fv_View fv = s_View s -> fv_Qc fv = Some qc ->
    (s_blockHash s).2 <> qc_ParentBlockHash qc ->
    spb_case (TFinVote fv) s (keep_finVote fv s) []
| SC_fin_set fv qc s :
    fv_Author fv = s_Proposer s -> fv_View fv = s_View s -> fv_Qc fv = Some qc ->
    (s_blockHash s).2 = qc_ParentBlockHash qc ->
    spb_case (TFinVote fv) s (set_finQc (Some qc) s) [Spawn (TFinVoteSpeed qc)]
| SC_speed qc m s e :
    NewSpeedVoteMsg (env_nodeID env) qc (env_sigService env) = Ok m ->
    e = Send (env_nodeID env) (s_Proposer s) (MSpeedVote m) \/ e = Self (MSpeedVote m) ->
    spb_case (TFinVoteSpeed qc) s s [e]
| SC_sv_skip sv s :
    sv_Proposer sv <> s_Proposer s \/ sv_View sv <> s_View s -> spb_case (TSpeedVote sv) s s []
| SC_sv_count sv s :
    sv_Proposer sv = s_Proposer s -> sv_View sv = s_View s ->
    wrap32 (s_speedVoteNums s + 1) <> quorum_size ->
    spb_case (TSpeedVote sv) s (set_speed (wrap32 (s_speedVoteNums s + 1)) (s_isSpeedCert s) s) []
| SC_sv_quorum sv s :
    sv_Proposer sv = s_Proposer s -> sv_View sv = s_View s ->
    wrap32 (s_speedVoteNums s + 1) = quorum_size ->
    spb_case (TSpeedVote sv) s (set_speed (wrap32 (s_speedVoteNums s + 1)) (s_isSpeedCert s) s)
      [Spawn TSpeedStore]
| SC_store s : spb_case TSpeedStore s (set_speed (s_speedVoteNums s) true s) [].

Hint Constructors spb_case : core.

(** A step that does not panic is one of the branches. *)
Lemma spb_step_case t st st' effs :
  spb_step env t st = (Ok tt, st', effs) -> spb_case t (st_spb st) (st_spb st') effs.
Proof.
  destruct t as [p|p|p|v|v|fv|qc|sv|]; simpl.
  - unfold processProposeMsg, on_spb. destruct (p_B p) as [B|] eqn:EB; gom; [|done].
    destruct (decide (p_Height p = HEIGHT_1)) as [H1|H1]; [intros ?; simplify_eq/=; eauto|].
    destruct (decide (p_Height p = HEIGHT_2)) as [H2|H2]; [|intros ?; simplify_eq/=; eauto].
    destruct (b_Qc B) as [qc|] eqn:Eq; gom; [|done].
    destruct (decide _) as [H3|H3]; gom; intros ?; simplify_eq/=; [eauto|].
    eapply SC_propose2; eauto. by apply dec_stable.
  - unfold processProposeMsg_flush. gom. destruct (decide _); intros ?; simplify_eq/=; eauto.
  - unfold processProposeMsg_vote. destruct (p_B p) as [B|] eqn:EB; gom; [|done].
    destruct (NewVoteMsg _ _ _) as [m| |] eqn:Em; try done.
    destruct (decide _); gom; intros ?; simplify_eq/=; econstructor; eauto.
  - unfold processVoteMsg, on_spb. gom. destruct (get2 _ _) as [n|] eqn:En; gom; [|done].
    destruct (decide _); gom; intros ?; simplify_eq/=; eauto.
  - unfold processVoteMsg_qc, draw_block. gom. destruct (decide _) as [Hh|Hh]; gom.
    + unfold generatorBlock. destruct (GetBatch _) as [batch pool'].
      destruct (NewProposeMsg _ _) as [m| |] eqn:Em; try done. intros ?; simplify_eq/=. by econstructor.
    + destruct (NewFinVoteMsg _ _ _ _) as [m| |] eqn:Em; try done. intros ?; simplify_eq/=. by econstructor.
  - unfold processFinVoteMsg, on_spb. gom. destruct (decide _) as [Hg|Hg]; gom; [intros ?; simplify_eq/=; eauto|].
    destruct (fv_Qc fv) as [qc|] eqn:Eq; gom; [|done].
    assert (fv_Author fv = s_Proposer (st_spb st)) by (apply dec_stable; tauto).
    assert (fv_View fv = s_View (st_spb st)) by (apply dec_stable; tauto).
    destruct (decide _) as [Hh|Hh]; gom; intros ?; simplify_eq/=; [eauto|].
    eapply SC_fin_set; eauto. by apply dec_stable.
  - unfold processFinVoteMsg_speed. gom.
    destruct (NewSpeedVoteMsg _ _ _) as [m| |] eqn:Em; try done.
    destruct (decide _); gom; intros ?; simplify_eq/=; econstructor; eauto.
  - unfold processSpeedVoteMsg, on_spb. gom. destruct (decide _) as [Hg|Hg]; gom; [intros ?; simplify_eq/=; eauto|].
    assert (sv_Proposer sv = s_Proposer (st_spb st)) by (apply dec_stable; tauto).
    assert (sv_View sv = s_View (st_spb st)) by (apply dec_stable; tauto).
    destruct (decide _); gom; intros ?; simplify_eq/=; eauto.
  - unfold processSpeedVoteMsg_store, on_spb. gom. intros ?; simplify_eq/=. eauto.
Qed.
End cases.

(** ** Configurations *)

(** The tasks that the main loop starts: one per message. *)
Definition root_task (t : SpbTask) : bool :=
  match t with TPropose _ | TVote _ | TFinVote _ | TSpeedVote _ => true | _ => false end.

Record Config := {
  cf_st : SpbSt;
  cf_pend : list SpbTask;
  cf_seen : list SpbTask;
  cf_sent : list (Eff SpbTask);
}.

Section exec.
Context `{P : Prims} (env : SpbEnv).

(** A started goroutine runs one piece. *)
Inductive spb_runs : Config -> Config -> Prop :=
| runs_task c l1 t l2 st' effs :
    cf_pend c = l1 ++ t :: l2 ->
    spb_step env t (cf_st c) = (Ok tt, st', effs) ->
    spb_runs c {| cf_st := st'; cf_pend := l1 ++ l2 ++ spawned effs; cf_seen := cf_seen c;
                  cf_sent := cf_sent c ++ outputs effs |}.

(** The main loop hands a message over, a goroutine runs, or the pool moves. *)
Inductive spb_exec : Config -> Config -> Prop :=
| exec_arrive c t :
    root_task t = true ->
    spb_exec c {| cf_st := cf_st c; cf_pend := cf_pend c ++ [t]; cf_seen := cf_seen c ++ [t];
                  cf_sent := cf_sent c |}
| exec_run c c' : spb_runs c c' -> spb_exec c c'
| exec_pool c pool :
    spb_exec c {| cf_st := {| st_spb := st_spb (cf_st c); st_pool := pool |}; cf_pend := cf_pend c;
                  cf_seen := cf_seen c; cf_sent := cf_sent c |}.

Definition spb_init (proposer : NodeID) (view : Z) (pool : Pool) : Config :=
  {| cf_st := {| st_spb := NewSPB proposer view; st_pool := pool |}; cf_pend := []; cf_seen := []; cf_sent := [] |}.

Definition spb_reachable (proposer : NodeID) (view : Z) (c : Config) : Prop :=
  exists pool, rtc spb_exec (spb_init proposer view pool) c.

Definition spb_of (c : Config) : SPB := st_spb (cf_st c).

(** An execution step, up to the pool: a message arrives, a task runs one of
    its branches, or the instance is left alone. *)
Inductive exec_view (c c' : Config) : Prop :=
| view_arrive t :
    root_task t = true -> spb_of c' = spb_of c -> cf_pend c' = cf_pend c ++ [t] -> cf_seen c' = cf_seen c ++ [t] ->
    cf_sent c' = cf_sent c -> exec_view c c'
| view_run l1 t l2 effs s s' :
    spb_of c = s -> spb_of c' = s' -> spb_case env t s s' effs ->
    cf_pend c = l1 ++ t :: l2 -> cf_pend c' = l1 ++ l2 ++ spawned effs -> cf_seen c' = cf_seen c ->
    cf_sent c' = cf_sent c ++ outputs effs -> exec_view c c'
| view_pool :
    spb_of c' = spb_of c -> cf_pend c' = cf_pend c -> cf_seen c' = cf_seen c -> cf_sent c' = cf_sent c ->
    exec_view c c'.

Lemma spb_exec_view c c' : spb_exec c c' -> exec_view c c'.
Proof.
  destruct 1 as [c t Ht|c c' [? l1 t l2 st' effs Hp Hstep]|c pool].
  - by apply (view_arrive _ _ t).
  - apply spb_step_case in Hstep. by eapply (view_run _ _ l1 t l2 effs).
  - by apply view_pool.
Qed.

(** Invariants by induction on the execution. *)
Lemma spb_invariant (I : Config -> Prop) proposer view :
  (forall pool, I (spb_init proposer view pool)) ->
  (forall c c', I c -> spb_exec c c' -> I c') ->
  forall c, spb_reachable proposer view c -> I c.
Proof.
  intros H0 Hs c [pool Hr].
  assert (forall x y, rtc spb_exec x y -> I x -> I y) as Hind by (induction 1; eauto). eauto.
Qed.

Lemma spb_identity proposer view c :
  spb_reachable proposer view c -> s_Proposer (spb_of c) = proposer /\ s_View (spb_of c) = view.
Proof.
  revert c. apply spb_invariant; [done|]. intros c c' I Hs%spb_exec_view.
  destruct Hs as [? _ Es|l1 t l2 effs s s' Es Es' Hc|Es]; rewrite ?Es in *; [done| |done].
  rewrite Es'. by destruct Hc.
Qed.

(** *** Schedules *)

Inductive Act := AArrive (t : SpbTask) | ARun (i : nat).

Definition do_act (c : Config) (a : Act) : option Config :=
  match a with
  | AArrive t =>
      if root_task t then
        Some {| cf_st := cf_st c; cf_pend := cf_pend c ++ [t]; cf_seen := cf_seen c ++ [t]; cf_sent := cf_sent c |}
      else None
  | ARun i =>
      t ← cf_pend c !! i;
      match spb_step env t (cf_st c) with
      | (Ok _, st', effs) =>
          Some {| cf_st := st'; cf_pend := take i (cf_pend c) ++ drop (S i) (cf_pend c) ++ spawned effs;
                  cf_seen := cf_seen c; cf_sent := cf_sent c ++ outputs effs |}
      | _ => None
      end
  end.

Fixpoint do_acts (c : Config) (acts : list Act) : option Config :=
  match acts with
  | [] => Some c
  | a :: acts => c' ← do_act c a; do_acts c' acts
  end.

Lemma do_act_exec c a c' : do_act c a = Some c' -> spb_exec c c'.
Proof.
  destruct a as [t|i]; simpl.
  - destruct (root_task t) eqn:E; [|done]. intros [= <-]. by apply exec_arrive.
  - destruct (cf_pend c !! i) as [t|] eqn:El; [|done]. simpl.
    destruct (spb_step env t (cf_st c)) as [[[[]| |] st'] effs] eqn:Es; [|done..]. intros [= <-].
    apply exec_run. apply (runs_task _ _ t); [|done]. by rewrite take_drop_middle.
Qed.

Lemma do_acts_reachable proposer view pool acts c :
  do_acts (spb_init proposer view pool) acts = Some c -> spb_reachable proposer view c.
Proof.
  intros H. exists pool. revert H. generalize (spb_init proposer view pool). intros c0.
  revert c0. induction acts as [|a acts IH]; intros c0; simpl; [by intros [= <-]|].
  destruct (do_act c0 a) as [c1|] eqn:E; [|done]. simpl. intros H%IH.
  eapply rtc_l; [by eapply do_act_exec|done].
Qed.
End exec.

(** ** A concrete run

    Node 1 of four broadcasts in view 0; the height-2 proposal and the final
    vote overtake the height-1 proposal, and three votes of each kind come. *)
Module SpbDemo.
#[global] Instance prims : Prims := demo_prims pad32.

Definition env : SpbEnv :=
  {| env_nodeID := 1; env_committee := demo_committee 4; env_sigService := demo_service pad32 1 4 3 |}.

Definition pool : Pool := {|
  p_parameters := PoolParameters.DefaultParameters;
  p_queue := {| queue := []; batchChannel := []; wind := 0; rind := -1; nums := 0; maxQueueSize := 0;
                batchSize := 1; N := 4; QId := 1; bcnt := 0 |};
  p_maker := {| txSize := 16; rate := 0 |} |}.

Definition unsigned : Signature := {| Sig := [] |}.

Definition block1 : Block := demo_block 1 0 HEIGHT_1 5.
Definition qc_for (h : Z) (d : Digest) : BlockQC :=
  {| qc_View := 0; qc_Height := h; qc_Proposer := 1; qc_ParentBlockHash := d; qc_Shares := ∅ |}.
Definition block2 : Block :=
  {| b_Author := 1; b_View := 0; b_Height := HEIGHT_2; b_Batch := {| ID := 9; Txs := [] |};
     b_Qc := Some (qc_for HEIGHT_1 (Block_Hash block1)); b_References := [] |}.

Definition propose (B : Block) : ProposeMsg :=
  {| p_Author := 1; p_B := Some B; p_View := 0; p_Height := b_Height B; p_DocG := None; p_Signature := unsigned |}.
Definition final : FinVoteMsg :=
  {| fv_Author := 1; fv_View := 0; fv_Qc := Some (qc_for HEIGHT_2 (Block_Hash block2)); fv_Signature := unsigned |}.
Definition vote (i : NodeID) (h : Z) (d : Digest) : VoteMsg :=
  {| v_Author := i; v_Proposer := 1; v_BlockHash := d; v_View := 0; v_Height := h; v_Signature := unsigned |}.
Definition speed (i : NodeID) : SpeedVoteMsg :=
  {| sv_Author := i; sv_Proposer := 1; sv_BlockHash := Block_Hash block2; sv_View := 0; sv_Signature := unsigned |}.

Definition messages : list SpbTask :=
  [TPropose (propose block2); TFinVote final; TPropose (propose block1)] ++
  ((fun i => TVote (vote i HEIGHT_1 (Block_Hash block1))) <$> [1; 2; 3]) ++
  (TSpeedVote ∘ speed <$> [1; 2; 3]).

(** Each message runs as it arrives, then the rest runs in order. *)
Definition schedule : list Act :=
  ((fun t => [AArrive t; ARun 0]) <$> take 2 messages) ≫= id.
Definition schedule' : list Act := schedule ++ (AArrive <$> drop 2 messages).

Definition start : Config := spb_init 1 0 pool.
Definition midway : Config := default start (do_acts env start schedule').
Definition finish : Config := default start (do_acts env midway (replicate 16 (ARun 0))).

Lemma midway_reachable : spb_reachable env 1 0 midway.
Proof. apply (do_acts_reachable env 1 0 pool schedule'). vm_compute. reflexivity. Qed.
Lemma finish_reachable : spb_reachable env 1 0 finish.
Proof.
  apply (do_acts_reachable env 1 0 pool (schedule' ++ replicate 16 (ARun 0))). vm_compute. reflexivity.
Qed.
Lemma finish_seen : cf_seen finish = messages.
Proof. vm_compute. reflexivity. Qed.
Lemma finish_pend : cf_pend finish = [].
Proof. vm_compute. reflexivity. Qed.
End SpbDemo.
