(* ===== verification/SpbCert.v ===== *)
(** * Certificates of a lean broadcast instance

    When a piece panics, that every schedule drains, and what the decision
    certificate of a drained instance says about the messages it was given. *)
From S2P Require Import Prelude Sha256 Crypto Committee Pool Message Transmitor Spb SpbExec.

(** ** Panics *)

(** What a message must carry for its handler not to crash. *)
Definition task_ok (proposer : NodeID) (view : Z) (t : SpbTask) : Prop :=
  match t with
  | TPropose p =>
      match p_B p with
      | Some B => p_Height p = HEIGHT_2 -> b_Qc B <> None
      | None => False
      end
  | TProposeVote p => p_B p <> None
  | TProposeFlush p => p_B p <> None
  | TVote v => v_Height v = HEIGHT_1 \/ v_Height v = HEIGHT_2
  | TFinVote fv => fv_Author fv = proposer /\ fv_View fv = view -> fv_Qc fv <> None
  | _ => True
  end.

#[global] Instance task_ok_dec proposer view t : Decision (task_ok proposer view t).
Proof. destruct t as [p| | | | | | | |]; simpl; try apply _. destruct (p_B p); apply _. Defined.

Section panics.
Context `{P : Prims} (env : SpbEnv).
Context (Hkey : length (Prikey (PriKey (env_sigService env))) = 64%nat).

Lemma RequestSignature_total d : exists sig, RequestSignature (env_sigService env) d = Ok sig.
Proof. unfold RequestSignature, SigService_serve. simpl. rewrite decide_True by done. simpl. eauto. Qed.

(** A message is built whenever the key can sign. *)
Ltac signed :=
  match goal with |- context [RequestSignature (env_sigService env) ?d] =>
    let sig := fresh "sig" in destruct (RequestSignature_total d) as [sig ->] end; simpl.

Lemma spb_step_total t st :
  task_ok (s_Proposer (st_spb st)) (s_View (st_spb st)) t ->
  exists st' effs, spb_step env t st = (Ok tt, st', effs).
Proof.
  destruct t as [p|p|p|v|v|fv|qc|sv|]; simpl; intros Hok.
  - unfold processProposeMsg, on_spb. destruct (p_B p) as [B|]; [|done]. gom.
    destruct (decide _); [eauto|]. destruct (decide _) as [H2|]; [|eauto].
    destruct (b_Qc B); [|by destruct (Hok H2)]. gom. destruct (decide _); gom; eauto.
  - unfold processProposeMsg_flush. gom. destruct (decide _); eauto.
  - unfold processProposeMsg_vote. destruct (p_B p) as [B|]; [|done]. unfold NewVoteMsg. gom.
    destruct (RequestSignature_total (VoteMsg_Hash {| v_Author := env_nodeID env; v_Proposer := b_Author B;
      v_BlockHash := Block_Hash B; v_View := b_View B; v_Height := b_Height B; v_Signature := {| Sig := [] |} |}))
      as [sig ->]. destruct (decide _); eauto.
  - unfold processVoteMsg, on_spb. gom. assert (exists n, get2 (s_voteNums (st_spb st)) (v_Height v) = Some n) as [n ->].
    { destruct Hok as [-> | ->]; unfold get2; simpl; eauto. }
    gom. destruct (decide _); gom; eauto.
  - unfold processVoteMsg_qc, draw_block, NewProposeMsg, NewFinVoteMsg, ProposeMsg_Hash, generatorBlock. gom.
    destruct (decide _); gom.
    + destruct (GetBatch _) as [b p']. simpl. signed. eauto.
    + signed. eauto.
  - unfold processFinVoteMsg, on_spb. gom. destruct (decide _) as [Hd|Hd]; gom; [eauto|].
    destruct (fv_Qc fv); [|destruct Hok; [|done]]; [gom; destruct (decide _); gom; eauto|].
    split; apply dec_stable; tauto.
  - unfold processFinVoteMsg_speed, NewSpeedVoteMsg. gom. signed. destruct (decide _); eauto.
  - unfold processSpeedVoteMsg, on_spb. gom. destruct (decide _); gom; [eauto|]. destruct (decide _); gom; eauto.
  - unfold processSpeedVoteMsg_store, on_spb. gom. eauto.
Qed.
End panics.

(** C30. Given a usable signing key, handing a message to an instance panics
    exactly when the message lacks what the handler dereferences or indexes
    with: a proposal without a block, a height-2 proposal without a
    certificate, a vote of a height beyond 2, a final vote of the proposer
    without a certificate.  None of these is excluded by a signature check. *)
Theorem spb_step_panics `{P : Prims} (env : SpbEnv) t st :
  length (Prikey (PriKey (env_sigService env))) = 64%nat -> root_task t = true ->
  res_of (spb_step env t st)
  = if decide (task_ok (s_Proposer (st_spb st)) (s_View (st_spb st)) t) then Ok tt else Panic.
Proof.
  intros Hkey Hroot. destruct (decide _) as [Hok|Hbad].
  - by destruct (spb_step_total env Hkey t st Hok) as (st' & effs & ->).
  - destruct t as [p| | |v| |fv| | |]; simplify_eq/=; try done.
    + unfold processProposeMsg. destruct (p_B p) as [B|]; [|done].
      assert (p_Height p = HEIGHT_2) as H2 by (apply dec_stable; tauto).
      assert (b_Qc B = None) as -> by (apply dec_stable; tauto).
      by rewrite decide_False, decide_True by (rewrite ?H2; done).
    + unfold processVoteMsg. gom. unfold get2. rewrite !decide_False by (unfold HEIGHT_1, HEIGHT_2 in *; lia). done.
    + unfold processFinVoteMsg. gom. rewrite decide_False by tauto.
      assert (fv_Qc fv = None) as -> by (apply dec_stable; tauto). done.
Qed.

(** ** Where tasks come from *)

Section origin.
Context `{P : Prims} (env : SpbEnv).

(** Every pending or kept message is one that arrived; kept proposals are of
    height 2. *)
Definition origin (seen : list SpbTask) (t : SpbTask) : Prop :=
  match t with
  | TPropose _ | TVote _ | TFinVote _ => t ∈ seen
  | TVoteQC v => TVote v ∈ seen
  | TProposeFlush p | TProposeVote p => p_B p <> None
  | _ => True
  end.

Record origin_inv (c : Config) : Prop := {
  oi_pend : Forall (origin (cf_seen c)) (cf_pend c);
  oi_propose : Forall (fun p => TPropose p ∈ cf_seen c /\ p_Height p = HEIGHT_2) (s_unHandlePropose (spb_of c));
  oi_fin : Forall (fun fv => TFinVote fv ∈ cf_seen c) (s_unHandleFinVote (spb_of c));
}.

Lemma origin_mono seen seen' t : seen ⊆ seen' -> origin seen t -> origin seen' t.
Proof. intros Hs. destruct t; simpl; auto. Qed.

Lemma origin_inv_step c c' : origin_inv c -> spb_exec env c c' -> origin_inv c'.
Proof.
  intros [I1 I2 I3] Hs%spb_exec_view.
  destruct Hs as [t Ht Es Ep En Et|l1 t l2 effs s s' Es Es' Hc Ep Ep' En Et|Es Ep En Et].
  - assert (cf_seen c ⊆ cf_seen c') as Hsub by (rewrite En; set_solver).
    split; rewrite ?Es, ?Ep.
    + apply Forall_app. split; [eapply Forall_impl; eauto using origin_mono|].
      apply Forall_singleton. rewrite En. destruct t; simplify_eq/=; try done; set_solver.
    + eapply Forall_impl; [exact I2|]. intros ? []; auto.
    + eapply Forall_impl; [exact I3|]. auto.
  - rewrite Es, Ep in *. apply Forall_app in I1 as [F1 [Ot F2]%Forall_cons].
    destruct Hc; split; rewrite ?Es', ?Ep', ?En; autorewrite with go_rw; simpl; rewrite ?Forall_app, ?Forall_fmap;
      simpl in *; split_and?; auto.
    all: repeat match goal with H : _ = Send _ _ _ \/ _ |- _ => destruct H as [-> | ->]; simpl end.
    all: rewrite ?Forall_singleton; simpl; try done; try congruence.
    eapply Forall_impl; [exact I2|]. by intros ? [].
  - split; rewrite ?Es, ?Ep, ?En; done.
Qed.

Lemma origin_reachable proposer view c : spb_reachable env proposer view c -> origin_inv c.
Proof. revert c. apply spb_invariant; [done|]. eauto using origin_inv_step. Qed.
End origin.

(** ** Schedules drain *)

(** Replacing a task by finitely many of lower rank is well-founded. *)
Section multiset.
Context {A : Type} (rank : A -> nat).

Definition lower (l' l : list A) : Prop :=
  exists t rest new, l ≡ₚ t :: rest /\ l' ≡ₚ new ++ rest /\ Forall (fun x => rank x < rank t)%nat new.

Lemma lower_Acc_perm l l' : l ≡ₚ l' -> Acc lower l -> Acc lower l'.
Proof.
  intros E [H]. constructor. intros y (t & rest & new & E1 & E2 & F). apply H.
  exists t, rest, new. split_and!; [by rewrite E|done|done].
Qed.

Lemma lower_Acc_cons t l : Acc lower l -> Acc lower (t :: l).
Proof.
  remember (rank t) as n eqn:En. revert t En l. induction (lt_wf n) as [n _ IHn]. intros t -> l Hl.
  induction Hl as [l Hl IHl]. constructor. intros y (u & rest & new & E1 & E2 & F).
  assert (forall new, Forall (fun x => rank x < rank t)%nat new -> forall r, Acc lower r -> Acc lower (new ++ r)) as Hnew.
  { clear - IHn. induction 1 as [|x new Hx F IH]; intros r Hr; simpl; [done|]. eapply IHn; eauto. }
  assert (u ∈ t :: l) as Hu by (rewrite E1; set_solver). apply elem_of_cons in Hu as [->|Hu].
  - apply Permutation_cons_inv in E1. apply (lower_Acc_perm (new ++ rest)); [by symmetry|].
    apply Hnew; [done|]. eapply lower_Acc_perm; [exact E1|]. by constructor.
  - apply elem_of_Permutation in Hu as [l0 Hu]. rewrite Hu in E1.
    assert (rest ≡ₚ t :: l0) as E3.
    { apply (Permutation_cons_inv (a := u)). rewrite <- E1. apply Permutation.perm_swap. }
    apply (lower_Acc_perm (t :: new ++ l0)); [by rewrite E2, E3, <- Permutation_middle|].
    apply IHl. exists u, l0, new. split_and!; [by rewrite Hu|done|done].
Qed.

Lemma lower_wf l : Acc lower l.
Proof.
  induction l as [|t l IH]; [|by apply lower_Acc_cons].
  constructor. intros y (t & rest & new & E & _). by apply Permutation_nil_cons in E.
Qed.
End multiset.

Definition task_rank (t : SpbTask) : nat :=
  match t with
  | TPropose p => if decide (p_Height p = HEIGHT_1) then 6 else 4
  | TProposeFlush p => if decide (p_Height p = HEIGHT_1) then 5 else 3
  | TFinVote _ => 2
  | TFinVoteSpeed _ | TVote _ | TSpeedVote _ => 1
  | _ => 0
  end%nat.

Section drain.
Context `{P : Prims} (env : SpbEnv).

(** A piece only starts pieces of lower rank. *)
Lemma case_lower t s s' effs :
  spb_case env t s s' effs -> Forall (fun p => p_Height p = HEIGHT_2) (s_unHandlePropose s) ->
  Forall (fun x => task_rank x < task_rank t)%nat (spawned effs).
Proof.
  intros Hc Hk. destruct Hc; autorewrite with go_rw; simpl; rewrite ?Forall_app, ?Forall_fmap.
  all: repeat match goal with H : _ = Send _ _ _ \/ _ |- _ => destruct H as [-> | ->]; simpl end.
  all: repeat case_decide; try done; simpl; rewrite ?Forall_singleton, ?Forall_nil; simpl; repeat case_decide; try done; try lia.
  - split; [|lia]. eapply Forall_impl; [exact Hk|]. intros q Eq. simpl. rewrite decide_False; [lia|]. rewrite Eq. done.
  - split; [|lia]. apply Forall_true. intros; simpl; lia.
Qed.

Lemma runs_lower c c' : origin_inv c -> spb_runs env c c' -> lower task_rank (cf_pend c') (cf_pend c).
Proof.
  intros I Hr. destruct Hr as [c l1 t l2 st' effs Hp Hstep]. destruct I as [_ I2 _]. apply spb_step_case in Hstep. rewrite Hp.
  exists t, (l1 ++ l2), (spawned effs). split_and!.
  - by rewrite <- Permutation_middle.
  - simpl. by rewrite app_assoc, Permutation_app_comm.
  - eapply case_lower; [done|]. eapply Forall_impl; [exact I2|]. by intros ? [].
Qed.

Lemma runs_Acc c : origin_inv c -> Acc (flip (spb_runs env)) c.
Proof.
  remember (cf_pend c) as l eqn:El. revert c El. induction (lower_wf task_rank l) as [l _ IH].
  intros c -> I. constructor. intros c' Hr. eapply IH; [by apply runs_lower|done|].
  eapply origin_inv_step; [done|]. by apply exec_run.
Qed.

Lemma pend_ok c t proposer view :
  origin_inv c -> Forall (task_ok proposer view) (cf_seen c) -> t ∈ cf_pend c -> task_ok proposer view t.
Proof.
  intros [I1 _ _] Hok Ht. rewrite Forall_forall in I1, Hok. specialize (I1 t Ht).
  destruct t; simpl in I1; try done; by apply Hok in I1.
Qed.

Lemma runs_seen c c' : rtc (spb_runs env) c c' -> cf_seen c' = cf_seen c.
Proof. induction 1 as [|??? [] ? IH]; [done|]. by rewrite IH. Qed.

Lemma runs_reachable proposer view c c' :
  spb_reachable env proposer view c -> rtc (spb_runs env) c c' -> spb_reachable env proposer view c'.
Proof.
  intros [pool Hr] Hs. exists pool. etransitivity; [exact Hr|]. eapply rtc_subrel; [|done]. by constructor.
Qed.
End drain.

(** A schedule in which sends may have to wait: a piece runs when [room]
    accepts what it sends.  The messages go into the transmitter's channels of
    capacity 1000, and a goroutine waits while its channel is full; a piece
    that sends twice is one step, taken when both sends are accepted (its
    instance does not change in between). *)
Inductive spb_runs_room `{P : Prims} (env : SpbEnv) (room : Config -> list (Eff SpbTask) -> Prop) :
    Config -> Config -> Prop :=
| runs_room c l1 t l2 st' effs :
    cf_pend c = l1 ++ t :: l2 ->
    spb_step env t (cf_st c) = (Ok tt, st', effs) ->
    room c (outputs effs) ->
    spb_runs_room env room c {| cf_st := st'; cf_pend := l1 ++ l2 ++ spawned effs; cf_seen := cf_seen c;
                                cf_sent := cf_sent c ++ outputs effs |}.

(** The piece has messages to send that [room] does not accept. *)
Definition waits_to_send `{P : Prims} (env : SpbEnv) (room : Config -> list (Eff SpbTask) -> Prop)
    (c : Config) (t : SpbTask) : Prop :=
  exists st' effs, spb_step env t (cf_st c) = (Ok tt, st', effs) /\ outputs effs <> [] /\ ~ room c (outputs effs).

Lemma runs_room_runs `{P : Prims} (env : SpbEnv) room c c' :
  spb_runs_room env room c c' -> spb_runs env c c'.
Proof. intros [c0 l1 t l2 st' effs Hp Hs _]. by eapply runs_task. Qed.

(** A started piece can run, unless what it sends has to wait. *)
Lemma pending_step `{P : Prims} (env : SpbEnv) proposer view c c' t :
  spb_reachable env proposer view c ->
  length (Prikey (PriKey (env_sigService env))) = 64%nat -> Forall (task_ok proposer view) (cf_seen c) ->
  rtc (spb_runs env) c c' -> t ∈ cf_pend c' ->
  exists st' effs, spb_step env t (cf_st c') = (Ok tt, st', effs).
Proof.
  intros Hr Hkey Hok Hs Ht. pose proof (runs_reachable env _ _ _ _ Hr Hs) as Hr'.
  destruct (spb_identity _ _ _ _ Hr') as [HP HV]. apply spb_step_total; [done|].
  unfold spb_of in *. rewrite HP, HV. eapply pend_ok; [by eapply origin_reachable| |done].
  by rewrite (runs_seen env c c').
Qed.

(** C15. No schedule of the started pieces of an instance is infinite, in every
    configuration.  Given a signing key of 64 bytes and messages the handlers
    accept ([task_ok]), and whatever part of the sends the transmitter's
    channels accept, a schedule can stop only when each piece left has a
    message to send that is not accepted; while sends are accepted, every
    schedule ends with nothing left to run. *)
Theorem spb_drains `{P : Prims} (env : SpbEnv) proposer view c :
  spb_reachable env proposer view c ->
  Acc (flip (spb_runs env)) c /\
  (length (Prikey (PriKey (env_sigService env))) = 64%nat -> Forall (task_ok proposer view) (cf_seen c) ->
   (forall room c', (forall x, room x []) -> rtc (spb_runs_room env room) c c' ->
      (forall c'', ~ spb_runs_room env room c' c'') -> Forall (waits_to_send env room c') (cf_pend c')) /\
   (forall c', rtc (spb_runs env) c c' -> (forall c'', ~ spb_runs env c' c'') -> cf_pend c' = []) /\
   (exists c', rtc (spb_runs env) c c' /\ cf_pend c' = [])).
Proof.
  intros Hr. pose proof (runs_Acc env c (origin_reachable env _ _ _ Hr)) as HA. split; [done|]. intros Hkey Hok.
  assert (forall c', rtc (spb_runs env) c c' -> cf_pend c' = [] \/ exists c'', spb_runs env c' c'') as Hprog.
  { intros c' Hs. destruct (cf_pend c') as [|t l] eqn:Ep; [by left|right].
    destruct (pending_step env proposer view c c' t) as (st' & effs & E); [done..|rewrite Ep; set_solver|].
    eexists. by apply (runs_task _ _ [] t l). }
  split_and!.
  - intros room c' H0 Hs Hn. apply Forall_forall. intros t Ht.
    assert (rtc (spb_runs env) c c') as Hs' by (eapply rtc_subrel; [|done]; apply runs_room_runs).
    destruct (pending_step env proposer view c c' t) as (st' & effs & E); [done..|].
    assert (~ room c' (outputs effs)) as Hno.
    { intros Hroom. apply list_elem_of_split in Ht as (l1 & l2 & Ep). eapply Hn. by eapply runs_room. }
    exists st', effs. split_and!; [done| |done]. intros E0. apply Hno. by rewrite E0.
  - intros c' Hs Hn. destruct (Hprog c' Hs) as [?|[c'' ?]]; [done|]. by destruct (Hn c'').
  - clear Hr Hok. induction HA as [c _ IH]. destruct (Hprog c) as [?|[c1 H1]]; [done|by exists c|].
    destruct (IH c1 H1) as (c' & ? & ?); [|exists c'; split; [by eapply rtc_l|done]].
    intros c' ?. apply Hprog. by eapply rtc_l.
Qed.

(** ** What the decision certificate says *)

(** The proposer does not equivocate: its proposals of a height are one
    block. *)
Record honest_seen `{P : Prims} (h1 h2 : Digest) (seen : list SpbTask) : Prop := {
  hs_block1 p B : TPropose p ∈ seen -> p_B p = Some B -> p_Height p = HEIGHT_1 -> Block_Hash B = h1;
  hs_block2 p B : TPropose p ∈ seen -> p_B p = Some B -> p_Height p = HEIGHT_2 -> Block_Hash B = h2;
}.

(** No certificate names the zero digest, the value of [blockHash] before a
    block is recorded: [processProposeMsg] and [processFinVoteMsg] compare a
    certificate with [blockHash] only, so such a certificate is accepted
    without its block ([zero_certificate_decides]). *)
Record no_zero_certificate (seen : list SpbTask) : Prop := {
  nz_propose p B qc : TPropose p ∈ seen -> p_B p = Some B -> p_Height p = HEIGHT_2 -> b_Qc B = Some qc ->
    qc_ParentBlockHash qc <> Digest_zero;
  nz_final fv qc : TFinVote fv ∈ seen -> fv_Qc fv = Some qc -> qc_ParentBlockHash qc <> Digest_zero;
}.

(** The messages seen contain the two blocks, the certificate for the first
    and the proposer's final vote for the second. *)
Definition seen_block1 (seen : list SpbTask) : Prop :=
  exists p B, TPropose p ∈ seen /\ p_B p = Some B /\ p_Height p = HEIGHT_1.
Definition seen_block2 (seen : list SpbTask) (qc : BlockQC) : Prop :=
  exists p B, TPropose p ∈ seen /\ p_B p = Some B /\ p_Height p = HEIGHT_2 /\ b_Qc B = Some qc.
Definition seen_final (proposer : NodeID) (view : Z) (seen : list SpbTask) (qc : BlockQC) : Prop :=
  exists fv, TFinVote fv ∈ seen /\ fv_Author fv = proposer /\ fv_View fv = view /\ fv_Qc fv = Some qc.

Section dec.
Context `{P : Prims} (env : SpbEnv) (proposer : NodeID) (view : Z) (h1 h2 : Digest).

Lemma honest_app seen l : honest_seen h1 h2 (seen ++ l) -> honest_seen h1 h2 seen.
Proof. intros [H1 H2]. split; intros *; [intros ?; eapply H1|intros ?; eapply H2]; set_solver. Qed.

Lemma no_zero_app seen l : no_zero_certificate (seen ++ l) -> no_zero_certificate seen.
Proof. intros [H1 H2]. split; intros *; [intros ?; eapply H1|intros ?; eapply H2]; set_solver. Qed.

(** Safety half: what is recorded was seen. *)
Record dec_safe (s : SPB) (seen : list SpbTask) : Prop := {
  ds_hash1 : (s_blockHash s).1 = Digest_zero \/ ((s_blockHash s).1 = h1 /\ seen_block1 seen);
  ds_hash2 : (s_blockHash s).2 = Digest_zero \/ (s_blockHash s).2 = h2;
  ds_qc1 q : (s_blockQcs s).1 = Some q ->
    (s_blockHash s).1 = qc_ParentBlockHash q /\ qc_ParentBlockHash q <> Digest_zero /\
    (s_blockHash s).2 = h2 /\ seen_block2 seen q;
  ds_qc2 q : (s_blockQcs s).2 = Some q ->
    (s_blockHash s).2 = qc_ParentBlockHash q /\ qc_ParentBlockHash q <> Digest_zero /\
    seen_final proposer view seen q;
}.

Lemma dec_safe_mono s seen seen' : seen ⊆ seen' -> dec_safe s seen -> dec_safe s seen'.
Proof.
  intros Hs [H1 H2 H3 H4].
  split; [|done|intros q Hq; destruct (H3 q Hq) as (?&?&?&(p&B&?&?&?&?))|intros q Hq; destruct (H4 q Hq) as (?&?&(fv&?&?&?&?))].
  - destruct H1 as [?|[? (p & B & ? & ? & ?)]]; [by left|right]. split; [done|]. exists p, B. auto.
  - split_and!; try done. exists p, B. auto.
  - split_and!; try done. exists fv. auto.
Qed.

Lemma dec_safe_step seen t s s' effs :
  honest_seen h1 h2 seen -> no_zero_certificate seen -> spb_case env t s s' effs -> origin seen t ->
  s_Proposer s = proposer -> s_View s = view -> dec_safe s seen -> dec_safe s' seen.
Proof.
  intros [G1 G2] [G3 G4] Hc Ho HP HV I. pose proof I as [I1 I2 I3 I4]. destruct Hc; simpl in *; try done.
  - pose proof (G1 _ _ Ho H H0) as E. split; simpl.
    + right. split; [done|]. by exists p, B.
    + done.
    + intros q Hq. destruct (I3 q Hq) as (E1&?&?&?). split_and!; try done.
      destruct I1 as [?|[? _]]; [congruence|]. by rewrite E, <- E1.
    + done.
  - pose proof (G2 _ _ Ho H H0) as E. pose proof (G3 _ _ _ Ho H H0 H1). split; simpl.
    + done.
    + by right.
    + intros q [= Hq]. assert (q = qc) as -> by congruence. split_and!; try done. by exists p, B.
    + intros q Hq. destruct (I4 q Hq) as (E1&?&?). split_and!; try done.
      destruct I2 as [?|?]; [congruence|]. by rewrite E, <- E1.
  - pose proof (G4 _ _ Ho H1). split; simpl; try done.
    intros q [= <-]. split_and!; try done. exists fv. split_and!; congruence.
Qed.

(** Progress half: a message seen is still to run, or took effect, or is kept
    while what it waits for is missing or about to be announced. *)
Definition flush_pending (high : bool) (pend : list SpbTask) : Prop :=
  exists p, TProposeFlush p ∈ pend /\ bool_decide (p_Height p <> HEIGHT_1) = high.

Record dec_live (s : SPB) (pend seen : list SpbTask) : Prop := {
  dl_block1 : seen_block1 seen -> (exists p, TPropose p ∈ pend /\ p_Height p = HEIGHT_1) \/ (s_blockHash s).1 = h1;
  dl_block2 p B qc : TPropose p ∈ seen -> p_B p = Some B -> p_Height p = HEIGHT_2 -> b_Qc B = Some qc ->
    TPropose p ∈ pend \/ ((s_blockQcs s).1 <> None /\ (s_blockHash s).2 = h2) \/
    (p ∈ s_unHandlePropose s /\ ((s_blockHash s).1 <> qc_ParentBlockHash qc \/ flush_pending false pend));
  dl_final fv qc : TFinVote fv ∈ seen -> fv_Author fv = proposer -> fv_View fv = view -> fv_Qc fv = Some qc ->
    TFinVote fv ∈ pend \/ (s_blockQcs s).2 <> None \/
    (fv ∈ s_unHandleFinVote s /\ ((s_blockHash s).2 <> qc_ParentBlockHash qc \/ flush_pending true pend));
}.

(** Tasks whose removal matters. *)
Definition relevant (t : SpbTask) : Prop :=
  match t with
  | TPropose p => p_Height p = HEIGHT_1 \/ p_Height p = HEIGHT_2
  | TProposeFlush _ => True
  | TFinVote fv => fv_Author fv = proposer /\ fv_View fv = view
  | _ => False
  end.

Definition keeps (pend pend' : list SpbTask) : Prop := forall t, t ∈ pend -> relevant t -> t ∈ pend'.

Lemma flush_keeps high pend pend' : keeps pend pend' -> flush_pending high pend -> flush_pending high pend'.
Proof. intros K (p & Hp & E). exists p. split; [by apply K|done]. Qed.

Lemma dec_live_frame s s' pend pend' seen :
  s_blockHash s' = s_blockHash s -> s_blockQcs s' = s_blockQcs s ->
  s_unHandlePropose s ⊆ s_unHandlePropose s' -> s_unHandleFinVote s ⊆ s_unHandleFinVote s' ->
  keeps pend pend' -> dec_live s pend seen -> dec_live s' pend' seen.
Proof.
  intros E1 E2 S1 S2 K [H1 H2 H3]. split; rewrite ?E1, ?E2.
  - intros [(p & Hp & Hh)|?]%H1; [left|by right]. exists p. split; [apply K; simpl; auto|done].
  - intros p B qc Hp HB Hh Hq. destruct (H2 p B qc Hp HB Hh Hq) as [?|[?|[? Hw]]];
      [left; apply K; simpl; auto|by right; left|right; right].
    split; [auto|]. destruct Hw; eauto using flush_keeps.
  - intros fv qc Hf HA HV Hq. destruct (H3 fv qc Hf HA HV Hq) as [?|[?|[? Hw]]];
      [left; apply K; simpl; auto|by right; left|right; right].
    split; [auto|]. destruct Hw; eauto using flush_keeps.
Qed.

Lemma keeps_run l1 t l2 sp : ~ relevant t -> keeps (l1 ++ t :: l2) (l1 ++ l2 ++ sp).
Proof. intros Hn u Hu Hr. assert (u <> t) by congruence. set_solver. Qed.

Lemma dec_live_arrive s pend seen t : root_task t = true -> dec_live s pend seen -> dec_live s (pend ++ [t]) (seen ++ [t]).
Proof.
  intros _ I. assert (dec_live s (pend ++ [t]) seen) as [H1 H2 H3].
  { eapply dec_live_frame; eauto; [done..|]. intros u Hu _. set_solver. }
  split.
  - intros (p & B & [Hp|Hp]%elem_of_app & HB & Hh); [apply H1; by exists p, B|].
    left. exists p. split; [set_solver|done].
  - intros p B qc [Hp|Hp]%elem_of_app; [by apply H2|]. left. set_solver.
  - intros fv qc [Hp|Hp]%elem_of_app; [by apply H3|]. left. set_solver.
Qed.

Lemma run_other (u t : SpbTask) l1 l2 sp : u ∈ l1 ++ t :: l2 -> u <> t -> u ∈ l1 ++ l2 ++ sp.
Proof. set_solver. Qed.

Lemma run_flush high t l1 l2 sp :
  flush_pending high (l1 ++ t :: l2) ->
  (forall p, t = TProposeFlush p -> bool_decide (p_Height p <> HEIGHT_1) <> high) -> flush_pending high (l1 ++ l2 ++ sp).
Proof.
  intros (p & Hp & E) Hne. exists p. split; [|done]. eapply run_other; [exact Hp|].
  intros <-. by destruct (Hne p eq_refl).
Qed.

Lemma run_block1 t l1 l2 sp :
  (exists p, TPropose p ∈ l1 ++ t :: l2 /\ p_Height p = HEIGHT_1) ->
  (forall p, t = TPropose p -> p_Height p <> HEIGHT_1) ->
  exists p, TPropose p ∈ l1 ++ l2 ++ sp /\ p_Height p = HEIGHT_1.
Proof.
  intros (p & Hp & E) Hne. exists p. split; [|done]. eapply run_other; [exact Hp|].
  intros <-. by destruct (Hne p eq_refl).
Qed.

(** A proposal of height 1 runs: waiting proposals are about to be restarted. *)
Lemma dec_live_propose1 seen p B s l1 l2 :
  Block_Hash B = h1 -> p_Height p = HEIGHT_1 ->
  dec_live s (l1 ++ TPropose p :: l2) seen ->
  dec_live (set_height1 B s) (l1 ++ l2 ++ [TProposeFlush p]) seen.
Proof.
  intros Hh Hp [H1 H2 H3]. split; simpl.
  - intros _. by right.
  - intros q B' qc Hq HB Hq2 HQ. destruct (H2 q B' qc Hq HB Hq2 HQ) as [?|[?|[? _]]].
    + left. eapply run_other; [done|]. intros [= ->]. by rewrite Hp in Hq2.
    + by right; left.
    + right; right. split; [done|right]. exists p. split; [set_solver|]. by rewrite Hp.
  - intros fv qc Hf HA HV HQ. destruct (H3 fv qc Hf HA HV HQ) as [?|[?|[? Hw]]].
    + left. by eapply run_other.
    + by right; left.
    + right; right. split; [done|]. destruct Hw as [?|Hw]; [by left|right]. by eapply run_flush.
Qed.

(** A proposal of height 2 takes effect: waiting final votes are about to be
    restarted. *)
Lemma dec_live_propose2 seen p B qc s l1 l2 :
  Block_Hash B = h2 -> p_Height p = HEIGHT_2 -> b_Qc B = Some qc ->
  dec_live s (l1 ++ TPropose p :: l2) seen ->
  dec_live (set_height2 B s) (l1 ++ l2 ++ [TProposeFlush p]) seen.
Proof.
  intros Hh Hp Hqc [H1 H2 H3]. split; simpl.
  - intros [?|?]%H1; [left|by right]. eapply run_block1; [done|]. intros ? [= <-]. by rewrite Hp.
  - intros q B' qc' _ _ _ _. right; left. by rewrite Hqc.
  - intros fv qc' Hf HA HV HQ. destruct (H3 fv qc' Hf HA HV HQ) as [?|[?|[? Hw]]].
    + left. by eapply run_other.
    + by right; left.
    + right; right. split; [done|right]. exists p. split; [set_solver|]. by rewrite Hp.
Qed.

Lemma dec_live_keep seen p B qc s l1 l2 :
  p_B p = Some B -> p_Height p = HEIGHT_2 -> b_Qc B = Some qc -> (s_blockHash s).1 <> qc_ParentBlockHash qc ->
  dec_live s (l1 ++ TPropose p :: l2) seen -> dec_live (keep_propose p s) (l1 ++ l2 ++ []) seen.
Proof.
  intros HB Hp Hqc Hne [H1 H2 H3]. split; simpl.
  - intros [?|?]%H1; [left|by right]. eapply run_block1; [done|]. intros ? [= <-]. by rewrite Hp.
  - intros q B' qc' Hq HB' Hq2 HQ. destruct (decide (q = p)) as [->|Hqp].
    { right; right. split; [set_solver|left]. congruence. }
    destruct (H2 q B' qc' Hq HB' Hq2 HQ) as [?|[?|[? Hw]]].
    + left. eapply run_other; [done|]. congruence.
    + by right; left.
    + right; right. split; [set_solver|]. destruct Hw as [?|Hw]; [by left|right]. by eapply run_flush.
  - intros fv qc' Hf HA HV HQ. destruct (H3 fv qc' Hf HA HV HQ) as [?|[?|[? Hw]]].
    + left. by eapply run_other.
    + by right; left.
    + right; right. split; [done|]. destruct Hw as [?|Hw]; [by left|right]. by eapply run_flush.
Qed.

(** Restarting the kept messages of one kind. *)
Lemma dec_live_flush seen p s l1 l2 sp :
  (p_Height p = HEIGHT_1 -> forall q, q ∈ s_unHandlePropose s -> TPropose q ∈ sp) ->
  (p_Height p <> HEIGHT_1 -> forall fv, fv ∈ s_unHandleFinVote s -> TFinVote fv ∈ sp) ->
  dec_live s (l1 ++ TProposeFlush p :: l2) seen -> dec_live s (l1 ++ l2 ++ sp) seen.
Proof.
  intros S1 S2 [H1 H2 H3]. split.
  - intros [?|?]%H1; [left|by right]. by eapply run_block1.
  - intros q B' qc' Hq HB' Hq2 HQ. destruct (H2 q B' qc' Hq HB' Hq2 HQ) as [?|[?|[? Hw]]].
    + left. by eapply run_other.
    + by right; left.
    + destruct (decide (p_Height p = HEIGHT_1)); [left; set_solver|].
      right; right. split; [done|]. destruct Hw as [?|Hw]; [by left|right].
      eapply run_flush; [done|]. intros ? [= <-]. by rewrite bool_decide_true.
  - intros fv qc' Hf HA HV HQ. destruct (H3 fv qc' Hf HA HV HQ) as [?|[?|[? Hw]]].
    + left. by eapply run_other.
    + by right; left.
    + destruct (decide (p_Height p = HEIGHT_1)) as [E|]; [|left; set_solver].
      right; right. split; [done|]. destruct Hw as [?|Hw]; [by left|right].
      eapply run_flush; [done|]. intros ? [= <-]. rewrite bool_decide_false; [done|]. tauto.
Qed.

Lemma dec_live_fin_keep seen fv qc s l1 l2 :
  fv_Qc fv = Some qc -> (s_blockHash s).2 <> qc_ParentBlockHash qc ->
  dec_live s (l1 ++ TFinVote fv :: l2) seen -> dec_live (keep_finVote fv s) (l1 ++ l2 ++ []) seen.
Proof.
  intros Hqc Hne [H1 H2 H3]. split; simpl.
  - intros [?|?]%H1; [left|by right]. by eapply run_block1.
  - intros q B' qc' Hq HB' Hq2 HQ. destruct (H2 q B' qc' Hq HB' Hq2 HQ) as [?|[?|[? Hw]]].
    + left. by eapply run_other.
    + by right; left.
    + right; right. split; [done|]. destruct Hw as [?|Hw]; [by left|right]. by eapply run_flush.
  - intros g qc' Hf HA HV HQ. destruct (decide (g = fv)) as [->|Hg].
    { right; right. split; [set_solver|left]. congruence. }
    destruct (H3 g qc' Hf HA HV HQ) as [?|[?|[? Hw]]].
    + left. eapply run_other; [done|]. congruence.
    + by right; left.
    + right; right. split; [set_solver|]. destruct Hw as [?|Hw]; [by left|right]. by eapply run_flush.
Qed.

Lemma dec_live_fin_set seen fv qc s l1 l2 sp :
  dec_live s (l1 ++ TFinVote fv :: l2) seen -> dec_live (set_finQc (Some qc) s) (l1 ++ l2 ++ sp) seen.
Proof.
  intros [H1 H2 H3]. split; simpl.
  - intros [?|?]%H1; [left|by right]. by eapply run_block1.
  - intros q B' qc' Hq HB' Hq2 HQ. destruct (H2 q B' qc' Hq HB' Hq2 HQ) as [?|[?|[? Hw]]].
    + left. by eapply run_other.
    + by right; left.
    + right; right. split; [done|]. destruct Hw as [?|Hw]; [by left|right]. by eapply run_flush.
  - intros g qc' _ _ _ _. by right; left.
Qed.

Lemma dec_live_step seen t s s' effs l1 l2 :
  honest_seen h1 h2 seen -> spb_case env t s s' effs -> origin seen t ->
  s_Proposer s = proposer -> s_View s = view ->
  dec_live s (l1 ++ t :: l2) seen -> dec_live s' (l1 ++ l2 ++ spawned effs) seen.
Proof.
  intros [G1 G2] Hc Ho HP HV I. destruct Hc; simpl in *.
  all: try (eapply dec_live_frame; [..|exact I]; [done..|]; apply keeps_run; simpl; tauto).
  - eapply dec_live_propose1; eauto.
  - eapply dec_live_keep; eauto.
  - eapply dec_live_propose2; eauto.
  - eapply dec_live_flush; [..|exact I]; autorewrite with go_rw; [|done]. intros _ q Hq.
    apply elem_of_app. left. by apply list_elem_of_fmap_2.
  - eapply dec_live_flush; [..|exact I]; autorewrite with go_rw; [done|]. intros _ q Hq.
    apply elem_of_app. left. by apply list_elem_of_fmap_2.
  - eapply dec_live_frame; [..|exact I]; [done..|]. apply keeps_run. simpl. rewrite <- HP, <- HV. tauto.
  - eapply dec_live_fin_keep; eauto.
  - eapply dec_live_fin_set; eauto.
Qed.

Lemma dec_reachable c :
  spb_reachable env proposer view c -> honest_seen h1 h2 (cf_seen c) ->
  (no_zero_certificate (cf_seen c) -> dec_safe (spb_of c) (cf_seen c)) /\
  dec_live (spb_of c) (cf_pend c) (cf_seen c).
Proof.
  intros Hr Hh. assert (spb_reachable env proposer view c /\ (honest_seen h1 h2 (cf_seen c) ->
    (no_zero_certificate (cf_seen c) -> dec_safe (spb_of c) (cf_seen c)) /\
    dec_live (spb_of c) (cf_pend c) (cf_seen c))) as [_ H]; [|by apply H].
  clear Hh. revert c Hr. apply spb_invariant.
  - intros pool. split; [by exists pool|]. intros _. split; [intros _|]; split; simpl; try set_solver; try by left.
    by intros (p & B & ? & _); set_solver.
  - intros c c' [[pool Hr] IH] Hs. assert (spb_reachable env proposer view c) as Hc by by exists pool.
    split; [exists pool; by eapply rtc_r|]. destruct (spb_identity _ _ _ _ Hc) as [HP HV].
    pose proof (oi_pend _ (origin_reachable env _ _ _ Hc)) as Ho.
    apply spb_exec_view in Hs as [t Ht Es Ep En Et|l1 t l2 effs s s' Es Es' Hcase Ep Ep' En Et|Es Ep En Et];
      rewrite ?Es, ?En, ?Ep in *; intros Hh.
    + destruct (IH (honest_app _ _ Hh)) as [I1 I2]. split; [|by apply dec_live_arrive]. intros Hz%no_zero_app.
      eapply dec_safe_mono; [|by apply I1]. set_solver.
    + destruct (IH Hh) as [I1 I2]. apply Forall_app in Ho as [_ [Ho _]%Forall_cons].
      rewrite Es', Ep'. split; [intros Hz|]; eauto using dec_safe_step, dec_live_step.
    + auto.
Qed.

(** What a decision certificate means, when no certificate was for zero. *)
Lemma dec_safe_chain s seen :
  dec_safe s seen -> DecCert s = true ->
  (exists q1 q2, seen_block1 seen /\ seen_block2 seen q1 /\ qc_ParentBlockHash q1 = h1 /\
     seen_final proposer view seen q2 /\ qc_ParentBlockHash q2 = h2) /\
  SPB_BlockHash s HEIGHT_1 = h1 /\ SPB_BlockHash s HEIGHT_2 = h2.
Proof.
  intros [S1 S2 S3 S4] [Q1 Q2]%bool_decide_eq_true. unfold SPB_BlockHash.
  destruct (s_blockQcs s) as [[q1|] [q2|]]; simpl in *; try done.
  destruct (S3 q1 eq_refl) as (E1 & N1 & E2 & B2). destruct (S4 q2 eq_refl) as (E3 & N2 & F).
  assert ((s_blockHash s).1 = h1 /\ seen_block1 seen) as [E4 B1] by (destruct S1; [congruence|done]).
  split; [|done]. exists q1, q2. split_and!; try done; congruence.
Qed.
End dec.

(** C3. For a proposer that does not equivocate: if no certificate in the
    messages names the zero digest, an instance holds the decision certificate
    only if it saw both blocks, a certificate for the first and the final vote
    for the second, and then its recorded block hashes are those two blocks;
    and, zero digests or not, once nothing is left to run it does hold the
    certificate if it saw them, in whatever order they arrived and ran. *)
Theorem DecCert_exact `{P : Prims} (env : SpbEnv) proposer view h1 h2 c :
  spb_reachable env proposer view c -> honest_seen h1 h2 (cf_seen c) ->
  let chain := exists q1 q2, seen_block1 (cf_seen c) /\
    seen_block2 (cf_seen c) q1 /\ qc_ParentBlockHash q1 = h1 /\
    seen_final proposer view (cf_seen c) q2 /\ qc_ParentBlockHash q2 = h2 in
  (no_zero_certificate (cf_seen c) -> DecCert (spb_of c) = true ->
     chain /\ SPB_BlockHash (spb_of c) HEIGHT_1 = h1 /\ SPB_BlockHash (spb_of c) HEIGHT_2 = h2) /\
  (cf_pend c = [] -> chain -> DecCert (spb_of c) = true /\ (QCLEvel (spb_of c)).1 = LEVEL_2).
Proof.
  intros Hr Hh. destruct (dec_reachable env proposer view h1 h2 c Hr Hh) as [HS [L1 L2 L3]]. split.
  - intros Hz. by apply dec_safe_chain, HS.
  - unfold DecCert, SPB_BlockHash, QCLEvel.
    intros Ep (q1 & q2 & B1 & (p & B & Hp & HB & Hh2 & Hq1) & E1 & (fv & Hf & HA & HV & Hq2) & E2).
    rewrite Ep in *. destruct (L1 B1) as [(?&?&_)|H1]; [set_solver|].
    assert ((s_blockQcs (spb_of c)).1 <> None /\ (s_blockHash (spb_of c)).2 = h2) as [Q1 H2].
    { destruct (L2 p B q1 Hp HB Hh2 Hq1) as [?|[?|[_ [?|(?&?&_)]]]]; [set_solver|done|congruence|set_solver]. }
    assert ((s_blockQcs (spb_of c)).2 <> None) as Q2.
    { destruct (L3 fv q2 Hf HA HV Hq2) as [?|[?|[_ [?|(?&?&_)]]]]; [set_solver|done|congruence|set_solver]. }
    split; [by apply bool_decide_eq_true|]. by destruct (s_blockQcs (spb_of c)) as [[?|] [?|]].
Qed.

(** Why the condition on zero digests is needed: before a block of height 1 is
    recorded, a height-2 proposal whose certificate names the zero digest is
    accepted, and with the final vote for it the instance holds the decision
    certificate of a leader whose first block it never saw. *)
Lemma zero_certificate_decides `{P : Prims} (env : SpbEnv) proposer view pool p B q1 fv q2 :
  p_B p = Some B -> p_Height p = HEIGHT_2 -> b_Qc B = Some q1 -> qc_ParentBlockHash q1 = Digest_zero ->
  fv_Author fv = proposer -> fv_View fv = view -> fv_Qc fv = Some q2 -> qc_ParentBlockHash q2 = Block_Hash B ->
  exists c, do_acts env (spb_init proposer view pool) [AArrive (TPropose p); AArrive (TFinVote fv); ARun 0; ARun 0] = Some c /\
    DecCert (spb_of c) = true /\ SPB_BlockHash (spb_of c) HEIGHT_1 = Digest_zero.
Proof.
  intros HB Hh Hq1 Hz HA HV Hq2 Hd. simpl. unfold processProposeMsg, on_spb. rewrite HB. gom.
  rewrite decide_False by (by rewrite Hh). rewrite decide_True by done. rewrite Hq1. gom. simpl.
  rewrite decide_False by (rewrite Hz; intros E; by apply E). gom. simpl.
  unfold processFinVoteMsg, on_spb. gom. simpl. rewrite decide_False by (intros [?|?]; congruence).
  rewrite Hq2. gom. simpl. rewrite decide_False by (rewrite Hd; intros E; by apply E). gom. simpl.
  eexists. split; [done|]. unfold DecCert, SPB_BlockHash. simpl. rewrite Hq1. split; [|done]. by apply bool_decide_eq_true.
Qed.

(** ** The concrete run *)

Lemma spb_step_panics_witness :
  res_of (spb_step SpbDemo.env (TVote (SpbDemo.vote 2 2 [])) (cf_st SpbDemo.finish)) = Panic.
Proof.
  rewrite (spb_step_panics SpbDemo.env (TVote (SpbDemo.vote 2 2 [])) (cf_st SpbDemo.finish) eq_refl eq_refl).
  by rewrite decide_False by (simpl; unfold HEIGHT_1, HEIGHT_2; lia).
Defined.

Lemma spb_drains_witness : exists c', rtc (spb_runs SpbDemo.env) SpbDemo.midway c' /\ cf_pend c' = [].
Proof.
  apply (proj2 (spb_drains SpbDemo.env 1 0 SpbDemo.midway SpbDemo.midway_reachable) eq_refl). vm_decide.
Defined.

Lemma demo_honest :
  honest_seen (Block_Hash SpbDemo.block1) (Block_Hash SpbDemo.block2) (cf_seen SpbDemo.finish).
Proof.
  rewrite SpbDemo.finish_seen. unfold SpbDemo.messages. split.
  all: intros *; simpl; rewrite !elem_of_cons, elem_of_nil; intros Hin; intros.
  all: repeat destruct Hin as [Hin|Hin]; simplify_eq/=; done.
Qed.

Lemma demo_no_zero : no_zero_certificate (cf_seen SpbDemo.finish).
Proof.
  rewrite SpbDemo.finish_seen. unfold SpbDemo.messages. split.
  all: intros *; simpl; rewrite !elem_of_cons, elem_of_nil; intros Hin; intros.
  all: repeat destruct Hin as [Hin|Hin]; simplify_eq/=; done.
Qed.

Lemma demo_chain : exists q1 q2, seen_block1 (cf_seen SpbDemo.finish) /\
  seen_block2 (cf_seen SpbDemo.finish) q1 /\ qc_ParentBlockHash q1 = Block_Hash SpbDemo.block1 /\
  seen_final 1 0 (cf_seen SpbDemo.finish) q2 /\ qc_ParentBlockHash q2 = Block_Hash SpbDemo.block2.
Proof.
  rewrite SpbDemo.finish_seen.
  exists (SpbDemo.qc_for HEIGHT_1 (Block_Hash SpbDemo.block1)), (SpbDemo.qc_for HEIGHT_2 (Block_Hash SpbDemo.block2)).
  split_and!; [|exists (SpbDemo.propose SpbDemo.block2), SpbDemo.block2|done|exists SpbDemo.final|done].
  - exists (SpbDemo.propose SpbDemo.block1), SpbDemo.block1. split_and!; [|done..]. unfold SpbDemo.messages. set_solver.
  - split_and!; [|done..]. unfold SpbDemo.messages. set_solver.
  - split_and!; [|done..]. unfold SpbDemo.messages. set_solver.
Qed.

(** Both halves at the drained run: the certificate is held, and it says what
    was seen. *)
Lemma DecCert_exact_witness :
  DecCert (spb_of SpbDemo.finish) = true /\
  SPB_BlockHash (spb_of SpbDemo.finish) HEIGHT_1 = Block_Hash SpbDemo.block1.
Proof.
  destruct (DecCert_exact SpbDemo.env 1 0 _ _ SpbDemo.finish SpbDemo.finish_reachable demo_honest) as [Hs Hl].
  destruct (Hl SpbDemo.finish_pend demo_chain) as [HD _].
  split; [exact HD|]. exact (proj1 (proj2 (Hs demo_no_zero HD))).
Defined.
