(* ===== verification/SpbProps.v ===== *)
(** * Guarantees of a lean broadcast instance

    Theorems about every execution of [SpbExec]: what quorums produce, what
    certificates mean, that every schedule drains and what it leaves. *)
From S2P Require Import Prelude Sha256 Crypto Committee Pool Message Transmitor Spb SpbExec SpbCert.

(** ** What is counted *)

Definition is_vote (h : Z) (t : SpbTask) : bool :=
  match t with TVote v => bool_decide (v_Height v = h) | _ => false end.

(** The piece after a quorum; it tells [HEIGHT_1] from the rest. *)
Definition is_vote_qc (h : Z) (t : SpbTask) : bool :=
  match t with
  | TVoteQC v => Bool.eqb (bool_decide (v_Height v = HEIGHT_1)) (bool_decide (h = HEIGHT_1))
  | _ => false
  end.

(** The broadcast a quorum at height [h] produces. *)
Definition is_cert (h : Z) (e : Eff SpbTask) : bool :=
  match e with
  | Send _ to (MPropose _) => bool_decide (to = NONE) && bool_decide (h = HEIGHT_1)
  | Send _ to (MFinVote _) => bool_decide (to = NONE) && bool_decide (h = HEIGHT_2)
  | _ => false
  end.

Definition is_speed_vote (proposer : NodeID) (view : Z) (t : SpbTask) : bool :=
  match t with
  | TSpeedVote sv => bool_decide (sv_Proposer sv = proposer /\ sv_View sv = view)
  | _ => false
  end.

Section props.
Context `{P : Prims} (env : SpbEnv).

Abbreviation T := (HightThreshold (env_committee env)).

(** Votes of height [h] whose goroutine has run the counting step. *)
Definition counted (h : Z) (c : Config) : Z := count (is_vote h) (cf_seen c) - count (is_vote h) (cf_pend c).

Record count_inv (h : Z) (c : Config) : Prop := {
  ci_counted : 0 <= counted h c;
  ci_nums : get2 (s_voteNums (spb_of c)) h = Some (wrap32 (counted h c));
  ci_cert : counted h c < 2 ^ 32 ->
    count (is_vote_qc h) (cf_pend c) + count (is_cert h) (cf_sent c) = if decide (T <= counted h c) then 1 else 0;
}.

Lemma quorum_reached n :
  0 <= n -> n + 1 < 2 ^ 32 -> T < 2 ^ 32 -> wrap32 (wrap32 n + 1) = quorum_size env <-> n + 1 = T.
Proof.
  intros H0 H1 HT. rewrite wrap_add_l by lia. unfold quorum_size. split; [|by intros ->].
  apply wrap_inj; [lia..|]. pose proof (HightThreshold_pos (env_committee env)). lia.
Qed.

Lemma count_inv_init h proposer view pool :
  h = HEIGHT_1 \/ h = HEIGHT_2 -> count_inv h (spb_init proposer view pool).
Proof.
  intros Hh. split; unfold counted; simpl; [lia|destruct Hh as [-> | ->]; done|].
  intros _. rewrite decide_False; [done|]. pose proof (HightThreshold_pos (env_committee env)). lia.
Qed.

(** A step that neither counts a vote nor handles a quorum. *)
Lemma count_inv_frame h c c' :
  counted h c' = counted h c -> get2 (s_voteNums (spb_of c')) h = get2 (s_voteNums (spb_of c)) h ->
  count (is_vote_qc h) (cf_pend c') + count (is_cert h) (cf_sent c')
  = count (is_vote_qc h) (cf_pend c) + count (is_cert h) (cf_sent c) ->
  count_inv h c -> count_inv h c'.
Proof. intros E1 E2 E3 [H1 H2 H3]. split; rewrite ?E1, ?E2, ?E3; done. Qed.

(** A vote of the height is counted; the quorum-th one starts the certificate. *)
Lemma count_inv_vote h c c' n effs :
  T < 2 ^ 32 -> count_inv h c ->
  get2 (s_voteNums (spb_of c)) h = Some n -> get2 (s_voteNums (spb_of c')) h = Some (wrap32 (n + 1)) ->
  counted h c' = counted h c + 1 -> cf_sent c' = cf_sent c ->
  count (is_vote_qc h) (cf_pend c') = count (is_vote_qc h) (cf_pend c) + effs ->
  effs = (if decide (wrap32 (n + 1) = quorum_size env) then 1 else 0) -> count_inv h c'.
Proof.
  intros HT [H1 H2 H3] En En' Ec Es Eq ->. rewrite En in H2. injection H2 as ->.
  split; [lia| |].
  - by rewrite En', Ec, wrap_add_l.
  - intros Hlt. rewrite Ec in *. rewrite Es, Eq. specialize (H3 ltac:(lia)).
    pose proof (quorum_reached (counted h c) H1 Hlt HT). repeat case_decide; try lia; tauto || lia.
Qed.

Ltac counts :=
  unfold counted; simpl;
  repeat match goal with E : cf_pend _ = _ |- _ => rewrite E | E : cf_seen _ = _ |- _ => rewrite E
                       | E : cf_sent _ = _ |- _ => rewrite E end;
  autorewrite with go_rw; simpl.

Lemma count_inv_step h c c' :
  h = HEIGHT_1 \/ h = HEIGHT_2 -> T < 2 ^ 32 -> count_inv h c -> spb_exec env c c' -> count_inv h c'.
Proof.
  intros Hh HT I Hs%spb_exec_view.
  destruct Hs as [t Ht Es Ep En Et|l1 t l2 effs s s' Es Es' Hc Ep Ep' En Et|Es Ep En Et].
  - apply (count_inv_frame h c); [..|done]; counts; [lia|by rewrite Es|]. destruct t; done || (simpl; lia).
  - assert (HEIGHT_1 <> HEIGHT_2) as Hne by done.
    destruct Hc as [| | | | | |p B m s e ? ? He|v n s Hn Hq|v n s Hn Hq|v batch m s Hv|v m s Hv| | |
                    |qc m s e ? He| | | |].
    all: try destruct He as [-> | ->].
    all: try (apply (count_inv_frame h c); [..|done]; [counts|by rewrite Es, Es'|counts];
       rewrite ?(count_zero (_ ∘ _)) by done; lia).
    + destruct (decide (v_Height v = h)) as [<-|Hvh].
      * eapply (count_inv_vote _ c _ n 0); eauto; counts; rewrite ?bool_decide_true, ?Es, ?Es' by done; try done; try lia.
        -- by apply get2_set2_eq.
        -- by rewrite decide_False.
      * apply (count_inv_frame h c); [..|done]; counts; rewrite ?bool_decide_false, ?Es, ?Es' by done; [lia| |lia].
        by apply get2_set2_ne.
    + destruct (decide (v_Height v = h)) as [<-|Hvh].
      * eapply (count_inv_vote _ c _ n 1); eauto; counts; rewrite ?bool_decide_true, ?Es, ?Es' by done; try done; try lia.
        -- by apply get2_set2_eq.
        -- rewrite Bool.eqb_reflx. lia.
        -- by rewrite decide_True.
      * apply (count_inv_frame h c); [..|done]; counts; rewrite ?(bool_decide_false (v_Height v = h)), ?Es, ?Es' by done;
          [lia|by apply get2_set2_ne|].
        apply get2_Some in Hn. repeat case_bool_decide; simpl; try lia. unfold HEIGHT_1, HEIGHT_2 in *. lia.
    + apply (count_inv_frame h c); [..|done]; [counts; lia|by rewrite Es, Es'|counts].
      rewrite Hv. repeat case_bool_decide; destruct Hh; simplify_eq; simpl; lia.
    + apply (count_inv_frame h c); [..|done]; [counts; lia|by rewrite Es, Es'|counts].
      rewrite (bool_decide_false (v_Height v = _)) by done.
      repeat case_bool_decide; destruct Hh; simplify_eq; simpl; lia.
  - apply (count_inv_frame h c); [..|done]; counts; [lia|by rewrite Es|lia].
Qed.

(** *** Speed votes *)

Definition is_store (t : SpbTask) : bool := match t with TSpeedStore => true | _ => false end.

Definition speed_counted (proposer : NodeID) (view : Z) (c : Config) : Z :=
  count (is_speed_vote proposer view) (cf_seen c) - count (is_speed_vote proposer view) (cf_pend c).

Record speed_inv (proposer : NodeID) (view : Z) (c : Config) : Prop := {
  si_id : s_Proposer (spb_of c) = proposer /\ s_View (spb_of c) = view;
  si_counted : 0 <= speed_counted proposer view c;
  si_nums : s_speedVoteNums (spb_of c) = wrap32 (speed_counted proposer view c);
  si_cert : speed_counted proposer view c < 2 ^ 32 ->
    (s_isSpeedCert (spb_of c) = true \/ 0 < count is_store (cf_pend c)) <-> T <= speed_counted proposer view c;
}.

Lemma speed_inv_frame proposer view c c' :
  s_Proposer (spb_of c') = s_Proposer (spb_of c) -> s_View (spb_of c') = s_View (spb_of c) ->
  speed_counted proposer view c' = speed_counted proposer view c ->
  s_speedVoteNums (spb_of c') = s_speedVoteNums (spb_of c) ->
  ((s_isSpeedCert (spb_of c') = true \/ 0 < count is_store (cf_pend c')) <->
   (s_isSpeedCert (spb_of c) = true \/ 0 < count is_store (cf_pend c))) ->
  speed_inv proposer view c -> speed_inv proposer view c'.
Proof.
  intros E1 E2 E3 E4 E5 [H1 H2 H3 H4]. split; rewrite ?E1, ?E2, ?E3, ?E4; try done. by rewrite E5.
Qed.

Lemma speed_inv_vote proposer view c c' k :
  T < 2 ^ 32 -> speed_inv proposer view c ->
  s_Proposer (spb_of c') = s_Proposer (spb_of c) -> s_View (spb_of c') = s_View (spb_of c) ->
  speed_counted proposer view c' = speed_counted proposer view c + 1 ->
  s_speedVoteNums (spb_of c') = wrap32 (s_speedVoteNums (spb_of c) + 1) ->
  s_isSpeedCert (spb_of c') = s_isSpeedCert (spb_of c) ->
  count is_store (cf_pend c') = count is_store (cf_pend c) + k ->
  k = (if decide (wrap32 (s_speedVoteNums (spb_of c) + 1) = quorum_size env) then 1 else 0) ->
  speed_inv proposer view c'.
Proof.
  intros HT [H1 H2 H3 H4] E1 E2 E3 E4 E5 E6 ->. split; rewrite ?E1, ?E2, ?E3, ?E4, ?E5; try done.
  - lia.
  - by rewrite H3, wrap_add_l.
  - intros Hlt. rewrite E6. specialize (H4 ltac:(lia)). rewrite H3 in *.
    pose proof (quorum_reached (speed_counted proposer view c) H2 Hlt HT) as Q.
    pose proof (count_nonneg is_store (cf_pend c)).
    case_decide as Hd.
    + apply Q in Hd. split; intros; [lia|right; lia].
    + rewrite Z.add_0_r, H4. split; intros; [lia|]. assert (speed_counted proposer view c + 1 <> T) by tauto. lia.
Qed.

Lemma speed_inv_step proposer view c c' :
  T < 2 ^ 32 -> speed_inv proposer view c -> spb_exec env c c' -> speed_inv proposer view c'.
Proof.
  intros HT I Hs%spb_exec_view. pose proof (si_id _ _ _ I) as [HP HV].
  destruct Hs as [t Ht Es Ep En Et|l1 t l2 effs s s' Es Es' Hc Ep Ep' En Et|Es Ep En Et].
  - apply (speed_inv_frame _ _ c); [by rewrite Es..| |by rewrite Es| |done]; unfold speed_counted; counts; [lia|].
    rewrite Es. destruct t; done || (simpl; rewrite Z.add_0_r; done).
  - assert (forall x, x + 0 = x) as Z0 by lia. rewrite Es in *. subst proposer view.
    destruct Hc as [| | | | | |p B m s e ? ? He| | | | | | | |qc m s e ? He| sv s Hsk|sv s Ha Hb Hq|sv s Ha Hb Hq|].
    all: try destruct He as [-> | ->].
    all: try (apply (speed_inv_frame _ _ c); [by rewrite Es, Es'..| |by rewrite Es, Es'| |done];
      unfold speed_counted; counts; rewrite ?(count_zero (_ ∘ _)), ?Es, ?Es' by done; [lia|]; simpl; f_equiv; lia).
    + apply (speed_inv_frame _ _ c); [by rewrite Es, Es'..| |by rewrite Es, Es'| |done];
        unfold speed_counted; counts; rewrite ?Es, ?Es'; [|f_equiv; lia].
      rewrite bool_decide_false by tauto. lia.
    + eapply (speed_inv_vote _ _ c _ 0); [done|done|by rewrite Es, Es'..| | | | |]; rewrite ?Es, ?Es'; try done.
      * unfold speed_counted; counts. rewrite bool_decide_true by done. lia.
      * counts. lia.
      * by rewrite decide_False.
    + eapply (speed_inv_vote _ _ c _ 1); [done|done|by rewrite Es, Es'..| | | | |]; rewrite ?Es, ?Es'; try done.
      * unfold speed_counted; counts. rewrite bool_decide_true by done. lia.
      * counts. lia.
      * by rewrite decide_True.
    + apply (speed_inv_frame _ _ c); [by rewrite Es, Es'..| |by rewrite Es, Es'| |done];
        unfold speed_counted; counts; rewrite ?Es, ?Es'; [lia|]. simpl.
      pose proof (count_nonneg is_store l1). pose proof (count_nonneg is_store l2).
      split; intros _; [right; lia|by left].
  - apply (speed_inv_frame _ _ c); [by rewrite Es..| |by rewrite Es| |done]; unfold speed_counted; counts; [lia|].
    by rewrite Es.
Qed.
End props.

(** ** Quorums *)

(** C4. However the goroutines interleave, an instance broadcasts at most one
    certificate per height - a height-2 proposal from the votes of height 1,
    a final vote from those of height 2 - only after [HightThreshold] votes of
    that height arrived, and once nothing is left to run it has done so
    exactly when that many arrived. *)
Theorem spb_quorum_certificates `{P : Prims} (env : SpbEnv) (h : Z) proposer view c :
  h = HEIGHT_1 \/ h = HEIGHT_2 ->
  HightThreshold (env_committee env) < 2 ^ 32 ->
  spb_reachable env proposer view c ->
  count (is_vote h) (cf_seen c) < 2 ^ 32 ->
  let produced := if decide (HightThreshold (env_committee env) <= count (is_vote h) (cf_seen c)) then 1 else 0 in
  count (is_cert h) (cf_sent c) <= produced /\
  (cf_pend c = [] -> count (is_cert h) (cf_sent c) = produced).
Proof.
  intros Hh HT Hr Hlt. assert (count_inv env h c) as [H1 H2 H3].
  { clear Hlt. revert c Hr. apply spb_invariant; eauto using count_inv_init, count_inv_step. }
  unfold counted in *. pose proof (count_nonneg (is_vote h) (cf_pend c)).
  pose proof (count_nonneg (is_vote_qc h) (cf_pend c)). specialize (H3 ltac:(lia)).
  split; [repeat case_decide; lia|]. intros E. rewrite E in H3. simpl in *. rewrite Z.sub_0_r in H3. lia.
Qed.

(** C11. The speed certificate is set only after [HightThreshold] speed votes for
    this proposer and view arrived, and once nothing is left to run it is set
    exactly then. *)
Theorem SpeedCert_quorum `{P : Prims} (env : SpbEnv) proposer view c :
  HightThreshold (env_committee env) < 2 ^ 32 ->
  spb_reachable env proposer view c ->
  count (is_speed_vote proposer view) (cf_seen c) < 2 ^ 32 ->
  (SpeedCert (spb_of c) = true ->
   HightThreshold (env_committee env) <= count (is_speed_vote proposer view) (cf_seen c)) /\
  (cf_pend c = [] -> SpeedCert (spb_of c) = true <->
   HightThreshold (env_committee env) <= count (is_speed_vote proposer view) (cf_seen c)).
Proof.
  intros HT Hr Hlt. assert (speed_inv env proposer view c) as [H1 H2 H3 H4].
  { clear Hlt. revert c Hr. apply spb_invariant; [|eauto using speed_inv_step].
    intros pool. split; unfold speed_counted; simpl; try done. intros _.
    pose proof (HightThreshold_pos (env_committee env)). split; [|lia]. intros [?|?]; [done|lia]. }
  unfold speed_counted, SpeedCert in *. pose proof (count_nonneg (is_speed_vote proposer view) (cf_pend c)).
  specialize (H4 ltac:(lia)). split; [intros E; destruct H4 as [H4 _]; specialize (H4 (or_introl E)); lia|].
  intros E. rewrite E in H4. simpl in H4. rewrite Z.sub_0_r in H4. rewrite <- H4. intuition lia.
Qed.

Lemma spb_quorum_certificates_witness : count (is_cert HEIGHT_1) (cf_sent SpbDemo.finish) = 1.
Proof.
  refine (proj2 (spb_quorum_certificates SpbDemo.env HEIGHT_1 1 0 SpbDemo.finish _ _ SpbDemo.finish_reachable _)
    SpbDemo.finish_pend).
  - by left.
  - vm_decide.
  - rewrite SpbDemo.finish_seen. vm_decide.
Defined.

Lemma SpeedCert_quorum_witness : SpeedCert (spb_of SpbDemo.finish) = true.
Proof.
  apply (proj2 (SpeedCert_quorum SpbDemo.env 1 0 SpbDemo.finish ltac:(vm_decide) SpbDemo.finish_reachable
    ltac:(rewrite SpbDemo.finish_seen; vm_decide)) SpbDemo.finish_pend).
  rewrite SpbDemo.finish_seen. vm_decide.
Defined.

(** ** Votes are counted, not compared *)

Section unchecked.
Context `{P : Prims} (env : SpbEnv).

Definition bump (st : SpbSt) : SpbSt := {|
  st_spb := set_voteNums (set2 (s_voteNums (st_spb st)) HEIGHT_1 (wrap32 ((s_voteNums (st_spb st)).1 + 1))) (st_spb st);
  st_pool := st_pool st |}.

Lemma vote_step v st :
  v_Height v = HEIGHT_1 ->
  spb_step env (TVote v) st = (Ok tt, bump st,
    if decide (wrap32 ((s_voteNums (st_spb st)).1 + 1) = quorum_size env) then [Spawn (TVoteQC v)] else []).
Proof.
  intros Hv. simpl. unfold processVoteMsg, on_spb. gom. rewrite Hv. unfold get2. rewrite decide_True by done.
  gom. unfold quorum_size. by destruct (decide _).
Qed.

(** Votes run one after the other start nothing until the last one. *)
Lemma count_votes vs v st :
  HightThreshold (env_committee env) < 2 ^ 31 ->
  Forall (fun u => v_Height u = HEIGHT_1) vs -> v_Height v = HEIGHT_1 -> 0 <= (s_voteNums (st_spb st)).1 ->
  (s_voteNums (st_spb st)).1 + Z.of_nat (length vs) + 1 = HightThreshold (env_committee env) ->
  exists st', spb_run env (TVote <$> vs ++ [v]) st = (Ok tt, st', [Spawn (TVoteQC v)]).
Proof.
  intros HT Hvs Hv. revert st. unfold quorum_size. induction Hvs as [|u vs Hu _ IH]; intros st H0 Hlen; simpl length in Hlen.
  - exists (bump st). change (spb_run env (TVote <$> [] ++ [v]) st) with ((_ ← spb_step env (TVote v); mret tt) st).
    gom. rewrite vote_step by done. unfold quorum_size.
    rewrite decide_True by (f_equal; lia). done.
  - assert ((s_voteNums (st_spb (bump st))).1 = (s_voteNums (st_spb st)).1 + 1) as E by (simpl; wrap_lia; done).
    destruct (IH (bump st)) as [st' E']; [lia..|]. exists st'.
    change (spb_run env (TVote <$> (u :: vs) ++ [v]) st)
      with ((_ ← spb_step env (TVote u); spb_run env (TVote <$> vs ++ [v])) st). gom. rewrite vote_step by done.
    unfold quorum_size. rewrite decide_False by (rewrite !wrap_small by (simpl; lia); lia). by rewrite E'.
Qed.
End unchecked.

(** A quorum is any [HightThreshold] votes of a height: their authors may
    repeat and the blocks they name may differ, and the certificate that is
    then proposed names the block of the last one. *)
Theorem votes_not_compared `{P : Prims} (env : SpbEnv) proposer view pool vs v :
  length (Prikey (PriKey (env_sigService env))) = 64%nat ->
  HightThreshold (env_committee env) < 2 ^ 31 ->
  Z.of_nat (length vs) + 1 = HightThreshold (env_committee env) ->
  Forall (fun u => v_Height u = HEIGHT_1) vs -> v_Height v = HEIGHT_1 ->
  exists st p B qc st',
    spb_run env (TVote <$> vs ++ [v]) {| st_spb := NewSPB proposer view; st_pool := pool |}
      = (Ok tt, st, [Spawn (TVoteQC v)]) /\
    spb_step env (TVoteQC v) st = (Ok tt, st', [Send (env_nodeID env) NONE (MPropose p); Self (MPropose p)]) /\
    p_B p = Some B /\ b_Qc B = Some qc /\ qc_ParentBlockHash qc = v_BlockHash v.
Proof.
  intros Hkey HT Hlen Hvs Hv.
  destruct (count_votes env vs v {| st_spb := NewSPB proposer view; st_pool := pool |} HT Hvs Hv) as [st E];
    [simpl; lia..|].
  destruct (spb_step_total env Hkey (TVoteQC v) st I) as (st' & effs & E').
  pose proof (spb_step_case env _ _ _ _ E') as Hc. inversion Hc as [| | | | | | | | |? batch m ? _ Hm|? ? ? Hh| | | | | | | |]; subst.
  - unfold NewProposeMsg, ProposeMsg_Hash in Hm. simpl in Hm.
    destruct (RequestSignature _ _) as [sig| |]; simplify_eq/=. by eexists st, _, _, _, st'.
  - by destruct Hh.
Qed.

Lemma votes_not_compared_witness :
  exists st, spb_run SpbDemo.env (TVote <$> [SpbDemo.vote 2 HEIGHT_1 []; SpbDemo.vote 2 HEIGHT_1 [Byte.x01]]
    ++ [SpbDemo.vote 2 HEIGHT_1 [Byte.x02]]) (cf_st SpbDemo.start)
    = (Ok tt, st, [Spawn (TVoteQC (SpbDemo.vote 2 HEIGHT_1 [Byte.x02]))]).
Proof.
  destruct (votes_not_compared SpbDemo.env 1 0 SpbDemo.pool [SpbDemo.vote 2 HEIGHT_1 []; SpbDemo.vote 2 HEIGHT_1 [Byte.x01]]
    (SpbDemo.vote 2 HEIGHT_1 [Byte.x02]) eq_refl ltac:(vm_decide) ltac:(vm_decide) ltac:(vm_decide) eq_refl)
    as (st & _ & _ & _ & _ & E & _).
  exists st. exact E.
Defined.
