(* ===== verification/Core.v ===== *)
(** * The lean protocol: the main loop of a node

    Models [src/core/core.go]: the state of [Core], one definition per handler,
    [processCoin] cut at its reads of a broadcast instance (goroutines of the
    instance run in between), [advanceView] and [Run].  The committer's queue
    and the pool are part of the state; messages a node puts into its own
    receive channel are [Self] effects, goroutines are [Spawn] effects.

    [elect, _ := NewElectMsg(...)] would put a nil message into the channels on
    an error, which the handler dereferences: the model panics at once. *)
From S2P Require Import Prelude Sha256 Crypto Committee Pool Message Store Commitor Elector Transmitor Spb.

(** [go corer.getSpbInstance(view, node).process...]: a piece of a goroutine of
    one broadcast instance. *)
Record CoreTask := GoSpb { g_view : Z; g_node : NodeID; g_task : SpbTask }.

(** Three counters indexed by level. *)
Definition get3 (a : Z * Z * Z) (i : Z) : option Z :=
  if decide (i = 0) then Some a.1.1 else if decide (i = 1) then Some a.1.2
  else if decide (i = 2) then Some a.2 else None.
Definition set3 (a : Z * Z * Z) (i : Z) (x : Z) : Z * Z * Z :=
  if decide (i = 0) then (x, a.1.2, a.2) else if decide (i = 1) then (a.1.1, x, a.2)
  else if decide (i = 2) then (a.1, x) else a.

Section core.
Context {D : Type} `{!DB D} `{P : Prims} `{C : BlockCodec}.

Record Core := {
  c_nodeID : NodeID;
  c_view : Z;
  c_height : Z;
  c_committee : Committee;
  c_parameters : Parameters;
  c_txpool : Pool;
  c_store : Store D;
  c_sigService : SigService;
  c_eletor : Elector;
  c_commitor : Commitor;
  c_coinViewFlags : gset Z;
  c_spbInstances : gmap Z (gmap NodeID SPB);
  c_finVoteNums : gmap Z (gset NodeID);
  c_reportNums : gmap Z (Z * Z * Z);
}.

Definition NewCore (nodeID : NodeID) (committee : Committee) (parameters : Parameters) (txpool : Pool)
    (store : Store D) (sigService : SigService) : Core := {|
  c_nodeID := nodeID; c_view := 0; c_height := HEIGHT_1; c_committee := committee; c_parameters := parameters;
  c_txpool := txpool; c_store := store; c_sigService := sigService;
  c_eletor := NewElector sigService committee; c_commitor := NewCommitor; c_coinViewFlags := ∅;
  c_spbInstances := ∅; c_finVoteNums := ∅; c_reportNums := ∅;
|}.

(** Assignments to one field. *)
Definition set_view (x : Z) (c : Core) : Core := {|
  c_nodeID := c_nodeID c; c_view := x; c_height := c_height c; c_committee := c_committee c;
  c_parameters := c_parameters c; c_txpool := c_txpool c; c_store := c_store c; c_sigService := c_sigService c;
  c_eletor := c_eletor c; c_commitor := c_commitor c; c_coinViewFlags := c_coinViewFlags c;
  c_spbInstances := c_spbInstances c; c_finVoteNums := c_finVoteNums c; c_reportNums := c_reportNums c |}.
Definition set_txpool (x : Pool) (c : Core) : Core := {|
  c_nodeID := c_nodeID c; c_view := c_view c; c_height := c_height c; c_committee := c_committee c;
  c_parameters := c_parameters c; c_txpool := x; c_store := c_store c; c_sigService := c_sigService c;
  c_eletor := c_eletor c; c_commitor := c_commitor c; c_coinViewFlags := c_coinViewFlags c;
  c_spbInstances := c_spbInstances c; c_finVoteNums := c_finVoteNums c; c_reportNums := c_reportNums c |}.
Definition set_store (x : Store D) (c : Core) : Core := {|
  c_nodeID := c_nodeID c; c_view := c_view c; c_height := c_height c; c_committee := c_committee c;
  c_parameters := c_parameters c; c_txpool := c_txpool c; c_store := x; c_sigService := c_sigService c;
  c_eletor := c_eletor c; c_commitor := c_commitor c; c_coinViewFlags := c_coinViewFlags c;
  c_spbInstances := c_spbInstances c; c_finVoteNums := c_finVoteNums c; c_reportNums := c_reportNums c |}.
Definition set_eletor (x : Elector) (c : Core) : Core := {|
  c_nodeID := c_nodeID c; c_view := c_view c; c_height := c_height c; c_committee := c_committee c;
  c_parameters := c_parameters c; c_txpool := c_txpool c; c_store := c_store c; c_sigService := c_sigService c;
  c_eletor := x; c_commitor := c_commitor c; c_coinViewFlags := c_coinViewFlags c;
  c_spbInstances := c_spbInstances c; c_finVoteNums := c_finVoteNums c; c_reportNums := c_reportNums c |}.
Definition set_commitor (x : Commitor) (c : Core) : Core := {|
  c_nodeID := c_nodeID c; c_view := c_view c; c_height := c_height c; c_committee := c_committee c;
  c_parameters := c_parameters c; c_txpool := c_txpool c; c_store := c_store c; c_sigService := c_sigService c;
  c_eletor := c_eletor c; c_commitor := x; c_coinViewFlags := c_coinViewFlags c;
  c_spbInstances := c_spbInstances c; c_finVoteNums := c_finVoteNums c; c_reportNums := c_reportNums c |}.
Definition set_coinViewFlags (x : gset Z) (c : Core) : Core := {|
  c_nodeID := c_nodeID c; c_view := c_view c; c_height := c_height c; c_committee := c_committee c;
  c_parameters := c_parameters c; c_txpool := c_txpool c; c_store := c_store c; c_sigService := c_sigService c;
  c_eletor := c_eletor c; c_commitor := c_commitor c; c_coinViewFlags := x;
  c_spbInstances := c_spbInstances c; c_finVoteNums := c_finVoteNums c; c_reportNums := c_reportNums c |}.
Definition set_spbInstances (x : gmap Z (gmap NodeID SPB)) (c : Core) : Core := {|
  c_nodeID := c_nodeID c; c_view := c_view c; c_height := c_height c; c_committee := c_committee c;
  c_parameters := c_parameters c; c_txpool := c_txpool c; c_store := c_store c; c_sigService := c_sigService c;
  c_eletor := c_eletor c; c_commitor := c_commitor c; c_coinViewFlags := c_coinViewFlags c;
  c_spbInstances := x; c_finVoteNums := c_finVoteNums c; c_reportNums := c_reportNums c |}.
Definition set_finVoteNums (x : gmap Z (gset NodeID)) (c : Core) : Core := {|
  c_nodeID := c_nodeID c; c_view := c_view c; c_height := c_height c; c_committee := c_committee c;
  c_parameters := c_parameters c; c_txpool := c_txpool c; c_store := c_store c; c_sigService := c_sigService c;
  c_eletor := c_eletor c; c_commitor := c_commitor c; c_coinViewFlags := c_coinViewFlags c;
  c_spbInstances := c_spbInstances c; c_finVoteNums := x; c_reportNums := c_reportNums c |}.
Definition set_reportNums (x : gmap Z (Z * Z * Z)) (c : Core) : Core := {|
  c_nodeID := c_nodeID c; c_view := c_view c; c_height := c_height c; c_committee := c_committee c;
  c_parameters := c_parameters c; c_txpool := c_txpool c; c_store := c_store c; c_sigService := c_sigService c;
  c_eletor := c_eletor c; c_commitor := c_commitor c; c_coinViewFlags := c_coinViewFlags c;
  c_spbInstances := c_spbInstances c; c_finVoteNums := c_finVoteNums c; c_reportNums := x |}.

Definition CoreM := GoM Core (Eff CoreTask).

(** *** Helpers *)

(** The instance of [node] in [view], if there is one. *)
Definition instance (c : Core) (view : Z) (node : NodeID) : option SPB :=
  c_spbInstances c !! view ≫= fun m => m !! node.

Definition set_instance (view : Z) (node : NodeID) (s : SPB) (c : Core) : Core :=
  set_spbInstances (<[view := <[node := s]> (default ∅ (c_spbInstances c !! view))]> (c_spbInstances c)) c.

(** Looks the instance up and makes it when it is missing. *)
Definition getSpbInstance (view : Z) (node : NodeID) : CoreM SPB :=
  c ← get;
  match instance c view node with
  | Some s => mret s
  | None => _ ← modify (set_instance view node (NewSPB node view)); mret (NewSPB node view)
  end.

Definition messageFilter (view : Z) (c : Core) : bool := bool_decide (view < c_view c).

Definition goSpb (view : Z) (node : NodeID) (t : SpbTask) : CoreM unit :=
  _ ← getSpbInstance view node;
  emit (Spawn (GoSpb view node t)).

(** Broadcast, and the same message to oneself. *)
Definition broadcast (m : ConsensusMessage) : CoreM unit :=
  c ← get;
  _ ← emit (Send (c_nodeID c) NONE m);
  emit (Self m).

Definition check_signature (ok : Res bool) (m : ConsensusMessage) (view author : Z) : CoreM unit :=
  b ← lift ok;
  if (b : bool) then mret tt else throw (ErrSignature (MsgType m) view author).

Definition core_generatorBlock (view height : Z) (qc : option BlockQC) : CoreM Block :=
  c ← get;
  let '(block, txpool) := generatorBlock (c_nodeID c) view height qc (c_txpool c) in
  _ ← modify (set_txpool txpool);
  mret block.

(** *** Handlers

    A handler returns where the main loop goes on: at the next message, or
    inside [processCoin] for a leader and a view. *)
Inductive MainPC :=
| Idle
| PSpeed (leader : NodeID) (view : Z)
| PSpeedCommit (leader : NodeID) (view : Z)
| PDec (leader : NodeID) (view : Z)
| PDecCommit (leader : NodeID) (view : Z)
| PReport (leader : NodeID) (view : Z).

Definition handleProposeMsg (p : ProposeMsg) : CoreM unit :=
  c ← get;
  _ ← check_signature (ProposeMsg_Verify p (c_committee c)) (MPropose p) (p_View p) (p_Author p);
  _ ← match p_DocG p with
      | None => mret tt
      | Some d => ok ← lift (DocGQCMsg_Verify d (c_committee c)); if (ok : bool) then mret tt else throw ErrDocG
      end;
  match p_B p with
  | None => panic
  | Some B =>
      st ← lift (storeBlock (c_store c) B);
      _ ← modify (set_store st);
      if messageFilter (p_View p) c then mret tt else goSpb (p_View p) (p_Author p) (TPropose p)
  end.

Definition handleVoteMsg (v : VoteMsg) : CoreM unit :=
  c ← get;
  if messageFilter (v_View v) c then mret tt else
  _ ← check_signature (VoteMsg_Verify v (c_committee c)) (MVote v) (v_View v) (v_Author v);
  goSpb (v_View v) (v_Proposer v) (TVote v).

Definition handleFinVoteMsg (fv : FinVoteMsg) : CoreM unit :=
  c ← get;
  if messageFilter (fv_View fv) c then mret tt else
  _ ← check_signature (FinVoteMsg_Verify fv (c_committee c)) (MFinVote fv) (fv_View fv) (fv_Author fv);
  let finVotes : gset NodeID := {[fv_Author fv]} ∪ default ∅ (c_finVoteNums c !! fv_View fv) in
  _ ← modify (fun c => set_finVoteNums (<[fv_View fv := finVotes]> (c_finVoteNums c)) c);
  _ ← (if decide (Z.of_nat (size finVotes) = HightThreshold (c_committee c)) then
         match NewElectMsg (c_nodeID c) (fv_View fv) (c_sigService c) with
         | Ok elect => broadcast (MElect elect)
         | _ => panic
         end
       else mret tt);
  goSpb (fv_View fv) (fv_Author fv) (TFinVote fv).

Definition handleSpeedVoteMsg (sv : SpeedVoteMsg) : CoreM unit :=
  c ← get;
  if messageFilter (sv_View sv) c then mret tt else
  _ ← check_signature (SpeedVoteMsg_Verify sv (c_committee c)) (MSpeedVote sv) (sv_View sv) (sv_Author sv);
  goSpb (sv_View sv) (sv_Proposer sv) (TSpeedVote sv).

(** [processCoin] up to its first read of the instance. *)
Definition processCoin (leader : NodeID) (view : Z) : CoreM MainPC :=
  c ← get;
  if decide (view ∈ c_coinViewFlags c) then mret Idle
  else _ ← getSpbInstance view leader; mret (PSpeed leader view).

Definition handleElectMsg (e : ElectMsg) : CoreM MainPC :=
  c ← get;
  if messageFilter (e_View e) c then mret Idle else
  if negb (ElectMsg_Verify e) then throw (ErrSignature ElectType (e_View e) (e_Author e)) else
  let '(r, eletor) := Elector_Add (c_eletor c) e in
  _ ← modify (set_eletor eletor);
  leader ← lift r;
  if decide (leader <> NONE) then
    coinMsg ← lift (NewRandomCoinMsg leader (c_nodeID c) (e_View e) (c_sigService c));
    _ ← emit (Send (c_nodeID c) NONE (MCoin coinMsg));
    processCoin leader (e_View e)
  else mret Idle.

Definition handleCoinMsg (rmsg : RandomCoinMsg) : CoreM MainPC :=
  c ← get;
  _ ← check_signature (RandomCoinMsg_Verify rmsg (c_committee c)) (MCoin rmsg) (rc_View rmsg) (rc_Author rmsg);
  processCoin (rc_Leader rmsg) (rc_View rmsg).

(** Fetch a block by its digest and hand it to the committer. *)
Definition commit_digest (d : Digest) : CoreM unit :=
  c ← get;
  block ← lift (getBlock (c_store c) d);
  modify (fun c => set_commitor (Commit (c_commitor c) block) c).

(** One read of the instance and what follows up to the next read. *)
Definition processCoin_seg (pc : MainPC) : CoreM MainPC :=
  match pc with
  | Idle => mret Idle
  | PSpeed leader view =>
      s ← getSpbInstance view leader;
      mret (if SpeedCert s then PSpeedCommit leader view else PDec leader view)
  | PSpeedCommit leader view =>
      s ← getSpbInstance view leader;
      _ ← commit_digest (SPB_BlockHash s HEIGHT_2);
      mret (PReport leader view)
  | PDec leader view =>
      s ← getSpbInstance view leader;
      mret (if DecCert s then PDecCommit leader view else PReport leader view)
  | PDecCommit leader view =>
      s ← getSpbInstance view leader;
      _ ← commit_digest (SPB_BlockHash s HEIGHT_1);
      mret (PReport leader view)
  | PReport leader view =>
      s ← getSpbInstance view leader;
      c ← get;
      let '(level, qc) := QCLEvel s in
      report ← lift (NewReportMsg (c_nodeID c) view level qc (c_sigService c));
      _ ← broadcast (MReport report);
      _ ← modify (fun c => set_coinViewFlags ({[view]} ∪ c_coinViewFlags c) c);
      mret Idle
  end.

Definition advanceView (view : Z) (qc : option BlockQC) (docG : option DocGQCMsg) : CoreM unit :=
  c ← get;
  if decide (view <= c_view c) then mret tt else
  _ ← modify (set_view view);
  block ← core_generatorBlock view HEIGHT_1 qc;
  propose ← lift (NewProposeMsg block (c_sigService c));
  broadcast (MPropose {| p_Author := p_Author propose; p_B := p_B propose; p_View := p_View propose;
                         p_Height := p_Height propose; p_DocG := docG; p_Signature := p_Signature propose |}).

Definition report_quorum (nums : Z * Z * Z) (threshold : Z) : Prop :=
  get3 nums LEVEL_2 = Some 1 \/ get3 nums LEVEL_1 = Some threshold \/ get3 nums LEVEL_0 = Some threshold.

#[global] Instance report_quorum_dec nums threshold : Decision (report_quorum nums threshold).
Proof. unfold report_quorum. apply _. Defined.

Definition handleReportMsg (r : ReportMsg) : CoreM unit :=
  c ← get;
  if messageFilter (r_View r) c then mret tt else
  _ ← check_signature (ReportMsg_Verify r (c_committee c)) (MReport r) (r_View r) (r_Author r);
  let nums := default (0, 0, 0) (c_reportNums c !! r_View r) in
  match get3 nums (r_Level r) with
  | None => panic
  | Some n =>
      let nums := set3 nums (r_Level r) (wrap64 (n + 1)) in
      _ ← modify (fun c => set_reportNums (<[r_View r := nums]> (c_reportNums c)) c);
      if decide (report_quorum nums (HightThreshold (c_committee c))) then
        advanceView (wrap64 (r_View r + 1)) (r_BlockQc r) (Some (NewDocGQCMsg (r_View r) (r_Level r) []))
      else mret tt
  end.

(** The [switch] of the main loop. *)
Definition handle (m : ConsensusMessage) : CoreM MainPC :=
  match m with
  | MPropose p => _ ← handleProposeMsg p; mret Idle
  | MVote v => _ ← handleVoteMsg v; mret Idle
  | MFinVote fv => _ ← handleFinVoteMsg fv; mret Idle
  | MSpeedVote sv => _ ← handleSpeedVoteMsg sv; mret Idle
  | MElect e => handleElectMsg e
  | MCoin rc => handleCoinMsg rc
  | MReport r => _ ← handleReportMsg r; mret Idle
  end.

(** What [Run] does before the loop; a node below [Faults] does nothing. *)
Definition Run_first : CoreM unit :=
  c ← get;
  block ← core_generatorBlock (c_view c) (c_height c) None;
  propose ← lift (NewProposeMsg block (c_sigService c));
  broadcast (MPropose propose).

Definition runs_protocol (c : Core) : bool := bool_decide (Faults (c_parameters c) <= c_nodeID c).
End core.
Arguments Core D {_}.
Arguments CoreM D {_} _.
