(* ===== verification/CoreExec.v ===== *)
(** * Executions of a lean node

    The main loop, the goroutines of the broadcast instances, the committer
    and the network as one transition system.  The network may deliver any
    message at any time; the main loop handles one message at a time and can
    be in the middle of [processCoin] while goroutines run.  [n_started] and
    [n_handled] are histories: they record, and nothing reads them. *)
From S2P Require Import Prelude Sha256 Crypto Committee Pool Message Store Commitor Elector Transmitor Spb SpbExec Core.

Section node.
Context {D : Type} `{!DB D} `{P : Prims} `{C : BlockCodec}.

Record Node := {
  n_core : Core D;
  n_recv : list ConsensusMessage;
  n_tasks : list CoreTask;
  n_main : MainPC;
  n_out : list (Eff CoreTask);
  n_started : list CoreTask;
  n_handled : list ConsensusMessage;
}.

Definition selfs {T} (effs : list (Eff T)) : list ConsensusMessage :=
  omap (fun e => match e with Self m => Some m | _ => None end) effs.

Definition env_of (c : Core D) : SpbEnv :=
  {| env_nodeID := c_nodeID c; env_committee := c_committee c; env_sigService := c_sigService c |}.

(** One piece of a goroutine, on its instance and the pool of the node. *)
Definition run_task (g : CoreTask) : CoreM D unit := fun c =>
  match instance c (g_view g) (g_node g) with
  | None => (Panic, c, [])
  | Some s =>
      let '(r, st, effs) := spb_step (env_of c) (g_task g) {| st_spb := s; st_pool := c_txpool c |} in
      (r, set_instance (g_view g) (g_node g) (st_spb st) (set_txpool (st_pool st) c),
       Eff_map (GoSpb (g_view g) (g_node g)) <$> effs)
  end.

(** Where the loop goes on after a handler; an error is logged. *)
Definition next_pc (r : Res MainPC) : MainPC := match r with Ok pc => pc | _ => Idle end.

Inductive node_step : Node -> Node -> Prop :=
| ns_deliver nd m :
    node_step nd {| n_core := n_core nd; n_recv := n_recv nd ++ [m]; n_tasks := n_tasks nd; n_main := n_main nd;
                    n_out := n_out nd; n_started := n_started nd; n_handled := n_handled nd |}
| ns_handle nd m rest r c' effs :
    n_main nd = Idle -> n_recv nd = m :: rest -> handle m (n_core nd) = (r, c', effs) -> r <> Panic ->
    node_step nd {| n_core := c'; n_recv := rest ++ selfs effs; n_tasks := n_tasks nd ++ spawned effs;
                    n_main := next_pc r; n_out := n_out nd ++ outputs effs;
                    n_started := n_started nd ++ spawned effs; n_handled := n_handled nd ++ [m] |}
| ns_coin nd r c' effs :
    n_main nd <> Idle -> processCoin_seg (n_main nd) (n_core nd) = (r, c', effs) -> r <> Panic ->
    node_step nd {| n_core := c'; n_recv := n_recv nd ++ selfs effs; n_tasks := n_tasks nd ++ spawned effs;
                    n_main := next_pc r; n_out := n_out nd ++ outputs effs;
                    n_started := n_started nd ++ spawned effs; n_handled := n_handled nd |}
| ns_task nd l1 g l2 c' effs :
    n_tasks nd = l1 ++ g :: l2 -> run_task g (n_core nd) = (Ok tt, c', effs) ->
    node_step nd {| n_core := c'; n_recv := n_recv nd ++ selfs effs; n_tasks := l1 ++ l2 ++ spawned effs;
                    n_main := n_main nd; n_out := n_out nd ++ outputs effs;
                    n_started := n_started nd; n_handled := n_handled nd |}
| ns_pool nd pool :
    node_step nd {| n_core := set_txpool pool (n_core nd); n_recv := n_recv nd; n_tasks := n_tasks nd;
                    n_main := n_main nd; n_out := n_out nd; n_started := n_started nd; n_handled := n_handled nd |}
| ns_commit nd fuel reads com :
    Commitor_run fuel reads (c_commitor (n_core nd)) = Some com ->
    node_step nd {| n_core := set_commitor com (n_core nd); n_recv := n_recv nd; n_tasks := n_tasks nd;
                    n_main := n_main nd; n_out := n_out nd; n_started := n_started nd; n_handled := n_handled nd |}.

(** A node that has made its first proposal. *)
Inductive node_init (nodeID : NodeID) (committee : Committee) (parameters : Parameters) (sigService : SigService)
    : Node -> Prop :=
| node_init_run txpool store c effs :
    runs_protocol (NewCore nodeID committee parameters txpool store sigService) = true ->
    Run_first (NewCore nodeID committee parameters txpool store sigService) = (Ok tt, c, effs) ->
    node_init nodeID committee parameters sigService
      {| n_core := c; n_recv := selfs effs; n_tasks := []; n_main := Idle; n_out := outputs effs;
         n_started := []; n_handled := [] |}.

Definition node_reachable nodeID committee parameters sigService (nd : Node) : Prop :=
  exists nd0, node_init nodeID committee parameters sigService nd0 /\ rtc node_step nd0 nd.

Lemma node_invariant (I : Node -> Prop) nodeID committee parameters sigService :
  (forall nd, node_init nodeID committee parameters sigService nd -> I nd) ->
  (forall nd nd', I nd -> node_step nd nd' -> I nd') ->
  forall nd, node_reachable nodeID committee parameters sigService nd -> I nd.
Proof.
  intros H0 Hs nd (nd0 & Hi & Hr).
  assert (forall x y, rtc node_step x y -> I x -> I y) as Hind by (induction 1; eauto). eauto.
Qed.

(** *** Schedules *)

Inductive NAct := NDeliver (m : ConsensusMessage) | NHandle | NCoin | NTask (i : nat).

Definition is_idle (pc : MainPC) : bool := match pc with Idle => true | _ => false end.

Definition do_nact (nd : Node) (a : NAct) : option Node :=
  match a with
  | NDeliver m =>
      Some {| n_core := n_core nd; n_recv := n_recv nd ++ [m]; n_tasks := n_tasks nd; n_main := n_main nd;
              n_out := n_out nd; n_started := n_started nd; n_handled := n_handled nd |}
  | NHandle =>
      match n_main nd, n_recv nd with
      | Idle, m :: rest =>
          match handle m (n_core nd) with
          | (Panic, _, _) => None
          | (r, c', effs) =>
              Some {| n_core := c'; n_recv := rest ++ selfs effs; n_tasks := n_tasks nd ++ spawned effs;
                      n_main := next_pc r; n_out := n_out nd ++ outputs effs;
                      n_started := n_started nd ++ spawned effs; n_handled := n_handled nd ++ [m] |}
          end
      | _, _ => None
      end
  | NCoin =>
      if is_idle (n_main nd) then None else
      match processCoin_seg (n_main nd) (n_core nd) with
      | (Panic, _, _) => None
      | (r, c', effs) =>
          Some {| n_core := c'; n_recv := n_recv nd ++ selfs effs; n_tasks := n_tasks nd ++ spawned effs;
                  n_main := next_pc r; n_out := n_out nd ++ outputs effs;
                  n_started := n_started nd ++ spawned effs; n_handled := n_handled nd |}
      end
  | NTask i =>
      g ← n_tasks nd !! i;
      match run_task g (n_core nd) with
      | (Ok tt, c', effs) =>
          Some {| n_core := c'; n_recv := n_recv nd ++ selfs effs;
                  n_tasks := take i (n_tasks nd) ++ drop (S i) (n_tasks nd) ++ spawned effs;
                  n_main := n_main nd; n_out := n_out nd ++ outputs effs;
                  n_started := n_started nd; n_handled := n_handled nd |}
      | _ => None
      end
  end.

Fixpoint do_nacts (nd : Node) (acts : list NAct) : option Node :=
  match acts with
  | [] => Some nd
  | a :: acts => nd' ← do_nact nd a; do_nacts nd' acts
  end.

Lemma do_nact_step nd a nd' : do_nact nd a = Some nd' -> node_step nd nd'.
Proof.
  destruct a as [m| | |i]; simpl.
  - intros [= <-]. apply ns_deliver.
  - destruct (n_main nd) eqn:Em; [|done..]. destruct (n_recv nd) as [|m rest] eqn:Er; [done|].
    destruct (handle m (n_core nd)) as [[r c'] effs] eqn:Eh.
    destruct r; intros; simplify_eq; by apply (ns_handle nd m rest _ c' effs).
  - destruct (is_idle (n_main nd)) eqn:Em; [done|].
    assert (n_main nd <> Idle) by (intros E; by rewrite E in Em).
    destruct (processCoin_seg (n_main nd) (n_core nd)) as [[r c'] effs] eqn:Eh.
    destruct r; intros; simplify_eq; by apply (ns_coin nd _ c' effs).
  - destruct (n_tasks nd !! i) as [g|] eqn:El; [|done]. simpl.
    destruct (run_task g (n_core nd)) as [[[[]| |] c'] effs] eqn:Er; [|done..]. intros [= <-].
    apply (ns_task nd _ g); [|done]. by rewrite take_drop_middle.
Qed.

(** The state after [Run]'s first proposal. *)
Definition node_start (nodeID : NodeID) (committee : Committee) (parameters : Parameters) (sigService : SigService)
    (txpool : Pool) (store : Store D) : option Node :=
  let c0 := NewCore nodeID committee parameters txpool store sigService in
  if runs_protocol c0 then
    match Run_first c0 with
    | (Ok tt, c, effs) =>
        Some {| n_core := c; n_recv := selfs effs; n_tasks := []; n_main := Idle; n_out := outputs effs;
                n_started := []; n_handled := [] |}
    | _ => None
    end
  else None.

Lemma do_nacts_reachable nodeID committee parameters sigService txpool store acts nd :
  (node_start nodeID committee parameters sigService txpool store ≫= fun nd0 => do_nacts nd0 acts) = Some nd ->
  node_reachable nodeID committee parameters sigService nd.
Proof.
  destruct (node_start _ _ _ _ _ _) as [nd0|] eqn:E0; [|done]. simpl. intros H. exists nd0. split.
  - unfold node_start in E0. destruct (runs_protocol _) eqn:Ep; [|done].
    destruct (Run_first _) as [[[[]| |] c] effs] eqn:Er; simplify_eq. by eapply node_init_run.
  - clear E0. revert nd0 H. induction acts as [|a acts IH]; intros nd0; simpl; [by intros [= <-]|].
    destruct (do_nact nd0 a) as [nd1|] eqn:E; [|done]. simpl. intros H%IH.
    eapply rtc_l; [by eapply do_nact_step|done].
Qed.
End node.
Arguments Node D {_}.

(** ** A concrete node

    Node 1 of four.  Leader 2's blocks and final vote arrive and run, then a
    coin for leader 2; after that a level-2 report of node 3. *)
Module CoreDemo.
#[global] Instance prims : Prims := demo_prims pad32.

Abbreviation MemDB := (gmap bytes bytes).

Definition committee : Committee := demo_committee 4.
Definition service (i : nat) : SigService := demo_service pad32 i 4 3.

Definition ok {A} (d : A) (r : Res A) : A := match r with Ok a => a | _ => d end.

Definition block1 : Block := demo_block 2 0 HEIGHT_1 5.
Definition qc_for (h : Z) (d : Digest) : BlockQC :=
  {| qc_View := 0; qc_Height := h; qc_Proposer := 2; qc_ParentBlockHash := d; qc_Shares := ∅ |}.
Definition block2 : Block :=
  {| b_Author := 2; b_View := 0; b_Height := HEIGHT_2; b_Batch := {| ID := 9; Txs := [] |};
     b_Qc := Some (qc_for HEIGHT_1 (Block_Hash block1)); b_References := [] |}.

Definition propose (B : Block) : ProposeMsg :=
  ok {| p_Author := 0; p_B := None; p_View := 0; p_Height := 0; p_DocG := None; p_Signature := SpbDemo.unsigned |}
    (NewProposeMsg B (service 2)).
Definition final : FinVoteMsg :=
  ok SpbDemo.final (NewFinVoteMsg 2 0 (Some (qc_for HEIGHT_2 (Block_Hash block2))) (service 2)).
Definition coin (leader : NodeID) : RandomCoinMsg :=
  ok {| rc_Leader := 0; rc_View := 0; rc_Author := 0; rc_Signature := SpbDemo.unsigned |}
    (NewRandomCoinMsg leader 3 0 (service 3)).
Definition report (level : Z) : ReportMsg :=
  ok {| r_Author := 0; r_View := 0; r_Level := 0; r_BlockQc := None; r_Signature := SpbDemo.unsigned |}
    (NewReportMsg 3 0 level None (service 3)).

Definition run (acts : list NAct) : option (Node MemDB) :=
  node_start (D := MemDB) 1 committee DefaultParameters (service 1) SpbDemo.pool mem_store_empty
  ≫= fun nd => do_nacts nd acts.

Definition empty_node : Node MemDB := {|
  n_core := NewCore 1 committee DefaultParameters SpbDemo.pool mem_store_empty (service 1);
  n_recv := []; n_tasks := []; n_main := Idle; n_out := []; n_started := []; n_handled := [] |}.

(** The leader's messages are handled, its goroutines run, the coin arrives. *)
Definition to_commit : list NAct :=
  [NHandle; NDeliver (MPropose (propose block1)); NHandle; NDeliver (MPropose (propose block2)); NHandle;
   NDeliver (MFinVote final); NHandle] ++ replicate 11 (NTask 0) ++
  [NDeliver (MCoin (coin 2))] ++ replicate 2 NHandle ++ replicate 2 NCoin.

Definition committing : Node MemDB := default empty_node (run to_commit).

Definition to_next_view : list NAct := to_commit ++ [NCoin; NCoin; NDeliver (MReport (report LEVEL_2)); NHandle; NHandle].
Definition advanced : Node MemDB := default empty_node (run to_next_view).

Lemma committing_reachable : node_reachable 1 committee DefaultParameters (service 1) committing.
Proof.
  apply (do_nacts_reachable 1 committee DefaultParameters (service 1) SpbDemo.pool mem_store_empty to_commit).
  apply (default_Some empty_node). vm_compute. reflexivity.
Qed.
Lemma advanced_reachable : node_reachable 1 committee DefaultParameters (service 1) advanced.
Proof.
  apply (do_nacts_reachable 1 committee DefaultParameters (service 1) SpbDemo.pool mem_store_empty to_next_view).
  apply (default_Some empty_node). vm_compute. reflexivity.
Qed.
Lemma committing_instance :
  match instance (n_core committing) 0 2 with Some _ => true | None => false end = true.
Proof. vm_compute. reflexivity. Qed.
Lemma committing_main : n_main committing = PDecCommit 2 0.
Proof. vm_compute. reflexivity. Qed.
End CoreDemo.
