(* ===== verification/CoreInst.v ===== *)
(** * The broadcast instances of a lean node

    Every instance inside a running node is a run of [SpbExec]: the handlers
    only create fresh instances and start goroutines for arrived messages, and
    a goroutine only touches its own instance and the pool.  So what is proved
    about all executions of an instance holds inside the node. *)
From S2P Require Import Prelude Sha256 Crypto Committee Pool Message Store Commitor Elector Transmitor Spb SpbExec SpbCert SpbProps Core CoreExec.

Section inst.
Context {D : Type} `{!DB D} `{P : Prims} `{C : BlockCodec}.

(** What the main loop does to the instances. *)
Record inst_trace (c c' : Core D) (effs : list (Eff CoreTask)) : Prop := {
  it_env : env_of c' = env_of c;
  it_inst v n : instance c' v n = instance c v n \/ (instance c v n = None /\ instance c' v n = Some (NewSPB n v));
  it_spawn : Forall (fun g => root_task (g_task g) = true /\ instance c' (g_view g) (g_node g) <> None) (spawned effs);
}.

#[global] Instance inst_trace_trace : Trace inst_trace.
Proof.
  split.
  - intros c. split; simpl; auto.
  - intros c1 c2 c3 es1 es2 [E1 I1 S1] [E2 I2 S2]. split; [by rewrite E2| |].
    + intros v n. destruct (I1 v n) as [H1|[H1 H1']], (I2 v n) as [H2|[H2 H2']]; rewrite ?H2, ?H1 in *; auto; congruence.
    + rewrite spawned_app, Forall_app. split; [|done]. eapply Forall_impl; [exact S1|]. intros g [Hr Hi].
      split; [done|]. by destruct (I2 (g_view g) (g_node g)) as [-> | [? _]].
Qed.

Lemma instance_set c v n s v' n' :
  instance (set_instance (D := D) v n s c) v' n' = if decide (v = v' /\ n = n') then Some s else instance c v' n'.
Proof.
  unfold instance, set_instance. simpl. destruct (decide (v = v')) as [<-|Hv].
  - rewrite lookup_insert_eq. simpl. destruct (decide (n = n')) as [<-|Hn].
    + by rewrite lookup_insert_eq, decide_True.
    + rewrite lookup_insert_ne by done. rewrite decide_False by tauto. by destruct (c_spbInstances c !! v).
  - rewrite lookup_insert_ne by done. by rewrite decide_False by tauto.
Qed.

(** Changing other fields. *)
Lemma inst_trace_same c c' : env_of c' = env_of c -> c_spbInstances c' = c_spbInstances c -> inst_trace c c' [].
Proof. intros E1 E2. split; [done| |by simpl]. intros v n. left. unfold instance. by rewrite E2. Qed.

Lemma inst_trace_out c e : spawned [e] = [] -> inst_trace c c [e].
Proof. intros E. split; [done|auto|]. by rewrite E. Qed.

Lemma getSpbInstance_shape c v n r c' es :
  getSpbInstance v n c = (r, c', es) -> inst_trace c c' [] /\ es = [] /\ instance c' v n <> None.
Proof.
  unfold getSpbInstance. gom. destruct (instance c v n) as [s|] eqn:E; gom; intros [= <- <- <-].
  - split_and!; [apply trace_refl|done|by rewrite E].
  - split_and!; [|done|by rewrite instance_set, decide_True].
    split; [done| |by simpl]. intros v' n'. rewrite instance_set. case_decide as Hd; [|by left]. destruct Hd as [<- <-]. by right.
Qed.

Lemma getSpbInstance_trace c v n : spec_at c (getSpbInstance v n) inst_trace.
Proof. intros r c' es H. by apply getSpbInstance_shape in H as (? & -> & _). Qed.

Lemma goSpb_trace c v n t : root_task t = true -> spec_at c (goSpb v n t) inst_trace.
Proof.
  intros Ht r c' es. unfold goSpb. cbv [mbind GoM_bind emit].
  destruct (getSpbInstance v n c) as [[r1 c1] es1] eqn:E. apply getSpbInstance_shape in E as (H & -> & Hi).
  destruct r1; intros [= <- <- <-]; [|done..].
  destruct H as [H1 H2 _]. split; [done|done|]. simpl. by apply Forall_singleton.
Qed.

Lemma broadcast_trace c m : spec_at c (broadcast m) inst_trace.
Proof. unfold broadcast. repeat spec_step; by apply inst_trace_out. Qed.

Lemma check_signature_trace c ok m v a : spec_at c (check_signature ok m v a) inst_trace.
Proof. unfold check_signature. repeat spec_step. Qed.

Lemma generatorBlock_trace c v h qc : spec_at c (core_generatorBlock v h qc) inst_trace.
Proof. unfold core_generatorBlock. repeat spec_step. by apply inst_trace_same. Qed.

Hint Resolve getSpbInstance_trace goSpb_trace broadcast_trace check_signature_trace generatorBlock_trace : go.

Ltac inst_trace :=
  repeat first [solve [eauto with go] | spec_step | by apply inst_trace_same | by apply inst_trace_out].

Lemma advanceView_trace c v qc d : spec_at c (advanceView v qc d) inst_trace.
Proof. unfold advanceView. inst_trace. Qed.
Lemma processCoin_trace c l v : spec_at c (processCoin l v) inst_trace.
Proof. unfold processCoin. inst_trace. Qed.
Lemma commit_digest_trace c d : spec_at c (commit_digest d) inst_trace.
Proof. unfold commit_digest. inst_trace. Qed.

Hint Resolve advanceView_trace processCoin_trace commit_digest_trace : go.

Lemma handle_inst_trace c m : spec_at c (handle m) inst_trace.
Proof.
  destruct m; simpl; unfold handleProposeMsg, handleVoteMsg, handleFinVoteMsg, handleSpeedVoteMsg, handleElectMsg,
    handleCoinMsg, handleReportMsg; inst_trace.
Qed.
Lemma processCoin_seg_inst_trace c pc : spec_at c (processCoin_seg pc) inst_trace.
Proof. destruct pc; simpl; inst_trace. Qed.
Lemma Run_first_inst_trace c : spec_at c Run_first inst_trace.
Proof. unfold Run_first. inst_trace. Qed.

(** ** Projection to one instance *)

Definition tasks_of (v : Z) (n : NodeID) (l : list CoreTask) : list SpbTask :=
  omap (fun g => if decide (v = g_view g /\ n = g_node g) then Some (g_task g) else None) l.

Lemma tasks_of_app v n l1 l2 : tasks_of v n (l1 ++ l2) = tasks_of v n l1 ++ tasks_of v n l2.
Proof. apply omap_app. Qed.

Lemma tasks_of_cons v n g l :
  tasks_of v n (g :: l) = (if decide (v = g_view g /\ n = g_node g) then [g_task g] else []) ++ tasks_of v n l.
Proof. unfold tasks_of. csimpl. by case_decide. Qed.

Lemma tasks_of_GoSpb v n v' n' ts :
  tasks_of v n (GoSpb v' n' <$> ts) = if decide (v = v' /\ n = n') then ts else [].
Proof.
  induction ts as [|t ts IH]; [by case_decide|]. rewrite fmap_cons, tasks_of_cons, IH. simpl. by case_decide.
Qed.

Lemma spawned_map v n (effs : list (Eff SpbTask)) : spawned (Eff_map (GoSpb v n) <$> effs) = GoSpb v n <$> spawned effs.
Proof. induction effs as [|[] effs IH]; csimpl; rewrite ?IH; done. Qed.

Lemma tasks_of_root v n l :
  Forall (fun g => root_task (g_task g) = true) l -> Forall (fun t => root_task t = true) (tasks_of v n l).
Proof. induction 1; [done|]. rewrite tasks_of_cons. case_decide; simpl; auto. Qed.

Lemma tasks_of_none v n l :
  Forall (fun g => ~ (v = g_view g /\ n = g_node g)) l -> tasks_of v n l = [].
Proof. induction 1; [done|]. rewrite tasks_of_cons. by rewrite decide_False. Qed.

(** The instance of [n] in view [v] is a reachable configuration whose pending
    and arrived messages are the node's. *)
Definition simulated (env : SpbEnv) (v : Z) (n : NodeID) (s : SPB) (pend seen : list SpbTask) : Prop :=
  exists cf, spb_reachable env n v cf /\ spb_of cf = s /\ cf_pend cf = pend /\ cf_seen cf = seen.

Lemma simulated_new env v n : simulated env v n (NewSPB n v) [] [].
Proof.
  eexists (spb_init n v (Build_Pool PoolParameters.DefaultParameters
    (Build_txQueue [] [] 0 0 0 0 0 0 0 0) (Build_txMaker 0 0))).
  split_and!; try done. eexists. reflexivity.
Qed.

Lemma simulated_arrive env v n s pend seen ts :
  Forall (fun t => root_task t = true) ts -> simulated env v n s pend seen ->
  simulated env v n s (pend ++ ts) (seen ++ ts).
Proof.
  intros Hts. revert pend seen. induction Hts as [|t ts Ht _ IH]; intros pend seen; [by rewrite !app_nil_r|].
  intros (cf & [pool Hr] & <- & <- & <-). rewrite !(cons_middle t), !app_assoc. apply IH.
  eexists. split_and!; [exists pool; eapply rtc_r; [exact Hr|]; by apply (exec_arrive env cf t)|done..].
Qed.

Lemma simulated_run env v n s pool t l1 l2 seen st effs :
  simulated env v n s (l1 ++ t :: l2) seen ->
  spb_step env t {| st_spb := s; st_pool := pool |} = (Ok tt, st, effs) ->
  simulated env v n (st_spb st) (l1 ++ l2 ++ spawned effs) seen.
Proof.
  intros (cf & [pool0 Hr] & Es & Ep & <-) Hstep.
  pose (cf1 := {| cf_st := {| st_spb := spb_of cf; st_pool := pool |}; cf_pend := cf_pend cf; cf_seen := cf_seen cf;
                  cf_sent := cf_sent cf |}).
  assert (rtc (spb_exec env) (spb_init n v pool0) cf1) as Hr1.
  { eapply rtc_r; [exact Hr|]. apply (exec_pool env cf pool). }
  eexists. split_and!; [exists pool0; eapply rtc_r; [exact Hr1|]; apply exec_run, (runs_task env cf1 l1 t l2 st effs)|done..];
    subst cf1; simpl; [done|]. by rewrite Es.
Qed.

Record inst_inv (env : SpbEnv) (nd : Node D) : Prop := {
  ii_env : env_of (n_core nd) = env;
  ii_sim v n : match instance (n_core nd) v n with
    | Some s => simulated env v n s (tasks_of v n (n_tasks nd)) (tasks_of v n (n_started nd))
    | None => tasks_of v n (n_tasks nd) = [] /\ tasks_of v n (n_started nd) = []
    end;
}.

(** A step of the main loop. *)
Lemma inst_inv_main env nd c' effs nd' :
  inst_trace (n_core nd) c' effs -> n_core nd' = c' ->
  n_tasks nd' = n_tasks nd ++ spawned effs -> n_started nd' = n_started nd ++ spawned effs ->
  inst_inv env nd -> inst_inv env nd'.
Proof.
  intros [T1 T2 T3] Ec Et Es [I1 I2]. split; rewrite Ec; [by rewrite T1|].
  intros v n. rewrite Et, Es, !tasks_of_app. specialize (I2 v n).
  assert (Forall (fun t => root_task t = true) (tasks_of v n (spawned effs))) as Hroot.
  { apply tasks_of_root. eapply Forall_impl; [exact T3|]. by intros ? []. }
  destruct (T2 v n) as [E|[E E']].
  - rewrite E. destruct (instance (n_core nd) v n) as [s|] eqn:Ei; [by apply simulated_arrive|].
    destruct I2 as [-> ->]. rewrite tasks_of_none; [done|]. eapply Forall_impl; [exact T3|].
    intros g [_ Hg] [-> ->]. congruence.
  - rewrite E'. rewrite E in I2. destruct I2 as [-> ->]. by apply (simulated_arrive env v n _ [] []), simulated_new.
Qed.

(** A step of a goroutine. *)
Lemma inst_inv_task env nd l1 g l2 c' effs nd' :
  n_tasks nd = l1 ++ g :: l2 -> run_task g (n_core nd) = (Ok tt, c', effs) -> n_core nd' = c' ->
  n_tasks nd' = l1 ++ l2 ++ spawned effs -> n_started nd' = n_started nd ->
  inst_inv env nd -> inst_inv env nd'.
Proof.
  intros El Hrun Ec Et Es [I1 I2]. unfold run_task in Hrun.
  destruct (instance (n_core nd) (g_view g) (g_node g)) as [s|] eqn:Ei; [|done].
  rewrite I1 in Hrun. destruct (spb_step env (g_task g) _) as [[r st] effs0] eqn:Estep.
  injection Hrun as -> <- <-. split; rewrite Ec; [by rewrite <- I1|].
  intros v n. rewrite instance_set, Et, Es, spawned_map, !tasks_of_app, tasks_of_GoSpb.
  specialize (I2 v n). rewrite El, tasks_of_app, tasks_of_cons in I2.
  destruct (decide (g_view g = v /\ g_node g = n)) as [[<- <-]|Hne].
  - rewrite Ei, decide_True in I2 by done. rewrite decide_True by done. by eapply simulated_run.
  - rewrite decide_False in I2 by (intros [-> ->]; tauto). rewrite decide_False by (intros [-> ->]; tauto).
    rewrite app_nil_r. exact I2.
Qed.

Lemma inst_inv_reachable nodeID committee parameters sigService nd :
  node_reachable nodeID committee parameters sigService nd ->
  inst_inv {| env_nodeID := nodeID; env_committee := committee; env_sigService := sigService |} nd.
Proof.
  revert nd. apply node_invariant.
  - intros nd [txpool store c effs _ Hrun]. pose proof (Run_first_inst_trace _ _ _ _ Hrun) as T.
    eapply (inst_inv_main _ {| n_core := NewCore nodeID committee parameters txpool store sigService; n_recv := [];
      n_tasks := []; n_main := Idle; n_out := []; n_started := []; n_handled := [] |}); [exact T|done|..].
    + simpl. revert Hrun. unfold Run_first, core_generatorBlock, broadcast. gom.
      destruct (generatorBlock _ _ _ _ _); destruct (NewProposeMsg _ _); intros; simplify_eq/=; done.
    + simpl. revert Hrun. unfold Run_first, core_generatorBlock, broadcast. gom.
      destruct (generatorBlock _ _ _ _ _); destruct (NewProposeMsg _ _); intros; simplify_eq/=; done.
    + split; [done|]. intros v n. done.
  - intros nd nd' I Hs. destruct Hs as [nd m|nd m rest r c' effs _ _ Hh _|nd r c' effs _ Hh _|nd l1 g l2 c' effs El Hr|nd pool|nd fuel reads com _].
    + by destruct I.
    + eapply inst_inv_main; [by eapply handle_inst_trace|done..].
    + eapply inst_inv_main; [by eapply processCoin_seg_inst_trace|done..].
    + by eapply inst_inv_task.
    + by destruct I.
    + by destruct I.
Qed.
End inst.

(** C1. Refinement: at every moment of every execution of a node, whatever the
    network delivers, each broadcast instance the node holds is in a state that
    the instance alone can reach, with the node's goroutines for it pending and
    exactly the messages the node passed to it seen; and no goroutine is
    pending for an instance that does not exist. *)
Theorem node_refines_spb `{!DB D} `{P : Prims} `{C : BlockCodec} nodeID committee parameters sigService
    (nd : Node D) v n :
  node_reachable nodeID committee parameters sigService nd ->
  let env := {| env_nodeID := nodeID; env_committee := committee; env_sigService := sigService |} in
  match instance (n_core nd) v n with
  | Some s => exists cf, spb_reachable env n v cf /\ spb_of cf = s /\
      cf_pend cf = tasks_of v n (n_tasks nd) /\ cf_seen cf = tasks_of v n (n_started nd)
  | None => tasks_of v n (n_tasks nd) = []
  end.
Proof.
  intros Hr. destruct (inst_inv_reachable _ _ _ _ _ Hr) as [_ I]. specialize (I v n).
  destruct (instance _ _ _); [done|]. by destruct I.
Qed.

Lemma committing_pending : length (tasks_of 0 2 (n_tasks CoreDemo.committing)) = 0%nat.
Proof. vm_compute. reflexivity. Qed.
Lemma committing_started : length (tasks_of 0 2 (n_started CoreDemo.committing)) = 3%nat.
Proof. vm_compute. reflexivity. Qed.

Lemma node_refines_spb_witness :
  exists s cf, instance (n_core CoreDemo.committing) 0 2 = Some s /\ spb_of cf = s /\
    length (cf_pend cf) = 0%nat /\ length (cf_seen cf) = 3%nat.
Proof.
  pose proof (node_refines_spb 1 CoreDemo.committee DefaultParameters (CoreDemo.service 1) CoreDemo.committing 0 2
    CoreDemo.committing_reachable) as H.
  pose proof CoreDemo.committing_instance as Hi. pose proof committing_pending as Hp. pose proof committing_started as Hs.
  destruct (instance (n_core CoreDemo.committing) 0 2) as [s|]; [|discriminate Hi].
  destruct H as (cf & _ & Es & Ep & En). exists s, cf. rewrite Ep, En. auto.
Defined.
