(* ===== verification/CoreProps.v ===== *)
(** * Guarantees of a lean node

    Theorems about every execution of [CoreExec]: proposals, reports and view
    changes, whatever the network delivers and however goroutines interleave. *)
From Stdlib Require Import Sorted.
From S2P Require Import Prelude Sha256 Crypto Committee Pool Message Store Commitor Elector Transmitor Spb SpbExec SpbCert SpbProps Core CoreExec CoreInst.

(** ** Views of proposals *)

(** An increasing list of views, above [lo] and up to [hi]. *)
Fixpoint between (lo : Z) (vs : list Z) (hi : Z) : Prop :=
  match vs with
  | [] => lo <= hi
  | v :: vs => lo < v /\ between v vs hi
  end.

Lemma between_app lo vs mid ws hi : between lo vs mid -> between mid ws hi -> between lo (vs ++ ws) hi.
Proof.
  revert lo. induction vs as [|v vs IH]; intros lo; simpl.
  - intros Hlo. destruct ws as [|w ws]; simpl; [lia|]. intros [? ?]. split; [lia|done].
  - intros [? ?] ?. split; [done|]. by apply IH.
Qed.

Lemma between_le lo vs hi : between lo vs hi -> lo <= hi.
Proof. revert lo. induction vs as [|v vs IH]; intros lo; simpl; [done|]. intros [? ?%IH]. lia. Qed.

Lemma between_sorted lo vs hi :
  between lo vs hi -> StronglySorted Z.lt vs /\ Forall (fun v => lo < v <= hi) vs.
Proof.
  revert lo. induction vs as [|v vs IH]; intros lo; simpl; [split; constructor|].
  intros [Hv Hb]. destruct (IH v Hb) as [Hs Hf]. apply between_le in Hb as Hle. split.
  - constructor; [done|]. eapply Forall_impl; [exact Hf|]. simpl. lia.
  - constructor; [lia|]. eapply Forall_impl; [exact Hf|]. simpl. lia.
Qed.

(** The views of the first-height proposals, and of the reports, that are
    broadcast. *)
Definition h1_view {T} (e : Eff T) : option Z :=
  match e with
  | Send _ _ (MPropose p) => if decide (p_Height p = HEIGHT_1) then Some (p_View p) else None
  | _ => None
  end.
Definition report_view {T} (e : Eff T) : option Z :=
  match e with Send _ _ (MReport r) => Some (r_View r) | _ => None end.

Lemma omap_outputs {T A} (f : Eff T -> option A) effs :
  (forall t, f (Spawn t) = None) -> omap f (outputs effs) = omap f effs.
Proof.
  intros Hf. induction effs as [|e effs IH]; csimpl; [done|]. destruct e; csimpl; rewrite IH; rewrite ?Hf; done.
Qed.

Section props.
Context {D : Type} `{!DB D} `{P : Prims} `{C : BlockCodec}.

Definition view_trace (c c' : Core D) (effs : list (Eff CoreTask)) : Prop :=
  between (c_view c) (omap h1_view effs) (c_view c').

#[global] Instance view_trace_trace : Trace view_trace.
Proof.
  split; unfold view_trace; simpl; [lia|]. intros. rewrite omap_app. by eapply between_app.
Qed.

Lemma view_trace_same c c' : c_view c' = c_view c -> view_trace c c' [].
Proof. intros E. unfold view_trace. simpl. lia. Qed.
Lemma view_trace_out c e : h1_view e = None -> view_trace c c [e].
Proof. intros E. unfold view_trace. csimpl. rewrite E. simpl. lia. Qed.

Ltac view_trace :=
  repeat first [solve [eauto with go] | spec_step | by apply view_trace_same | by apply view_trace_out].

Lemma getSpbInstance_view c v n : spec_at c (getSpbInstance v n) view_trace.
Proof. unfold getSpbInstance. view_trace. Qed.
Lemma check_signature_view c ok m v a : spec_at c (check_signature ok m v a) view_trace.
Proof. unfold check_signature. view_trace. Qed.
Hint Resolve getSpbInstance_view check_signature_view : go.

Lemma NewProposeMsg_fields B sig p :
  NewProposeMsg B sig = Ok p -> p_View p = b_View B /\ p_Height p = b_Height B /\ p_B p = Some B /\ p_Author p = b_Author B.
Proof.
  unfold NewProposeMsg, ProposeMsg_Hash. simpl. destruct (RequestSignature _ _); intros; simplify_eq/=. done.
Qed.

(** The view moves and the one proposal of that view goes out. *)
Lemma advanceView_view c v qc d : spec_at c (advanceView v qc d) view_trace.
Proof.
  intros r c' es. unfold advanceView, core_generatorBlock, broadcast, generatorBlock. gom.
  destruct (decide (v <= c_view c)) as [?|Hlt]; [intros [= <- <- <-]; unfold view_trace; simpl; lia|].
  destruct (GetBatch _) as [batch pool]. simpl. destruct (NewProposeMsg _ _) as [p|e|] eqn:Ep.
  - apply NewProposeMsg_fields in Ep as (Ev & Eh & _ & _). intros [= <- <- <-].
    unfold view_trace. csimpl. rewrite Ev, Eh. simpl. lia.
  - intros [= <- <- <-]. unfold view_trace. simpl. lia.
  - intros [= <- <- <-]. unfold view_trace. simpl. lia.
Qed.
Hint Resolve advanceView_view : go.

Lemma handle_view c m : spec_at c (handle m) view_trace.
Proof.
  destruct m; simpl; unfold handleProposeMsg, handleVoteMsg, handleFinVoteMsg, handleSpeedVoteMsg, handleElectMsg,
    handleCoinMsg, handleReportMsg, processCoin, goSpb, broadcast; view_trace.
Qed.
Lemma processCoin_seg_view c pc : spec_at c (processCoin_seg pc) view_trace.
Proof. destruct pc; simpl; unfold commit_digest, broadcast; view_trace. Qed.

(** Goroutines propose at the second height only. *)
Lemma spb_case_outputs env t s s' effs :
  spb_case env t s s' effs ->
  omap h1_view effs = [] /\ omap report_view effs = [].
Proof.
  intros Hc. assert (forall (f : Eff SpbTask -> option Z) l, (forall t, f (Spawn t) = None) ->
    omap f (Spawn <$> l) = []) as Hsp.
  { intros f l Hf. induction l as [|x l IH]; csimpl; [done|]. by rewrite Hf. }
  destruct Hc as [| | | |p s|p s|p B m s e ? ? He| | |v batch m s _ Hm| | | | |qc m s e ? He| | | |]; try done.
  all: try destruct He as [-> | ->]; try done.
  - rewrite list_fmap_compose, !omap_app, !Hsp by done. done.
  - rewrite list_fmap_compose, !omap_app, !Hsp by done. done.
  - apply NewProposeMsg_fields in Hm as (_ & Eh & _ & _). csimpl. by rewrite Eh.
Qed.

Lemma omap_Eff_map {A} (f : forall T, Eff T -> option A) v n (effs : list (Eff SpbTask)) :
  (forall e : Eff SpbTask, f CoreTask (Eff_map (GoSpb v n) e) = f SpbTask e) ->
  omap (f CoreTask) (Eff_map (GoSpb v n) <$> effs) = omap (f SpbTask) effs.
Proof. intros Hf. induction effs as [|e effs IH]; csimpl; [done|]. by rewrite Hf, IH. Qed.

Lemma run_task_shape (c : Core D) g c' effs :
  run_task g c = (Ok tt, c', effs) ->
  exists s st effs0, instance c (g_view g) (g_node g) = Some s /\
    spb_case (env_of c) (g_task g) s (st_spb st) effs0 /\
    c' = set_instance (g_view g) (g_node g) (st_spb st) (set_txpool (st_pool st) c) /\
    effs = Eff_map (GoSpb (g_view g) (g_node g)) <$> effs0.
Proof.
  unfold run_task. destruct (instance c _ _) as [s|] eqn:Ei; [|done].
  destruct (spb_step _ _ _) as [[r st] effs0] eqn:Es. intros [= -> <- <-].
  apply spb_step_case in Es. by exists s, st, effs0.
Qed.

Lemma run_task_outputs (c : Core D) g c' effs :
  run_task g c = (Ok tt, c', effs) -> omap h1_view effs = [] /\ omap report_view effs = [].
Proof.
  intros (s & st & effs0 & _ & Hc & _ & ->)%run_task_shape. apply spb_case_outputs in Hc as [E1 E2].
  rewrite (omap_Eff_map (fun T => h1_view)), (omap_Eff_map (fun T => report_view)) by (by intros []). done.
Qed.

(** The first proposal is of view 0. *)
Lemma Run_first_effs nodeID committee parameters txpool (store : Store D) sigService c effs :
  Run_first (NewCore nodeID committee parameters txpool store sigService) = (Ok tt, c, effs) ->
  omap h1_view effs = [0] /\ omap report_view effs = [] /\ spawned effs = [] /\
  exists pool, c = set_txpool pool (NewCore nodeID committee parameters txpool store sigService).
Proof.
  unfold Run_first, core_generatorBlock, broadcast, generatorBlock. gom. destruct (GetBatch _) as [batch pool].
  destruct (NewProposeMsg _ _) as [p|e|] eqn:Ep; [|done..]. apply NewProposeMsg_fields in Ep as (Ev & Eh & _ & _).
  intros [= <- <-]. simpl in *. csimpl. rewrite Eh, Ev. simpl. eauto.
Qed.

Lemma proposals_between nodeID committee parameters sigService (nd : Node D) :
  node_reachable nodeID committee parameters sigService nd ->
  between (-1) (omap h1_view (n_out nd)) (c_view (n_core nd)).
Proof.
  revert nd. apply node_invariant.
  - intros nd [txpool store c effs _ Hrun]. simpl. rewrite omap_outputs by done.
    apply Run_first_effs in Hrun as (-> & _ & _ & pool & ->). simpl. lia.
  - intros nd nd' I Hs.
    destruct Hs as [nd m|nd m rest r c' effs _ _ Hh _|nd r c' effs _ Hh _|nd l1 g l2 c' effs El Hr|nd pool|nd fuel reads com _];
      simpl; try done; rewrite omap_app, omap_outputs by done.
    + eapply between_app; [exact I|]. by eapply handle_view.
    + eapply between_app; [exact I|]. by eapply processCoin_seg_view.
    + destruct (run_task_outputs _ _ _ _ Hr) as [-> _]. rewrite app_nil_r.
      apply run_task_shape in Hr as (s & st & effs0 & _ & _ & -> & _). done.
Qed.

(** *** Reports *)

Definition quiet_trace (c c' : Core D) (effs : list (Eff CoreTask)) : Prop :=
  c_coinViewFlags c' = c_coinViewFlags c /\ omap report_view effs = [].

#[global] Instance quiet_trace_trace : Trace quiet_trace.
Proof.
  split; unfold quiet_trace; [done|]. intros c1 c2 c3 es1 es2 [E1 R1] [E2 R2]. rewrite omap_app, R1, R2. split; [congruence|done].
Qed.

Lemma quiet_trace_same c c' : c_coinViewFlags c' = c_coinViewFlags c -> quiet_trace c c' [].
Proof. by split. Qed.
Lemma quiet_trace_out c e : report_view e = None -> quiet_trace c c [e].
Proof. intros E. split; [done|]. csimpl. by rewrite E. Qed.

Ltac quiet_trace :=
  repeat first [solve [eauto with go] | spec_step | by apply quiet_trace_same | by apply quiet_trace_out].

Lemma getSpbInstance_quiet c v n : spec_at c (getSpbInstance v n) quiet_trace.
Proof. unfold getSpbInstance. quiet_trace. Qed.
Lemma check_signature_quiet c ok m v a : spec_at c (check_signature ok m v a) quiet_trace.
Proof. unfold check_signature. quiet_trace. Qed.
Hint Resolve getSpbInstance_quiet check_signature_quiet : go.

Lemma handle_quiet c m : spec_at c (handle m) quiet_trace.
Proof.
  destruct m; simpl; unfold handleProposeMsg, handleVoteMsg, handleFinVoteMsg, handleSpeedVoteMsg, handleElectMsg,
    handleCoinMsg, handleReportMsg, advanceView, core_generatorBlock, processCoin, goSpb, broadcast; quiet_trace.
Qed.

(** Where the main loop stands: the coin of a view is processed only while the
    view is not flagged, on an existing instance, and a commit only with the
    certificate that was read. *)
Definition pc_ok (c : Core D) (pc : MainPC) : Prop :=
  match pc with
  | Idle => True
  | PSpeed l v | PDec l v | PReport l v => (v ∉ c_coinViewFlags c) /\ instance c v l <> None
  | PSpeedCommit l v => (v ∉ c_coinViewFlags c) /\ exists s, instance c v l = Some s /\ SpeedCert s = true
  | PDecCommit l v => (v ∉ c_coinViewFlags c) /\ exists s, instance c v l = Some s /\ DecCert s = true
  end.

Lemma then_idle (m : CoreM D unit) c r c' effs : (_ ← m; mret Idle) c = (r, c', effs) -> next_pc r = Idle.
Proof. gom. destruct (m c) as [[[]?]?]; by intros [= <- <- <-]. Qed.

Lemma processCoin_pc l v c r c' effs : processCoin l v c = (r, c', effs) -> pc_ok c' (next_pc r).
Proof.
  unfold processCoin. cbv [mbind mret GoM_bind GoM_ret get]. destruct (decide _) as [?|Hn]; [by intros [= <- <- <-]|].
  destruct (getSpbInstance v l c) as [[r1 c1] es1] eqn:E. apply getSpbInstance_quiet in E as Hq.
  apply getSpbInstance_shape in E as (_ & _ & Hi). destruct r1; intros [= <- <- <-]; simpl; [|done..].
  split; [|done]. by rewrite (proj1 Hq).
Qed.

Lemma handle_pc m c r c' effs : handle m c = (r, c', effs) -> pc_ok c' (next_pc r).
Proof.
  destruct m as [p|v|fv|sv|e|rc|rp]; simpl; try (intros ->%then_idle; done).
  - unfold handleElectMsg. cbv [mbind GoM_bind get modify lift throw emit mret GoM_ret].
    repeat (case_match; simplify_eq/=; try by intros [= <- <- <-]).
    intros [= <- <- <-]. by eapply processCoin_pc.
  - unfold handleCoinMsg, check_signature. cbv [mbind GoM_bind get modify lift throw emit mret GoM_ret].
    repeat (case_match; simplify_eq/=; try by intros [= <- <- <-]).
    all: intros [= <- <- <-]; by eapply processCoin_pc.
Qed.

Lemma getSpbInstance_Some (c : Core D) v n s : instance c v n = Some s -> getSpbInstance v n c = (Ok s, c, []).
Proof. intros E. unfold getSpbInstance. gom. by rewrite E. Qed.

Lemma NewReportMsg_view a v l qc sig r : NewReportMsg a v l qc sig = Ok r -> r_View r = v /\ r_Level r = l.
Proof. unfold NewReportMsg. destruct (RequestSignature _ _); intros; simplify_eq/=. done. Qed.

Lemma commit_digest_quiet c d : spec_at c (commit_digest d) quiet_trace.
Proof. unfold commit_digest. quiet_trace. Qed.

Lemma commit_digest_instance c d r c' effs v l :
  commit_digest d c = (r, c', effs) -> instance c' v l = instance c v l.
Proof. unfold commit_digest. gom. destruct (getBlock _ _); by intros [= <- <- <-]. Qed.

(** One piece of [processCoin]: it reports, which ends it, or is silent. *)
Lemma processCoin_seg_shape pc c r c' effs :
  pc_ok c pc -> processCoin_seg pc c = (r, c', effs) -> r <> Panic ->
  (quiet_trace c c' effs /\ pc_ok c' (next_pc r)) \/
  (exists l v, pc = PReport l v /\ c_coinViewFlags c' = {[v]} ∪ c_coinViewFlags c /\
     omap report_view effs = [v] /\ next_pc r = Idle).
Proof.
  assert (forall l v d, v ∉ c_coinViewFlags c -> instance c v l <> None ->
    (_ ← commit_digest d; mret (PReport l v)) c = (r, c', effs) ->
    quiet_trace c c' effs /\ pc_ok c' (next_pc r)) as Hcommit.
  { intros l v d Hv Hi. cbv [mbind mret GoM_bind GoM_ret]. destruct (commit_digest d c) as [[r1 c1] es1] eqn:E.
    apply (commit_digest_instance _ _ _ _ _ v l) in E as Hc1. apply commit_digest_quiet in E.
    destruct r1; intros [= <- <- <-]; rewrite ?app_nil_r; (split; [done|]); simpl; [|done..].
    by rewrite (proj1 E), Hc1. }
  destruct pc as [|l v|l v|l v|l v|l v]; simpl.
  - intros _ [= <- <- <-] _. left. split; [apply trace_refl|done].
  - intros [Hv Hi]. destruct (instance c v l) as [s|] eqn:Es; [|done].
    cbv [mbind GoM_bind mret GoM_ret]. rewrite (getSpbInstance_Some _ _ _ _ Es). intros [= <- <- <-] _. left.
    split; [apply trace_refl|]. simpl. destruct (SpeedCert s) eqn:Ec; simpl; rewrite Es; eauto.
  - intros [Hv (s & Es & Hs)]. cbv [mbind GoM_bind]. rewrite (getSpbInstance_Some _ _ _ _ Es). intros E _. left.
    apply (Hcommit l v (SPB_BlockHash s HEIGHT_2)); [done|by rewrite Es|]. cbv [mbind GoM_bind]. rewrite <- E. by destruct (commit_digest _ _) as [[[]?]?].
  - intros [Hv Hi]. destruct (instance c v l) as [s|] eqn:Es; [|done].
    cbv [mbind GoM_bind mret GoM_ret]. rewrite (getSpbInstance_Some _ _ _ _ Es). intros [= <- <- <-] _. left.
    split; [apply trace_refl|]. simpl. destruct (DecCert s) eqn:Ec; simpl; rewrite Es; eauto.
  - intros [Hv (s & Es & Hs)]. cbv [mbind GoM_bind]. rewrite (getSpbInstance_Some _ _ _ _ Es). intros E _. left.
    apply (Hcommit l v (SPB_BlockHash s HEIGHT_1)); [done|by rewrite Es|]. cbv [mbind GoM_bind]. rewrite <- E. by destruct (commit_digest _ _) as [[[]?]?].
  - intros [Hv Hi]. destruct (instance c v l) as [s|] eqn:Es; [|done].
    cbv [mbind GoM_bind mret GoM_ret get lift broadcast modify emit]. rewrite (getSpbInstance_Some _ _ _ _ Es).
    destruct (QCLEvel s) as [level qc]. destruct (NewReportMsg _ _ _ _ _) as [rep|e|] eqn:Er; intros [= <- <- <-] Hp; [|left|done].
    + right. apply NewReportMsg_view in Er as [Ev _]. exists l, v. csimpl. by rewrite Ev.
    + split; [apply trace_refl|done].
Qed.

Lemma cert_mono env t s s' effs :
  spb_case env t s s' effs ->
  (SpeedCert s = true -> SpeedCert s' = true) /\ (DecCert s = true -> DecCert s' = true).
Proof.
  intros Hc. unfold SpeedCert, DecCert. destruct Hc; simpl; try done; split; try done.
  all: rewrite !bool_decide_eq_true; simpl; intros [? ?]; split; congruence.
Qed.

Lemma pc_ok_task c g c' effs pc : run_task g c = (Ok tt, c', effs) -> pc_ok c pc -> pc_ok c' pc.
Proof.
  intros (s & st & effs0 & Es & Hc & -> & ->)%run_task_shape. apply cert_mono in Hc as [M1 M2].
  assert (forall v l, instance c v l <> None ->
    instance (set_instance (g_view g) (g_node g) (st_spb st) (set_txpool (st_pool st) c)) v l <> None) as Hi.
  { intros v l. rewrite instance_set. by case_decide. }
  destruct pc as [|l v|l v|l v|l v|l v]; simpl; intros Hpc; try done.
  - destruct Hpc; eauto.
  - destruct Hpc as (Hv & u & Eu & Hu). split; [done|]. rewrite instance_set. case_decide as Hd; [|by exists u].
    destruct Hd as [<- <-]. simplify_eq. eauto.
  - destruct Hpc; eauto.
  - destruct Hpc as (Hv & u & Eu & Hu). split; [done|]. rewrite instance_set. case_decide as Hd; [|by exists u].
    destruct Hd as [<- <-]. simplify_eq. eauto.
  - destruct Hpc; eauto.
Qed.

Record report_inv (nd : Node D) : Prop := {
  ri_pc : pc_ok (n_core nd) (n_main nd);
  ri_nodup : NoDup (omap report_view (n_out nd));
  ri_flag v : v ∈ omap report_view (n_out nd) -> v ∈ c_coinViewFlags (n_core nd);
}.

Lemma report_inv_reachable nodeID committee parameters sigService (nd : Node D) :
  node_reachable nodeID committee parameters sigService nd -> report_inv nd.
Proof.
  revert nd. apply node_invariant.
  - intros nd [txpool store c effs _ Hrun]. apply Run_first_effs in Hrun as (_ & E & _ & _).
    split; simpl; rewrite ?omap_outputs, ?E by done; [done|constructor|set_solver].
  - intros nd nd' [I1 I2 I3] Hs.
    destruct Hs as [nd m|nd m rest r c' effs _ _ Hh _|nd r c' effs _ Hh Hp|nd l1 g l2 c' effs El Hr|nd pool|nd fuel reads com _].
    + by split.
    + apply handle_quiet in Hh as Q. destruct Q as [Q1 Q2]. apply handle_pc in Hh.
      split; simpl; rewrite ?omap_app, ?omap_outputs, ?Q2, ?app_nil_r by done; [done|done|]. by rewrite Q1.
    + destruct (processCoin_seg_shape _ _ _ _ _ I1 Hh Hp) as [[[Q1 Q2] Hpc]|(l & v & Epc & Ef & Er & En)].
      * split; simpl; rewrite ?omap_app, ?omap_outputs, ?Q2, ?app_nil_r by done; [done|done|]. by rewrite Q1.
      * rewrite Epc in I1. destruct I1 as [Hv _].
        split; simpl; rewrite ?En, ?omap_app, ?omap_outputs, ?Er by done; [done| |].
        -- apply NoDup_app. split_and!; [done| |by apply NoDup_singleton]. intros x Hx ->%list_elem_of_singleton. auto.
        -- rewrite Ef. intros x. rewrite elem_of_app, list_elem_of_singleton. set_solver.
    + destruct (run_task_outputs _ _ _ _ Hr) as [_ E]. pose proof (pc_ok_task _ _ _ _ _ Hr I1).
      split; simpl; rewrite ?omap_app, ?omap_outputs, ?E, ?app_nil_r by done; [done|done|].
      apply run_task_shape in Hr as (s & st & effs0 & _ & _ & -> & _). done.
    + split; [|done..]. by destruct (n_main nd).
    + split; [|done..]. by destruct (n_main nd).
Qed.

(** *** View changes *)

Definition is_report (committee : Committee) (v l : Z) (m : ConsensusMessage) : bool :=
  match m with
  | MReport r =>
      bool_decide (r_View r = v) && bool_decide (r_Level r = l) &&
      match ReportMsg_Verify r committee with Ok ok => ok | _ => false end
  | _ => false
  end.

(** Reports of view [v] justify leaving it: one of level 2, or a quorum of one
    of the other levels. *)
Definition justified (committee : Committee) (v : Z) (handled : list ConsensusMessage) : Prop :=
  1 <= count (is_report committee v LEVEL_2) handled \/
  HightThreshold committee <= count (is_report committee v LEVEL_1) handled \/
  HightThreshold committee <= count (is_report committee v LEVEL_0) handled.

Definition rep_trace (c c' : Core D) (effs : list (Eff CoreTask)) : Prop :=
  c_reportNums c' = c_reportNums c /\ c_committee c' = c_committee c /\ omap h1_view effs = [].

#[global] Instance rep_trace_trace : Trace rep_trace.
Proof.
  split; unfold rep_trace; [done|]. intros c1 c2 c3 es1 es2 (E1 & C1 & R1) (E2 & C2 & R2).
  rewrite omap_app, R1, R2. split_and!; [congruence..|done].
Qed.

Lemma rep_trace_same c c' : c_reportNums c' = c_reportNums c -> c_committee c' = c_committee c -> rep_trace c c' [].
Proof. by repeat split. Qed.
Lemma rep_trace_out c e : h1_view e = None -> rep_trace c c [e].
Proof. intros E. split_and!; [done..|]. csimpl. by rewrite E. Qed.

Ltac rep_trace :=
  repeat first [solve [eauto with go] | spec_step | by apply rep_trace_same | by apply rep_trace_out].

Lemma getSpbInstance_rep c v n : spec_at c (getSpbInstance v n) rep_trace.
Proof. unfold getSpbInstance. rep_trace. Qed.
Lemma check_signature_rep c ok m v a : spec_at c (check_signature ok m v a) rep_trace.
Proof. unfold check_signature. rep_trace. Qed.
Hint Resolve getSpbInstance_rep check_signature_rep : go.

Lemma handle_rep c m :
  match m with MReport _ => True | _ => spec_at c (handle m) rep_trace end.
Proof.
  destruct m; simpl; try done; unfold handleProposeMsg, handleVoteMsg, handleFinVoteMsg, handleSpeedVoteMsg, handleElectMsg,
    handleCoinMsg, processCoin, goSpb, broadcast; rep_trace.
Qed.
Lemma processCoin_seg_rep c pc : spec_at c (processCoin_seg pc) rep_trace.
Proof. destruct pc; simpl; unfold commit_digest, broadcast; rep_trace. Qed.

Lemma advanceView_rep (c : Core D) v qc d r c' effs :
  advanceView v qc d c = (r, c', effs) ->
  c_reportNums c' = c_reportNums c /\ c_committee c' = c_committee c /\
  (omap h1_view effs = [] \/ omap h1_view effs = [v]).
Proof.
  unfold advanceView, core_generatorBlock, broadcast, generatorBlock. gom.
  destruct (decide (v <= c_view c)) as [?|Hlt]; [intros [= <- <- <-]; auto|].
  destruct (GetBatch _) as [batch pool]. simpl. destruct (NewProposeMsg _ _) as [p|e|] eqn:Ep; intros [= <- <- <-]; [|by auto..].
  apply NewProposeMsg_fields in Ep as (Ev & Eh & _ & _). csimpl. rewrite Ev, Eh. auto.
Qed.

(** A report is dropped, or counted and perhaps acted upon. *)
Lemma handleReportMsg_shape (c : Core D) r res c' effs :
  handleReportMsg r c = (res, c', effs) ->
  rep_trace c c' effs \/
  (ReportMsg_Verify r (c_committee c) = Ok true /\ c_committee c' = c_committee c /\
   exists n, get3 (default (0, 0, 0) (c_reportNums c !! r_View r)) (r_Level r) = Some n /\
   let nums := set3 (default (0, 0, 0) (c_reportNums c !! r_View r)) (r_Level r) (wrap64 (n + 1)) in
   c_reportNums c' = <[r_View r := nums]> (c_reportNums c) /\
   (omap h1_view effs = [] \/
    (report_quorum nums (HightThreshold (c_committee c)) /\ omap h1_view effs = [wrap64 (r_View r + 1)]))).
Proof.
  unfold handleReportMsg, check_signature. cbv [mbind GoM_bind get modify lift throw mret GoM_ret panic].
  destruct (messageFilter _ _); [intros [= <- <- <-]; left; apply trace_refl|].
  destruct (ReportMsg_Verify r (c_committee c)) as [[]|e|]; [|intros [= <- <- <-]; left; apply trace_refl..].
  destruct (get3 _ _) as [n|] eqn:En; [|intros [= <- <- <-]; left; apply trace_refl].
  destruct (decide (report_quorum _ _)) as [Hq|Hq].
  - destruct (advanceView _ _ _ _) as [[r1 c1] es1] eqn:Ea. apply advanceView_rep in Ea as (E1 & E2 & E3).
    intros [= <- <- <-]. right. split_and!; [done|done|]. exists n. split_and!; [done..|]. destruct E3; auto.
  - intros [= <- <- <-]. right. split_and!; [done..|]. exists n. auto.
Qed.

Lemma get3_set3 a i x j : get3 (set3 a i x) j = if decide (i = j /\ (i = 0 \/ i = 1 \/ i = 2)) then Some x else get3 a j.
Proof. unfold get3, set3. repeat case_decide; simplify_eq/=; try done; lia. Qed.

Lemma get3_level a i x : get3 a i = Some x -> i = 0 \/ i = 1 \/ i = 2.
Proof. unfold get3. repeat case_decide; naive_solver. Qed.

Lemma wrap64_succ_le n : wrap64 (n + 1) <= n + 1 \/ n < - 2 ^ 63.
Proof. unfold wrap. simpl. Z.to_euclidean_division_equations. lia. Qed.

Record rep_inv (committee : Committee) (nd : Node D) : Prop := {
  rp_committee : c_committee (n_core nd) = committee;
  rp_nums v l x : get3 (default (0, 0, 0) (c_reportNums (n_core nd) !! v)) l = Some x ->
    - 2 ^ 63 <= x <= count (is_report committee v l) (n_handled nd);
  rp_views w : w ∈ omap h1_view (n_out nd) ->
    w = 0 \/ exists v, w = wrap64 (v + 1) /\ justified committee v (n_handled nd);
}.

Lemma justified_app committee v l1 l2 : justified committee v l1 -> justified committee v (l1 ++ l2).
Proof.
  unfold justified. rewrite !count_app.
  pose proof (count_nonneg (is_report committee v LEVEL_2) l2). pose proof (count_nonneg (is_report committee v LEVEL_1) l2).
  pose proof (count_nonneg (is_report committee v LEVEL_0) l2). lia.
Qed.

Lemma rep_inv_frame committee nd nd' effs l :
  rep_trace (n_core nd) (n_core nd') effs -> n_out nd' = n_out nd ++ outputs effs ->
  n_handled nd' = n_handled nd ++ l -> rep_inv committee nd -> rep_inv committee nd'.
Proof.
  intros (E1 & E2 & E3) Eo Eh [I1 I2 I3]. split; rewrite ?E1, ?E2, ?Eo, ?Eh; [done| |].
  - intros v k x Hx. rewrite count_app. pose proof (count_nonneg (is_report committee v k) l).
    specialize (I2 v k x Hx). lia.
  - rewrite omap_app, omap_outputs, E3, app_nil_r by done. intros w [?|(v & ? & ?)]%I3; [by left|right].
    exists v. eauto using justified_app.
Qed.

(** Counting a report. *)
Lemma rep_inv_report committee nd nd' r n effs :
  let nums := set3 (default (0, 0, 0) (c_reportNums (n_core nd) !! r_View r)) (r_Level r) (wrap64 (n + 1)) in
  ReportMsg_Verify r committee = Ok true -> c_committee (n_core nd') = committee ->
  get3 (default (0, 0, 0) (c_reportNums (n_core nd) !! r_View r)) (r_Level r) = Some n ->
  c_reportNums (n_core nd') = <[r_View r := nums]> (c_reportNums (n_core nd)) ->
  (omap h1_view effs = [] \/
   (report_quorum nums (HightThreshold committee) /\ omap h1_view effs = [wrap64 (r_View r + 1)])) ->
  n_out nd' = n_out nd ++ outputs effs -> n_handled nd' = n_handled nd ++ [MReport r] ->
  rep_inv committee nd -> rep_inv committee nd'.
Proof.
  intros nums Hv Ec En Er Hq Eo Eh [I1 I2 I3].
  assert (forall v l x, get3 (default (0, 0, 0) (c_reportNums (n_core nd') !! v)) l = Some x ->
    - 2 ^ 63 <= x <= count (is_report committee v l) (n_handled nd ++ [MReport r])) as Hnums.
  { intros v l x. rewrite Er, count_app. simpl. rewrite Hv, andb_true_r. destruct (decide (r_View r = v)) as [<-|Hne].
    - rewrite lookup_insert_eq. simpl. unfold nums. rewrite get3_set3. case_decide as Hd.
      + intros [= <-]. destruct Hd as [<- _]. rewrite !bool_decide_true by done. simpl.
        specialize (I2 _ _ _ En). destruct (wrap_range 64 (n + 1) ltac:(lia)) as [? _].
        destruct (wrap64_succ_le n); simpl in *; lia.
      + intros Hx. specialize (I2 _ _ _ Hx). case_bool_decide; simpl; [case_bool_decide; simpl|]; lia.
    - rewrite lookup_insert_ne by done. rewrite (bool_decide_false (r_View r = v)) by done. simpl.
      intros Hx. specialize (I2 _ _ _ Hx). lia. }
  split; [done|by rewrite Eh|]. rewrite Eo, Eh, omap_app, omap_outputs by done.
  intros w [[?|(v & ? & ?)]%I3|Hw]%elem_of_app; [by left|right; exists v; eauto using justified_app|].
  destruct Hq as [E|[Hq E]]; rewrite E in Hw; [set_solver|]. apply list_elem_of_singleton in Hw as ->.
  right. exists (r_View r). split; [done|]. unfold justified.
  assert (default (0, 0, 0) (c_reportNums (n_core nd') !! r_View r) = nums) as En' by (by rewrite Er, lookup_insert_eq).
  destruct Hq as [Hq|[Hq|Hq]]; rewrite <- En' in Hq; apply Hnums in Hq; tauto.
Qed.

Lemma rep_inv_reachable nodeID committee parameters sigService (nd : Node D) :
  node_reachable nodeID committee parameters sigService nd -> rep_inv committee nd.
Proof.
  revert nd. apply node_invariant.
  - intros nd [txpool store c effs _ Hrun]. apply Run_first_effs in Hrun as (E & _ & _ & pool & ->).
    split; simpl; [done| |].
    + intros v l x. rewrite lookup_empty. simpl. unfold get3. simpl. repeat case_decide; intros; simplify_eq; lia.
    + rewrite omap_outputs, E by done. set_solver.
  - intros nd nd' I Hs. pose proof I as [I1 _ _].
    destruct Hs as [nd m|nd m rest r c' effs _ _ Hh _|nd r c' effs _ Hh Hp|nd l1 g l2 c' effs El Hr|nd pool|nd fuel reads com _].
    + by destruct I.
    + pose proof (handle_rep (n_core nd) m) as Hrep.
      destruct m as [p|v|fv|sv|e|rc|rp]; try by (eapply rep_inv_frame; [by eapply Hrep|done..|exact I]).
      simpl in Hh. cbv [mbind GoM_bind mret GoM_ret] in Hh.
      destruct (handleReportMsg rp (n_core nd)) as [[r1 c1] es1] eqn:E1.
      assert (c1 = c' /\ effs = es1) as [-> ->] by (destruct r1; simplify_eq; rewrite ?app_nil_r; done).
      apply handleReportMsg_shape in E1 as [?|(Hv & Ec & n & En & Er & Hq)]; [by eapply rep_inv_frame|].
      rewrite I1 in *. by eapply rep_inv_report.
    + eapply rep_inv_frame; [by eapply processCoin_seg_rep|done| |done]. simpl. by rewrite app_nil_r.
    + eapply (rep_inv_frame _ _ _ effs []); [|done| |done]; [|simpl; by rewrite app_nil_r].
      destruct (run_task_outputs _ _ _ _ Hr) as [E _].
      apply run_task_shape in Hr as (s & st & effs0 & _ & _ & -> & _). by split_and!.
    + by destruct I.
    + by destruct I.
Qed.

(** A verified coin of a view without one is processed. *)
Lemma handle_coin (c : Core D) rc :
  RandomCoinMsg_Verify rc (c_committee c) = Ok true -> rc_View rc ∉ c_coinViewFlags c ->
  exists c', handle (MCoin rc) c = (Ok (PSpeed (rc_Leader rc) (rc_View rc)), c', []).
Proof.
  intros Hs Hn. simpl. unfold handleCoinMsg, check_signature. gom. rewrite Hs.
  unfold processCoin, getSpbInstance. gom. rewrite decide_False by done.
  destruct (instance c (rc_View rc) (rc_Leader rc)); eauto.
Qed.
End props.

(** C6. Whatever messages arrive, a node makes at most one first-height proposal
    per view, with increasing views that never exceed the view it is in. *)
Theorem one_proposal_per_view `{!DB D} `{P : Prims} `{C : BlockCodec} nodeID committee parameters sigService
    (nd : Node D) :
  node_reachable nodeID committee parameters sigService nd ->
  StronglySorted Z.lt (omap h1_view (n_out nd)) /\
  Forall (fun v => 0 <= v <= c_view (n_core nd)) (omap h1_view (n_out nd)).
Proof.
  intros Hr. apply proposals_between, between_sorted in Hr as [H1 H2]. split; [done|].
  eapply Forall_impl; [exact H2|]. simpl. lia.
Qed.

(** C10. A node reports at most once per view, and only in views whose coin it
    has processed to the end. *)
Theorem one_report_per_view `{!DB D} `{P : Prims} `{C : BlockCodec} nodeID committee parameters sigService
    (nd : Node D) :
  node_reachable nodeID committee parameters sigService nd ->
  NoDup (omap report_view (n_out nd)) /\
  (forall v, v ∈ omap report_view (n_out nd) -> v ∈ c_coinViewFlags (n_core nd)).
Proof. intros Hr. by apply report_inv_reachable in Hr as [_ H1 H2]. Qed.

(** C5. When a node is about to commit by the decision certificate of a leader
    that does not equivocate, and no certificate it passed to the leader's
    instance names the zero digest, it has passed both blocks, the certificate
    of the first and the final vote for the second to that instance, and the
    digest it commits is that of the first block. *)
Theorem decision_commit_sound `{!DB D} `{P : Prims} `{C : BlockCodec} nodeID committee parameters sigService
    (nd : Node D) leader view h1 h2 :
  node_reachable nodeID committee parameters sigService nd ->
  n_main nd = PDecCommit leader view ->
  let seen := tasks_of view leader (n_started nd) in
  honest_seen h1 h2 seen -> no_zero_certificate seen ->
  (exists q1 q2, seen_block1 seen /\ seen_block2 seen q1 /\ qc_ParentBlockHash q1 = h1 /\
     seen_final leader view seen q2 /\ qc_ParentBlockHash q2 = h2) /\
  exists s, instance (n_core nd) view leader = Some s /\ SPB_BlockHash s HEIGHT_1 = h1.
Proof.
  intros Hr Hm seen Hh Hz. subst seen. pose proof (ri_pc _ (report_inv_reachable _ _ _ _ _ Hr)) as Hpc. rewrite Hm in Hpc.
  destruct Hpc as (_ & s & Es & Hs).
  pose proof (ii_sim _ _ (inst_inv_reachable _ _ _ _ _ Hr) view leader) as Hsim. rewrite Es in Hsim.
  destruct Hsim as (cf & Hcf & <- & _ & Eseen). rewrite <- Eseen in *.
  destruct (dec_reachable _ leader view h1 h2 cf Hcf Hh) as [HS _].
  destruct (dec_safe_chain _ _ _ _ _ _ (HS Hz) Hs) as (Hchain & E1 & _). eauto.
Qed.

(** C7. A node proposes in a new view only after it handled correctly signed
    reports that justify leaving the view before: one of level 2, or
    [HightThreshold] of level 1, or [HightThreshold] of level 0. *)
Theorem view_change_justified `{!DB D} `{P : Prims} `{C : BlockCodec} nodeID committee parameters sigService
    (nd : Node D) w :
  node_reachable nodeID committee parameters sigService nd -> w ∈ omap h1_view (n_out nd) ->
  w = 0 \/ exists v, w = wrap64 (v + 1) /\ justified committee v (n_handled nd).
Proof. intros Hr. apply (rp_views _ _ (rep_inv_reachable _ _ _ _ _ Hr)). Qed.

(** ** What the handlers do with old messages, coins and odd reports *)

(** Votes, final votes, speed votes, elect messages and reports of a view
    that the node has left change nothing and have no effect; a proposal is at
    most stored.  A coin is not filtered: while its view is not flagged it is
    processed, however old. *)
Theorem stale_messages `{!DB D} `{P : Prims} `{C : BlockCodec} (c : Core D) (view : Z) :
  view < c_view c ->
  (forall v, v_View v = view -> handle (MVote v) c = (Ok Idle, c, [])) /\
  (forall fv, fv_View fv = view -> handle (MFinVote fv) c = (Ok Idle, c, [])) /\
  (forall sv, sv_View sv = view -> handle (MSpeedVote sv) c = (Ok Idle, c, [])) /\
  (forall e, e_View e = view -> handle (MElect e) c = (Ok Idle, c, [])) /\
  (forall r, r_View r = view -> handle (MReport r) c = (Ok Idle, c, [])) /\
  (forall p r c' effs, p_View p = view -> handle (MPropose p) c = (r, c', effs) ->
     effs = [] /\ exists st, c' = set_store st c) /\
  (forall rc, rc_View rc = view -> RandomCoinMsg_Verify rc (c_committee c) = Ok true ->
     view ∉ c_coinViewFlags c -> exists c', handle (MCoin rc) c = (Ok (PSpeed (rc_Leader rc) view), c', [])).
Proof.
  intros Hv. assert (messageFilter view c = true) as Hf by (unfold messageFilter; by rewrite bool_decide_true).
  assert (exists st, c = set_store st c) as Hsame by (exists (c_store c); by destruct c).
  split_and!.
  1-5: intros m Em; simpl; unfold handleVoteMsg, handleFinVoteMsg, handleSpeedVoteMsg, handleElectMsg, handleReportMsg;
    gom; by rewrite Em, Hf.
  - intros p r c' effs Ep. simpl. unfold handleProposeMsg, check_signature. gom. rewrite Ep, Hf.
    repeat (case_match; simplify_eq/=); intros [= <- <- <-]; eauto.
  - intros rc <- Hs Hn. by apply handle_coin.
Qed.

(** C32. One member decides the leader alone: a coin message signed by any
    registered node, naming any leader, member or not, starts the processing
    of that leader in a view without a coin.  The threshold signature of the
    election is not part of the message. *)
Theorem coin_not_authenticated `{!DB D} {P : Prims} {L : PrimsLaws P} `{C : BlockCodec} (c : Core D) sig me pk leader view :
  registered (c_committee c) sig me pk -> view ∉ c_coinViewFlags c ->
  exists rc c', NewRandomCoinMsg leader me view sig = Ok rc /\
    handle (MCoin rc) c = (Ok (PSpeed leader view), c', []).
Proof.
  intros R Hn. unfold NewRandomCoinMsg.
  match goal with |- context [RequestSignature _ ?d] =>
    destruct (registered_sign _ _ _ _ d R) as (s & E & V) end.
  rewrite E. simpl.
  destruct (handle_coin c {| rc_Leader := leader; rc_View := view; rc_Author := me; rc_Signature := s |}) as [c' Hc'];
    [exact V|done|]. eauto.
Qed.

(** C33. A correctly signed report of a current view crashes the node exactly when
    its level is not one of the three: the level indexes an array of three
    counters. *)
Theorem report_level_panics `{!DB D} `{P : Prims} `{C : BlockCodec} (c : Core D) r :
  c_view c <= r_View r -> ReportMsg_Verify r (c_committee c) = Ok true ->
  length (Prikey (PriKey (c_sigService c))) = 64%nat ->
  res_of (handle (MReport r) c) = Panic <->
  ~ (r_Level r = LEVEL_2 \/ r_Level r = LEVEL_1 \/ r_Level r = LEVEL_0).
Proof.
  intros Hv Hs Hkey. simpl. unfold handleReportMsg, check_signature, messageFilter. gom.
  rewrite bool_decide_false by lia. rewrite Hs.
  destruct (get3 _ _) as [n|] eqn:En.
  - apply get3_level in En. split; [|done]. intros Hp. exfalso. revert Hp.
    destruct (decide (report_quorum _ _)); [|done].
    unfold advanceView, core_generatorBlock, broadcast, generatorBlock, NewProposeMsg, ProposeMsg_Hash. gom.
    destruct (decide _); [done|]. destruct (GetBatch _) as [batch pool]. simpl.
    by rewrite RequestSignature_Ok by done.
  - split; [|done]. intros _ Hl. unfold get3 in En. revert En. repeat case_decide; try done.
    unfold LEVEL_0, LEVEL_1, LEVEL_2 in *. lia.
Qed.

(** ** The concrete node *)

Lemma one_proposal_per_view_witness : StronglySorted Z.lt (omap h1_view (n_out CoreDemo.advanced)).
Proof. apply (one_proposal_per_view 1 _ _ _ CoreDemo.advanced CoreDemo.advanced_reachable). Defined.

Lemma one_report_per_view_witness : NoDup (omap report_view (n_out CoreDemo.advanced)).
Proof. apply (one_report_per_view 1 _ _ _ CoreDemo.advanced CoreDemo.advanced_reachable). Defined.

Lemma advanced_views : omap h1_view (n_out CoreDemo.advanced) = [0; 1].
Proof. vm_compute. reflexivity. Qed.

Lemma view_change_justified_witness :
  1 = 0 \/ exists v, 1 = wrap64 (v + 1) /\ justified CoreDemo.committee v (n_handled CoreDemo.advanced).
Proof.
  apply (view_change_justified 1 _ _ _ CoreDemo.advanced 1 CoreDemo.advanced_reachable).
  rewrite advanced_views. set_solver.
Defined.

Lemma committing_seen : tasks_of 0 2 (n_started CoreDemo.committing)
  = [TPropose (CoreDemo.propose CoreDemo.block1); TPropose (CoreDemo.propose CoreDemo.block2); TFinVote CoreDemo.final].
Proof. vm_compute. reflexivity. Qed.

Lemma committing_honest :
  honest_seen (Block_Hash CoreDemo.block1) (Block_Hash CoreDemo.block2)
    (tasks_of 0 2 (n_started CoreDemo.committing)).
Proof.
  rewrite committing_seen.
  split; intros *; rewrite !elem_of_cons, elem_of_nil; intros Hin.
  all: repeat destruct Hin as [Hin|Hin]; try done; injection Hin as ->.
  all: vm_compute; intros; simplify_eq; try done.
Qed.

Lemma committing_no_zero : no_zero_certificate (tasks_of 0 2 (n_started CoreDemo.committing)).
Proof.
  rewrite committing_seen.
  split; intros *; rewrite !elem_of_cons, elem_of_nil; intros Hin.
  all: repeat destruct Hin as [Hin|Hin]; try done; injection Hin as ->.
  all: vm_compute; intros; simplify_eq; try done.
Qed.

Lemma decision_commit_sound_witness :
  exists s, instance (n_core CoreDemo.committing) 0 2 = Some s /\
    SPB_BlockHash s HEIGHT_1 = Block_Hash CoreDemo.block1.
Proof.
  apply (decision_commit_sound 1 _ _ _ CoreDemo.committing 2 0 _ (Block_Hash CoreDemo.block2)
    CoreDemo.committing_reachable CoreDemo.committing_main committing_honest committing_no_zero).
Defined.

Lemma stale_messages_witness :
  handle (MVote (SpbDemo.vote 2 0 [])) (n_core CoreDemo.advanced) = (Ok Idle, n_core CoreDemo.advanced, []).
Proof.
  refine (proj1 (stale_messages (n_core CoreDemo.advanced) 0 _) (SpbDemo.vote 2 0 []) eq_refl). vm_decide.
Defined.

Lemma coin_not_authenticated_witness :
  exists rc c', NewRandomCoinMsg 77 3 0 (CoreDemo.service 3) = Ok rc /\
    handle (MCoin rc) (n_core CoreDemo.empty_node) = (Ok (PSpeed 77 0), c', []).
Proof.
  apply (coin_not_authenticated (L := demo_laws pad32 pad32_length) (n_core CoreDemo.empty_node) (CoreDemo.service 3)
    3 (replicate 32 (byte_of_Z 3)) 77 0).
  - split; [split|]; reflexivity.
  - vm_decide.
Defined.

Lemma report_level_panics_witness : res_of (handle (MReport (CoreDemo.report 3)) (n_core CoreDemo.empty_node)) = Panic.
Proof.
  apply (report_level_panics (n_core CoreDemo.empty_node) (CoreDemo.report 3)); [vm_decide|vm_compute; reflexivity..|].
  vm_decide.
Defined.
