(* ===== verification/CoreForge.v ===== *)
(** * One member is enough for a quorum of votes

    [handleVoteMsg] passes every correctly signed vote to the instance the vote
    names, and [processVoteMsg] counts votes without comparing their authors or
    blocks.  From any state in which two instances of a view are unused, the
    votes of a single member make a node propose twice in that view. *)
From S2P Require Import Prelude Sha256 Crypto Committee Pool Message Store Commitor Elector Transmitor Spb SpbExec SpbCert SpbProps Core CoreExec CoreInst.

Section forge.
Context {D : Type} `{!DB D} `{P : Prims} `{C : BlockCodec}.

(** The main loop waits for a message. *)
Definition waiting (nd : Node D) : Prop := n_main nd = Idle /\ n_recv nd = [].

(** The instance of a proposer, fresh if there is none yet. *)
Definition instance_or_new (c : Core D) (view : Z) (proposer : NodeID) : SPB :=
  default (NewSPB proposer view) (instance c view proposer).

(** Two states of a node that differ at most in one instance, with the same
    identity. *)
Record same_but (view : Z) (proposer : NodeID) (c c' : Core D) : Prop := {
  sb_env : env_of c' = env_of c;
  sb_view : c_view c' = c_view c;
  sb_others v n : (v, n) <> (view, proposer) -> instance c' v n = instance c v n;
}.

#[local] Instance same_but_preorder view proposer : PreOrder (same_but view proposer).
Proof.
  split; [done|]. intros x y z [E1 V1 O1] [E2 V2 O2]. split; [congruence..|].
  intros v n Hn. by rewrite O2, O1.
Qed.

Lemma same_but_set view proposer s c : same_but view proposer c (set_instance view proposer s c).
Proof. split; [done..|]. intros v n Hn. rewrite instance_set. rewrite decide_False; [done|]. intros [<- <-]. by apply Hn. Qed.

Lemma handle_vote c m :
  c_view c <= v_View m -> VoteMsg_Verify m (c_committee c) = Ok true ->
  exists c', handle (MVote m) c = (Ok Idle, c', [Spawn (GoSpb (v_View m) (v_Proposer m) (TVote m))]) /\
    same_but (v_View m) (v_Proposer m) c c' /\
    instance c' (v_View m) (v_Proposer m) = Some (instance_or_new c (v_View m) (v_Proposer m)).
Proof.
  intros Hv Hs. simpl. unfold handleVoteMsg, messageFilter, check_signature, goSpb, getSpbInstance, instance_or_new. gom.
  rewrite bool_decide_false by lia. rewrite Hs.
  destruct (instance c (v_View m) (v_Proposer m)) as [s|] eqn:Es; eexists; (split; [reflexivity|]).
  - by split.
  - split; [apply same_but_set|]. by rewrite instance_set, decide_True.
Qed.

Lemma run_vote c m s :
  v_Height m = HEIGHT_1 -> instance c (v_View m) (v_Proposer m) = Some s ->
  exists c' s', run_task (GoSpb (v_View m) (v_Proposer m) (TVote m)) c = (Ok tt, c',
      if decide (wrap32 ((s_voteNums s).1 + 1) = quorum_size (env_of c))
      then [Spawn (GoSpb (v_View m) (v_Proposer m) (TVoteQC m))] else []) /\
    same_but (v_View m) (v_Proposer m) c c' /\ instance c' (v_View m) (v_Proposer m) = Some s' /\
    (s_voteNums s').1 = wrap32 ((s_voteNums s).1 + 1).
Proof.
  intros Hh Es. unfold run_task. simpl g_view. simpl g_node. simpl g_task. rewrite Es. rewrite vote_step by done.
  eexists _, _. split; [simpl; f_equal; by destruct (decide _)|]. split_and!.
  - eapply (transitivity (y := set_txpool (c_txpool c) c)); [by split|]. apply same_but_set.
  - by rewrite instance_set, decide_True.
  - done.
Qed.

(** One vote arrives, is handled and its goroutine runs. *)
Lemma vote_counted nd m :
  waiting nd -> c_view (n_core nd) <= v_View m -> VoteMsg_Verify m (c_committee (n_core nd)) = Ok true ->
  v_Height m = HEIGHT_1 ->
  let n := wrap32 ((s_voteNums (instance_or_new (n_core nd) (v_View m) (v_Proposer m))).1 + 1) in
  exists nd', rtc node_step nd nd' /\ waiting nd' /\ same_but (v_View m) (v_Proposer m) (n_core nd) (n_core nd') /\
    (exists s, instance (n_core nd') (v_View m) (v_Proposer m) = Some s /\ (s_voteNums s).1 = n) /\
    n_tasks nd' = n_tasks nd ++
      (if decide (n = quorum_size (env_of (n_core nd))) then [GoSpb (v_View m) (v_Proposer m) (TVoteQC m)] else []) /\
    n_out nd' = n_out nd /\ n_handled nd' = n_handled nd ++ [MVote m].
Proof.
  intros [Hi Hr] Hv Hs Hh n. destruct (handle_vote (n_core nd) m Hv Hs) as (c1 & E1 & B1 & I1).
  destruct (run_vote c1 m _ Hh I1) as (c2 & s2 & E2 & B2 & I2 & N2). rewrite (sb_env _ _ _ _ B1) in E2.
  eexists. split; [|split_and!].
  - eapply rtc_l; [by apply (ns_deliver nd (MVote m))|]. eapply rtc_l.
    { eapply (ns_handle _ (MVote m) []); [exact Hi|by simpl; rewrite Hr|exact E1|done]. }
    apply rtc_once. eapply (ns_task _ (n_tasks nd) _ []); [reflexivity|exact E2].
  - split; [done|]. simpl. by destruct (decide _).
  - simpl. by etransitivity.
  - simpl. by exists s2.
  - simpl. by destruct (decide _).
  - simpl. by destruct (decide _); rewrite !app_nil_r.
  - done.
Qed.

(** As many equal votes as are missing for the quorum. *)
Lemma votes_counted nd m k :
  HightThreshold (c_committee (n_core nd)) < 2 ^ 31 ->
  waiting nd -> c_view (n_core nd) <= v_View m -> VoteMsg_Verify m (c_committee (n_core nd)) = Ok true ->
  v_Height m = HEIGHT_1 -> (0 < k)%nat ->
  0 <= (s_voteNums (instance_or_new (n_core nd) (v_View m) (v_Proposer m))).1 ->
  (s_voteNums (instance_or_new (n_core nd) (v_View m) (v_Proposer m))).1 + Z.of_nat k
    = HightThreshold (c_committee (n_core nd)) ->
  exists nd', rtc node_step nd nd' /\ waiting nd' /\ same_but (v_View m) (v_Proposer m) (n_core nd) (n_core nd') /\
    is_Some (instance (n_core nd') (v_View m) (v_Proposer m)) /\
    n_tasks nd' = n_tasks nd ++ [GoSpb (v_View m) (v_Proposer m) (TVoteQC m)] /\
    n_out nd' = n_out nd /\ n_handled nd' = n_handled nd ++ replicate k (MVote m).
Proof.
  intros HT Hw Hv Hs Hh Hk. revert nd HT Hw Hv Hs. induction k as [|k IH]; [lia|]. clear Hk.
  intros nd HT Hw Hv Hs H0 Hn.
  destruct (vote_counted nd m Hw Hv Hs Hh) as (nd1 & R1 & W1 & B1 & (s1 & I1 & N1) & T1 & O1 & L1).
  assert (quorum_size (env_of (n_core nd)) = HightThreshold (c_committee (n_core nd))) as Hq
    by (unfold quorum_size; simpl; rewrite wrap_small by lia; done).
  rewrite Hq in T1. rewrite wrap_small in N1, T1 by lia.
  assert (c_committee (n_core nd1) = c_committee (n_core nd)) as EC by exact (f_equal env_committee (sb_env _ _ _ _ B1)).
  destruct k as [|k].
  - rewrite decide_True in T1 by lia. exists nd1. split_and!; try done.
  - rewrite decide_False in T1 by lia. rewrite app_nil_r in T1.
    assert (instance_or_new (n_core nd1) (v_View m) (v_Proposer m) = s1) as Es by (unfold instance_or_new; by rewrite I1).
    destruct (IH ltac:(lia) nd1) as (nd2 & R2 & W2 & B2 & I2 & T2 & O2 & L2); rewrite ?EC, ?(sb_view _ _ _ _ B1), ?Es, ?N1; try done; [lia..|].
    exists nd2. split_and!; try done.
    + by etransitivity.
    + by etransitivity.
    + by rewrite T2, T1.
    + congruence.
    + by rewrite L2, L1, <- app_assoc.
Qed.

(** A second-height proposal of [view] whose certificate is for [d]. *)
Definition forged_proposal (me : NodeID) (view : Z) (d : Digest) (e : Eff CoreTask) : Prop :=
  exists p B qc, e = Send me NONE (MPropose p) /\ p_View p = view /\ p_Height p = HEIGHT_2 /\
    p_B p = Some B /\ b_Author B = me /\ b_Qc B = Some qc /\ qc_ParentBlockHash qc = d.

(** A quorum that is complete makes the node propose. *)
Lemma quorum_proposes nd m l1 l2 :
  n_tasks nd = l1 ++ GoSpb (v_View m) (v_Proposer m) (TVoteQC m) :: l2 ->
  v_Height m = HEIGHT_1 -> length (Prikey (PriKey (c_sigService (n_core nd)))) = 64%nat ->
  is_Some (instance (n_core nd) (v_View m) (v_Proposer m)) ->
  exists nd' e, node_step nd nd' /\ same_but (v_View m) (v_Proposer m) (n_core nd) (n_core nd') /\
    n_tasks nd' = l1 ++ l2 /\ n_handled nd' = n_handled nd /\ n_out nd' = n_out nd ++ e /\
    Exists (forged_proposal (c_nodeID (n_core nd)) (v_View m) (v_BlockHash m)) e.
Proof.
  intros Et Hh Hkey [s Es].
  destruct (spb_step_total (env_of (n_core nd)) Hkey (TVoteQC m) {| st_spb := s; st_pool := c_txpool (n_core nd) |} I)
    as (st' & effs & E).
  pose proof (spb_step_case _ _ _ _ _ E) as Hc.
  assert (run_task (GoSpb (v_View m) (v_Proposer m) (TVoteQC m)) (n_core nd)
    = (Ok tt, set_instance (v_View m) (v_Proposer m) (st_spb st') (set_txpool (st_pool st') (n_core nd)),
       Eff_map (GoSpb (v_View m) (v_Proposer m)) <$> effs)) as Er.
  { unfold run_task. simpl g_view. simpl g_node. simpl g_task. rewrite Es, E. done. }
  inversion Hc as [| | | | | | | | |? batch p ? _ Hp|? ? ? Hne| | | | | | | |]; subst; [|by destruct Hne].
  eexists _, _. split; [by eapply (ns_task _ l1 _ l2)|]. split_and!; simpl.
  - eapply (transitivity (y := set_txpool (st_pool st') (n_core nd))); [by split|]. apply same_but_set.
  - by rewrite app_nil_r.
  - done.
  - reflexivity.
  - left. unfold NewProposeMsg, ProposeMsg_Hash in Hp. simpl in Hp. destruct (RequestSignature _ _) as [sig| |]; simplify_eq/=.
    by eexists _, _, _.
Qed.
End forge.

(** C31. A single member makes a correct node propose twice in a view.  Take any
    node that waits for a message, a view it has not left, two instances of
    that view that do not exist yet, any two digests and any registered member:
    after handling [HightThreshold] votes for each digest, all signed by that
    member, the node has broadcast two second-height proposals of the view,
    with a certificate for the one digest and for the other.  Votes are not
    tied to their author, nor to the proposals of the node that counts them. *)
Theorem one_voter_forges_certificates `{!DB D} {P : Prims} {L : PrimsLaws P} `{C : BlockCodec} (nd : Node D)
    sig member pk view a b da db :
  waiting nd -> c_view (n_core nd) <= view -> a <> b ->
  instance (n_core nd) view a = None -> instance (n_core nd) view b = None ->
  registered (c_committee (n_core nd)) sig member pk ->
  length (Prikey (PriKey (c_sigService (n_core nd)))) = 64%nat ->
  0 < HightThreshold (c_committee (n_core nd)) < 2 ^ 31 ->
  exists va vb nd' out,
    (v_Author va = member /\ v_BlockHash va = da /\ VoteMsg_Verify va (c_committee (n_core nd)) = Ok true) /\
    (v_Author vb = member /\ v_BlockHash vb = db /\ VoteMsg_Verify vb (c_committee (n_core nd)) = Ok true) /\
    rtc node_step nd nd' /\
    n_handled nd' = n_handled nd ++
      replicate (Z.to_nat (HightThreshold (c_committee (n_core nd)))) (MVote va) ++
      replicate (Z.to_nat (HightThreshold (c_committee (n_core nd)))) (MVote vb) /\
    n_out nd' = n_out nd ++ out /\
    Exists (forged_proposal (c_nodeID (n_core nd)) view da) out /\
    Exists (forged_proposal (c_nodeID (n_core nd)) view db) out.
Proof.
  intros Hw Hv Hab Ia Ib R Hkey HT.
  assert (forall n d, exists m, v_Author m = member /\ v_BlockHash m = d /\ v_View m = view /\ v_Proposer m = n /\
    v_Height m = HEIGHT_1 /\ VoteMsg_Verify m (c_committee (n_core nd)) = Ok true) as Hvote.
  { intros n d. destruct (registered_sign _ _ _ _ (VoteMsg_Hash {| v_Author := member; v_Proposer := n; v_BlockHash := d;
      v_View := view; v_Height := HEIGHT_1; v_Signature := {| Sig := [] |} |}) R) as (s & _ & V).
    exists {| v_Author := member; v_Proposer := n; v_BlockHash := d; v_View := view; v_Height := HEIGHT_1; v_Signature := s |}.
    done. }
  destruct (Hvote a da) as (va & A1 & A2 & A3 & A4 & A5 & A6).
  destruct (Hvote b db) as (vb & B1 & B2 & B3 & B4 & B5 & B6).
  set (T := Z.to_nat (HightThreshold (c_committee (n_core nd)))).
  destruct (votes_counted nd va T) as (nd1 & R1 & W1 & S1 & [s1 I1] & T1 & O1 & L1);
    unfold instance_or_new; rewrite ?A3, ?A4, ?Ia; simpl; try done; try lia.
  rewrite A3, A4 in S1, I1, T1. destruct S1 as [E1 V1 K1].
  assert (c_committee (n_core nd1) = c_committee (n_core nd)) as EC by exact (f_equal env_committee E1).
  destruct (votes_counted nd1 vb T) as (nd2 & R2 & W2 & S2 & I2 & T2 & O2 & L2);
    unfold instance_or_new; rewrite ?B3, ?B4, ?EC, ?V1, ?K1, ?Ib; simpl; try done; try lia; try congruence.
  rewrite B3, B4 in S2, I2, T2. destruct S2 as [E2 V2 K2].
  assert (instance (n_core nd2) view a = Some s1) as I1' by (rewrite K2; [done|congruence]).
  assert (env_of (n_core nd2) = env_of (n_core nd)) as E by congruence.
  pose proof (f_equal env_sigService E) as ES. pose proof (f_equal env_nodeID E) as EN. simpl in ES, EN.
  destruct (quorum_proposes nd2 va (n_tasks nd) [GoSpb view b (TVoteQC vb)]) as (nd3 & e1 & N1 & S3 & T3 & L3 & O3 & F1);
    rewrite ?A3, ?A4, ?ES; try done; [by rewrite T2, T1, <- app_assoc|].
  rewrite A3, A4, A2, EN in *. destruct S3 as [E3 V3 K3].
  assert (env_of (n_core nd3) = env_of (n_core nd)) as E' by congruence.
  pose proof (f_equal env_sigService E') as ES'. pose proof (f_equal env_nodeID E') as EN'. simpl in ES', EN'.
  destruct (quorum_proposes nd3 vb (n_tasks nd) []) as (nd4 & e2 & N2 & S4 & T4 & L4 & O4 & F2);
    rewrite ?B3, ?B4, ?ES'; try done; [by rewrite K3 by congruence|].
  rewrite B3, B2, EN' in F2.
  exists va, vb, nd4, (e1 ++ e2). split_and!; try done.
  - etransitivity; [exact R1|]. etransitivity; [exact R2|]. eapply rtc_l; [exact N1|]. by apply rtc_once.
  - by rewrite L4, L3, L2, L1, <- app_assoc.
  - by rewrite O4, O3, O2, O1, <- app_assoc.
  - apply Exists_app. by left.
  - apply Exists_app. by right.
Qed.

(** Node 1 has handled its own first proposal; node 3 votes in the instances of
    nodes 0 and 2. *)
Module ForgeDemo.
Definition node : Node CoreDemo.MemDB := default CoreDemo.empty_node (CoreDemo.run [NHandle]).

Lemma node_ok : node_reachable 1 CoreDemo.committee DefaultParameters (CoreDemo.service 1) node.
Proof.
  apply (do_nacts_reachable 1 _ _ _ SpbDemo.pool mem_store_empty [NHandle]).
  apply (default_Some CoreDemo.empty_node). vm_compute. reflexivity.
Qed.

Lemma node_waiting : waiting node.
Proof. split; vm_compute; reflexivity. Qed.
Lemma node_instances : instance (n_core node) 0 0 = None /\ instance (n_core node) 0 2 = None.
Proof. split; vm_compute; reflexivity. Qed.
Lemma node_view : c_view (n_core node) <= 0.
Proof. vm_compute. discriminate. Qed.
Lemma node_key : length (Prikey (PriKey (c_sigService (n_core node)))) = 64%nat.
Proof. vm_compute. reflexivity. Qed.
Lemma node_committee : c_committee (n_core node) = CoreDemo.committee.
Proof. vm_compute. reflexivity. Qed.
Lemma node_registered :
  registered (L := demo_laws pad32 pad32_length) (c_committee (n_core node)) (CoreDemo.service 3) 3 (replicate 32 (byte_of_Z 3)).
Proof. rewrite node_committee. split; [split|]; reflexivity. Qed.
Lemma node_threshold : 0 < HightThreshold (c_committee (n_core node)) < 2 ^ 31.
Proof. rewrite node_committee. vm_decide. Qed.
End ForgeDemo.

Lemma one_voter_forges_certificates_witness :
  node_reachable 1 CoreDemo.committee DefaultParameters (CoreDemo.service 1) ForgeDemo.node /\
  exists nd out, rtc node_step ForgeDemo.node nd /\ n_out nd = n_out ForgeDemo.node ++ out /\
    Exists (forged_proposal (c_nodeID (n_core ForgeDemo.node)) 0 (replicate 32 Byte.x01)) out /\
    Exists (forged_proposal (c_nodeID (n_core ForgeDemo.node)) 0 (replicate 32 Byte.x02)) out.
Proof.
  split; [exact ForgeDemo.node_ok|]. destruct ForgeDemo.node_instances as [I0 I2].
  destruct (one_voter_forges_certificates (L := demo_laws pad32 pad32_length) ForgeDemo.node (CoreDemo.service 3) 3
    (replicate 32 (byte_of_Z 3)) 0 0 2 (replicate 32 Byte.x01) (replicate 32 Byte.x02)
    ForgeDemo.node_waiting ForgeDemo.node_view ltac:(done) I0 I2
    ForgeDemo.node_registered ForgeDemo.node_key ForgeDemo.node_threshold) as (va & vb & nd & out & _ & _ & R & _ & O & F1 & F2).
  exists nd, out. split_and!; [exact R|exact O|exact F1|exact F2].
Defined.
