(* ===== verification/CoreOut.v ===== *)
(** * What a lean node sends, whatever it receives

    Invariants of every execution of [CoreExec] about the messages a node lets
    out and the goroutines it starts.  [System] puts several nodes together
    with them. *)
From S2P Require Import Prelude Sha256 Crypto Committee Pool Message Store Commitor Elector Transmitor Spb SpbExec SpbCert SpbProps Core CoreExec CoreInst CoreProps.

(** The message of an effect. *)
Definition message {T} (e : Eff T) : option ConsensusMessage :=
  match e with Send _ _ m | Self m => Some m | Spawn _ => None end.
Abbreviation messages := (omap message).

Section out.
Context {D : Type} `{!DB D} `{P : Prims} `{C : BlockCodec}.

(** The certificate of a second-height block is made from a vote. *)
Definition certified (voted : VoteMsg -> Prop) (B : Block) : Prop :=
  b_Height B = HEIGHT_1 \/
  (b_Height B = HEIGHT_2 /\ exists v qc, voted v /\ b_Qc B = Some qc /\ qc_ParentBlockHash qc = v_BlockHash v).

(** A message as node [i] with service [s] makes it after some votes. *)
Definition own_message (voted : VoteMsg -> Prop) (i : NodeID) (s : SigService) (m : ConsensusMessage) : Prop :=
  match m with
  | MPropose p => exists B, p_B p = Some B /\ p_Author p = i /\ p_View p = b_View B /\ p_Height p = b_Height B /\
                            certified voted B
  | MVote v => exists B, v_BlockHash v = Block_Hash B
  | MElect e => NewElectMsg i (e_View e) s = Ok e
  | _ => True
  end.

(** Effects of a piece of the node: its own messages, and a proposal to
    itself is also broadcast. *)
Record out_trace (voted : VoteMsg -> Prop) (c c' : Core D) (effs : list (Eff CoreTask)) : Prop := {
  ot_env : env_of c' = env_of c;
  ot_own : Forall (own_message voted (c_nodeID c) (c_sigService c)) (messages effs);
  ot_self p : Self (MPropose p) ∈ effs -> exists from, Send from NONE (MPropose p) ∈ effs;
}.

#[global] Instance out_trace_trace voted : Trace (out_trace voted).
Proof.
  split.
  - intros c. split; [done|constructor|set_solver].
  - intros c1 c2 c3 es1 es2 [E1 O1 S1] [E2 O2 S2]. split; [congruence| |].
    + rewrite omap_app, Forall_app. split; [done|]. injection E1 as E1 _ E3. by rewrite <- E1, <- E3.
    + intros p [(f & ?)%S1|(f & ?)%S2]%elem_of_app; exists f; set_solver.
Qed.

Lemma out_trace_same voted c c' : env_of c' = env_of c -> out_trace voted c c' [].
Proof. intros E. split; [done|constructor|set_solver]. Qed.

Lemma out_trace_send voted c from to m : own_message voted (c_nodeID c) (c_sigService c) m -> out_trace voted c c [Send from to m].
Proof. intros H. split; [done|by repeat constructor|]. intros p Hp. set_solver. Qed.

Lemma out_trace_spawn voted c t : out_trace voted c c [Spawn t].
Proof. split; [done|constructor|]. intros p Hp. set_solver. Qed.

Lemma broadcast_out voted c m : own_message voted (c_nodeID c) (c_sigService c) m -> spec_at c (broadcast m) (out_trace voted).
Proof.
  intros H r c' es. unfold broadcast. gom. intros [= <- <- <-]. split; [done|by repeat constructor|].
  intros p Hp. exists (c_nodeID c). set_solver.
Qed.

Ltac out_trace :=
  repeat first [solve [eauto with go] | spec_step | by apply out_trace_same | by apply out_trace_spawn
               | by apply out_trace_send].

Lemma getSpbInstance_out voted c v n : spec_at c (getSpbInstance v n) (out_trace voted).
Proof. unfold getSpbInstance. out_trace. Qed.
Lemma check_signature_out voted c ok m v a : spec_at c (check_signature ok m v a) (out_trace voted).
Proof. unfold check_signature. out_trace. Qed.
Hint Resolve getSpbInstance_out check_signature_out : go.
Lemma goSpb_out voted c v n t : spec_at c (goSpb v n t) (out_trace voted).
Proof. unfold goSpb. out_trace. Qed.
Lemma processCoin_out voted c l v : spec_at c (processCoin l v) (out_trace voted).
Proof. unfold processCoin. out_trace. Qed.
Hint Resolve goSpb_out processCoin_out : go.

Lemma NewElectMsg_view i v s e : NewElectMsg i v s = Ok e -> NewElectMsg i (e_View e) s = Ok e.
Proof.
  unfold NewElectMsg. intros E. assert (e_View e = v) as ->; [|done]. revert E.
  destruct (RequestTsSugnature _ _) as [[share [err|]]|e'|]; simpl; intros; simplify_eq/=; done.
Qed.

Lemma advanceView_out voted c v qc d : spec_at c (advanceView v qc d) (out_trace voted).
Proof.
  intros r c' es. unfold advanceView, core_generatorBlock, broadcast, generatorBlock. gom.
  destruct (decide (v <= c_view c)) as [?|Hlt]; [intros [= <- <- <-]; by apply out_trace_same|].
  destruct (GetBatch _) as [batch pool]. simpl. destruct (NewProposeMsg _ _) as [p|e|] eqn:Ep.
  - apply NewProposeMsg_fields in Ep as (Ev & Eh & EB & EA). intros [= <- <- <-]. split; [done| |].
    + assert (own_message voted (c_nodeID c) (c_sigService c) (MPropose {| p_Author := p_Author p; p_B := p_B p; p_View := p_View p;
        p_Height := p_Height p; p_DocG := d; p_Signature := p_Signature p |})).
      { eexists. simpl. rewrite EB, EA, Ev, Eh. split_and!; [done..|]. by left. }
      by repeat constructor.
    + intros p' Hp. exists (c_nodeID c). set_solver.
  - intros [= <- <- <-]. by apply out_trace_same.
  - intros [= <- <- <-]. by apply out_trace_same.
Qed.
Hint Resolve advanceView_out : go.

Lemma Run_first_out voted c : c_height c = HEIGHT_1 -> spec_at c Run_first (out_trace voted).
Proof.
  intros Hh r c' es. unfold Run_first, core_generatorBlock, broadcast, generatorBlock. gom.
  destruct (GetBatch _) as [batch pool]. simpl. destruct (NewProposeMsg _ _) as [p|e|] eqn:Ep.
  - apply NewProposeMsg_fields in Ep as (Ev & Eh & EB & EA). intros [= <- <- <-]. split; [done| |].
    + assert (own_message voted (c_nodeID c) (c_sigService c) (MPropose p)).
      { eexists. rewrite EB, EA, Ev, Eh. split_and!; [done..|]. by left. }
      by repeat constructor.
    + intros p' Hp. exists (c_nodeID c). set_solver.
  - intros [= <- <- <-]. by apply out_trace_same.
  - intros [= <- <- <-]. by apply out_trace_same.
Qed.

Lemma commit_digest_out voted c d : spec_at c (commit_digest d) (out_trace voted).
Proof. unfold commit_digest. out_trace. Qed.
Lemma broadcast_report_out voted c r : spec_at c (broadcast (MReport r)) (out_trace voted).
Proof. by apply broadcast_out. Qed.
Hint Resolve commit_digest_out broadcast_report_out : go.

(** The elect message is made with the node's own key. *)
Lemma handleFinVoteMsg_out voted c fv : spec_at c (handleFinVoteMsg fv) (out_trace voted).
Proof.
  unfold handleFinVoteMsg. apply spec_get_bind. case_match; [out_trace|].
  apply spec_bind_rel; [apply _|out_trace|intros _ c1 es1 [E1 _ _]].
  apply spec_bind_rel; [apply _|out_trace|intros _ c2 es2 [E2 _ _]].
  apply spec_bind; [apply _| |intros; out_trace]. destruct (decide _); [|out_trace].
  destruct (NewElectMsg _ _ _) as [elect| |] eqn:Ee; [|out_trace..]. apply broadcast_out. simpl.
  rewrite E1 in E2. injection E2 as -> _ ->. by eapply NewElectMsg_view.
Qed.
Hint Resolve handleFinVoteMsg_out : go.

Lemma handle_out voted c m : spec_at c (handle m) (out_trace voted).
Proof.
  destruct m; simpl; unfold handleProposeMsg, handleVoteMsg, handleSpeedVoteMsg, handleElectMsg,
    handleCoinMsg, handleReportMsg; out_trace.
Qed.
Lemma processCoin_seg_out voted c pc : spec_at c (processCoin_seg pc) (out_trace voted).
Proof. destruct pc; simpl; out_trace. Qed.

(** Goroutines: votes and second-height proposals, on blocks. *)
Lemma run_task_out c g c' effs : run_task g c = (Ok tt, c', effs) ->
  out_trace (fun v => g_task g = TVoteQC v) c c' effs.
Proof.
  intros (s & st & effs0 & _ & Hc & -> & ->)%run_task_shape.
  assert (Forall (own_message (fun v => g_task g = TVoteQC v) (c_nodeID c) (c_sigService c)) (messages effs0) /\
    forall p, Self (MPropose p) ∈ effs0 -> exists from, Send from NONE (MPropose p) ∈ effs0) as [Ho Hs].
  { assert (forall l : list SpbTask, messages (Spawn <$> l) = []) as Hsp by (induction l; [done|by csimpl]).
    remember (g_task g) as t eqn:Et.
    destruct Hc as [| | | |p s|p s|p B m s e ? Hm He| | |v batch m s _ Hm| | | | |qc m s e ? He| | | |];
      try destruct He as [-> | ->]; rewrite ?list_fmap_compose; rewrite ?omap_app, ?Hsp; simpl; split; csimpl;
      rewrite ?Forall_cons; try done; try (intros p' Hp; set_solver).
    all: try (intros p' [(? & ? & _)%list_elem_of_fmap|Hp]%elem_of_app; [done|set_solver]).
    - revert Hm. unfold NewVoteMsg. destruct (RequestSignature _ _); intros; simplify_eq/=. split; [by eexists|done].
    - revert Hm. unfold NewVoteMsg. destruct (RequestSignature _ _); intros; simplify_eq/=. split; [by eexists|done].
    - apply NewProposeMsg_fields in Hm as (Ev & Eh & EB & EA). split_and!; [..|done]; eexists; simpl; rewrite EB, EA, Ev, Eh; (split_and!; [done..|]); right;
        (split; [done|]); by exists v, (vote_qc s v). }
  split; [done| |].
  - rewrite (omap_Eff_map (fun T => message)); [exact Ho|by intros []].
  - intros p (e & E & He)%list_elem_of_fmap. destruct e; simplify_eq/=. destruct (Hs _ He) as [from Hf].
    exists from. apply list_elem_of_fmap. by exists (Send from NONE (MPropose p)).
Qed.

(** *** Goroutines that the main loop starts *)

(** The goroutine that a message starts, on the instance it names. *)
Definition starts (m : ConsensusMessage) (g : CoreTask) : Prop :=
  match g_task g with
  | TPropose p => m = MPropose p /\ g_view g = p_View p /\ g_node g = p_Author p
  | TVote v => m = MVote v /\ g_view g = v_View v /\ g_node g = v_Proposer v
  | TFinVote fv => m = MFinVote fv /\ g_view g = fv_View fv /\ g_node g = fv_Author fv
  | TSpeedVote sv => m = MSpeedVote sv /\ g_view g = sv_View sv /\ g_node g = sv_Proposer sv
  | _ => False
  end.

Definition start_trace (m : ConsensusMessage) (c c' : Core D) (effs : list (Eff CoreTask)) : Prop :=
  Forall (starts m) (spawned effs).

#[global] Instance start_trace_trace m : Trace (start_trace m).
Proof.
  split; unfold start_trace; [constructor|]. intros. rewrite spawned_app, Forall_app. done.
Qed.

Lemma start_trace_none m c c' es : spawned es = [] -> start_trace m c c' es.
Proof. intros E. unfold start_trace. by rewrite E. Qed.
Lemma start_trace_go m c g : starts m g -> start_trace m c c [Spawn g].
Proof. by repeat constructor. Qed.

Ltac start_trace :=
  repeat first [spec_step | by apply start_trace_none | by apply start_trace_go].

Lemma handle_starts c m : spec_at c (handle m) (start_trace m).
Proof.
  destruct m; simpl; unfold handleProposeMsg, handleVoteMsg, handleFinVoteMsg, handleSpeedVoteMsg, handleElectMsg,
    handleCoinMsg, handleReportMsg, advanceView, core_generatorBlock, processCoin, check_signature, goSpb, getSpbInstance,
    broadcast; start_trace.
Qed.
Lemma processCoin_seg_spawned c pc r c' effs : processCoin_seg pc c = (r, c', effs) -> spawned effs = [].
Proof.
  assert (forall m, spec_at c (processCoin_seg pc) (start_trace m)) as H.
  { intros m. destruct pc; simpl; unfold commit_digest, broadcast, getSpbInstance; start_trace. }
  intros E. pose proof (H (MElect {| e_Author := 0; e_View := 0; e_SigShare := {| PartialSig := [] |} |}) _ _ _ E) as H1.
  unfold start_trace in H1. destruct (spawned effs) as [|g l]; [done|]. apply Forall_cons in H1 as [H1 _].
  unfold starts in H1. destruct (g_task g); naive_solver.
Qed.

(** ** The invariant *)

Record out_inv (i : NodeID) (s : SigService) (nd : Node D) : Prop := {
  oi_id : c_nodeID (n_core nd) = i /\ c_sigService (n_core nd) = s;
  oi_own : Forall (own_message (fun v => MVote v ∈ n_handled nd) i s) (messages (n_out nd));
  oi_self p : Self (MPropose p) ∈ n_out nd -> exists from, Send from NONE (MPropose p) ∈ n_out nd;
  oi_started : Forall (fun g => exists m, m ∈ n_handled nd /\ starts m g) (n_started nd);
}.

Lemma elem_of_outputs (e : Eff CoreTask) effs : e ∈ outputs effs <-> e ∈ effs /\ match e with Spawn _ => False | _ => True end.
Proof. unfold outputs. rewrite list_elem_of_omap. split; [intros ([] & ? & ?); simplify_eq/=|destruct e; naive_solver]; done. Qed.

Lemma messages_outputs (effs : list (Eff CoreTask)) : messages (outputs effs) = messages effs.
Proof. by apply omap_outputs. Qed.

Lemma own_message_mono (V V' : VoteMsg -> Prop) i s m :
  (forall v, V v -> V' v) -> own_message V i s m -> own_message V' i s m.
Proof.
  intros HV. destruct m; simpl; try done. intros (B & ? & ? & ? & ? & Hc). exists B. split_and!; try done.
  destruct Hc as [?|(? & v & qc & ? & ?)]; [by left|right]. split; [done|]. exists v, qc. split; [by apply HV|done].
Qed.

Lemma out_inv_step i s V nd nd' effs :
  out_trace V (n_core nd) (n_core nd') effs -> n_out nd' = n_out nd ++ outputs effs ->
  (forall v, V v -> MVote v ∈ n_handled nd') -> n_handled nd ⊆ n_handled nd' ->
  Forall (fun g => exists m, m ∈ n_handled nd' /\ starts m g) (n_started nd') ->
  out_inv i s nd -> out_inv i s nd'.
Proof.
  intros [E O S] Eo HV Hh Hg [[I0 I0'] I1 I2 _]. injection E as E1 _ E3. split; [by rewrite E1, E3| |..|done]; rewrite Eo.
  - rewrite omap_app, messages_outputs, Forall_app. rewrite <- I0, <- I0' in *.
    split; (eapply Forall_impl; [eassumption|]); intros m; apply own_message_mono; auto.
  - intros p [(f & ?)%I2|[(f & ?)%S _]%elem_of_outputs]%elem_of_app; exists f; apply elem_of_app; [by left|right].
    by apply elem_of_outputs.
Qed.

Lemma started_mono (h h' : list ConsensusMessage) (l : list CoreTask) :
  h ⊆ h' -> Forall (fun g => exists m, m ∈ h /\ starts m g) l -> Forall (fun g => exists m, m ∈ h' /\ starts m g) l.
Proof. intros Hs Hl. eapply Forall_impl; [exact Hl|]. intros g (m & ? & ?). exists m. auto. Qed.

(** A vote whose certificate is pending was handled. *)
Lemma pending_vote i committee parameters s nd g v :
  node_reachable i committee parameters s nd ->
  Forall (fun g => exists m, m ∈ n_handled nd /\ starts m g) (n_started nd) ->
  g ∈ n_tasks nd -> g_task g = TVoteQC v -> MVote v ∈ n_handled nd.
Proof.
  intros Hr Hst Hg Et. pose proof (ii_sim _ _ (inst_inv_reachable _ _ _ _ _ Hr) (g_view g) (g_node g)) as Hsim.
  assert (TVoteQC v ∈ tasks_of (g_view g) (g_node g) (n_tasks nd)) as Hin.
  { apply list_elem_of_omap. exists g. split; [done|]. rewrite decide_True by done. by rewrite Et. }
  destruct (instance _ _ _) as [sp|]; [|destruct Hsim as [E _]; rewrite E in Hin; by apply elem_of_nil in Hin].
  destruct Hsim as (cf & Hcf & _ & Ep & Es). apply origin_reachable in Hcf as [Ho _ _].
  rewrite Ep, Es in Ho. rewrite Forall_forall in Ho. specialize (Ho _ Hin). simpl in Ho.
  apply list_elem_of_omap in Ho as (g' & Hg' & E). destruct (decide _); [|discriminate]. injection E as E.
  rewrite Forall_forall in Hst. destruct (Hst _ Hg') as (m & Hm & Hs). unfold starts in Hs. rewrite E in Hs.
  by destruct Hs as [-> _].
Qed.

Lemma out_reachable i committee parameters s nd :
  node_reachable i committee parameters s nd -> out_inv i s nd.
Proof.
  intros Hr. assert (node_reachable i committee parameters s nd /\ out_inv i s nd) as [_ H]; [|exact H].
  revert nd Hr. apply node_invariant.
  - intros nd Hi. split; [exists nd; split; [done|apply rtc_refl]|]. destruct Hi as [txpool store c effs _ Hrun].
    eapply (out_inv_step _ _ (fun _ => False) {| n_core := NewCore i committee parameters txpool store s; n_recv := [];
      n_tasks := []; n_main := Idle; n_out := []; n_started := []; n_handled := [] |}); simpl; try done.
    + by eapply Run_first_out.
    + split; simpl; [done|constructor|set_solver|constructor].
  - intros nd nd' [Hr I] Hs. pose proof (oi_started _ _ _ I) as Hst.
    split; [destruct Hr as (nd0 & ? & ?); exists nd0; split; [done|]; by eapply rtc_r|].
    destruct Hs as [nd m|nd m rest r c' effs _ _ Hh _|nd r c' effs _ Hh _|nd l1 g l2 c' effs El Hrun|nd pool|nd fuel reads com _].
    + by destruct I.
    + eapply (out_inv_step _ _ (fun _ => False)); [by eapply handle_out|done|done|set_solver| |done]. simpl. apply Forall_app. split.
      * eapply started_mono; [|done]. set_solver.
      * eapply Forall_impl; [by eapply handle_starts|]. intros g Hg. exists m. split; [set_solver|done].
    + eapply (out_inv_step _ _ (fun _ => False)); [by eapply processCoin_seg_out|done|done|done| |done]. simpl.
      rewrite (processCoin_seg_spawned _ _ _ _ _ Hh), app_nil_r. done.
    + eapply out_inv_step; [by eapply run_task_out|done| |done|done|done]. intros v Hv.
      simpl. apply (pending_vote _ _ _ _ nd g v Hr Hst); [|exact Hv]. rewrite El. set_solver.
    + by destruct I.
    + by destruct I.
Qed.
End out.
