(* ===== verification/System.v ===== *)
(** * Several lean nodes together

    A network in which every node runs the program: nodes take the steps of
    [CoreExec], and the only messages that arrive at a node are ones that
    another node sent to it.  The network may delay, lose, reorder and repeat
    them.  [net_act] runs given schedules on links that deliver each message
    at most once and in order, as TCP connections do. *)
From S2P Require Import Prelude Sha256 Crypto Committee Pool Message Store Commitor Elector Transmitor Spb SpbExec SpbCert SpbProps Core CoreExec CoreInst CoreProps CoreOut.

Section system.
Context {D : Type} `{!DB D} `{P : Prims} `{C : BlockCodec}.
Context (committee : Committee) (parameters : Parameters) (service : NodeID -> SigService).

Abbreviation Sys := (gmap NodeID (Node D)).

Definition receive (nd : Node D) (m : ConsensusMessage) : Node D :=
  {| n_core := n_core nd; n_recv := n_recv nd ++ [m]; n_tasks := n_tasks nd; n_main := n_main nd;
     n_out := n_out nd; n_started := n_started nd; n_handled := n_handled nd |}.

(** A node other than [i] sent [m] to [i] or to all. *)
Definition sent_to (σ : Sys) (i : NodeID) (m : ConsensusMessage) : Prop :=
  exists j nd from to, j <> i /\ σ !! j = Some nd /\ Send from to m ∈ n_out nd /\ (to = NONE \/ to = i).

(** One node takes a step; if it is an arrival, the message was sent. *)
Inductive sys_step : Sys -> Sys -> Prop :=
| sys_node σ i nd nd' :
    σ !! i = Some nd -> node_step nd nd' -> (forall m, nd' = receive nd m -> sent_to σ i m) ->
    sys_step σ (<[i := nd']> σ).

(** Members of the committee that have each made their first proposal. *)
Definition sys_init (σ : Sys) : Prop :=
  map_Forall (fun i nd => i ∈ dom (Authorities committee) /\ node_init i committee parameters (service i) nd) σ.

Definition sys_reachable (σ : Sys) : Prop := exists σ0, sys_init σ0 /\ rtc sys_step σ0 σ.

Lemma sys_invariant (I : Sys -> Prop) :
  (forall σ, sys_init σ -> I σ) -> (forall σ σ', I σ -> sys_step σ σ' -> I σ') -> forall σ, sys_reachable σ -> I σ.
Proof.
  intros H0 Hs σ (σ0 & Hi & Hr).
  assert (forall x y, rtc sys_step x y -> I x -> I y) as Hind by (induction 1; eauto). eauto.
Qed.

(** Every node of the system is a node alone in some network. *)
Lemma sys_node_reachable σ :
  sys_reachable σ ->
  map_Forall (fun i nd => i ∈ dom (Authorities committee) /\ node_reachable i committee parameters (service i) nd) σ.
Proof.
  revert σ. apply sys_invariant.
  - intros σ H. eapply map_Forall_impl; [exact H|]. intros i nd [Hd Hi]. split; [done|].
    exists nd. split; [done|apply rtc_refl].
  - intros σ σ' IH Hs. destruct Hs as [σ i nd nd' Hi Hs _]. apply map_Forall_insert_2; [|exact IH].
    destruct (IH i nd Hi) as (Hd & nd0 & H0 & Hr). split; [done|]. exists nd0. split; [done|]. by eapply rtc_r.
Qed.

(** ** Schedules *)

(** The network's links: how far the outputs of [j] have been delivered to [i]. *)
Record Net := { ne_nodes : Sys; ne_links : gmap (NodeID * NodeID) nat }.

Inductive NetAct :=
| SNode (i : NodeID) (a : NAct)
| SDeliver (j i : NodeID)
| SCommit (i : NodeID) (fuel : nat).

(** The next output for [i] among those from position [k] on. *)
Fixpoint next_for (i : NodeID) (k : nat) (out : list (Eff CoreTask)) : option (nat * ConsensusMessage) :=
  match out with
  | [] => None
  | Send _ to m :: out => if decide (to = NONE \/ to = i) then Some (k, m) else next_for i (S k) out
  | _ :: out => next_for i (S k) out
  end.

Definition link_next (n : Net) (j i : NodeID) : option (nat * ConsensusMessage) :=
  if decide (j = i) then None else
  nd ← ne_nodes n !! j;
  let k := default 0%nat (ne_links n !! (j, i)) in
  next_for i k (drop k (n_out nd)).

Definition set_node (i : NodeID) (nd : Node D) (n : Net) : Net :=
  {| ne_nodes := <[i := nd]> (ne_nodes n); ne_links := ne_links n |}.

(** What the committer reads: the store of its node. *)
Definition store_reads (nd : Node D) : Reads := fun _ d =>
  match getBlock (c_store (n_core nd)) d with Ok b => Some b | _ => None end.

Definition net_act (n : Net) (a : NetAct) : option Net :=
  match a with
  | SNode _ (NDeliver _) => None
  | SNode i a => nd ← ne_nodes n !! i; nd' ← do_nact nd a; Some (set_node i nd' n)
  | SDeliver j i =>
      '(k, m) ← link_next n j i;
      nd ← ne_nodes n !! i;
      Some {| ne_nodes := <[i := receive nd m]> (ne_nodes n); ne_links := <[(j, i) := S k]> (ne_links n) |}
  | SCommit i fuel =>
      nd ← ne_nodes n !! i;
      com ← Commitor_run fuel (store_reads nd) (c_commitor (n_core nd));
      Some (set_node i {| n_core := set_commitor com (n_core nd); n_recv := n_recv nd; n_tasks := n_tasks nd;
              n_main := n_main nd; n_out := n_out nd; n_started := n_started nd; n_handled := n_handled nd |} n)
  end.

Fixpoint net_acts (n : Net) (acts : list NetAct) : option Net :=
  match acts with
  | [] => Some n
  | a :: acts => n' ← net_act n a; net_acts n' acts
  end.

(** *** Schedules are executions *)

Lemma next_for_sent i k out k' m : next_for i k out = Some (k', m) -> exists from to, Send from to m ∈ out /\ (to = NONE \/ to = i).
Proof.
  revert k. induction out as [|[from to m'|m'|t] out IH]; intros k; simpl; [done| |..].
  - case_decide as Hd; [intros [= _ ->]; exists from, to; split; [constructor|done]|]. intros (f & t & ? & ?)%IH.
    exists f, t. split; [by constructor|done].
  - intros (f & t & ? & ?)%IH. exists f, t. split; [by constructor|done].
  - intros (f & t' & ? & ?)%IH. exists f, t'. split; [by constructor|done].
Qed.

Lemma link_next_sent n j i k m : link_next n j i = Some (k, m) -> sent_to (ne_nodes n) i m.
Proof.
  unfold link_next. case_decide as Hne; [done|]. destruct (ne_nodes n !! j) as [nd|] eqn:Hj; [|done]. simpl.
  intros (from & to & Hin & Hto)%next_for_sent. exists j, nd, from, to. split_and!; try done.
  rewrite <- (take_drop (default 0%nat (ne_links n !! (j, i))) (n_out nd)). apply elem_of_app. by right.
Qed.

(** A local action never looks like an arrival. *)
Lemma selfs_outputs (effs : list (Eff CoreTask)) : outputs effs = [] -> selfs effs = [].
Proof. induction effs as [|[] effs IH]; csimpl; intros; simplify_eq; auto. Qed.

Lemma app_same_nil {A} (l l' : list A) : l ++ l' = l -> l' = [].
Proof. intros E. apply (app_inv_head l). by rewrite app_nil_r. Qed.

Lemma local_no_receive nd a nd' m : do_nact nd a = Some nd' -> (forall m, a <> NDeliver m) -> nd' <> receive nd m.
Proof.
  assert (forall effs : list (Eff CoreTask), n_out nd ++ outputs effs = n_out nd -> n_recv nd ++ selfs effs <> n_recv nd ++ [m]) as Hout.
  { intros effs Ho%app_same_nil%selfs_outputs E%app_inv_head. congruence. }
  intros E Ha ->. destruct a as [m'| | |k]; simpl in E; [by destruct (Ha m')|..].
  - destruct (n_main nd), (n_recv nd) as [|m' rest] eqn:Er; try done.
    destruct (handle m' (n_core nd)) as [[[] ?] ?]; try done;
      apply (inj Some), (f_equal n_handled) in E; simpl in E; by apply app_same_nil in E.
  - destruct (is_idle _); [done|]. destruct (processCoin_seg _ _) as [[[] ?] effs]; try done; apply (inj Some) in E;
      pose proof (f_equal n_out E) as Eo; apply (f_equal n_recv) in E; simpl in *; by eapply Hout.
  - destruct (n_tasks nd !! k); [|done]. simpl in E. destruct (run_task _ _) as [[[[]| |] ?] effs]; try done; apply (inj Some) in E.
    pose proof (f_equal n_out E) as Eo; apply (f_equal n_recv) in E; simpl in *; by eapply Hout.
Qed.

Lemma net_act_step n a n' : net_act n a = Some n' -> sys_step (ne_nodes n) (ne_nodes n').
Proof.
  destruct a as [i a|j i|i fuel]; simpl.
  - intros E. assert (exists nd nd', ne_nodes n !! i = Some nd /\ do_nact nd a = Some nd' /\ n' = set_node i nd' n /\
      forall m, a <> NDeliver m) as (nd & nd' & Hi & Ha & -> & Hnd).
    { destruct a; [done|..]; destruct (ne_nodes n !! i) as [nd|]; try done;
        cbn [mbind option_bind] in E; destruct (do_nact nd _) as [nd'|] eqn:Ed; try done; simpl in E; simplify_eq; eauto 10. }
    apply (sys_node _ _ nd); [done|by eapply do_nact_step|]. intros m E'. exfalso. by eapply local_no_receive.
  - destruct (link_next n j i) as [[k m]|] eqn:El; [|done]. simpl. destruct (ne_nodes n !! i) as [nd|] eqn:Hi; [|done].
    intros [= <-]. apply (sys_node _ _ nd); [done|apply ns_deliver|]. intros m' E.
    assert (m' = m) as -> by (apply (f_equal n_recv) in E; simpl in E; by apply app_inv_head in E as [= ->]).
    by eapply link_next_sent.
  - destruct (ne_nodes n !! i) as [nd|] eqn:Hi; [|done]. simpl.
    destruct (Commitor_run _ _ _) as [com|] eqn:Ec; [|done]. intros [= <-]. simpl.
    apply (sys_node _ _ nd); [done|by eapply ns_commit|]. intros m E. apply (f_equal n_recv) in E. simpl in E.
    apply (f_equal length) in E. rewrite length_app in E. simpl in E. lia.
Qed.

Lemma net_acts_steps n acts n' : net_acts n acts = Some n' -> rtc sys_step (ne_nodes n) (ne_nodes n').
Proof.
  revert n. induction acts as [|a acts IH]; intros n; simpl; [intros [= ->]; apply rtc_refl|].
  destruct (net_act n a) as [n1|] eqn:E; [|done]. simpl. intros H%IH. eapply rtc_l; [by eapply net_act_step|done].
Qed.

Lemma net_acts_app n acts1 acts2 : net_acts n (acts1 ++ acts2) = net_acts n acts1 ≫= fun n' => net_acts n' acts2.
Proof. revert n. induction acts1 as [|a acts1 IH]; intros n; simpl; [done|]. destruct (net_act n a); simpl; auto. Qed.

(** *** A scheduler

    Nodes work until they wait, then a message of an open link is delivered. *)

Definition local_act (nd : Node D) : option NAct :=
  match n_tasks nd, n_main nd, n_recv nd with
  | _ :: _, _, _ => Some (NTask 0)
  | [], Idle, [] => None
  | [], Idle, _ => Some NHandle
  | [], _, _ => Some NCoin
  end.

Fixpoint pick_local (nodes : list (NodeID * Node D)) : option NetAct :=
  match nodes with
  | [] => None
  | (i, nd) :: nodes => match local_act nd with Some a => Some (SNode i a) | None => pick_local nodes end
  end.

Fixpoint pick_link (open : NodeID -> NodeID -> ConsensusMessage -> bool) (n : Net) (links : list (NodeID * NodeID)) : option NetAct :=
  match links with
  | [] => None
  | (j, i) :: links =>
      match link_next n j i with
      | Some (_, m) => if open j i m then Some (SDeliver j i) else pick_link open n links
      | None => pick_link open n links
      end
  end.

Definition pick (open : NodeID -> NodeID -> ConsensusMessage -> bool) (ids : list NodeID) (n : Net) : option NetAct :=
  match pick_local (omap (fun i => pair i <$> ne_nodes n !! i) ids) with
  | Some a => Some a
  | None => pick_link open n (j ← ids; i ← ids; [(j, i)])
  end.

Fixpoint schedule (fuel : nat) (open : NodeID -> NodeID -> ConsensusMessage -> bool) (ids : list NodeID) (n : Net)
    : list NetAct :=
  match fuel with
  | O => []
  | S fuel =>
      match pick open ids n with
      | None => []
      | Some a => match net_act n a with Some n' => a :: schedule fuel open ids n' | None => [] end
      end
  end.
End system.
Abbreviation Sys D := (gmap NodeID (Node D)).
