(* ===== verification/Agreement.v ===== *)
(** * Agreement of lean nodes

    In a network of nodes that run the program ([System]) all nodes process
    the same leader of a view, and commit by the decision certificate the same
    block of a view. *)
From S2P Require Import Prelude Sha256 Crypto Committee Pool Message Store Commitor Elector Transmitor Spb SpbExec SpbCert SpbProps Core CoreExec CoreInst CoreProps CoreOut System.

(** ** Proposals of one view *)

Lemma omap_NoDup_eq {A B} (f : A -> option B) (l : list A) x y z :
  NoDup (omap f l) -> x ∈ l -> y ∈ l -> f x = Some z -> f y = Some z -> x = y.
Proof.
  induction l as [|a l IH]; intros Hn Hx Hy Ex Ey; [by apply elem_of_nil in Hx|].
  assert (forall u, u ∈ l -> f u = Some z -> z ∈ omap f l) as Hin by (intros; apply list_elem_of_omap; eauto).
  csimpl in Hn. apply elem_of_cons in Hx as [->|Hx], Hy as [->|Hy]; [done|..].
  - rewrite Ex in Hn. apply NoDup_cons in Hn as [Hz _]. by destruct Hz; eauto.
  - rewrite Ey in Hn. apply NoDup_cons in Hn as [Hz _]. by destruct Hz; eauto.
  - destruct (f a); [apply NoDup_cons in Hn as [_ Hn]|]; auto.
Qed.

Lemma between_NoDup lo vs hi : between lo vs hi -> NoDup vs.
Proof.
  revert lo. induction vs as [|v vs IH]; intros lo; [constructor|]. simpl. intros [_ Hb]. constructor; [|by eapply IH].
  apply between_sorted in Hb as [_ Hf]. rewrite Forall_forall in Hf. intros Hv%Hf. lia.
Qed.

Section proposals.
Context {D : Type} `{!DB D} `{P : Prims} `{C : BlockCodec}.

(** A node makes one first-height proposal per view, to itself and to others. *)
Lemma one_first_proposal i committee parameters s (nd : Node D) p p' :
  node_reachable i committee parameters s nd ->
  MPropose p ∈ messages (n_out nd) -> MPropose p' ∈ messages (n_out nd) ->
  p_Height p = HEIGHT_1 -> p_Height p' = HEIGHT_1 -> p_View p = p_View p' -> p = p'.
Proof.
  intros Hr Hp Hp' Eh Eh' Ev. pose proof (proposals_between _ _ _ _ _ Hr) as Hn%between_NoDup.
  apply out_reachable in Hr as [_ _ Hself _].
  assert (forall q, MPropose q ∈ messages (n_out nd) -> exists from to, Send from to (MPropose q) ∈ n_out nd) as Hsend.
  { intros q (e & He & E)%list_elem_of_omap. destruct e as [from to m|m|t]; simplify_eq/=; [eauto|].
    apply Hself in He as [from ?]. eauto. }
  destruct (Hsend _ Hp) as (f & t & H1), (Hsend _ Hp') as (f' & t' & H2).
  assert (Send (T := CoreTask) f t (MPropose p) = Send f' t' (MPropose p')) as E; [|by injection E].
  eapply (omap_NoDup_eq h1_view); [exact Hn|done|done|simpl; by rewrite decide_True|simpl; by rewrite Eh', decide_True, Ev].
Qed.
End proposals.

(** ** What an instance records of the first block *)

Section first_block.
Context `{P : Prims} (env : SpbEnv) (proposer : NodeID) (view : Z) (h1 : Digest).

(** One first block, and no certificate for the zero digest. *)
Record one_first_block (seen : list SpbTask) : Prop := {
  fb_block p B : TPropose p ∈ seen -> p_B p = Some B -> p_Height p = HEIGHT_1 -> Block_Hash B = h1;
  fb_qc p B qc : TPropose p ∈ seen -> p_B p = Some B -> p_Height p = HEIGHT_2 -> b_Qc B = Some qc ->
    qc_ParentBlockHash qc <> Digest_zero;
}.

Definition first_recorded (s : SPB) : Prop :=
  ((s_blockHash s).1 = Digest_zero \/ (s_blockHash s).1 = h1) /\
  ((s_blockQcs s).1 <> None -> (s_blockHash s).1 = h1).

Lemma first_recorded_step seen t s s' effs :
  one_first_block seen -> origin seen t -> spb_case env t s s' effs -> first_recorded s -> first_recorded s'.
Proof.
  intros [H1 H2] Ho Hc [[I1|I1] I2]; destruct Hc; unfold first_recorded in *; simpl in *; try done; auto.
  - rewrite (H1 p B) by done. auto.
  - destruct (H2 _ _ _ Ho H H0 H3). congruence.
  - rewrite (H1 p B) by done. auto.
Qed.

Lemma first_recorded_reachable cf :
  spb_reachable env proposer view cf -> one_first_block (cf_seen cf) -> first_recorded (spb_of cf).
Proof.
  intros Hr. assert (spb_reachable env proposer view cf /\ (one_first_block (cf_seen cf) -> first_recorded (spb_of cf))) as [_ H]; [|exact H].
  revert cf Hr. apply spb_invariant.
  - intros pool. split; [by exists pool|]. intros _. split; [by left|done].
  - intros cf cf' [Hr IH] Hs. split; [destruct Hr as [pool Hr]; exists pool; by eapply rtc_r|].
    pose proof (oi_pend _ (origin_reachable env _ _ _ Hr)) as Ho.
    apply spb_exec_view in Hs as [t Ht Es Ep En Et|l1 t l2 effs s s' Es Es' Hcase Ep Ep' En Et|Es Ep En Et];
      rewrite ?Es, ?Es', ?En in *; intros Hf.
    + apply IH. destruct Hf as [F1 F2]. split; intros *; [intros ?; eapply F1|intros ?; eapply F2]; set_solver.
    + rewrite Ep in Ho. apply Forall_app in Ho as [_ [Ho _]%Forall_cons]. eapply first_recorded_step; eauto.
    + auto.
Qed.
End first_block.

(** ** One leader per view, at every node *)

(** The deal: each node of the system holds its share of one threshold key. *)
Record key_setup `{P : Prims} (L : PrimsLaws P) (committee : Committee) (pub : PubPoly) (n : Z) (shares : list PriShare)
    (service : NodeID -> SigService) : Prop := {
  ks_dealt : dealt pub (HightThreshold committee) n shares;
  ks_long : sig_long_enough pub L;
  ks_size : (0 < size (Authorities committee))%nat;
  ks_member i : i ∈ dom (Authorities committee) -> member committee pub n (service i);
  ks_share i : i ∈ dom (Authorities committee) ->
    0 <= i /\ shares !! Z.to_nat i = Some (sk_PriShare (ShareKey (service i)));
}.

Section leader.
Context {D : Type} `{!DB D} {P : Prims} {L : PrimsLaws P} `{C : BlockCodec}.
Context (committee : Committee) (pub : PubPoly) (n : Z) (shares : list PriShare) (service : NodeID -> SigService).
Context (K : key_setup L committee pub n shares service).
Abbreviation leader := (leader_of committee pub).

Lemma own_elect_valid i e :
  i ∈ dom (Authorities committee) -> NewElectMsg i (e_View e) (service i) = Ok e -> valid_elect shares (e_View e) e.
Proof.
  intros [Hi Hsh]%(ks_share _ _ _ _ _ _ K). unfold NewElectMsg, RequestTsSugnature, SigService_serve. simpl.
  destruct (tbls_Sign _ _) as [sig|err|] eqn:Es; simpl; intros E; simplify_eq/=. rewrite <- E. simpl.
  split_and!; [done|done|]. simpl. eexists. split; [exact Hsh|exact Es].
Qed.

(** An elector that has been given valid messages only. *)
Record elector_ok (e : Elector) : Prop := {
  eo_committee : el_committee e = committee;
  eo_member : member committee pub n (el_sigService e);
  eo_agg v : agg_ok (view_agg e v);
  eo_valid v : Forall (valid_elect shares v) (elects (view_agg e v));
}.

Lemma NewElector_ok i : i ∈ dom (Authorities committee) -> elector_ok (NewElector (service i) committee).
Proof.
  intros Hi. split; [done|by apply K|..]; intros v; unfold view_agg; simpl; rewrite lookup_empty; [split; [done|constructor]|constructor].
Qed.

Lemma Elector_Add_valid e m :
  elector_ok e -> valid_elect shares (e_View m) m ->
  elector_ok (Elector_Add e m).2 /\
  forall l, (Elector_Add e m).1 = Ok l -> l = NONE \/ l = leader (e_View m).
Proof.
  intros [Ec Em Ea Ev] Hm. destruct (Elector_Add_env e m) as [Ec' Es'].
  set (a := view_agg e (e_View m)). destruct (Ea (e_View m)) as [Eu Hn]. fold a in Eu, Hn.
  assert (Forall (valid_elect shares (e_View m)) (elects (Aggregator_Append a m committee (el_sigService e)).2) /\
    forall l, (Aggregator_Append a m committee (el_sigService e)).1 = Ok l -> l = NONE \/ l = leader (e_View m)) as [Hv Hl].
  { destruct (decide (e_Author m ∈ used a)) as [Hu|Hu].
    - unfold Aggregator_Append. rewrite decide_True by done. split; [apply Ev|done].
    - assert (Forall (valid_elect shares (e_View m)) (elects a ++ [m])) as Hall.
      { apply Forall_app. split; [apply Ev|by apply Forall_singleton]. }
      rewrite (Append_valid committee pub n shares (e_View m)); [|apply K..|done|split; done|done|].
      + split; [done|]. simpl. intros l. case_decide; intros [= <-]; auto.
      + rewrite fmap_app. apply NoDup_app. split_and!; [done| |apply NoDup_singleton].
        intros x Hx ->%list_elem_of_singleton. apply Hu. rewrite Eu. by apply elem_of_list_to_set. }
  split.
  - split; [by rewrite Ec'|by rewrite Es'|..]; intros v; rewrite Elector_Add_agg, Ec; case_decide; subst; auto.
    apply Append_ok, Ea.
  - rewrite Elector_Add_result, Ec. exact Hl.
Qed.

(** *** The main loop *)

Definition pc_leader (pc : MainPC) : Prop :=
  match pc with
  | Idle => True
  | PSpeed l v | PSpeedCommit l v | PDec l v | PDecCommit l v | PReport l v => l = leader v
  end.

(** Elect messages and coins as correct nodes send them. *)
Definition good_message (m : ConsensusMessage) : Prop :=
  match m with
  | MElect e => valid_elect shares (e_View e) e
  | MCoin rc => rc_Leader rc = leader (rc_View rc)
  | _ => True
  end.

Definition good_coin (m : ConsensusMessage) : Prop := match m with MCoin rc => rc_Leader rc = leader (rc_View rc) | _ => True end.

Definition coin_trace (c c' : Core D) (effs : list (Eff CoreTask)) : Prop :=
  c_eletor c' = c_eletor c /\ Forall good_coin (messages effs).

#[local] Instance coin_trace_trace : Trace coin_trace.
Proof.
  split; unfold coin_trace; [by repeat constructor|]. intros c1 c2 c3 es1 es2 [E1 F1] [E2 F2].
  rewrite omap_app, Forall_app. split; [congruence|done].
Qed.

Lemma coin_trace_same c c' : c_eletor c' = c_eletor c -> coin_trace c c' [].
Proof. by repeat constructor. Qed.
Lemma coin_trace_out c e : Forall good_coin (messages [e]) -> coin_trace c c [e].
Proof. by repeat constructor. Qed.

Ltac coin_trace := repeat first [spec_step | by apply coin_trace_same | by apply coin_trace_out; repeat constructor].

Lemma handle_coin_trace c m : (forall e, m <> MElect e) -> spec_at c (handle m) coin_trace.
Proof.
  intros Hm. destruct m; simpl; try (by destruct (Hm e)); unfold handleProposeMsg, handleVoteMsg, handleFinVoteMsg, handleSpeedVoteMsg,
    handleCoinMsg, handleReportMsg, advanceView, core_generatorBlock, processCoin, check_signature, goSpb, getSpbInstance,
    broadcast; coin_trace.
Qed.
Lemma processCoin_seg_coin c pc : spec_at c (processCoin_seg pc) coin_trace.
Proof. destruct pc; simpl; unfold commit_digest, broadcast, getSpbInstance; coin_trace. Qed.

Lemma processCoin_trace_pc l v c r c' effs :
  l = leader v -> processCoin l v c = (r, c', effs) -> pc_leader (next_pc r) /\ coin_trace c c' effs.
Proof.
  intros Hl E. split.
  - revert E. unfold processCoin, getSpbInstance. gom. repeat case_match; intros [= <- <- <-]; simpl in *; simplify_eq; done.
  - revert E. assert (spec_at c (processCoin l v) coin_trace) as H by (unfold processCoin, getSpbInstance; coin_trace).
    apply H.
Qed.

Lemma handle_leader m c r c' effs :
  elector_ok (c_eletor c) -> good_message m -> handle m c = (r, c', effs) ->
  elector_ok (c_eletor c') /\ Forall good_coin (messages effs) /\ pc_leader (next_pc r).
Proof.
  intros He Hm. destruct m as [p|v|fv|sv|e|rc|rp].
  1-4,7: intros E; (eapply handle_coin_trace in E as T; [|done]); destruct T as [-> F]; by rewrite (then_idle _ _ _ _ _ E).
  - cbn [handle]. unfold handleElectMsg. simpl in Hm. destruct (Elector_Add_valid _ _ He Hm) as [He' Hl].
    cbv [mbind GoM_bind get modify lift throw emit mret GoM_ret].
    destruct (messageFilter _ _); [by intros [= <- <- <-]|]. destruct (negb _); [by intros [= <- <- <-]|].
    destruct (Elector_Add (c_eletor c) e) as [[l|err|] eletor]; simpl in *; [|by intros [= <- <- <-]..].
    destruct (decide (l <> NONE)) as [Hn|]; [|by intros [= <- <- <-]].
    assert (l = leader (e_View e)) as El by (destruct (Hl l eq_refl); done).
    destruct (NewRandomCoinMsg _ _ _ _) as [rc|err|] eqn:Erc; [|by intros [= <- <- <-]..].
    destruct (processCoin _ _ _) as [[r1 c1] es1] eqn:Ep. intros [= <- <- <-].
    apply processCoin_trace_pc in Ep as [Hpc [Ee F]]; [|done]. split_and!; [by rewrite Ee| |done].
    apply Forall_cons. split; [|exact F]. revert Erc. unfold NewRandomCoinMsg.
    destruct (RequestSignature _ _); intros; simplify_eq/=. done.
  - intros E. eapply handle_coin_trace in E as T; [|done]. destruct T as [-> F]. split_and!; [done..|].
    revert E. cbn [handle]. unfold handleCoinMsg, check_signature. cbv [mbind GoM_bind get lift throw mret GoM_ret].
    destruct (RandomCoinMsg_Verify _ _) as [[]| |]; [|by intros [= <- <- <-]..].
    destruct (processCoin _ _ _) as [[r1 c1] es1] eqn:Ep. intros [= <- <- <-]. by eapply processCoin_trace_pc.
Qed.

Lemma processCoin_seg_leader pc c r c' effs :
  pc_leader pc -> processCoin_seg pc c = (r, c', effs) -> pc_leader (next_pc r).
Proof.
  destruct pc as [|l v|l v|l v|l v|l v]; simpl; intros Hl; unfold commit_digest, broadcast, getSpbInstance; gom;
    repeat case_match; intros [= <- <- <-]; simplify_eq/=; try done; by repeat case_match.
Qed.
End leader.

(** ** The system invariant *)

Section agreement.
Context {D : Type} `{!DB D} {P : Prims} {L : PrimsLaws P} `{C : BlockCodec}.
Context (committee : Committee) (parameters : Parameters) (pub : PubPoly) (n : Z) (shares : list PriShare)
  (service : NodeID -> SigService).
Context (K : key_setup L committee pub n shares service).
Abbreviation leader := (leader_of committee pub).
Abbreviation reachable := (sys_reachable (D := D) committee parameters service).

(** A message that a node of the system made. *)
Definition genuine (σ : Sys D) (m : ConsensusMessage) : Prop :=
  exists j nd, σ !! j = Some nd /\ m ∈ messages (n_out nd).

Record node_good (σ : Sys D) (nd : Node D) : Prop := {
  ng_recv : Forall (genuine σ) (n_recv nd);
  ng_handled : Forall (genuine σ) (n_handled nd);
  ng_elector : elector_ok committee pub n shares (c_eletor (n_core nd));
  ng_coin : Forall (good_coin committee pub) (messages (n_out nd));
  ng_pc : pc_leader committee pub (n_main nd);
}.

Definition sys_good (σ : Sys D) : Prop := map_Forall (fun _ nd => node_good σ nd) σ.

Lemma node_out_grows (nd nd' : Node D) : node_step nd nd' -> n_out nd ⊆ n_out nd'.
Proof. destruct 1; simpl; set_solver. Qed.

Lemma genuine_mono (σ : Sys D) i nd nd' m :
  σ !! i = Some nd -> n_out nd ⊆ n_out nd' -> genuine σ m -> genuine (<[i := nd']> σ) m.
Proof.
  intros Hi Ho (j & ndj & Hj & Hm). destruct (decide (j = i)) as [->|Hne].
  - exists i, nd'. rewrite lookup_insert_eq. split; [done|]. rewrite Hi in Hj. injection Hj as ->.
    apply list_elem_of_omap in Hm as (e & He & E). apply list_elem_of_omap. eauto.
  - exists j, ndj. by rewrite lookup_insert_ne.
Qed.

Lemma genuine_good σ m : reachable σ -> sys_good σ -> genuine σ m -> good_message committee pub shares m.
Proof.
  intros Hr Hg (j & nd & Hj & Hm). destruct (sys_node_reachable _ _ _ _ Hr _ _ Hj) as [Hd Hn].
  destruct m; simpl; try done.
  - apply out_reachable in Hn as [_ Ho _ _]. rewrite Forall_forall in Ho. specialize (Ho _ Hm). simpl in Ho.
    by eapply own_elect_valid.
  - pose proof (ng_coin _ _ (Hg _ _ Hj)) as Hc. rewrite Forall_forall in Hc. exact (Hc _ Hm).
Qed.

Lemma run_task_coin (c : Core D) g c' effs :
  run_task g c = (Ok tt, c', effs) -> c_eletor c' = c_eletor c /\ Forall (good_coin committee pub) (messages effs).
Proof.
  intros (s & st & effs0 & _ & Hc & -> & ->)%run_task_shape. split; [done|].
  rewrite (omap_Eff_map (fun T => message)) by (by intros []).
  assert (forall l : list SpbTask, messages (Spawn <$> l) = []) as Hsp by (induction l; [done|by csimpl]).
  destruct Hc as [| | | | | |p B m s e ? ? He| | | | | | | |qc m s e ? He| | | |];
    try destruct He as [-> | ->]; rewrite ?list_fmap_compose; rewrite ?omap_app, ?Hsp; by repeat constructor.
Qed.

(** What a step adds keeps the node good. *)
Lemma node_good_step (σ : Sys D) i nd nd' effs :
  σ !! i = Some nd -> node_good σ nd -> n_out nd' = n_out nd ++ outputs effs ->
  (forall m, m ∈ n_recv nd' -> m ∈ n_recv nd \/ m ∈ messages effs \/ genuine σ m) ->
  (forall m, m ∈ n_handled nd' -> m ∈ n_handled nd \/ m ∈ n_recv nd) ->
  elector_ok committee pub n shares (c_eletor (n_core nd')) -> Forall (good_coin committee pub) (messages effs) ->
  pc_leader committee pub (n_main nd') -> node_good (<[i := nd']> σ) nd'.
Proof.
  intros Hi [G1 G2 G3 G4 G5] Eo Hr Hh He Hc Hp.
  assert (n_out nd ⊆ n_out nd') as Hsub by (rewrite Eo; set_solver). rewrite !Forall_forall in *.
  split; try done; rewrite !Forall_forall.
  - intros m [Hm|[Hm|Hm]]%Hr; [by eapply genuine_mono; eauto| |by eapply genuine_mono; eauto].
    exists i, nd'. rewrite lookup_insert_eq. split; [done|]. rewrite Eo, omap_app, messages_outputs. set_solver.
  - intros m [Hm|Hm]%Hh; eapply genuine_mono; eauto.
  - intros m. rewrite Eo, omap_app, messages_outputs. set_solver.
Qed.

Lemma selfs_messages (effs : list (Eff CoreTask)) m : m ∈ selfs effs -> m ∈ messages effs.
Proof. unfold selfs. rewrite !list_elem_of_omap. intros (e & He & E). exists e. by destruct e. Qed.

Lemma node_good_init (σ : Sys D) i nd :
  σ !! i = Some nd -> i ∈ dom (Authorities committee) -> node_init i committee parameters (service i) nd ->
  node_good σ nd.
Proof.
  intros Hi Hd Hn. destruct Hn as [txpool store c effs _ Hrun].
  assert (Forall (good_coin committee pub) (messages effs)) as Hc.
  { revert Hrun. unfold Run_first, core_generatorBlock, broadcast, generatorBlock. gom.
    destruct (GetBatch _). destruct (NewProposeMsg _ _); intros; simplify_eq/=. by repeat constructor. }
  apply Run_first_effs in Hrun as (_ & _ & _ & pool & ->). split; simpl; [|constructor|by eapply NewElector_ok|by rewrite messages_outputs|done].
  apply Forall_forall. intros m Hm%selfs_messages. eexists i, _. split; [exact Hi|]. cbn [n_out]. rewrite messages_outputs. exact Hm.
Qed.

Lemma node_good_next σ i nd nd' :
  reachable σ -> sys_good σ -> σ !! i = Some nd -> node_step nd nd' ->
  (forall m, nd' = receive nd m -> sent_to σ i m) -> node_good (<[i := nd']> σ) nd'.
Proof.
  intros Hr Hg Hi Hs Hrecv. pose proof (Hg _ _ Hi) as G. pose proof G as [G1 G2 G3 G4 G5].
  destruct Hs as [nd m|nd m rest r c' effs _ Er Hh _|nd r c' effs _ Hh _|nd l1 g l2 c' effs _ Hrun|nd pool|nd fuel reads com _].
  - eapply (node_good_step _ _ _ _ []); try done; simpl; [by rewrite app_nil_r| |auto].
    intros m' [?|E%list_elem_of_singleton]%elem_of_app; [by left|]. subst m'. right. right.
    destruct (Hrecv m eq_refl) as (j & ndj & from & to & _ & Hj & Hm & _). exists j, ndj. split; [done|].
    apply list_elem_of_omap. by eexists.
  - assert (good_message committee pub shares m) as Hm.
    { eapply genuine_good; [done|done|]. rewrite Er in G1. by apply Forall_cons in G1 as [? _]. }
    destruct (handle_leader _ _ _ _ _ K _ _ _ _ _ G3 Hm Hh) as (He & Hc & Hpc).
    eapply (node_good_step _ _ _ _ effs); try done; simpl; rewrite Er.
    + intros m' [?|?%selfs_messages]%elem_of_app; set_solver.
    + set_solver.
  - pose proof (processCoin_seg_coin committee pub _ _ _ _ _ Hh) as [He Hc].
    pose proof (processCoin_seg_leader committee pub _ _ _ _ _ G5 Hh) as Hpc.
    eapply (node_good_step _ _ _ _ effs); try done; simpl; [|by auto|by rewrite He].
    intros m' [?|?%selfs_messages]%elem_of_app; auto.
  - apply run_task_coin in Hrun as [He Hc].
    eapply (node_good_step _ _ _ _ effs); try done; simpl; [|by auto|by rewrite He].
    intros m' [?|?%selfs_messages]%elem_of_app; auto.
  - eapply (node_good_step _ _ _ _ []); try done; simpl; [by rewrite app_nil_r|auto|auto].
  - eapply (node_good_step _ _ _ _ []); try done; simpl; [by rewrite app_nil_r|auto|auto].
Qed.

Lemma sys_good_reachable σ : reachable σ -> sys_good σ.
Proof.
  intros Hr. assert (reachable σ /\ sys_good σ) as [_ H]; [|exact H]. revert σ Hr. apply sys_invariant.
  - intros σ H. split; [exists σ; split; [done|apply rtc_refl]|]. intros i nd Hi. destruct (H _ _ Hi).
    by eapply node_good_init.
  - intros σ σ' [Hr Hg] Hs. split; [destruct Hr as (σ0 & ? & ?); exists σ0; split; [done|]; by eapply rtc_r|].
    destruct Hs as [σ i nd nd' Hi Hs Hrecv]. intros j ndj. destruct (decide (i = j)) as [<-|Hne].
    + rewrite lookup_insert_eq. intros [= <-]. by eapply node_good_next.
    + rewrite lookup_insert_ne by done. intros Hj. destruct (Hg _ _ Hj) as [G1 G2 G3 G4 G5].
      apply node_out_grows in Hs.
      split; try done; (eapply Forall_impl; [eassumption|]); intros m; by apply (genuine_mono _ _ nd).
Qed.

(** *** The leader's first block *)

(** [h] is the hash of the first block that the leader of [v] proposed. *)
Definition leader_block (σ : Sys D) (v : Z) (h : Digest) : Prop :=
  exists nd p B, σ !! leader v = Some nd /\ MPropose p ∈ messages (n_out nd) /\ p_Height p = HEIGHT_1 /\ p_View p = v /\
    p_B p = Some B /\ Block_Hash B = h.

Lemma leader_block_unique σ v h h' : reachable σ -> leader_block σ v h -> leader_block σ v h' -> h = h'.
Proof.
  intros Hr (nd & p & B & Hl & Hp & Eh & Ev & EB & <-) (nd' & p' & B' & Hl' & Hp' & Eh' & Ev' & EB' & <-). simplify_eq.
  destruct (sys_node_reachable _ _ _ _ Hr _ _ Hl) as [_ Hn].
  assert (p = p') as -> by (eapply one_first_proposal; eauto; congruence). congruence.
Qed.

Lemma leader_block_mono σ σ' v h : rtc sys_step σ σ' -> leader_block σ v h -> leader_block σ' v h.
Proof.
  induction 1 as [|σ1 σ2 σ3 Hs _ IH]; [done|]. intros (nd & p & B & Hl & Hp & H). apply IH.
  destruct Hs as [σ i ndi nd' Hi Hs%node_out_grows _]. destruct (decide (i = leader v)) as [->|Hne].
  - exists nd', p, B. rewrite lookup_insert_eq. simplify_eq. split_and!; try done; [|apply H..].
    apply list_elem_of_omap in Hp as (e & He & E). apply list_elem_of_omap. eauto.
  - exists nd, p, B. by rewrite lookup_insert_ne.
Qed.

Context (nonzero : forall B, Block_Hash B <> Digest_zero).

Lemma genuine_own σ m : reachable σ -> genuine σ m ->
  exists j nd, σ !! j = Some nd /\ m ∈ messages (n_out nd) /\
    own_message (fun v => MVote v ∈ n_handled nd) j (service j) m.
Proof.
  intros Hr (j & nd & Hj & Hm). destruct (sys_node_reachable _ _ _ _ Hr _ _ Hj) as [_ Hn].
  apply out_reachable in Hn as [_ Ho _ _]. rewrite Forall_forall in Ho. exists j, nd. auto.
Qed.

(** A proposal that an instance of [l] in view [v] was given is one that [l] made. *)
Lemma seen_proposal σ i nd v l p :
  reachable σ -> σ !! i = Some nd -> TPropose p ∈ tasks_of v l (n_started nd) ->
  p_View p = v /\ exists ndl B, σ !! l = Some ndl /\ MPropose p ∈ messages (n_out ndl) /\ p_B p = Some B /\
    p_Height p = b_Height B /\ certified (fun v => MVote v ∈ n_handled ndl) B.
Proof.
  intros Hr Hi Hp. destruct (sys_node_reachable _ _ _ _ Hr _ _ Hi) as [_ Hn].
  apply out_reachable in Hn as [_ _ _ Hst]. apply list_elem_of_omap in Hp as (g & Hg & E).
  destruct (decide _) as [[-> ->]|]; [|discriminate]. injection E as E.
  rewrite Forall_forall in Hst. destruct (Hst _ Hg) as (m & Hm & Hs). unfold starts in Hs. rewrite E in Hs.
  destruct Hs as (-> & -> & ->). split; [done|].
  pose proof (ng_handled _ _ (sys_good_reachable σ Hr _ _ Hi)) as Hh. rewrite Forall_forall in Hh.
  destruct (genuine_own _ _ Hr (Hh _ Hm)) as (j & ndj & Hj & Hmj & B & EB & <- & _ & Eh & Hc). eauto 10.
Qed.

Lemma seen_qc_nonzero σ i nd v l p B qc :
  reachable σ -> σ !! i = Some nd -> TPropose p ∈ tasks_of v l (n_started nd) -> p_B p = Some B ->
  p_Height p = HEIGHT_2 -> b_Qc B = Some qc -> qc_ParentBlockHash qc <> Digest_zero.
Proof.
  intros Hr Hi Hp EB Eh Eq. destruct (seen_proposal _ _ _ _ _ _ Hr Hi Hp) as (_ & ndl & B' & Hl & _ & EB' & Eh' & Hc).
  simplify_eq. destruct Hc as [E|(_ & w & qc' & Hw & Eq' & Ew)]; [rewrite E in Eh'; rewrite Eh in Eh'; discriminate|].
  rewrite Eq in Eq'. injection Eq' as <-.
  pose proof (ng_handled _ _ (sys_good_reachable σ Hr _ _ Hl)) as Hh. rewrite Forall_forall in Hh.
  destruct (genuine_own _ _ Hr (Hh _ Hw)) as (j & ndj & _ & _ & B0 & E0).
  rewrite Ew, E0. apply nonzero.
Qed.

(** The first block of an instance with a decision certificate is the leader's. *)
Lemma decision_block σ i nd v l s :
  reachable σ -> σ !! i = Some nd -> l = leader v -> instance (n_core nd) v l = Some s -> DecCert s = true ->
  leader_block σ v (SPB_BlockHash s HEIGHT_1).
Proof.
  intros Hr Hi Hl Hs Hc. destruct (sys_node_reachable _ _ _ _ Hr _ _ Hi) as [_ Hn].
  pose proof (ii_sim _ _ (inst_inv_reachable _ _ _ _ _ Hn) v l) as Hsim. rewrite Hs in Hsim.
  destruct Hsim as (cf & Hcf & <- & _ & Es). unfold DecCert in Hc. apply bool_decide_eq_true in Hc as [Hq _].
  assert (forall h1, (forall p B, TPropose p ∈ cf_seen cf -> p_B p = Some B -> p_Height p = HEIGHT_1 -> Block_Hash B = h1) ->
    (s_blockHash (spb_of cf)).1 = h1) as Hrec.
  { intros h1 H1. eapply (first_recorded_reachable _ _ _ h1 cf Hcf); [|done]. split; [done|].
    rewrite Es. intros. by eapply seen_qc_nonzero. }
  change (SPB_BlockHash (spb_of cf) HEIGHT_1) with (s_blockHash (spb_of cf)).1.
  destruct (omap (fun t => match t with TPropose p => if decide (p_Height p = HEIGHT_1) then Some p else None | _ => None end)
    (cf_seen cf)) as [|p ps] eqn:Ef.
  - assert (forall p, TPropose p ∈ cf_seen cf -> p_Height p <> HEIGHT_1) as Hno.
    { intros p Hp Eh. eapply elem_of_nil. rewrite <- Ef. apply list_elem_of_omap. exists (TPropose p). split; [done|].
      by rewrite decide_True. }
    assert (Digest_zero = []) as E0; [|discriminate E0].
    transitivity (s_blockHash (spb_of cf)).1; [symmetry|]; apply Hrec; intros p B Hp _ Eh; by destruct (Hno p).
  - assert (p ∈ p :: ps) as Hp by set_solver. rewrite <- Ef in Hp. apply list_elem_of_omap in Hp as (t & Ht & E).
    destruct t; try done. destruct (decide _) as [Eh|]; [|done]. injection E as ->. rewrite Es in *.
    destruct (seen_proposal _ _ _ _ _ _ Hr Hi Ht) as (Ev & ndl & B & Hndl & Hm & EB & _).
    exists ndl, p, B. subst l. split_and!; try done. symmetry. apply Hrec. intros p' B' Ht' EB' Eh'.
    destruct (seen_proposal _ _ _ _ _ _ Hr Hi Ht') as (Ev' & ndl' & B2 & Hndl' & Hm' & _). simplify_eq.
    destruct (sys_node_reachable _ _ _ _ Hr _ _ Hndl) as [_ Hln].
    assert (p' = p) as ->; [|congruence]. eapply one_first_proposal; eauto; congruence.
Qed.
End agreement.

(** C2. Agreement within a view: in a network whose nodes all run the program,
    whatever is delayed, lost, reordered or repeated, a node that is about to
    commit by a decision certificate in view [v] commits the first block that
    the elected leader of [v] proposed in that view; so any two nodes that do
    so, at whatever times, have processed the same leader and commit the same
    digest.  The nodes hold the shares of one threshold key, and no block is
    taken to hash to the zero digest. *)
Theorem decision_agreement {D : Type} `{!DB D} {P : Prims} {L : PrimsLaws P} `{C : BlockCodec} committee parameters pub n
    shares service (σ σ' : Sys D) i j ndi ndj li lj v si sj :
  key_setup L committee pub n shares service -> (forall B, Block_Hash B <> Digest_zero) ->
  sys_reachable committee parameters service σ -> rtc sys_step σ σ' ->
  σ !! i = Some ndi -> n_main ndi = PDecCommit li v -> instance (n_core ndi) v li = Some si ->
  σ' !! j = Some ndj -> n_main ndj = PDecCommit lj v -> instance (n_core ndj) v lj = Some sj ->
  li = lj /\ SPB_BlockHash si HEIGHT_1 = SPB_BlockHash sj HEIGHT_1 /\
  leader_block committee pub σ v (SPB_BlockHash si HEIGHT_1).
Proof.
  intros K Hz Hr Hst Hi Mi Ei Hj Mj Ej.
  assert (sys_reachable committee parameters service σ') as Hr'.
  { destruct Hr as (σ0 & H0 & Hr). exists σ0. split; [done|]. by etrans. }
  assert (forall τ k nd l s, sys_reachable committee parameters service τ -> τ !! k = Some nd -> n_main nd = PDecCommit l v ->
    instance (n_core nd) v l = Some s ->
    l = leader_of committee pub v /\ leader_block committee pub τ v (SPB_BlockHash s HEIGHT_1)) as Hone.
  { intros τ k nd l s Hτ Hk Mk Ek. destruct (sys_node_reachable _ _ _ _ Hτ _ _ Hk) as [_ Hn].
    pose proof (ri_pc _ (report_inv_reachable _ _ _ _ _ Hn)) as Hpc. rewrite Mk in Hpc. destruct Hpc as (_ & s' & Es' & Hdec).
    rewrite Ek in Es'. injection Es' as <-.
    pose proof (ng_pc _ _ _ _ _ _ (sys_good_reachable _ _ _ _ _ _ K τ Hτ _ _ Hk)) as Hl. rewrite Mk in Hl. simpl in Hl.
    split; [done|]. by eapply decision_block. }
  destruct (Hone _ _ _ _ _ Hr Hi Mi Ei) as [Eli Bi], (Hone _ _ _ _ _ Hr' Hj Mj Ej) as [Elj Bj].
  split_and!; [congruence| |done]. eapply leader_block_unique; [exact Hr'| |exact Bj]. by eapply leader_block_mono.
Qed.
