(* ===== verification/Divergence.v ===== *)
(** * What nodes without faults can do to each other

    Executions of four correct nodes on links that deliver every message at
    most once and in order: two nodes whose committed sequences contradict each
    other, and a network that stops in its first view.  The last part runs the
    network undisturbed for the agreement theorem. *)
From S2P Require Import Prelude Sha256 Crypto Committee Pool Message Store Commitor Elector Transmitor Spb SpbExec SpbCert SpbProps Core CoreExec CoreInst CoreProps CoreOut System Agreement.

(** ** Committed sequences only grow *)

Section log.
Context {D : Type} `{!DB D} `{P : Prims} `{C : BlockCodec}.

Definition node_log (nd : Node D) : list Block := commitLog (c_commitor (n_core nd)).

Definition log_trace (c c' : Core D) (effs : list (Eff CoreTask)) : Prop :=
  commitLog (c_commitor c') = commitLog (c_commitor c).

#[local] Instance log_trace_trace : Trace log_trace.
Proof. split; unfold log_trace; [done|congruence]. Qed.

Ltac log_trace := repeat first [spec_step | done].

Lemma handle_log c m : spec_at c (handle m) log_trace.
Proof.
  destruct m; simpl; unfold handleProposeMsg, handleVoteMsg, handleFinVoteMsg, handleSpeedVoteMsg, handleElectMsg,
    handleCoinMsg, handleReportMsg, advanceView, core_generatorBlock, processCoin, check_signature, goSpb, getSpbInstance,
    broadcast; log_trace.
Qed.
Lemma processCoin_seg_log c pc : spec_at c (processCoin_seg pc) log_trace.
Proof.
  destruct pc; simpl; unfold commit_digest, broadcast, getSpbInstance; log_trace.
  all: unfold log_trace, Commit; simpl; by case_decide.
Qed.

Lemma Commitor_run_log fuel reads c c' : Commitor_run fuel reads c = Some c' -> commitLog c `prefix_of` commitLog c'.
Proof.
  assert (forall l k, commitLog k `prefix_of` commitLog (foldl commit_one k l)) as Hf.
  { induction l as [|b l IH]; intros k; simpl; [done|]. etrans; [|apply IH]. simpl. by eexists. }
  unfold Commitor_run, run_block. destruct (blocksChan c) as [|b rest]; [by intros [= ->]|].
  case_decide; [by intros [= <-]|]. destruct (walk _ _ _ _ _) as [queue|]; [|done]. intros [= <-].
  exact (Hf (reverse queue) _).
Qed.

Lemma node_log_grows (nd nd' : Node D) : node_step nd nd' -> node_log nd `prefix_of` node_log nd'.
Proof.
  unfold node_log. destruct 1 as [nd m|nd m rest r c' effs _ _ Hh _|nd r c' effs _ Hh _|nd l1 g l2 c' effs _ Hr|nd pool|nd fuel reads com Hc];
    simpl; try done.
  - apply handle_log in Hh as E. by rewrite E.
  - apply processCoin_seg_log in Hh as E. by rewrite E.
  - by apply run_task_shape in Hr as (s & st & effs0 & _ & _ & -> & _).
  - by eapply Commitor_run_log.
Qed.

Lemma sys_log_grows (σ σ' : Sys D) i nd :
  rtc sys_step σ σ' -> σ !! i = Some nd -> exists nd', σ' !! i = Some nd' /\ node_log nd `prefix_of` node_log nd'.
Proof.
  intros Hr. revert nd. induction Hr as [|σ1 σ2 σ3 Hs _ IH]; intros nd Hi; [eauto|].
  destruct Hs as [σ j ndj nd' Hj Hs _]. destruct (decide (j = i)) as [->|Hne].
  - destruct (IH nd') as (nd'' & ? & ?); [by rewrite lookup_insert_eq|]. exists nd''. split; [done|].
    rewrite Hj in Hi. injection Hi as ->. etrans; [by apply node_log_grows|done].
  - apply IH. by rewrite lookup_insert_ne.
Qed.
End log.

(** ** Four nodes *)

Module FourNodes.
#[global] Instance prims : Prims := CoreDemo.prims.
Abbreviation DBase := CoreDemo.MemDB.

(** Each node has five batches ready. *)
Definition pool (i : Z) : Pool := {|
  p_parameters := PoolParameters.DefaultParameters;
  p_queue := {| queue := []; batchChannel := (fun k => {| ID := i + 4 * k; Txs := [] |}) <$> seqZ 0 5; wind := 0; rind := -1;
                nums := 0; maxQueueSize := 0; batchSize := 1; N := 4; QId := i; bcnt := 5 |};
  p_maker := {| txSize := 16; rate := 0 |} |}.

Definition service (i : NodeID) : SigService := CoreDemo.service (Z.to_nat i).
Definition ids : list NodeID := [0; 1; 2; 3].
Definition node (i : NodeID) : option (Node DBase) :=
  node_start i CoreDemo.committee DefaultParameters (service i) (pool i) mem_store_empty.

Definition start : Net (D := DBase) :=
  {| ne_nodes := list_to_map (omap (fun i => pair i <$> node i) ids); ne_links := ∅ |}.

Definition play (n : Net (D := DBase)) (acts : list NetAct) : Net (D := DBase) := default n (net_acts n acts).

(** Phases of a schedule, each with its own open links. *)
Fixpoint phases (n : Net (D := DBase)) (l : list (NodeID -> NodeID -> ConsensusMessage -> bool)) : list NetAct :=
  match l with
  | [] => []
  | open :: l => let acts := schedule 1000 open ids n in acts ++ phases (play n acts) l
  end.

Definition is_report (m : ConsensusMessage) : bool := match m with MReport _ => true | _ => false end.
Definition is_end (m : ConsensusMessage) : bool := match m with MElect _ | MCoin _ | MReport _ => true | _ => false end.
Definition from (j : NodeID) (i : NodeID) : bool := bool_decide (j = i).

(** *** The fork

    Node 0 is the leader of views 0 and 1.  First its messages are slow: nodes
    1 and 2 learn the coin and report that they hold nothing, node 3 does not
    learn it yet, the report of node 2 is on its way.  Node 0 reports too, and
    only then do nodes 0, 1 and 3 complete the leader's broadcast: node 3 has
    its decision certificate when the coin reaches it and commits.  At last
    the reports of nodes 0, 1 and 2 arrive: they go on without a parent, and
    commit the leader's block of view 1. *)
Definition slow_leader (j i : NodeID) (m : ConsensusMessage) : bool :=
  if from j 0 then false else if from i 3 then negb (is_end m)
  else if from j 2 then negb (is_report m) && negb (from i 0) else true.
Definition late_broadcast (j i : NodeID) (m : ConsensusMessage) : bool :=
  if from j 0 then negb (from i 2) else if from i 3 then negb (is_end m)
  else if from j 2 then negb (is_report m) && negb (from i 0)
  else if from j 3 then negb (is_report m) else true.
Definition without_3 (j i : NodeID) (m : ConsensusMessage) : bool :=
  negb (from i 3) && negb (from j 3) && match m with MReport r => bool_decide (r_View r = 0) | _ => true end.

Definition fork : list NetAct := phases start [slow_leader; late_broadcast; without_3] ++ [SCommit 1 5; SCommit 3 5].
Definition forked : Net (D := DBase) := play start fork.

(** *** The stall

    The leader's second proposal reaches node 1 before the coin and nodes 2
    and 3 after it, so two nodes report level 1 and two report level 0. *)
Definition slow_second (j i : NodeID) (m : ConsensusMessage) : bool :=
  if from j 0 then
    match m with
    | MPropose p => bool_decide (p_Height p = HEIGHT_1) || from i 1
    | MFinVote _ => false
    | _ => from i 1
    end
  else true.
Definition stall : list NetAct := phases start [slow_second; (fun _ _ _ => true)].
Definition stalled : Net (D := DBase) := play start stall.

(** *** An undisturbed view *)
Definition no_reports (j i : NodeID) (m : ConsensusMessage) : bool := negb (is_report m).
Definition view0 : list NetAct := schedule 1000 no_reports ids start.

Definition first_commits (nd : option (Node DBase)) : list (NodeID * Z * Z) :=
  match nd with Some nd => (fun b => (b_Author b, b_View b, b_Height b)) <$> node_log nd | None => [] end.
End FourNodes.

Lemma start_init : sys_init CoreDemo.committee DefaultParameters FourNodes.service (ne_nodes FourNodes.start).
Proof.
  intros i nd Hi. apply elem_of_list_to_map_2, list_elem_of_omap in Hi as (k & Hk & E).
  destruct (FourNodes.node k) as [nd'|] eqn:En; [|done]. injection E as -> ->. split.
  - revert i En Hk. assert (Forall (fun i => i ∈ dom (Authorities CoreDemo.committee)) FourNodes.ids) as H by vm_decide.
    rewrite Forall_forall in H. auto.
  - revert En. unfold FourNodes.node, node_start. destruct (runs_protocol _) eqn:Ep; [|done].
    destruct (Run_first _) as [[[[]| |] c] effs] eqn:Er; intros; simplify_eq. by eapply node_init_run.
Qed.

Lemma played acts : match net_acts FourNodes.start acts with Some _ => true | None => false end = true ->
  net_acts FourNodes.start acts = Some (FourNodes.play FourNodes.start acts).
Proof. unfold FourNodes.play. by destruct (net_acts _ _). Qed.

Lemma played_reachable acts : match net_acts FourNodes.start acts with Some _ => true | None => false end = true ->
  sys_reachable CoreDemo.committee DefaultParameters FourNodes.service (ne_nodes (FourNodes.play FourNodes.start acts)).
Proof. intros E%played%net_acts_steps. exists (ne_nodes FourNodes.start). split; [apply start_init|done]. Qed.

(** ** No agreement across views *)

Lemma prefix_heads {A} (x y : A) l l' l1 l2 :
  x <> y -> x :: l `prefix_of` l1 -> y :: l' `prefix_of` l2 -> ~ l1 `prefix_of` l2.
Proof.
  intros Hne [k1 ->] [k2 ->] [k E]. simpl in E. congruence.
Qed.

Lemma diverged {D : Type} `{!DB D} `{P : Prims} `{C : BlockCodec} (σ : Sys D) i j ndi ndj bi bj :
  σ !! i = Some ndi -> σ !! j = Some ndj -> node_log ndi = [bi] -> node_log ndj = [bj] -> bi <> bj ->
  forall σ' ndi' ndj', rtc sys_step σ σ' -> σ' !! i = Some ndi' -> σ' !! j = Some ndj' ->
    ~ node_log ndi' `prefix_of` node_log ndj' /\ ~ node_log ndj' `prefix_of` node_log ndi'.
Proof.
  intros Hi Hj Ei Ej Hne σ' ndi' ndj' Hr Hi' Hj'.
  destruct (sys_log_grows _ _ _ _ Hr Hi) as (x & Hx & Px), (sys_log_grows _ _ _ _ Hr Hj) as (y & Hy & Py).
  rewrite Hi' in Hx. rewrite Hj' in Hy. simplify_eq. rewrite Ei in Px. rewrite Ej in Py. split; [eapply (prefix_heads bi bj)|eapply (prefix_heads bj bi)]; eauto.
Qed.

Lemma forked_logs : exists nd1 nd3 b1 b3,
  ne_nodes FourNodes.forked !! 1 = Some nd1 /\ ne_nodes FourNodes.forked !! 3 = Some nd3 /\
  node_log nd1 = [b1] /\ node_log nd3 = [b3] /\ b_View b1 = 1 /\ b_Qc b1 = None /\ b_View b3 = 0.
Proof.
  assert (match ne_nodes FourNodes.forked !! 1, ne_nodes FourNodes.forked !! 3 with
    | Some nd1, Some nd3 =>
        match node_log nd1, node_log nd3 with
        | [b1], [b3] => bool_decide (b_View b1 = 1 /\ b_Qc b1 = None /\ b_View b3 = 0)
        | _, _ => false
        end
    | _, _ => false
    end = true) as H by (vm_compute; reflexivity).
  revert H. generalize (ne_nodes FourNodes.forked). intros σ H.
  destruct (σ !! 1) as [nd1|], (σ !! 3) as [nd3|]; try done.
  destruct (node_log nd1) as [|b1 []] eqn:E1, (node_log nd3) as [|b3 []] eqn:E3; try done.
  apply bool_decide_eq_true in H. by exists nd1, nd3, b1, b3.
Qed.

(** C28. Nodes without faults can commit contradicting sequences: a node goes on
    voting in a view after it has reported that it holds nothing of the
    leader's, so the leader's block can be decided at one node while the others
    move on without it.  There is an execution of four correct nodes, on links
    that deliver in order and nothing twice, after which node 3 has committed
    the leader's block of view 0 first and node 1 the one of view 1, which has
    no parent; and in no continuation is either sequence a prefix of the
    other. *)
Theorem fault_free_fork :
  exists acts net, net_acts FourNodes.start acts = Some net /\
  exists nd1 nd3 b1 b3, ne_nodes net !! 1 = Some nd1 /\ ne_nodes net !! 3 = Some nd3 /\
    node_log nd1 = [b1] /\ node_log nd3 = [b3] /\ b_View b1 = 1 /\ b_Qc b1 = None /\ b_View b3 = 0 /\
    forall σ' nd1' nd3', rtc sys_step (ne_nodes net) σ' -> σ' !! 1 = Some nd1' -> σ' !! 3 = Some nd3' ->
      ~ node_log nd1' `prefix_of` node_log nd3' /\ ~ node_log nd3' `prefix_of` node_log nd1'.
Proof.
  exists FourNodes.fork, FourNodes.forked. split; [apply played; vm_compute; reflexivity|].
  destruct forked_logs as (nd1 & nd3 & b1 & b3 & H1 & H3 & E1 & E3 & V1 & Q1 & V3). revert H1 H3.
  generalize (ne_nodes FourNodes.forked). intros σ H1 H3.
  exists nd1, nd3, b1, b3. split_and!; [done..|]. eapply diverged; [exact H1|exact H3|done|done|congruence].
Qed.

(** ** No progress on mixed reports *)

Section quiet.
Context {D : Type} `{!DB D} `{P : Prims} `{C : BlockCodec}.

(** Nothing to run, handle or deliver: at every node the main loop waits, the
    receive queue is empty and no goroutine is left, and on every link to a
    node all that was sent has been delivered. *)
Record quiet (n : Net (D := D)) : Prop := {
  qt_nodes : map_Forall (fun _ nd => is_idle (n_main nd) = true /\ n_recv nd = [] /\ n_tasks nd = []) (ne_nodes n);
  qt_links j i : i ∈ dom (ne_nodes n) -> link_next n j i = None;
}.

Definition views (n : Net (D := D)) : gmap NodeID Z := (fun nd => c_view (n_core nd)) <$> ne_nodes n.

Lemma quiet_act n a n' : quiet n -> net_act n a = Some n' -> quiet n' /\ views n' = views n.
Proof.
  intros [Hn Hl]. destruct a as [i a|j i|i fuel]; simpl.
  - destruct a as [m| | |k]; [done|..]; destruct (ne_nodes n !! i) as [nd|] eqn:Hi; try done;
      destruct (Hn _ _ Hi) as (Em & Er & Et); simpl.
    + rewrite Er. by destruct (n_main nd).
    + by rewrite Em.
    + by rewrite Et.
  - destruct (ne_nodes n !! i) as [nd|] eqn:Hi; [|by destruct (link_next n j i) as [[]|]].
    by rewrite Hl by (by eapply elem_of_dom_2).
  - destruct (ne_nodes n !! i) as [nd|] eqn:Hi; [|done]. simpl.
    destruct (Commitor_run _ _ _) as [com|]; [|done]. intros [= <-]. split; [split|].
    + simpl. apply map_Forall_insert_2; [exact (Hn _ _ Hi)|exact Hn].
    + intros j' i'. simpl. rewrite dom_insert_lookup_L by done. intros Hd. rewrite <- (Hl j' i' Hd).
      unfold link_next. case_decide; [done|]. simpl. destruct (decide (j' = i)) as [->|Hne].
      * by rewrite lookup_insert_eq, Hi.
      * by rewrite lookup_insert_ne.
    + unfold views. simpl. rewrite fmap_insert. apply insert_id. by rewrite lookup_fmap, Hi.
Qed.

Lemma quiet_acts n acts n' : quiet n -> net_acts n acts = Some n' -> quiet n' /\ views n' = views n.
Proof.
  revert n. induction acts as [|a acts IH]; intros n Hq; simpl; [by intros [= <-]|].
  destruct (net_act n a) as [n1|] eqn:E; [|done]. simpl. intros Ha.
  destruct (quiet_act _ _ _ Hq E) as [Hq1 <-]. by apply IH.
Qed.
End quiet.

Lemma stalled_quiet : quiet FourNodes.stalled.
Proof.
  assert (map_Forall (fun _ (nd : Node FourNodes.DBase) => is_idle (n_main nd) = true /\ n_recv nd = [] /\ n_tasks nd = [])
    (ne_nodes FourNodes.stalled)) as Hn by vm_decide.
  assert (Forall (fun j => Forall (fun i => link_next FourNodes.stalled j i = None) (elements (dom (ne_nodes FourNodes.stalled))))
    (elements (dom (ne_nodes FourNodes.stalled)))) as Hl by vm_decide.
  split; [done|]. intros j i Hi. rewrite Forall_forall in Hl. destruct (ne_nodes FourNodes.stalled !! j) as [nd|] eqn:Hj.
  - specialize (Hl j). rewrite Forall_forall in Hl. apply Hl; apply elem_of_elements; [by eapply elem_of_dom_2|done].
  - unfold link_next. case_decide; [done|]. by rewrite Hj.
Qed.

(** C29. A network without faults can stop for ever: reports of different levels
    are counted apart, and two of level 1 beside two of level 0 are a quorum of
    neither.  There is an execution of four correct nodes, on links that deliver
    in order and nothing twice, after which every message sent has been
    delivered and handled, every main loop waits with an empty queue and no
    goroutine is left ([quiet]), while all four nodes are still in view 0; and
    every continuation stays so. *)
Theorem fault_free_stall :
  exists acts net, net_acts FourNodes.start acts = Some net /\ quiet net /\
  views net = list_to_map ((fun i => (i, 0)) <$> FourNodes.ids) /\
  forall acts' net', net_acts net acts' = Some net' ->
    quiet net' /\ views net' = list_to_map ((fun i => (i, 0)) <$> FourNodes.ids).
Proof.
  assert (views FourNodes.stalled = list_to_map ((fun i => (i, 0)) <$> FourNodes.ids)) as Hv by (vm_compute; reflexivity).
  exists FourNodes.stall, FourNodes.stalled. split; [apply played; vm_compute; reflexivity|].
  split; [exact stalled_quiet|]. split; [exact Hv|].
  intros acts' net' H%(quiet_acts _ _ _ stalled_quiet). by rewrite <- Hv.
Qed.

(** ** Agreement at work *)

Module View0.
Definition net1 : Net (D := FourNodes.DBase) := FourNodes.play FourNodes.start (take 251 FourNodes.view0).
Definition net2 : Net (D := FourNodes.DBase) := FourNodes.play net1 (take 13 (drop 251 FourNodes.view0)).
End View0.

Lemma net1_reachable : sys_reachable CoreDemo.committee DefaultParameters FourNodes.service (ne_nodes View0.net1).
Proof. apply played_reachable. vm_compute. reflexivity. Qed.

Lemma net1_net2 : rtc sys_step (ne_nodes View0.net1) (ne_nodes View0.net2).
Proof.
  apply (net_acts_steps _ (take 13 (drop 251 FourNodes.view0))). apply (default_Some View0.net1). vm_compute. reflexivity.
Qed.

Lemma AppendInt2_head z : exists b l, AppendInt2 z = b :: l /\ b <> Byte.x00.
Proof.
  assert (forall p l, exists l', bits_of_pos p l = Byte.x31 :: l') as Hp by (induction p; intros l; simpl; eauto).
  destruct z as [|p|p]; simpl; [by eexists _, _| |by eexists _, _]. destruct (Hp p []) as [l' ->]. by eexists _, _.
Qed.

Lemma demo_hash_nonzero (B : Block) : Block_Hash (P := FourNodes.prims) B <> Digest_zero.
Proof.
  unfold Block_Hash. rewrite hash_parts_concat. cbn [sum256 FourNodes.prims CoreDemo.prims demo_prims mjoin list_join].
  destruct (AppendInt2_head (b_Author B)) as (b & l & -> & Hb). intros E. apply Hb. apply (f_equal head) in E. by injection E.
Qed.

Lemma demo_keys :
  key_setup (demo_laws pad32 pad32_length) CoreDemo.committee tt 4 (seq 0 4) FourNodes.service.
Proof.
  split.
  - reflexivity.
  - intros m. simpl. rewrite pad32_length. lia.
  - vm_compute. lia.
  - intros i _. split_and!; reflexivity.
  - intros i Hi. assert (i ∈ FourNodes.ids) as Hin.
    { assert (dom (Authorities CoreDemo.committee) = list_to_set FourNodes.ids) as E by (vm_compute; reflexivity).
      rewrite E in Hi. by apply elem_of_list_to_set in Hi. }
    repeat (apply elem_of_cons in Hin as [->|Hin]; [split; [lia|reflexivity]|]). by apply elem_of_nil in Hin.
Qed.

(** Node 1 at its commit, and node 2 some steps later. *)
Definition commits (n : Net (D := FourNodes.DBase)) (i : NodeID) : option (NodeID * SPB) :=
  nd ← ne_nodes n !! i;
  match n_main nd with PDecCommit l v => s ← instance (n_core nd) v l; if decide (v = 0) then Some (l, s) else None | _ => None end.

Lemma commits_node n i l s : commits n i = Some (l, s) ->
  exists nd, ne_nodes n !! i = Some nd /\ n_main nd = PDecCommit l 0 /\ instance (n_core nd) 0 l = Some s.
Proof.
  unfold commits. destruct (ne_nodes n !! i) as [nd|]; [|done]. simpl. destruct (n_main nd) as [|? ?|? ?|? ?|l' v|? ?] eqn:E; try done.
  destruct (instance (n_core nd) v l') as [s'|] eqn:Es; [|done]. simpl. case_decide; [|done]. intros [= -> ->]. subst. by exists nd.
Qed.

Lemma decision_agreement_witness :
  exists l1 s1 l2 s2, commits View0.net1 1 = Some (l1, s1) /\ commits View0.net2 2 = Some (l2, s2) /\
    l1 = l2 /\ SPB_BlockHash s1 HEIGHT_1 = SPB_BlockHash s2 HEIGHT_1.
Proof.
  assert (match commits View0.net1 1 with Some _ => true | None => false end = true) as E1 by (vm_compute; reflexivity).
  assert (match commits View0.net2 2 with Some _ => true | None => false end = true) as E2 by (vm_compute; reflexivity).
  destruct (commits View0.net1 1) as [[l1 s1]|] eqn:C1; [|discriminate E1].
  destruct (commits View0.net2 2) as [[l2 s2]|] eqn:C2; [|discriminate E2].
  exists l1, s1, l2, s2. split; [reflexivity|]. split; [reflexivity|].
  destruct (commits_node _ _ _ _ C1) as (nd1 & H1 & M1 & I1). destruct (commits_node _ _ _ _ C2) as (nd2 & H2 & M2 & I2).
  destruct (decision_agreement (L := demo_laws pad32 pad32_length) CoreDemo.committee DefaultParameters tt 4 (seq 0 4) FourNodes.service
    (ne_nodes View0.net1) (ne_nodes View0.net2) 1 2 nd1 nd2 l1 l2 0 s1 s2 demo_keys demo_hash_nonzero
    net1_reachable net1_net2 H1 M1 I1 H2 M2 I2) as (A1 & A2 & _).
  split; [exact A1|exact A2].
Defined.
