(* ===== verification/Sched.v ===== *)
(** * Interleavings of goroutines

    The goroutines of one object as a transition system, for any type of pieces
    [T] and any state [S]: messages that the main loop hands over start root
    pieces, any started piece may run next, and the environment may change
    what is not the object's own ([env_change]).  The broadcast variants with
    large blocks are instances. *)
From S2P Require Import Prelude Sha256 Crypto Committee Pool Message Transmitor.

Record SConfig {S T : Type} := {
  sc_st : S;
  sc_pend : list T;
  sc_seen : list T;
  sc_sent : list (Eff T);
}.
Arguments SConfig : clear implicits.

Section sched.
Context {S T : Type} (root : T -> bool) (step : T -> GoM S (Eff T) unit) (env_change : S -> S -> Prop).

Inductive sched_step : SConfig S T -> SConfig S T -> Prop :=
| sched_arrive c t :
    root t = true ->
    sched_step c {| sc_st := sc_st c; sc_pend := sc_pend c ++ [t]; sc_seen := sc_seen c ++ [t]; sc_sent := sc_sent c |}
| sched_run c l1 t l2 st' effs :
    sc_pend c = l1 ++ t :: l2 -> step t (sc_st c) = (Ok tt, st', effs) ->
    sched_step c {| sc_st := st'; sc_pend := l1 ++ l2 ++ spawned effs; sc_seen := sc_seen c;
                    sc_sent := sc_sent c ++ outputs effs |}
| sched_env c st' :
    env_change (sc_st c) st' ->
    sched_step c {| sc_st := st'; sc_pend := sc_pend c; sc_seen := sc_seen c; sc_sent := sc_sent c |}.

Definition sched_init (s : S) : SConfig S T := {| sc_st := s; sc_pend := []; sc_seen := []; sc_sent := [] |}.

Definition sched_reachable (s : S) (c : SConfig S T) : Prop := rtc sched_step (sched_init s) c.

Lemma sched_invariant (I : SConfig S T -> Prop) s :
  I (sched_init s) -> (forall c c', I c -> sched_step c c' -> I c') -> forall c, sched_reachable s c -> I c.
Proof.
  intros H0 Hs c Hr. assert (forall x y, rtc sched_step x y -> I x -> I y) as Hind by (induction 1; eauto). eauto.
Qed.

(** An invariant of configurations from its three cases. *)
Lemma sched_invariant_cases (I : SConfig S T -> Prop) s :
  I (sched_init s) ->
  (forall c t, root t = true -> I c ->
     I {| sc_st := sc_st c; sc_pend := sc_pend c ++ [t]; sc_seen := sc_seen c ++ [t]; sc_sent := sc_sent c |}) ->
  (forall st pend seen sent l1 t l2 st' effs,
     pend = l1 ++ t :: l2 -> step t st = (Ok tt, st', effs) ->
     I {| sc_st := st; sc_pend := pend; sc_seen := seen; sc_sent := sent |} ->
     I {| sc_st := st'; sc_pend := l1 ++ l2 ++ spawned effs; sc_seen := seen; sc_sent := sent ++ outputs effs |}) ->
  (forall st st' pend seen sent, env_change st st' ->
     I {| sc_st := st; sc_pend := pend; sc_seen := seen; sc_sent := sent |} ->
     I {| sc_st := st'; sc_pend := pend; sc_seen := seen; sc_sent := sent |}) ->
  forall c, sched_reachable s c -> I c.
Proof.
  intros H0 Ha Hr He. apply sched_invariant; [done|]. intros c c' Hc Hs. destruct Hs as [c t|c l1 t l2 st' effs|c st'].
  - by apply Ha.
  - destruct c as [st pend seen sent]; simpl in *. by eapply Hr.
  - destruct c as [st pend seen sent]; simpl in *. by eapply He.
Qed.

(** *** Schedules *)

Inductive SAct := SArrive (t : T) | SRun (i : nat).

Definition do_sact (c : SConfig S T) (a : SAct) : option (SConfig S T) :=
  match a with
  | SArrive t =>
      if root t then
        Some {| sc_st := sc_st c; sc_pend := sc_pend c ++ [t]; sc_seen := sc_seen c ++ [t]; sc_sent := sc_sent c |}
      else None
  | SRun i =>
      t ← sc_pend c !! i;
      match step t (sc_st c) with
      | (Ok _, st', effs) =>
          Some {| sc_st := st'; sc_pend := take i (sc_pend c) ++ drop (Datatypes.S i) (sc_pend c) ++ spawned effs;
                  sc_seen := sc_seen c; sc_sent := sc_sent c ++ outputs effs |}
      | _ => None
      end
  end.

Fixpoint do_sacts (c : SConfig S T) (acts : list SAct) : option (SConfig S T) :=
  match acts with
  | [] => Some c
  | a :: acts => c' ← do_sact c a; do_sacts c' acts
  end.

Lemma do_sacts_steps c acts c' : do_sacts c acts = Some c' -> rtc sched_step c c'.
Proof.
  revert c. induction acts as [|a acts IH]; intros c; simpl; [by intros [= <-]|].
  destruct (do_sact c a) as [c1|] eqn:E; [|done]. simpl. intros H%IH. eapply rtc_l; [|done].
  destruct a as [t|i]; simpl in E.
  - destruct (root t) eqn:Er; simplify_eq. by apply sched_arrive.
  - destruct (sc_pend c !! i) as [t|] eqn:El; [|done]. simpl in E.
    destruct (step t (sc_st c)) as [[[[]| |] st'] effs] eqn:Es; simplify_eq.
    apply (sched_run _ _ t); [|done]. by rewrite take_drop_middle.
Qed.
End sched.
Arguments SAct : clear implicits.
