(* ===== verification/BigSpb.v ===== *)
(** * Strong provable broadcast, big-block variant

    Models [src/core/bigspb.go].  Votes go to everybody, and an instance counts
    only votes for the block it has recorded; others wait for it.  The methods
    are cut into pieces as in [Spb]. *)
From S2P Require Import Prelude Sha256 Crypto Committee Pool Message Transmitor Spb.

Record BigSPB := {
  bs_Proposer : NodeID;
  bs_View : Z;
  bs_preQc : option BlockQC;
  bs_blockHash : Digest * Digest;
  bs_blockQcs : option BlockQC * option BlockQC;
  bs_unHandlePropose : list ProposeMsg;
  bs_unHandleVote : list VoteMsg * list VoteMsg;
  bs_unHandleSpeedVote : list SpeedVoteMsg;
  bs_voteNums : Z * Z;
  bs_speedVoteNums : Z;
  bs_isSpeedCert : bool;
}.

Definition NewBigSPB (Proposer : NodeID) (View : Z) : BigSPB := {|
  bs_Proposer := Proposer; bs_View := View; bs_preQc := None; bs_blockHash := (Digest_zero, Digest_zero);
  bs_blockQcs := (None, None); bs_unHandlePropose := []; bs_unHandleVote := ([], []); bs_unHandleSpeedVote := [];
  bs_voteNums := (0, 0); bs_speedVoteNums := 0; bs_isSpeedCert := false;
|}.

Inductive BigTask : Type :=
| BPropose (p : ProposeMsg)
| BProposeFlush (p : ProposeMsg)
| BProposeVote (p : ProposeMsg)
| BVote (v : VoteMsg)
| BVoteCount (v : VoteMsg)
| BVoteQC (v : VoteMsg)
| BVoteNext (v : VoteMsg)
| BVoteFlush
| BSpeedVote (sv : SpeedVoteMsg)
| BSpeedCount
| BSpeedStore.

Section big_spb.
Context `{P : Prims} (env : SpbEnv).

(** An instance and the pool of its node. *)
Record BigSt := { bst_spb : BigSPB; bst_pool : Pool }.

Definition BigM := GoM BigSt (Eff BigTask).

Definition on_big (f : BigSPB -> BigSPB) : BigM unit :=
  modify (fun st => {| bst_spb := f (bst_spb st); bst_pool := bst_pool st |}).

(** *** processProposeMsg *)

Definition big_set_height1 (B : Block) (s : BigSPB) : BigSPB := {|
  bs_Proposer := bs_Proposer s; bs_View := bs_View s; bs_preQc := b_Qc B;
  bs_blockHash := set2 (bs_blockHash s) HEIGHT_1 (Block_Hash B); bs_blockQcs := bs_blockQcs s; bs_unHandlePropose := bs_unHandlePropose s;
  bs_unHandleVote := bs_unHandleVote s; bs_unHandleSpeedVote := bs_unHandleSpeedVote s; bs_voteNums := bs_voteNums s;
  bs_speedVoteNums := bs_speedVoteNums s; bs_isSpeedCert := bs_isSpeedCert s |}.

Definition big_set_height2 (B : Block) (s : BigSPB) : BigSPB := {|
  bs_Proposer := bs_Proposer s; bs_View := bs_View s; bs_preQc := bs_preQc s;
  bs_blockHash := set2 (bs_blockHash s) HEIGHT_2 (Block_Hash B); bs_blockQcs := bs_blockQcs s; bs_unHandlePropose := bs_unHandlePropose s;
  bs_unHandleVote := bs_unHandleVote s; bs_unHandleSpeedVote := bs_unHandleSpeedVote s; bs_voteNums := bs_voteNums s;
  bs_speedVoteNums := bs_speedVoteNums s; bs_isSpeedCert := bs_isSpeedCert s |}.

Definition big_keep_propose (p : ProposeMsg) (s : BigSPB) : BigSPB := {|
  bs_Proposer := bs_Proposer s; bs_View := bs_View s; bs_preQc := bs_preQc s;
  bs_blockHash := bs_blockHash s; bs_blockQcs := bs_blockQcs s; bs_unHandlePropose := bs_unHandlePropose s ++ [p];
  bs_unHandleVote := bs_unHandleVote s; bs_unHandleSpeedVote := bs_unHandleSpeedVote s; bs_voteNums := bs_voteNums s;
  bs_speedVoteNums := bs_speedVoteNums s; bs_isSpeedCert := bs_isSpeedCert s |}.

(** Under [hMutex]. *)
Definition Big_processProposeMsg (p : ProposeMsg) : BigM unit :=
  match p_B p with
  | None => panic
  | Some B =>
      if decide (p_Height p = HEIGHT_1) then
        _ ← on_big (big_set_height1 B);
        emit (Spawn (BProposeFlush p))
      else if decide (p_Height p = HEIGHT_2) then
        match b_Qc B with
        | None => panic
        | Some qc =>
            st ← get;
            if decide ((bs_blockHash (bst_spb st)).1 <> qc_ParentBlockHash qc) then
              on_big (big_keep_propose p)
            else
              _ ← on_big (big_set_height2 B);
              emit (Spawn (BProposeFlush p))
        end
      else emit (Spawn (BProposeVote p))
  end.

(** Under [uMutex]: what waited is started again, and stays kept. *)
Definition Big_processProposeMsg_flush (p : ProposeMsg) : BigM unit :=
  st ← get;
  _ ← (if decide (p_Height p = HEIGHT_1) then
         emit_all ((Spawn ∘ BPropose <$> bs_unHandlePropose (bst_spb st))
                   ++ (Spawn ∘ BVote <$> (bs_unHandleVote (bst_spb st)).1))
       else emit_all (Spawn ∘ BVote <$> (bs_unHandleVote (bst_spb st)).2));
  emit (Spawn (BProposeVote p)).

(** The vote goes to everybody. *)
Definition Big_processProposeMsg_vote (p : ProposeMsg) : BigM unit :=
  match p_B p with
  | None => panic
  | Some B =>
      vote ← lift (NewVoteMsg (env_nodeID env) B (env_sigService env));
      _ ← emit (Send (env_nodeID env) NONE (MVote vote));
      emit (Self (MVote vote))
  end.

(** *** processVoteMsg *)

Definition big_keep_vote (v : VoteMsg) (l : list VoteMsg) (s : BigSPB) : BigSPB := {|
  bs_Proposer := bs_Proposer s; bs_View := bs_View s; bs_preQc := bs_preQc s;
  bs_blockHash := bs_blockHash s; bs_blockQcs := bs_blockQcs s; bs_unHandlePropose := bs_unHandlePropose s;
  bs_unHandleVote := set2 (bs_unHandleVote s) (v_Height v) (l ++ [v]); bs_unHandleSpeedVote := bs_unHandleSpeedVote s; bs_voteNums := bs_voteNums s;
  bs_speedVoteNums := bs_speedVoteNums s; bs_isSpeedCert := bs_isSpeedCert s |}.

(** Under [hMutex]: a vote for another block than the recorded one waits. *)
Definition Big_processVoteMsg (v : VoteMsg) : BigM unit :=
  st ← get;
  match get2 (bs_blockHash (bst_spb st)) (v_Height v), get2 (bs_unHandleVote (bst_spb st)) (v_Height v) with
  | Some hash, Some l =>
      if decide (hash <> v_BlockHash v) then on_big (big_keep_vote v l)
      else emit (Spawn (BVoteCount v))
  | _, _ => panic
  end.

Definition big_set_voteNums (n : Z * Z) (s : BigSPB) : BigSPB := {|
  bs_Proposer := bs_Proposer s; bs_View := bs_View s; bs_preQc := bs_preQc s;
  bs_blockHash := bs_blockHash s; bs_blockQcs := bs_blockQcs s; bs_unHandlePropose := bs_unHandlePropose s;
  bs_unHandleVote := bs_unHandleVote s; bs_unHandleSpeedVote := bs_unHandleSpeedVote s; bs_voteNums := n;
  bs_speedVoteNums := bs_speedVoteNums s; bs_isSpeedCert := bs_isSpeedCert s |}.

Definition Big_processVoteMsg_count (v : VoteMsg) : BigM unit :=
  st ← get;
  match get2 (bs_voteNums (bst_spb st)) (v_Height v) with
  | None => panic
  | Some n =>
      let nums := wrap32 (n + 1) in
      _ ← on_big (big_set_voteNums (set2 (bs_voteNums (bst_spb st)) (v_Height v) nums));
      if decide (nums = wrap32 (HightThreshold (env_committee env))) then emit (Spawn (BVoteQC v))
      else mret tt
  end.

Definition big_vote_qc (s : BigSPB) (v : VoteMsg) : BlockQC := {|
  qc_View := bs_View s; qc_Height := v_Height v; qc_Proposer := v_Proposer v;
  qc_ParentBlockHash := v_BlockHash v; qc_Shares := ∅ |}.

Definition big_set_qc (h : Z) (qc : BlockQC) (s : BigSPB) : BigSPB := {|
  bs_Proposer := bs_Proposer s; bs_View := bs_View s; bs_preQc := bs_preQc s;
  bs_blockHash := bs_blockHash s; bs_blockQcs := set2 (bs_blockQcs s) h (Some qc); bs_unHandlePropose := bs_unHandlePropose s;
  bs_unHandleVote := bs_unHandleVote s; bs_unHandleSpeedVote := bs_unHandleSpeedVote s; bs_voteNums := bs_voteNums s;
  bs_speedVoteNums := bs_speedVoteNums s; bs_isSpeedCert := bs_isSpeedCert s |}.

(** Under [hMutex]. *)
Definition Big_processVoteMsg_qc (v : VoteMsg) : BigM unit :=
  st ← get;
  _ ← on_big (big_set_qc (v_Height v) (big_vote_qc (bst_spb st) v));
  emit (Spawn (BVoteNext v)).

(** The proposer goes on to height 2; everybody votes to be speedy. *)
Definition Big_processVoteMsg_next (v : VoteMsg) : BigM unit :=
  st ← get;
  let qc := big_vote_qc (bst_spb st) v in
  if decide (v_Height v = HEIGHT_1 /\ bs_Proposer (bst_spb st) = env_nodeID env) then
    let '(block, txpool) := generatorBlock (env_nodeID env) (v_View v) HEIGHT_2 (Some qc) (bst_pool st) in
    _ ← modify (fun st => {| bst_spb := bst_spb st; bst_pool := txpool |});
    propose ← lift (NewProposeMsg block (env_sigService env));
    _ ← emit (Send (env_nodeID env) NONE (MPropose propose));
    emit (Self (MPropose propose))
  else if decide (v_Height v = HEIGHT_2) then
    sv ← lift (NewSpeedVoteMsg (env_nodeID env) qc (env_sigService env));
    _ ← emit (Send (env_nodeID env) NONE (MSpeedVote sv));
    _ ← emit (Self (MSpeedVote sv));
    emit (Spawn BVoteFlush)
  else mret tt.

(** Under [uMutex]. *)
Definition Big_processVoteMsg_flush : BigM unit :=
  st ← get;
  emit_all (Spawn ∘ BSpeedVote <$> bs_unHandleSpeedVote (bst_spb st)).

(** *** processSpeedVoteMsg *)

Definition big_keep_speed (sv : SpeedVoteMsg) (s : BigSPB) : BigSPB := {|
  bs_Proposer := bs_Proposer s; bs_View := bs_View s; bs_preQc := bs_preQc s;
  bs_blockHash := bs_blockHash s; bs_blockQcs := bs_blockQcs s; bs_unHandlePropose := bs_unHandlePropose s;
  bs_unHandleVote := bs_unHandleVote s; bs_unHandleSpeedVote := bs_unHandleSpeedVote s ++ [sv]; bs_voteNums := bs_voteNums s;
  bs_speedVoteNums := bs_speedVoteNums s; bs_isSpeedCert := bs_isSpeedCert s |}.

Definition big_set_speed (n : Z) (cert : bool) (s : BigSPB) : BigSPB := {|
  bs_Proposer := bs_Proposer s; bs_View := bs_View s; bs_preQc := bs_preQc s;
  bs_blockHash := bs_blockHash s; bs_blockQcs := bs_blockQcs s; bs_unHandlePropose := bs_unHandlePropose s;
  bs_unHandleVote := bs_unHandleVote s; bs_unHandleSpeedVote := bs_unHandleSpeedVote s; bs_voteNums := bs_voteNums s;
  bs_speedVoteNums := n; bs_isSpeedCert := cert |}.

Definition Big_processSpeedVoteMsg (sv : SpeedVoteMsg) : BigM unit :=
  st ← get;
  if decide (sv_Proposer sv <> bs_Proposer (bst_spb st) \/ sv_View sv <> bs_View (bst_spb st)) then mret tt
  else if decide ((bs_blockQcs (bst_spb st)).2 = None) then on_big (big_keep_speed sv)
  else emit (Spawn BSpeedCount).

Definition Big_processSpeedVoteMsg_count : BigM unit :=
  st ← get;
  let nums := wrap32 (bs_speedVoteNums (bst_spb st) + 1) in
  _ ← on_big (big_set_speed nums (bs_isSpeedCert (bst_spb st)));
  if decide (nums = wrap32 (HightThreshold (env_committee env))) then emit (Spawn BSpeedStore)
  else mret tt.

Definition Big_processSpeedVoteMsg_store : BigM unit :=
  on_big (fun s => big_set_speed (bs_speedVoteNums s) true s).

(** *** What the main loop reads *)

Definition Big_SpeedCert (s : BigSPB) : bool := bs_isSpeedCert s.

Definition Big_DecCert (s : BigSPB) : bool :=
  bool_decide ((bs_blockQcs s).1 <> None /\ (bs_blockQcs s).2 <> None).

Definition Big_BlockHash (s : BigSPB) (height : Z) : Digest :=
  default Digest_zero (get2 (bs_blockHash s) height).

Definition Big_QCLEvel (s : BigSPB) : Z * option BlockQC :=
  match bs_blockQcs s with
  | (Some _, Some qc2) => (LEVEL_2, Some qc2)
  | (Some qc1, None) => (LEVEL_1, Some qc1)
  | (None, _) => (LEVEL_0, bs_preQc s)
  end.

Definition big_step (t : BigTask) : BigM unit :=
  match t with
  | BPropose p => Big_processProposeMsg p
  | BProposeFlush p => Big_processProposeMsg_flush p
  | BProposeVote p => Big_processProposeMsg_vote p
  | BVote v => Big_processVoteMsg v
  | BVoteCount v => Big_processVoteMsg_count v
  | BVoteQC v => Big_processVoteMsg_qc v
  | BVoteNext v => Big_processVoteMsg_next v
  | BVoteFlush => Big_processVoteMsg_flush
  | BSpeedVote sv => Big_processSpeedVoteMsg sv
  | BSpeedCount => Big_processSpeedVoteMsg_count
  | BSpeedStore => Big_processSpeedVoteMsg_store
  end.
End big_spb.
