(* ===== verification/BigProps.v ===== *)
(** * Guarantees of a big-block broadcast instance

    Executions of [BigSpb] under [Sched], what a certificate of an instance
    means, and how a repeated proposal makes votes count again. *)
From S2P Require Import Prelude Sha256 Crypto Committee Pool Message Transmitor Spb SpbExec Sched BigSpb.

Section cases.
Context `{P : Prims} (env : SpbEnv).

(** The branches of the pieces. *)
Inductive big_case : BigTask -> BigSPB -> BigSPB -> list (Eff BigTask) -> Prop :=
| BC_propose1 p B s :
    p_B p = Some B -> p_Height p = HEIGHT_1 ->
    big_case (BPropose p) s (big_set_height1 B s) [Spawn (BProposeFlush p)]
| BC_propose2_keep p B qc s :
    p_B p = Some B -> p_Height p = HEIGHT_2 -> b_Qc B = Some qc -> (bs_blockHash s).1 <> qc_ParentBlockHash qc ->
    big_case (BPropose p) s (big_keep_propose p s) []
| BC_propose2 p B qc s :
    p_B p = Some B -> p_Height p = HEIGHT_2 -> b_Qc B = Some qc -> (bs_blockHash s).1 = qc_ParentBlockHash qc ->
    big_case (BPropose p) s (big_set_height2 B s) [Spawn (BProposeFlush p)]
| BC_propose_other p B s :
    p_B p = Some B -> p_Height p <> HEIGHT_1 -> p_Height p <> HEIGHT_2 ->
    big_case (BPropose p) s s [Spawn (BProposeVote p)]
| BC_flush1 p s :
    p_Height p = HEIGHT_1 ->
    big_case (BProposeFlush p) s s
      (((Spawn ∘ BPropose <$> bs_unHandlePropose s) ++ (Spawn ∘ BVote <$> (bs_unHandleVote s).1))
       ++ [Spawn (BProposeVote p)])
| BC_flush2 p s :
    p_Height p <> HEIGHT_1 ->
    big_case (BProposeFlush p) s s ((Spawn ∘ BVote <$> (bs_unHandleVote s).2) ++ [Spawn (BProposeVote p)])
| BC_vote p B m s :
    p_B p = Some B -> NewVoteMsg (env_nodeID env) B (env_sigService env) = Ok m ->
    big_case (BProposeVote p) s s [Send (env_nodeID env) NONE (MVote m); Self (MVote m)]
| BC_wait v l hash s :
    get2 (bs_blockHash s) (v_Height v) = Some hash -> get2 (bs_unHandleVote s) (v_Height v) = Some l ->
    hash <> v_BlockHash v -> big_case (BVote v) s (big_keep_vote v l s) []
| BC_match v s :
    get2 (bs_blockHash s) (v_Height v) = Some (v_BlockHash v) ->
    big_case (BVote v) s s [Spawn (BVoteCount v)]
| BC_count v n s :
    get2 (bs_voteNums s) (v_Height v) = Some n -> wrap32 (n + 1) <> quorum_size env ->
    big_case (BVoteCount v) s (big_set_voteNums (set2 (bs_voteNums s) (v_Height v) (wrap32 (n + 1))) s) []
| BC_quorum v n s :
    get2 (bs_voteNums s) (v_Height v) = Some n -> wrap32 (n + 1) = quorum_size env ->
    big_case (BVoteCount v) s (big_set_voteNums (set2 (bs_voteNums s) (v_Height v) (wrap32 (n + 1))) s)
      [Spawn (BVoteQC v)]
| BC_qc v s : big_case (BVoteQC v) s (big_set_qc (v_Height v) (big_vote_qc s v) s) [Spawn (BVoteNext v)]
| BC_next1 v batch m s :
    v_Height v = HEIGHT_1 -> bs_Proposer s = env_nodeID env ->
    NewProposeMsg {| b_Author := env_nodeID env; b_View := v_View v; b_Height := HEIGHT_2; b_Batch := batch;
                     b_Qc := Some (big_vote_qc s v); b_References := [] |} (env_sigService env) = Ok m ->
    big_case (BVoteNext v) s s [Send (env_nodeID env) NONE (MPropose m); Self (MPropose m)]
| BC_next2 v m s :
    v_Height v = HEIGHT_2 -> NewSpeedVoteMsg (env_nodeID env) (big_vote_qc s v) (env_sigService env) = Ok m ->
    big_case (BVoteNext v) s s [Send (env_nodeID env) NONE (MSpeedVote m); Self (MSpeedVote m); Spawn BVoteFlush]
| BC_next_none v s : v_Height v <> HEIGHT_2 -> big_case (BVoteNext v) s s []
| BC_vflush s : big_case BVoteFlush s s (Spawn ∘ BSpeedVote <$> bs_unHandleSpeedVote s)
| BC_sv_skip sv s :
    sv_Proposer sv <> bs_Proposer s \/ sv_View sv <> bs_View s -> big_case (BSpeedVote sv) s s []
| BC_sv_keep sv s : (bs_blockQcs s).2 = None -> big_case (BSpeedVote sv) s (big_keep_speed sv s) []
| BC_sv_count sv s :
    sv_Proposer sv = bs_Proposer s -> sv_View sv = bs_View s -> (bs_blockQcs s).2 <> None ->
    big_case (BSpeedVote sv) s s [Spawn BSpeedCount]
| BC_scount s effs :
    effs = (if decide (wrap32 (bs_speedVoteNums s + 1) = quorum_size env) then [Spawn BSpeedStore] else []) ->
    big_case BSpeedCount s (big_set_speed (wrap32 (bs_speedVoteNums s + 1)) (bs_isSpeedCert s) s) effs
| BC_store s : big_case BSpeedStore s (big_set_speed (bs_speedVoteNums s) true s) [].

Hint Constructors big_case : core.

Lemma big_step_case t st st' effs :
  big_step env t st = (Ok tt, st', effs) -> big_case t (bst_spb st) (bst_spb st') effs.
Proof.
  destruct t as [p|p|p|v|v|v|v| |sv| |]; simpl.
  - unfold Big_processProposeMsg, on_big. destruct (p_B p) as [B|] eqn:EB; gom; [|done].
    destruct (decide (p_Height p = HEIGHT_1)) as [H1|H1]; [intros ?; simplify_eq/=; eauto|].
    destruct (decide (p_Height p = HEIGHT_2)) as [H2|H2]; [|intros ?; simplify_eq/=; eauto].
    destruct (b_Qc B) as [qc|] eqn:Eq; gom; [|done].
    destruct (decide _) as [H3|H3]; gom; intros ?; simplify_eq/=; [eauto|].
    eapply BC_propose2; eauto. by apply dec_stable.
  - unfold Big_processProposeMsg_flush. gom. destruct (decide _); intros ?; simplify_eq/=; eauto.
  - unfold Big_processProposeMsg_vote. destruct (p_B p) as [B|] eqn:EB; gom; [|done].
    destruct (NewVoteMsg _ _ _) as [m| |] eqn:Em; try done. intros ?; simplify_eq/=. by econstructor.
  - unfold Big_processVoteMsg, on_big. gom. destruct (get2 (bs_blockHash _) _) as [hash|] eqn:Eh; gom; [|done].
    destruct (get2 (bs_unHandleVote _) _) as [l|] eqn:El; gom; [|done].
    destruct (decide _) as [Hd|Hd]; gom; intros ?; simplify_eq/=; [eauto|].
    apply BC_match. rewrite Eh. f_equal. by apply dec_stable.
  - unfold Big_processVoteMsg_count, on_big. gom. destruct (get2 _ _) as [n|] eqn:En; gom; [|done].
    destruct (decide _); gom; intros ?; simplify_eq/=; eauto.
  - unfold Big_processVoteMsg_qc, on_big. gom. intros ?; simplify_eq/=. eauto.
  - unfold Big_processVoteMsg_next. gom. destruct (decide (_ /\ _)) as [[H1 H2]|Hn]; gom.
    + unfold generatorBlock. destruct (GetBatch _) as [batch pool']. gom.
      destruct (NewProposeMsg _ _) as [m| |] eqn:Em; try done. intros ?; simplify_eq/=. by econstructor.
    + destruct (decide _); gom; [|intros ?; simplify_eq/=; eauto].
      destruct (NewSpeedVoteMsg _ _ _) as [m| |] eqn:Em; try done. intros ?; simplify_eq/=. by econstructor.
  - unfold Big_processVoteMsg_flush. gom. intros ?; simplify_eq/=. eauto.
  - unfold Big_processSpeedVoteMsg, on_big. gom. destruct (decide (_ \/ _)) as [Hg|Hg]; gom; [intros ?; simplify_eq/=; eauto|].
    assert (sv_Proposer sv = bs_Proposer (bst_spb st)) by (apply dec_stable; tauto).
    assert (sv_View sv = bs_View (bst_spb st)) by (apply dec_stable; tauto).
    destruct (decide _); gom; intros ?; simplify_eq/=; eauto.
  - unfold Big_processSpeedVoteMsg_count, on_big. gom. destruct (decide _) as [Hd|Hd]; gom; intros ?; simplify_eq/=;
      apply BC_scount; unfold quorum_size; by case_decide.
  - unfold Big_processSpeedVoteMsg_store, on_big. gom. intros ?; simplify_eq/=. eauto.
Qed.
End cases.

(** ** Executions *)

Definition big_root (t : BigTask) : bool :=
  match t with BPropose _ | BVote _ | BSpeedVote _ => true | _ => false end.

Definition big_env_change (st st' : BigSt) : Prop := bst_spb st' = bst_spb st.

Definition big_init (proposer : NodeID) (view : Z) (pool : Pool) : BigSt :=
  {| bst_spb := NewBigSPB proposer view; bst_pool := pool |}.

Definition big_reachable `{Prims} (env : SpbEnv) (proposer : NodeID) (view : Z) (c : SConfig BigSt BigTask) : Prop :=
  exists pool, sched_reachable big_root (big_step env) big_env_change (big_init proposer view pool) c.

(** ** What a certificate means *)

(** The proposer does not equivocate: its proposals of a height are one
    block. *)
Record big_honest `{P : Prims} (h1 h2 : Digest) (seen : list BigTask) : Prop := {
  bh_block1 p B : BPropose p ∈ seen -> p_B p = Some B -> p_Height p = HEIGHT_1 -> Block_Hash B = h1;
  bh_block2 p B : BPropose p ∈ seen -> p_B p = Some B -> p_Height p = HEIGHT_2 -> Block_Hash B = h2;
}.

(** No vote is for the zero digest, the value of [blockHash] before a block is
    recorded, which [processVoteMsg] takes for the vote's block. *)
Definition no_zero_vote (seen : list BigTask) : Prop := forall v, BVote v ∈ seen -> v_BlockHash v <> Digest_zero.

(** The block of a height was proposed to the instance. *)
Definition big_seen_block (h : Z) (seen : list BigTask) : Prop :=
  exists p B, BPropose p ∈ seen /\ p_B p = Some B /\ p_Height p = h.

Section safe.
Context `{P : Prims} (env : SpbEnv) (h1 h2 : Digest).

(** A vote that was seen and matched the recorded block of its height. *)
Definition matched (s : BigSPB) (seen : list BigTask) (v : VoteMsg) : Prop :=
  BVote v ∈ seen /\ get2 (bs_blockHash s) (v_Height v) = Some (v_BlockHash v).

Definition big_origin (s : BigSPB) (seen : list BigTask) (t : BigTask) : Prop :=
  match t with
  | BPropose _ | BVote _ => t ∈ seen
  | BVoteCount v | BVoteQC v | BVoteNext v => matched s seen v
  | _ => True
  end.

Record big_safe (s : BigSPB) (pend seen : list BigTask) : Prop := {
  bg_hash1 : (bs_blockHash s).1 = Digest_zero \/ (bs_blockHash s).1 = h1 /\ big_seen_block HEIGHT_1 seen;
  bg_hash2 : (bs_blockHash s).2 = Digest_zero \/ (bs_blockHash s).2 = h2 /\ big_seen_block HEIGHT_2 seen;
  bg_pend : Forall (big_origin s seen) pend;
  bg_propose : Forall (fun p => BPropose p ∈ seen) (bs_unHandlePropose s);
  bg_vote1 : Forall (fun v => BVote v ∈ seen) (bs_unHandleVote s).1;
  bg_vote2 : Forall (fun v => BVote v ∈ seen) (bs_unHandleVote s).2;
  bg_qc1 q : (bs_blockQcs s).1 = Some q ->
    exists v, matched s seen v /\ v_Height v = HEIGHT_1 /\ v_BlockHash v = qc_ParentBlockHash q;
  bg_qc2 q : (bs_blockQcs s).2 = Some q ->
    exists v, matched s seen v /\ v_Height v = HEIGHT_2 /\ v_BlockHash v = qc_ParentBlockHash q;
}.

(** A recorded block that was voted for is never replaced by another. *)
Definition hash_grows (s s' : BigSPB) (seen : list BigTask) : Prop := forall v, matched s seen v -> matched s' seen v.

Lemma big_origin_grows s s' seen t : hash_grows s s' seen -> big_origin s seen t -> big_origin s' seen t.
Proof. intros Hg. destruct t; simpl; auto. Qed.

Lemma hash_grows_set seen s s' h d :
  no_zero_vote seen -> (bs_blockHash s).1 = Digest_zero \/ (bs_blockHash s).1 = h1 /\ big_seen_block HEIGHT_1 seen ->
  (bs_blockHash s).2 = Digest_zero \/ (bs_blockHash s).2 = h2 /\ big_seen_block HEIGHT_2 seen ->
  bs_blockHash s' = set2 (bs_blockHash s) h d ->
  (h = HEIGHT_1 /\ d = h1) \/ (h = HEIGHT_2 /\ d = h2) -> hash_grows s s' seen.
Proof.
  intros Hv G1 G2 E Hd v [Hin Hm]. split; [done|]. rewrite E. specialize (Hv v Hin).
  destruct (decide (h = v_Height v)) as [->|Hne]; [|by rewrite get2_set2_ne].
  rewrite get2_set2_eq by (by eapply get2_Some). f_equal. unfold get2 in Hm.
  destruct Hd as [[Eh ->]|[Eh ->]]; rewrite Eh in Hm; simpl in Hm; injection Hm as Hm.
  - destruct G1 as [?|[? _]]; congruence.
  - destruct G2 as [?|[? _]]; congruence.
Qed.

Lemma big_safe_step t s s' effs l1 l2 seen :
  big_honest h1 h2 seen -> no_zero_vote seen -> big_case env t s s' effs ->
  big_safe s (l1 ++ t :: l2) seen -> big_safe s' (l1 ++ l2 ++ spawned effs) seen.
Proof.
  intros Hh Hz Hc [G1 G2 G3 G4 G5 G6 G7 G8]. apply Forall_app in G3 as [F1 [Ot F2]%Forall_cons].
  assert (hash_grows s s' seen) as Hg.
  { destruct Hc; try (by intros ? []); destruct Hh as [B1 B2]; simpl in Ot.
    - eapply hash_grows_set; [done..|]. left. eauto.
    - eapply hash_grows_set; [done..|]. right. eauto. }
  assert (Forall (big_origin s' seen) l1 /\ Forall (big_origin s' seen) l2) as [F1' F2'].
  { split; eapply Forall_impl; eauto using big_origin_grows. }
  assert (forall q h, (exists v, matched s seen v /\ v_Height v = h /\ v_BlockHash v = qc_ParentBlockHash q) ->
    exists v, matched s' seen v /\ v_Height v = h /\ v_BlockHash v = qc_ParentBlockHash q) as Hq.
  { intros q h (v & ? & ? & ?). exists v. auto. }
  assert (Forall (big_origin s' seen) (spawned effs)) as F3.
  { destruct Hc; autorewrite with go_rw; rewrite ?Forall_app, ?Forall_fmap; simpl; repeat apply conj; auto.
    all: try (apply Forall_singleton; simpl; by auto).
    - apply Forall_true. done.
    - match goal with H : _ = (if _ then _ else _) |- _ => rewrite H end. case_decide; simpl; auto. }
  pose proof (bh_block1 _ _ _ Hh) as B1. pose proof (bh_block2 _ _ _ Hh) as B2.
  assert (forall h p B, BPropose p ∈ seen -> p_B p = Some B -> p_Height p = h -> big_seen_block h seen) as Hb
    by (intros h p B ???; by exists p, B).
  destruct Hc; split; simpl in *; try done; rewrite ?Forall_app; eauto.
  - unfold set2, get2 in *. repeat case_decide; simplify_eq/=; try done; apply Forall_app; auto.
  - unfold set2, get2 in *. repeat case_decide; simplify_eq/=; try done; apply Forall_app; auto.
  - intros q. unfold set2. destruct (decide (v_Height v = 0)); [|destruct (decide (v_Height v = 1)); simpl; eauto].
    intros [= <-]. exists v. auto.
  - intros q. unfold set2. destruct (decide (v_Height v = 0)); [simpl; by eauto|].
    destruct (decide (v_Height v = 1)); simpl; [|by eauto]. intros [= <-]. exists v. auto.
Qed.

Lemma big_honest_app seen l : big_honest h1 h2 (seen ++ l) -> big_honest h1 h2 seen.
Proof. intros [H1 H2]. split; intros *; [intros ?; eapply H1|intros ?; eapply H2]; set_solver. Qed.

Lemma big_safe_arrive s pend seen t : big_root t = true -> big_safe s pend seen -> big_safe s (pend ++ [t]) (seen ++ [t]).
Proof.
  intros Ht [G1 G2 G3 G4 G5 G6 G7 G8].
  assert (forall v, matched s seen v -> matched s (seen ++ [t]) v) as Hm by (intros v []; split; [set_solver|done]).
  assert (forall h, big_seen_block h seen -> big_seen_block h (seen ++ [t])) as Hb
    by (intros h (p & B & ? & ?); exists p, B; split; [set_solver|done]).
  split; try done.
  - destruct G1 as [?|[]]; auto.
  - destruct G2 as [?|[]]; auto.
  - apply Forall_app. split; [|apply Forall_singleton; destruct t; simpl in *; done || set_solver].
    eapply Forall_impl; [exact G3|]. intros []; simpl; auto; set_solver.
  - eapply Forall_impl; [exact G4|]. simpl. set_solver.
  - eapply Forall_impl; [exact G5|]. simpl. set_solver.
  - eapply Forall_impl; [exact G6|]. simpl. set_solver.
  - intros q (v & ? & ?)%G7. exists v. auto.
  - intros q (v & ? & ?)%G8. exists v. auto.
Qed.

Lemma big_safe_reachable proposer view c :
  big_reachable env proposer view c -> big_honest h1 h2 (sc_seen c) -> no_zero_vote (sc_seen c) ->
  big_safe (bst_spb (sc_st c)) (sc_pend c) (sc_seen c).
Proof.
  intros [pool Hr]. revert Hr.
  apply (sched_invariant_cases _ _ _ (fun c => big_honest h1 h2 (sc_seen c) -> no_zero_vote (sc_seen c) ->
    big_safe (bst_spb (sc_st c)) (sc_pend c) (sc_seen c))); simpl.
  - intros _ _. split; simpl; auto; done.
  - intros c0 t Ht IH Hh Hz. apply big_safe_arrive; [done|]. apply IH; [by eapply big_honest_app|].
    intros v Hv. apply Hz. set_solver.
  - intros st pend seen sent l1 t l2 st' effs -> Hs IH Hh Hz. apply big_step_case in Hs.
    eapply big_safe_step; eauto.
  - intros st st' pend seen sent -> IH Hh Hz. auto.
Qed.
End safe.

(** C12. In the big-block variant, when the proposer does not equivocate and no
    vote is for the zero digest, the decision certificate of an instance rests
    on its two blocks: both were proposed to it, the recorded hashes are
    theirs, both quorum certificates name them, and for each a vote for exactly
    that block was seen.  A vote for the zero digest would match the hash of a
    block that was never recorded. *)
Theorem Big_DecCert_sound `{P : Prims} (env : SpbEnv) proposer view h1 h2 c :
  big_reachable env proposer view c -> big_honest h1 h2 (sc_seen c) -> no_zero_vote (sc_seen c) ->
  Big_DecCert (bst_spb (sc_st c)) = true ->
  big_seen_block HEIGHT_1 (sc_seen c) /\ big_seen_block HEIGHT_2 (sc_seen c) /\
  Big_BlockHash (bst_spb (sc_st c)) HEIGHT_1 = h1 /\ Big_BlockHash (bst_spb (sc_st c)) HEIGHT_2 = h2 /\
  exists q1 q2 v1 v2,
    bs_blockQcs (bst_spb (sc_st c)) = (Some q1, Some q2) /\
    qc_ParentBlockHash q1 = h1 /\ qc_ParentBlockHash q2 = h2 /\
    BVote v1 ∈ sc_seen c /\ v_Height v1 = HEIGHT_1 /\ v_BlockHash v1 = h1 /\
    BVote v2 ∈ sc_seen c /\ v_Height v2 = HEIGHT_2 /\ v_BlockHash v2 = h2.
Proof.
  intros Hr Hh Hz Hd. destruct (big_safe_reachable env h1 h2 proposer view c Hr Hh Hz) as [G1 G2 _ _ _ _ G7 G8].
  unfold Big_DecCert in Hd. apply bool_decide_eq_true in Hd as [Q1 Q2]. unfold Big_BlockHash.
  destruct (bs_blockQcs (bst_spb (sc_st c))) as [[q1|] [q2|]]; simpl in *; try done.
  destruct (G7 q1 eq_refl) as (v1 & [S1 M1] & E1 & P1). destruct (G8 q2 eq_refl) as (v2 & [S2 M2] & E2 & P2).
  pose proof (Hz _ S1). pose proof (Hz _ S2).
  rewrite E1 in M1. rewrite E2 in M2. unfold get2 in *. simpl in *. injection M1 as M1. injection M2 as M2.
  destruct G1 as [?|[? ?]]; [congruence|]. destruct G2 as [?|[? ?]]; [congruence|].
  split_and!; try done. exists q1, q2, v1, v2. split_and!; congruence.
Qed.

(** ** A repeated proposal counts the waiting votes again *)

Section replay.
Context `{P : Prims} (env : SpbEnv) (p : ProposeMsg) (B : Block) (vs : list VoteMsg).
Context (HB : p_B p = Some B) (Hp : p_Height p = HEIGHT_1).
Context (Hvs : Forall (fun v => v_Height v = HEIGHT_1 /\ v_BlockHash v = Block_Hash B) vs).

Abbreviation big_reach := (rtc (sched_step big_root (big_step env) big_env_change)).

(** The votes wait, and [n] of the counted ones are for the block. *)
Record replaying (recorded : bool) (c : SConfig BigSt BigTask) (n : Z) : Prop := {
  rp_wait : (bs_unHandleVote (bst_spb (sc_st c))).1 = vs;
  rp_keep : bs_unHandlePropose (bst_spb (sc_st c)) = [];
  rp_count : (bs_voteNums (bst_spb (sc_st c))).1 = n;
  rp_hash : recorded = true -> (bs_blockHash (bst_spb (sc_st c))).1 = Block_Hash B;
}.

Lemma vote_waits st v :
  v_Height v = HEIGHT_1 -> (bs_blockHash (bst_spb st)).1 <> v_BlockHash v ->
  big_step env (BVote v) st = (Ok tt,
    {| bst_spb := big_keep_vote v (bs_unHandleVote (bst_spb st)).1 (bst_spb st); bst_pool := bst_pool st |}, []).
Proof.
  intros Hh Hne. simpl. unfold Big_processVoteMsg, on_big. gom. rewrite Hh. unfold get2. rewrite !decide_True by done.
  done.
Qed.

Lemma vote_matches st v :
  v_Height v = HEIGHT_1 -> (bs_blockHash (bst_spb st)).1 = v_BlockHash v ->
  big_step env (BVote v) st = (Ok tt, st, [Spawn (BVoteCount v)]).
Proof.
  intros Hh He. simpl. unfold Big_processVoteMsg, on_big. gom. rewrite Hh. unfold get2. rewrite !decide_True by done.
  gom. rewrite decide_False; [done|]. intros Hn. by apply Hn.
Qed.

Lemma vote_counts st v :
  v_Height v = HEIGHT_1 ->
  big_step env (BVoteCount v) st = (Ok tt,
    {| bst_spb := big_set_voteNums (set2 (bs_voteNums (bst_spb st)) HEIGHT_1
         (wrap32 ((bs_voteNums (bst_spb st)).1 + 1))) (bst_spb st); bst_pool := bst_pool st |},
    if decide (wrap32 ((bs_voteNums (bst_spb st)).1 + 1) = quorum_size env) then [Spawn (BVoteQC v)] else []).
Proof.
  intros Hh. simpl. unfold Big_processVoteMsg_count, on_big. gom. rewrite Hh. unfold get2. rewrite decide_True by done.
  gom. unfold quorum_size. by destruct (decide _).
Qed.

(** A restarted vote runs to its count. *)
Lemma replay_one c n l1 v l2 :
  v_Height v = HEIGHT_1 /\ v_BlockHash v = Block_Hash B -> replaying true c n -> sc_pend c = l1 ++ BVote v :: l2 ->
  exists c', big_reach c c' /\ replaying true c' (wrap32 (n + 1)) /\ sc_seen c' = sc_seen c /\
    sc_pend c' = l1 ++ l2 ++ (if decide (wrap32 (n + 1) = quorum_size env) then [BVoteQC v] else []).
Proof.
  intros [Hh Hd] [W K N H] Ep. eexists. split; [|split_and!].
  - eapply rtc_l; [eapply (sched_run _ _ _ c); [exact Ep|apply vote_matches; [done|by rewrite H, Hd]]|].
    apply rtc_once. eapply (sched_run _ _ _ _ (l1 ++ l2) _ []); [simpl; by rewrite app_assoc|by apply vote_counts].
  - split; simpl; rewrite ?N; done.
  - done.
  - simpl. rewrite N. unfold spawned. rewrite <- app_assoc. by destruct (decide _).
Qed.

(** Restarted votes that do not complete the quorum. *)
Lemma replay_some us c n l1 l2 :
  HightThreshold (env_committee env) < 2 ^ 31 -> 0 <= n -> n + Z.of_nat (length us) < HightThreshold (env_committee env) ->
  us ⊆ vs -> replaying true c n -> sc_pend c = l1 ++ (BVote <$> us) ++ l2 ->
  exists c', big_reach c c' /\ replaying true c' (n + Z.of_nat (length us)) /\ sc_seen c' = sc_seen c /\
    sc_pend c' = l1 ++ l2.
Proof.
  intros HT. revert c n. induction us as [|u us IH]; intros c n H0 Hn Hus Hc Ep; simpl in *.
  { exists c. by rewrite Z.add_0_r. }
  rewrite Forall_forall in Hvs.
  destruct (replay_one c n l1 u ((BVote <$> us) ++ l2)) as (c1 & R1 & C1 & S1 & P1); [apply Hvs; set_solver|done..|].
  unfold quorum_size in P1. rewrite !wrap_small in P1 by lia. rewrite wrap_small in C1 by lia.
  rewrite decide_False in P1 by lia. rewrite app_nil_r in P1.
  destruct (IH c1 (n + 1)) as (c2 & R2 & C2 & S2 & P2); [lia|lia|set_solver|done..|].
  exists c2. split_and!; [by etransitivity| |congruence|done].
  replace (n + Z.of_nat (S (length us))) with (n + 1 + Z.of_nat (length us)) by lia. done.
Qed.

(** The proposal arrives again: the votes that waited are started once more. *)
Lemma replay_proposal b c n :
  replaying b c n -> exists c', big_reach c c' /\ replaying true c' n /\ sc_seen c' = sc_seen c ++ [BPropose p] /\
    sc_pend c' = sc_pend c ++ (BVote <$> vs) ++ [BProposeVote p].
Proof.
  intros [W K N H].
  assert (forall st, big_step env (BPropose p) st = (Ok tt,
    {| bst_spb := big_set_height1 B (bst_spb st); bst_pool := bst_pool st |}, [Spawn (BProposeFlush p)])) as E1.
  { intros st. simpl. unfold Big_processProposeMsg, on_big. rewrite HB. gom. by rewrite decide_True. }
  assert (forall st, bs_unHandlePropose (bst_spb st) = [] -> (bs_unHandleVote (bst_spb st)).1 = vs ->
    big_step env (BProposeFlush p) st = (Ok tt, st, (Spawn ∘ BVote <$> vs) ++ [Spawn (BProposeVote p)])) as E2.
  { intros st K1 W1. simpl. unfold Big_processProposeMsg_flush. gom. rewrite decide_True by done. by rewrite K1, W1. }
  eexists. split; [|split_and!].
  - eapply rtc_l; [by apply (sched_arrive _ _ _ c (BPropose p))|].
    eapply rtc_l; [eapply (sched_run _ _ _ _ (sc_pend c) _ []); [reflexivity|apply E1]|].
    apply rtc_once. eapply (sched_run _ _ _ _ (sc_pend c) _ []); [reflexivity|]. by apply E2.
  - by split.
  - done.
  - simpl. by autorewrite with go_rw.
Qed.

(** The votes that are still missing complete the quorum. *)
Lemma replay_quorum c n l2 :
  HightThreshold (env_committee env) < 2 ^ 31 -> 0 <= n < HightThreshold (env_committee env) ->
  HightThreshold (env_committee env) <= n + Z.of_nat (length vs) ->
  replaying true c n -> (exists l1, sc_pend c = l1 ++ (BVote <$> vs) ++ l2) ->
  exists c' q, big_reach c c' /\ sc_seen c' = sc_seen c /\
    (bs_blockQcs (bst_spb (sc_st c'))).1 = Some q /\ qc_ParentBlockHash q = Block_Hash B.
Proof.
  intros HT Hn Hlen Hc [l1 Ep]. set (k := Z.to_nat (HightThreshold (env_committee env) - n - 1)).
  destruct (lookup_lt_is_Some_2 vs k) as [u Hu]; [lia|].
  pose proof (Forall_lookup_1 _ _ _ _ Hvs Hu) as [Hh Hd].
  assert (BVote <$> vs = (BVote <$> take k vs) ++ BVote u :: (BVote <$> drop (S k) vs)) as Evs
    by (rewrite <- (take_drop_middle vs k u Hu) at 1; by rewrite fmap_app).
  assert (length (take k vs) = k) as Lk by (rewrite length_take; apply lookup_lt_Some in Hu; lia).
  destruct (replay_some (take k vs) c n l1 (BVote u :: (BVote <$> drop (S k) vs) ++ l2)) as (c1 & R1 & C1 & S1 & P1);
    [done|lia|lia|by apply subseteq_take|done| |].
  { by rewrite Ep, Evs, <- app_assoc. }
  destruct (replay_one c1 _ l1 u _ (conj Hh Hd) C1 P1) as (c2 & R2 & C2 & S2 & P2).
  rewrite decide_True in P2 by (unfold quorum_size; f_equal; lia). rewrite app_assoc in P2.
  eexists _, _. split; [etransitivity; [exact R1|]; etransitivity; [exact R2|]; apply rtc_once;
    eapply (sched_run _ _ _ _ _ _ []); [exact P2|reflexivity]|].
  simpl. rewrite Hh. split_and!; [congruence|done|by simpl].
Qed.

(** Copies of the proposal until the count is complete. *)
Lemma replay_copies k b c n :
  HightThreshold (env_committee env) < 2 ^ 31 -> 0 <= n < HightThreshold (env_committee env) ->
  HightThreshold (env_committee env) <= n + Z.of_nat (k * length vs) -> replaying b c n ->
  exists c' q, big_reach c c' /\ sc_seen c' = sc_seen c ++ replicate k (BPropose p) /\
    (bs_blockQcs (bst_spb (sc_st c'))).1 = Some q /\ qc_ParentBlockHash q = Block_Hash B.
Proof.
  intros HT. revert b c n. induction k as [|k IH]; intros b c n Hn Hk Hc; [lia|].
  destruct (replay_proposal b c n Hc) as (c1 & R1 & C1 & S1 & P1).
  destruct (decide (n + Z.of_nat (length vs) < HightThreshold (env_committee env))) as [Hlt|Hge].
  - destruct (replay_some vs c1 n (sc_pend c) [BProposeVote p]) as (c2 & R2 & C2 & S2 & P2); [done|lia|lia|done..|].
    destruct (IH true c2 (n + Z.of_nat (length vs))) as (c3 & q & R3 & S3 & Q3 & E3); [lia|lia|done|].
    exists c3, q. split_and!; [by do 2 (etransitivity; [done|])| |done..].
    by rewrite S3, S2, S1, <- app_assoc.
  - destruct (replay_quorum c1 n [BProposeVote p]) as (c2 & q & R2 & S2 & Q2 & E2); [done|lia|lia|done|by eexists|].
    assert (forall m, exists c', big_reach c2 c' /\ sc_st c' = sc_st c2 /\
      sc_seen c' = sc_seen c2 ++ replicate m (BPropose p)) as Hmore.
    { induction m as [|m (c' & R' & T' & S')]; [exists c2; by rewrite app_nil_r|].
      eexists. split; [eapply rtc_r; [exact R'|by apply (sched_arrive _ _ _ c' (BPropose p))]|].
      split; [done|]. simpl. rewrite S', <- app_assoc. f_equal. by rewrite <- replicate_cons_app. }
    destruct (Hmore k) as (c3 & R3 & T3 & S3). exists c3, q. rewrite T3.
    split_and!; [by do 2 (etransitivity; [done|])| |done..]. by rewrite S3, S2, S1, <- app_assoc.
Qed.

(** Votes that arrive before their block wait for it. *)
Lemma votes_wait proposer view pool us :
  Block_Hash B <> Digest_zero -> us ⊆ vs ->
  exists c, big_reach (sched_init (big_init proposer view pool)) c /\
    sc_seen c = BVote <$> us /\ (bs_unHandleVote (bst_spb (sc_st c))).1 = us /\
    bs_unHandlePropose (bst_spb (sc_st c)) = [] /\ (bs_voteNums (bst_spb (sc_st c))).1 = 0 /\
    (bs_blockHash (bst_spb (sc_st c))).1 = Digest_zero /\ sc_pend c = [].
Proof.
  intros Hz. induction us as [|u us IH] using rev_ind; intros Hus; [by eexists|].
  destruct IH as (c & R & S & W & K & N & H & E); [set_solver|].
  rewrite Forall_forall in Hvs. destruct (Hvs u ltac:(set_solver)) as [Hh Hd].
  eexists. split.
  - eapply rtc_r; [eapply rtc_r; [exact R|by apply (sched_arrive _ _ _ c (BVote u))]|].
    eapply (sched_run _ _ _ _ [] _ []); [simpl; by rewrite E|]. apply vote_waits; [done|]. simpl. by rewrite H, Hd.
  - simpl. rewrite Hh, W. split_and!; try done. by rewrite S, fmap_app.
Qed.
End replay.

Module BigDemo.
#[global] Instance prims : Prims := demo_prims pad32.

Definition vote2 (i : NodeID) : VoteMsg := SpbDemo.vote i HEIGHT_2 (Block_Hash SpbDemo.block2).
Definition vote1 (i : NodeID) : VoteMsg := SpbDemo.vote i HEIGHT_1 (Block_Hash SpbDemo.block1).

Definition start : SConfig BigSt BigTask := sched_init (big_init 1 0 SpbDemo.pool).
Definition run (acts : list (SAct BigTask)) : option (SConfig BigSt BigTask) :=
  do_sacts big_root (big_step SpbDemo.env) start acts.

(** The second block and the votes overtake the first block. *)
Definition acts : list (SAct BigTask) :=
  (SArrive <$> [BPropose (SpbDemo.propose SpbDemo.block2)] ++ (BVote ∘ vote2 <$> [1; 2; 3]) ++
     (BVote ∘ vote1 <$> [1; 2; 3]) ++ [BPropose (SpbDemo.propose SpbDemo.block1)]) ++ replicate 30 (SRun 0).
Definition drained : SConfig BigSt BigTask := default start (run acts).

End BigDemo.

(** C39. In the big-block variant votes that wait for a block are never taken off
    the waiting list and every arrival of a proposal starts them again.  For
    any first block (whose hash is not zero) and any votes for it that arrive
    before it, [k] copies of the proposal make the instance record a quorum
    certificate for the block as soon as [k] times the number of votes reaches
    [HightThreshold]: one vote is enough. *)
Theorem big_votes_replayed `{P : Prims} (env : SpbEnv) proposer view pool p B vs k :
  p_B p = Some B -> p_Height p = HEIGHT_1 -> Block_Hash B <> Digest_zero ->
  Forall (fun v => v_Height v = HEIGHT_1 /\ v_BlockHash v = Block_Hash B) vs ->
  0 < HightThreshold (env_committee env) < 2 ^ 31 ->
  HightThreshold (env_committee env) <= Z.of_nat (k * length vs) ->
  exists c q, sched_reachable big_root (big_step env) big_env_change (big_init proposer view pool) c /\
    sc_seen c = (BVote <$> vs) ++ replicate k (BPropose p) /\
    (bs_blockQcs (bst_spb (sc_st c))).1 = Some q /\ qc_ParentBlockHash q = Block_Hash B.
Proof.
  intros HB Hp Hz Hvs HT Hk.
  destruct (votes_wait env p B vs HB Hp Hvs proposer view pool vs Hz ltac:(done)) as (c & R & S & W & K & N & H & E).
  destruct (replay_copies env p B vs HB Hp Hvs k false c 0) as (c' & q & R' & S' & Q1 & Q2); [lia..|by split|].
  exists c', q. split_and!; [|by rewrite S', S|done..]. unfold sched_reachable. by etransitivity.
Qed.

(** One vote and three copies, in a committee of four. *)
Lemma big_votes_replayed_witness :
  HightThreshold (env_committee SpbDemo.env) = 3 /\
  exists c q, sched_reachable big_root (big_step SpbDemo.env) big_env_change (big_init 1 0 SpbDemo.pool) c /\
    sc_seen c = [BVote (BigDemo.vote1 3)] ++ replicate 3 (BPropose (SpbDemo.propose SpbDemo.block1)) /\
    (bs_blockQcs (bst_spb (sc_st c))).1 = Some q /\ qc_ParentBlockHash q = Block_Hash SpbDemo.block1.
Proof.
  split; [reflexivity|].
  apply (big_votes_replayed SpbDemo.env 1 0 SpbDemo.pool (SpbDemo.propose SpbDemo.block1) SpbDemo.block1 [BigDemo.vote1 3] 3).
  - reflexivity.
  - reflexivity.
  - vm_compute. discriminate.
  - constructor; [split; reflexivity|constructor].
  - vm_decide.
  - vm_decide.
Defined.

Lemma drained_reachable : big_reachable SpbDemo.env 1 0 BigDemo.drained.
Proof.
  exists SpbDemo.pool. apply (do_sacts_steps big_root (big_step SpbDemo.env) big_env_change _ BigDemo.acts).
  apply (default_Some BigDemo.start). vm_compute. reflexivity.
Qed.

Lemma drained_seen : sc_seen BigDemo.drained
  = [BPropose (SpbDemo.propose SpbDemo.block2)] ++ (BVote ∘ BigDemo.vote2 <$> [1; 2; 3]) ++
    (BVote ∘ BigDemo.vote1 <$> [1; 2; 3]) ++ [BPropose (SpbDemo.propose SpbDemo.block1)].
Proof. vm_compute. reflexivity. Qed.

Lemma drained_honest : big_honest (Block_Hash SpbDemo.block1) (Block_Hash SpbDemo.block2) (sc_seen BigDemo.drained).
Proof.
  rewrite drained_seen. split; intros *; simpl; rewrite !elem_of_cons, elem_of_nil; intros Hin; intros.
  all: repeat destruct Hin as [Hin|Hin]; simplify_eq/=; done.
Qed.

Lemma drained_no_zero : no_zero_vote (sc_seen BigDemo.drained).
Proof.
  rewrite drained_seen. intros v. simpl. rewrite !elem_of_cons, elem_of_nil. intros Hin.
  repeat destruct Hin as [Hin|Hin]; simplify_eq/=; done.
Qed.

Lemma Big_DecCert_sound_witness :
  Big_BlockHash (bst_spb (sc_st BigDemo.drained)) HEIGHT_1 = Block_Hash SpbDemo.block1.
Proof.
  apply (Big_DecCert_sound SpbDemo.env 1 0 _ _ BigDemo.drained drained_reachable drained_honest drained_no_zero).
  vm_compute. reflexivity.
Defined.
