(* ===== verification/BigCore.v ===== *)
(** * The big-block protocol: the main loop of a node

    Models [src/core/bigcore.go].  Compared with the lean protocol there is no
    message filter, no final vote and no coin message; the election starts on
    speed votes.  [processCoin] is cut at its reads of an instance, as in
    [Core]. *)
From S2P Require Import Prelude Sha256 Crypto Committee Pool Message Store Commitor Elector Transmitor Spb BigSpb Core.

(** A piece of a goroutine of one instance. *)
Record BigGo := GoBig { bg_view : Z; bg_node : NodeID; bg_task : BigTask }.

Section bigcore.
Context {D : Type} `{!DB D} `{P : Prims} `{C : BlockCodec}.

Record BigCore := {
  bc_nodeID : NodeID;
  bc_view : Z;
  bc_height : Z;
  bc_committee : Committee;
  bc_parameters : Parameters;
  bc_txpool : Pool;
  bc_store : Store D;
  bc_sigService : SigService;
  bc_eletor : Elector;
  bc_commitor : Commitor;
  bc_spbInstances : gmap Z (gmap NodeID BigSPB);
  bc_speedVoteNums : gmap Z (gmap NodeID Z);
  bc_reportNums : gmap Z (Z * Z * Z);
}.

Definition NewBigCore (nodeID : NodeID) (committee : Committee) (parameters : Parameters) (txpool : Pool)
    (store : Store D) (sigService : SigService) : BigCore := {|
  bc_nodeID := nodeID; bc_view := 0; bc_height := HEIGHT_1; bc_committee := committee; bc_parameters := parameters;
  bc_txpool := txpool; bc_store := store; bc_sigService := sigService;
  bc_eletor := NewElector sigService committee; bc_commitor := NewCommitor;
  bc_spbInstances := ∅; bc_speedVoteNums := ∅; bc_reportNums := ∅;
|}.

(** Assignments to one field. *)
Definition bc_set_view (x : Z) (c : BigCore) : BigCore := {|
  bc_nodeID := bc_nodeID c; bc_view := x; bc_height := bc_height c; bc_committee := bc_committee c;
  bc_parameters := bc_parameters c; bc_txpool := bc_txpool c; bc_store := bc_store c;
  bc_sigService := bc_sigService c; bc_eletor := bc_eletor c; bc_commitor := bc_commitor c;
  bc_spbInstances := bc_spbInstances c; bc_speedVoteNums := bc_speedVoteNums c; bc_reportNums := bc_reportNums c |}.
Definition bc_set_txpool (x : Pool) (c : BigCore) : BigCore := {|
  bc_nodeID := bc_nodeID c; bc_view := bc_view c; bc_height := bc_height c; bc_committee := bc_committee c;
  bc_parameters := bc_parameters c; bc_txpool := x; bc_store := bc_store c; bc_sigService := bc_sigService c;
  bc_eletor := bc_eletor c; bc_commitor := bc_commitor c; bc_spbInstances := bc_spbInstances c;
  bc_speedVoteNums := bc_speedVoteNums c; bc_reportNums := bc_reportNums c |}.
Definition bc_set_store (x : Store D) (c : BigCore) : BigCore := {|
  bc_nodeID := bc_nodeID c; bc_view := bc_view c; bc_height := bc_height c; bc_committee := bc_committee c;
  bc_parameters := bc_parameters c; bc_txpool := bc_txpool c; bc_store := x; bc_sigService := bc_sigService c;
  bc_eletor := bc_eletor c; bc_commitor := bc_commitor c; bc_spbInstances := bc_spbInstances c;
  bc_speedVoteNums := bc_speedVoteNums c; bc_reportNums := bc_reportNums c |}.
Definition bc_set_eletor (x : Elector) (c : BigCore) : BigCore := {|
  bc_nodeID := bc_nodeID c; bc_view := bc_view c; bc_height := bc_height c; bc_committee := bc_committee c;
  bc_parameters := bc_parameters c; bc_txpool := bc_txpool c; bc_store := bc_store c;
  bc_sigService := bc_sigService c; bc_eletor := x; bc_commitor := bc_commitor c;
  bc_spbInstances := bc_spbInstances c; bc_speedVoteNums := bc_speedVoteNums c; bc_reportNums := bc_reportNums c |}.
Definition bc_set_commitor (x : Commitor) (c : BigCore) : BigCore := {|
  bc_nodeID := bc_nodeID c; bc_view := bc_view c; bc_height := bc_height c; bc_committee := bc_committee c;
  bc_parameters := bc_parameters c; bc_txpool := bc_txpool c; bc_store := bc_store c;
  bc_sigService := bc_sigService c; bc_eletor := bc_eletor c; bc_commitor := x;
  bc_spbInstances := bc_spbInstances c; bc_speedVoteNums := bc_speedVoteNums c; bc_reportNums := bc_reportNums c |}.
Definition bc_set_spbInstances (x : gmap Z (gmap NodeID BigSPB)) (c : BigCore) : BigCore := {|
  bc_nodeID := bc_nodeID c; bc_view := bc_view c; bc_height := bc_height c; bc_committee := bc_committee c;
  bc_parameters := bc_parameters c; bc_txpool := bc_txpool c; bc_store := bc_store c;
  bc_sigService := bc_sigService c; bc_eletor := bc_eletor c; bc_commitor := bc_commitor c;
  bc_spbInstances := x; bc_speedVoteNums := bc_speedVoteNums c; bc_reportNums := bc_reportNums c |}.
Definition bc_set_speedVoteNums (x : gmap Z (gmap NodeID Z)) (c : BigCore) : BigCore := {|
  bc_nodeID := bc_nodeID c; bc_view := bc_view c; bc_height := bc_height c; bc_committee := bc_committee c;
  bc_parameters := bc_parameters c; bc_txpool := bc_txpool c; bc_store := bc_store c;
  bc_sigService := bc_sigService c; bc_eletor := bc_eletor c; bc_commitor := bc_commitor c;
  bc_spbInstances := bc_spbInstances c; bc_speedVoteNums := x; bc_reportNums := bc_reportNums c |}.
Definition bc_set_reportNums (x : gmap Z (Z * Z * Z)) (c : BigCore) : BigCore := {|
  bc_nodeID := bc_nodeID c; bc_view := bc_view c; bc_height := bc_height c; bc_committee := bc_committee c;
  bc_parameters := bc_parameters c; bc_txpool := bc_txpool c; bc_store := bc_store c;
  bc_sigService := bc_sigService c; bc_eletor := bc_eletor c; bc_commitor := bc_commitor c;
  bc_spbInstances := bc_spbInstances c; bc_speedVoteNums := bc_speedVoteNums c; bc_reportNums := x |}.

Definition BigCoreM := GoM BigCore (Eff BigGo).

(** *** Helpers *)

Definition big_instance (c : BigCore) (view : Z) (node : NodeID) : option BigSPB :=
  bc_spbInstances c !! view ≫= fun m => m !! node.

Definition big_set_instance (view : Z) (node : NodeID) (s : BigSPB) (c : BigCore) : BigCore :=
  bc_set_spbInstances (<[view := <[node := s]> (default ∅ (bc_spbInstances c !! view))]> (bc_spbInstances c)) c.

Definition Big_getSpbInstance (view : Z) (node : NodeID) : BigCoreM BigSPB :=
  c ← get;
  match big_instance c view node with
  | Some s => mret s
  | None => _ ← modify (big_set_instance view node (NewBigSPB node view)); mret (NewBigSPB node view)
  end.

Definition goBig (view : Z) (node : NodeID) (t : BigTask) : BigCoreM unit :=
  _ ← Big_getSpbInstance view node;
  emit (Spawn (GoBig view node t)).

Definition big_broadcast (m : ConsensusMessage) : BigCoreM unit :=
  c ← get;
  _ ← emit (Send (bc_nodeID c) NONE m);
  emit (Self m).

Definition big_check_signature (ok : Res bool) (m : ConsensusMessage) (view author : Z) : BigCoreM unit :=
  b ← lift ok;
  if (b : bool) then mret tt else throw (ErrSignature (MsgType m) view author).

Definition Big_generatorBlock (view height : Z) (qc : option BlockQC) : BigCoreM Block :=
  c ← get;
  let '(block, txpool) := generatorBlock (bc_nodeID c) view height qc (bc_txpool c) in
  _ ← modify (bc_set_txpool txpool);
  mret block.

(** *** Handlers *)

Definition Big_handleProposeMsg (p : ProposeMsg) : BigCoreM unit :=
  c ← get;
  _ ← big_check_signature (ProposeMsg_Verify p (bc_committee c)) (MPropose p) (p_View p) (p_Author p);
  match p_B p with
  | None => panic
  | Some B =>
      st ← lift (storeBlock (bc_store c) B);
      _ ← modify (bc_set_store st);
      goBig (p_View p) (p_Author p) (BPropose p)
  end.

Definition Big_handleVoteMsg (v : VoteMsg) : BigCoreM unit :=
  c ← get;
  _ ← big_check_signature (VoteMsg_Verify v (bc_committee c)) (MVote v) (v_View v) (v_Author v);
  goBig (v_View v) (v_Proposer v) (BVote v).

(** The vote goes to the instance of its author. *)
Definition Big_handleSpeedVoteMsg (sv : SpeedVoteMsg) : BigCoreM unit :=
  c ← get;
  _ ← big_check_signature (SpeedVoteMsg_Verify sv (bc_committee c)) (MSpeedVote sv) (sv_View sv) (sv_Author sv);
  let nodes := default ∅ (bc_speedVoteNums c !! sv_View sv) in
  let nodes := <[sv_Author sv := wrap64 (default 0 (nodes !! sv_Author sv) + 1)]> nodes in
  _ ← modify (fun c => bc_set_speedVoteNums (<[sv_View sv := nodes]> (bc_speedVoteNums c)) c);
  _ ← (if decide (default 0 (nodes !! bc_nodeID c) = HightThreshold (bc_committee c)) then
         match NewElectMsg (bc_nodeID c) (sv_View sv) (bc_sigService c) with
         | Ok elect => big_broadcast (MElect elect)
         | _ => panic
         end
       else mret tt);
  goBig (sv_View sv) (sv_Author sv) (BSpeedVote sv).

(** [processCoin] up to its first read of the instance. *)
Definition Big_processCoin (leader : NodeID) (view : Z) : BigCoreM MainPC :=
  _ ← Big_getSpbInstance view leader; mret (PSpeed leader view).

Definition Big_handleElectMsg (e : ElectMsg) : BigCoreM MainPC :=
  c ← get;
  if negb (ElectMsg_Verify e) then throw (ErrSignature ElectType (e_View e) (e_Author e)) else
  let '(r, eletor) := Elector_Add (bc_eletor c) e in
  _ ← modify (bc_set_eletor eletor);
  leader ← lift r;
  if decide (leader <> NONE) then Big_processCoin leader (e_View e) else mret Idle.

Definition big_commit_digest (d : Digest) : BigCoreM unit :=
  c ← get;
  block ← lift (getBlock (bc_store c) d);
  modify (fun c => bc_set_commitor (Commit (bc_commitor c) block) c).

Definition Big_processCoin_seg (pc : MainPC) : BigCoreM MainPC :=
  match pc with
  | Idle => mret Idle
  | PSpeed leader view =>
      s ← Big_getSpbInstance view leader;
      mret (if Big_SpeedCert s then PSpeedCommit leader view else PDec leader view)
  | PSpeedCommit leader view =>
      s ← Big_getSpbInstance view leader;
      _ ← big_commit_digest (Big_BlockHash s HEIGHT_2);
      mret (PReport leader view)
  | PDec leader view =>
      s ← Big_getSpbInstance view leader;
      mret (if Big_DecCert s then PDecCommit leader view else PReport leader view)
  | PDecCommit leader view =>
      s ← Big_getSpbInstance view leader;
      _ ← big_commit_digest (Big_BlockHash s HEIGHT_1);
      mret (PReport leader view)
  | PReport leader view =>
      s ← Big_getSpbInstance view leader;
      c ← get;
      let '(level, qc) := Big_QCLEvel s in
      report ← lift (NewReportMsg (bc_nodeID c) view level qc (bc_sigService c));
      _ ← big_broadcast (MReport report);
      mret Idle
  end.

Definition Big_advanceView (view : Z) (qc : option BlockQC) : BigCoreM unit :=
  c ← get;
  if decide (view <= bc_view c) then mret tt else
  _ ← modify (bc_set_view view);
  block ← Big_generatorBlock view HEIGHT_1 qc;
  propose ← lift (NewProposeMsg block (bc_sigService c));
  big_broadcast (MPropose propose).

Definition Big_handleReportMsg (r : ReportMsg) : BigCoreM unit :=
  c ← get;
  _ ← big_check_signature (ReportMsg_Verify r (bc_committee c)) (MReport r) (r_View r) (r_Author r);
  let nums := default (0, 0, 0) (bc_reportNums c !! r_View r) in
  match get3 nums (r_Level r) with
  | None => panic
  | Some n =>
      let nums := set3 nums (r_Level r) (wrap64 (n + 1)) in
      _ ← modify (fun c => bc_set_reportNums (<[r_View r := nums]> (bc_reportNums c)) c);
      if decide (report_quorum nums (HightThreshold (bc_committee c))) then
        Big_advanceView (wrap64 (r_View r + 1)) (r_BlockQc r)
      else mret tt
  end.

(** The [switch] of the main loop; final votes and coins match no case. *)
Definition Big_handle (m : ConsensusMessage) : BigCoreM MainPC :=
  match m with
  | MPropose p => _ ← Big_handleProposeMsg p; mret Idle
  | MVote v => _ ← Big_handleVoteMsg v; mret Idle
  | MSpeedVote sv => _ ← Big_handleSpeedVoteMsg sv; mret Idle
  | MElect e => Big_handleElectMsg e
  | MReport r => _ ← Big_handleReportMsg r; mret Idle
  | MFinVote _ | MCoin _ => mret Idle
  end.

Definition Big_Run_first : BigCoreM unit :=
  c ← get;
  block ← Big_generatorBlock (bc_view c) (bc_height c) None;
  propose ← lift (NewProposeMsg block (bc_sigService c));
  big_broadcast (MPropose propose).

Definition big_env_of (c : BigCore) : SpbEnv :=
  {| env_nodeID := bc_nodeID c; env_committee := bc_committee c; env_sigService := bc_sigService c |}.

(** One piece of a goroutine, on its instance and the pool of the node. *)
Definition big_run_task (g : BigGo) : BigCoreM unit := fun c =>
  match big_instance c (bg_view g) (bg_node g) with
  | None => (Panic, c, [])
  | Some s =>
      let '(r, st, effs) := big_step (big_env_of c) (bg_task g) {| bst_spb := s; bst_pool := bc_txpool c |} in
      (r, big_set_instance (bg_view g) (bg_node g) (bst_spb st) (bc_set_txpool (bst_pool st) c),
       Eff_map (GoBig (bg_view g) (bg_node g)) <$> effs)
  end.
End bigcore.
Arguments BigCore D {_}.
Arguments BigCoreM D {_} _.
