(* ===== verification/Loop.v ===== *)
(** * A main loop with goroutines, for any protocol variant

    The state [C] of a core, its message handler, the rest of [processCoin] and
    the pieces [G] of goroutines it starts, as one transition system.  [PC] says
    where the main loop stands.  An item of [G] for which [call] is defined is
    a signal to the main loop, received when it is idle.  The
    network delivers any message, the environment may change what
    [env_change] allows (pool, committer).  [loop_trace] lifts a trace relation
    that all parts respect to whole executions. *)
From S2P Require Import Prelude Sha256 Crypto Committee Pool Message Store Commitor Elector Transmitor Spb SpbExec Core CoreExec.

Record LNode {C G PC : Type} := {
  ln_core : C;
  ln_recv : list ConsensusMessage;
  ln_tasks : list G;
  ln_main : PC;
  ln_out : list (Eff G);
}.
Arguments LNode : clear implicits.

Section loop.
Context {C G PC : Type} (idle : PC).
Context (hdl : ConsensusMessage -> GoM C (Eff G) PC) (seg : PC -> GoM C (Eff G) PC)
  (task : G -> GoM C (Eff G) unit) (call : G -> option (GoM C (Eff G) PC)) (env_change : C -> C -> Prop).

(** Where the loop goes on; an error is logged. *)
Definition loop_next (r : Res PC) : PC := match r with Ok pc => pc | _ => idle end.

Inductive loop_step : LNode C G PC -> LNode C G PC -> Prop :=
| loop_deliver nd m :
    loop_step nd {| ln_core := ln_core nd; ln_recv := ln_recv nd ++ [m]; ln_tasks := ln_tasks nd;
                    ln_main := ln_main nd; ln_out := ln_out nd |}
| loop_handle nd m rest r c' effs :
    ln_main nd = idle -> ln_recv nd = m :: rest -> hdl m (ln_core nd) = (r, c', effs) -> r <> Panic ->
    loop_step nd {| ln_core := c'; ln_recv := rest ++ selfs effs; ln_tasks := ln_tasks nd ++ spawned effs;
                    ln_main := loop_next r; ln_out := ln_out nd ++ outputs effs |}
| loop_coin nd r c' effs :
    ln_main nd <> idle -> seg (ln_main nd) (ln_core nd) = (r, c', effs) -> r <> Panic ->
    loop_step nd {| ln_core := c'; ln_recv := ln_recv nd ++ selfs effs; ln_tasks := ln_tasks nd ++ spawned effs;
                    ln_main := loop_next r; ln_out := ln_out nd ++ outputs effs |}
| loop_task nd l1 g l2 c' effs :
    ln_tasks nd = l1 ++ g :: l2 -> call g = None -> task g (ln_core nd) = (Ok tt, c', effs) ->
    loop_step nd {| ln_core := c'; ln_recv := ln_recv nd ++ selfs effs; ln_tasks := l1 ++ l2 ++ spawned effs;
                    ln_main := ln_main nd; ln_out := ln_out nd ++ outputs effs |}
| loop_call nd l1 g l2 m r c' effs :
    ln_main nd = idle -> ln_tasks nd = l1 ++ g :: l2 -> call g = Some m -> m (ln_core nd) = (r, c', effs) -> r <> Panic ->
    loop_step nd {| ln_core := c'; ln_recv := ln_recv nd ++ selfs effs; ln_tasks := l1 ++ l2 ++ spawned effs;
                    ln_main := loop_next r; ln_out := ln_out nd ++ outputs effs |}
| loop_env nd c' :
    env_change (ln_core nd) c' ->
    loop_step nd {| ln_core := c'; ln_recv := ln_recv nd; ln_tasks := ln_tasks nd; ln_main := ln_main nd;
                    ln_out := ln_out nd |}.

(** A relation that every part respects holds across executions. *)
Lemma loop_trace (Q : C -> C -> list (Eff G) -> Prop) `{!Trace Q} :
  (forall m c, spec_at c (hdl m) Q) -> (forall pc c, spec_at c (seg pc) Q) ->
  (forall g c c' effs, task g c = (Ok tt, c', effs) -> Q c c' effs) ->
  (forall g m c, call g = Some m -> spec_at c m Q) ->
  (forall c c', env_change c c' -> Q c c' []) ->
  forall nd nd', rtc loop_step nd nd' ->
  exists effs, ln_out nd' = ln_out nd ++ outputs effs /\ Q (ln_core nd) (ln_core nd') effs.
Proof.
  intros Hh Hs Ht Hcall He nd nd'. induction 1 as [nd|nd nd1 nd' H1 _ (effs2 & Eo & HQ)].
  { exists []. rewrite app_nil_r. split; [done|apply trace_refl]. }
  assert (exists effs1, ln_out nd1 = ln_out nd ++ outputs effs1 /\ Q (ln_core nd) (ln_core nd1) effs1)
    as (effs1 & Eo1 & HQ1).
  { destruct H1 as [nd m|nd m rest r c' effs _ _ E _|nd r c' effs _ E _|nd l1 g l2 c' effs _ _ E|nd l1 g l2 m r c' effs _ _ Ec E _|nd c' E]; simpl.
    - exists []. rewrite app_nil_r. split; [done|apply trace_refl].
    - exists effs. split; [done|]. by eapply Hh.
    - exists effs. split; [done|]. by eapply Hs.
    - exists effs. split; [done|]. by eapply Ht.
    - exists effs. split; [done|]. by eapply Hcall.
    - exists []. rewrite app_nil_r. split; [done|]. by apply He. }
  exists (effs1 ++ effs2). rewrite Eo, Eo1, outputs_app, app_assoc. split; [done|]. by eapply trace_app.
Qed.

(** *** Schedules *)

Inductive LAct := LDeliver (m : ConsensusMessage) | LHandle | LSeg | LTask (i : nat) | LCall (i : nat).

Context (idleb : PC -> bool) (Hidle : forall pc, idleb pc = true <-> pc = idle).

Definition do_lact (nd : LNode C G PC) (a : LAct) : option (LNode C G PC) :=
  match a with
  | LDeliver m =>
      Some {| ln_core := ln_core nd; ln_recv := ln_recv nd ++ [m]; ln_tasks := ln_tasks nd; ln_main := ln_main nd;
              ln_out := ln_out nd |}
  | LHandle =>
      match idleb (ln_main nd), ln_recv nd with
      | true, m :: rest =>
          match hdl m (ln_core nd) with
          | (Panic, _, _) => None
          | (r, c', effs) =>
              Some {| ln_core := c'; ln_recv := rest ++ selfs effs; ln_tasks := ln_tasks nd ++ spawned effs;
                      ln_main := loop_next r; ln_out := ln_out nd ++ outputs effs |}
          end
      | _, _ => None
      end
  | LSeg =>
      if idleb (ln_main nd) then None else
      match seg (ln_main nd) (ln_core nd) with
      | (Panic, _, _) => None
      | (r, c', effs) =>
          Some {| ln_core := c'; ln_recv := ln_recv nd ++ selfs effs; ln_tasks := ln_tasks nd ++ spawned effs;
                  ln_main := loop_next r; ln_out := ln_out nd ++ outputs effs |}
      end
  | LTask i =>
      g ← ln_tasks nd !! i;
      match call g, task g (ln_core nd) with
      | None, (Ok tt, c', effs) =>
          Some {| ln_core := c'; ln_recv := ln_recv nd ++ selfs effs;
                  ln_tasks := take i (ln_tasks nd) ++ drop (S i) (ln_tasks nd) ++ spawned effs;
                  ln_main := ln_main nd; ln_out := ln_out nd ++ outputs effs |}
      | _, _ => None
      end
  | LCall i =>
      g ← ln_tasks nd !! i;
      m ← call g;
      if idleb (ln_main nd) then
        match m (ln_core nd) with
        | (Panic, _, _) => None
        | (r, c', effs) =>
            Some {| ln_core := c'; ln_recv := ln_recv nd ++ selfs effs;
                    ln_tasks := take i (ln_tasks nd) ++ drop (S i) (ln_tasks nd) ++ spawned effs;
                    ln_main := loop_next r; ln_out := ln_out nd ++ outputs effs |}
        end
      else None
  end.

Fixpoint do_lacts (nd : LNode C G PC) (acts : list LAct) : option (LNode C G PC) :=
  match acts with
  | [] => Some nd
  | a :: acts => nd' ← do_lact nd a; do_lacts nd' acts
  end.

(** Everything that can run does, in order, and the main loop takes what is
    signalled before the next message; [fuel] bounds the number of steps. *)
Fixpoint do_all (fuel : nat) (nd : LNode C G PC) : option (LNode C G PC) :=
  match fuel with
  | O => Some nd
  | S fuel =>
      match ln_tasks nd, ln_recv nd with
      | _ :: _, _ => if idleb (ln_main nd) then
          (match do_lact nd (LTask 0) with Some nd' => Some nd' | None => do_lact nd (LCall 0) end) ≫= do_all fuel
          else do_lact nd LSeg ≫= do_all fuel
      | [], [] => if idleb (ln_main nd) then Some nd else do_lact nd LSeg ≫= do_all fuel
      | [], _ :: _ => do_lact nd (if idleb (ln_main nd) then LHandle else LSeg) ≫= do_all fuel
      end
  end.

Lemma do_lact_step nd a nd' : do_lact nd a = Some nd' -> loop_step nd nd'.
Proof.
  destruct a as [m| | |i|i]; simpl.
  - intros [= <-]. apply loop_deliver.
  - destruct (idleb (ln_main nd)) eqn:Em; [|done]. apply Hidle in Em. destruct (ln_recv nd) as [|m rest] eqn:Er; [done|].
    destruct (hdl m (ln_core nd)) as [[r c'] effs] eqn:Eh.
    destruct r; intros; simplify_eq; by apply (loop_handle nd m rest _ c' effs).
  - destruct (idleb (ln_main nd)) eqn:Em; [done|].
    assert (ln_main nd <> idle) by (intros E; apply Hidle in E; congruence).
    destruct (seg (ln_main nd) (ln_core nd)) as [[r c'] effs] eqn:Eh.
    destruct r; intros; simplify_eq; by apply (loop_coin nd _ c' effs).
  - destruct (ln_tasks nd !! i) as [g|] eqn:El; [|done]. simpl. destruct (call g) eqn:Ec; [done|].
    destruct (task g (ln_core nd)) as [[[[]| |] c'] effs] eqn:Er; [|done..]. intros [= <-].
    apply (loop_task nd _ g); [|done..]. by rewrite take_drop_middle.
  - destruct (ln_tasks nd !! i) as [g|] eqn:El; [|done]. simpl. destruct (call g) as [m|] eqn:Ec; [|done]. simpl.
    destruct (idleb (ln_main nd)) eqn:Em; [|done]. apply Hidle in Em.
    destruct (m (ln_core nd)) as [[r c'] effs] eqn:Eh.
    destruct r; intros; simplify_eq; apply (loop_call nd _ g _ m _ c' effs); try done; by rewrite take_drop_middle.
Qed.

Lemma do_lacts_steps nd acts nd' : do_lacts nd acts = Some nd' -> rtc loop_step nd nd'.
Proof.
  revert nd. induction acts as [|a acts IH]; intros nd; simpl; [by intros [= <-]|].
  destruct (do_lact nd a) as [nd1|] eqn:E; [|done]. simpl. intros H%IH. eapply rtc_l; [by eapply do_lact_step|done].
Qed.

Lemma do_all_steps fuel nd nd' : do_all fuel nd = Some nd' -> rtc loop_step nd nd'.
Proof.
  revert nd. induction fuel as [|fuel IH]; intros nd; [by intros [= <-]|].
  assert (forall o, (forall nd1, o = Some nd1 -> loop_step nd nd1) -> o ≫= do_all fuel = Some nd' -> rtc loop_step nd nd') as Hone.
  { intros [nd1|] H; [|done]. simpl. intros H'%IH. eapply rtc_l; [by apply H|done]. }
  cbn [do_all]. destruct (ln_tasks nd) as [|g l], (ln_recv nd) as [|m l']; destruct (idleb (ln_main nd));
    try (by intros [= <-]); apply Hone; try (intros nd1; apply do_lact_step).
  all: destruct (do_lact nd (LTask 0)) as [x|] eqn:E; [intros nd1 [= <-]|intros nd1]; eauto using do_lact_step.
Qed.
End loop.
