(* ===== verification/BigCoreProps.v ===== *)
(** * Guarantees of a big-block node *)
From Stdlib Require Import Sorted.
From S2P Require Import Prelude Sha256 Crypto Committee Pool Message Store Commitor Elector Transmitor Spb SpbExec Core CoreExec CoreInst CoreProps Sched BigSpb BigProps BigCore Loop.

Section props.
Context {D : Type} `{!DB D} `{P : Prims} `{C : BlockCodec}.

(** The pool and the committer move on their own. *)
Definition bigcore_env_change (c c' : BigCore D) : Prop :=
  (exists pool, c' = bc_set_txpool pool c) \/ (exists com, c' = bc_set_commitor com c).

Abbreviation bigcore_step := (loop_step Idle Big_handle Big_processCoin_seg big_run_task (fun _ => None) bigcore_env_change).

(** A node that has made its first proposal. *)
Inductive bigcore_init (nodeID : NodeID) (committee : Committee) (parameters : Parameters) (sigService : SigService)
    : LNode (BigCore D) BigGo MainPC -> Prop :=
| bigcore_init_run txpool store c effs :
    Faults parameters <= nodeID ->
    Big_Run_first (NewBigCore nodeID committee parameters txpool store sigService) = (Ok tt, c, effs) ->
    bigcore_init nodeID committee parameters sigService
      {| ln_core := c; ln_recv := selfs effs; ln_tasks := []; ln_main := Idle; ln_out := outputs effs |}.

Definition bigcore_reachable nodeID committee parameters sigService (nd : LNode (BigCore D) BigGo MainPC) : Prop :=
  exists nd0, bigcore_init nodeID committee parameters sigService nd0 /\ rtc bigcore_step nd0 nd.

Definition big_view_trace (c c' : BigCore D) (effs : list (Eff BigGo)) : Prop :=
  between (bc_view c) (omap h1_view effs) (bc_view c').

#[global] Instance big_view_trace_trace : Trace big_view_trace.
Proof. split; unfold big_view_trace; simpl; [lia|]. intros. rewrite omap_app. by eapply between_app. Qed.

Lemma big_view_same c c' : bc_view c' = bc_view c -> big_view_trace c c' [].
Proof. intros E. unfold big_view_trace. simpl. lia. Qed.
Lemma big_view_out c e : h1_view e = None -> big_view_trace c c [e].
Proof. intros E. unfold big_view_trace. csimpl. rewrite E. simpl. lia. Qed.

Ltac big_view :=
  repeat first [solve [eauto with go] | spec_step | by apply big_view_same | by apply big_view_out].

Lemma Big_getSpbInstance_view c v n : spec_at c (Big_getSpbInstance v n) big_view_trace.
Proof. unfold Big_getSpbInstance. big_view. Qed.
Lemma big_check_signature_view c ok m v a : spec_at c (big_check_signature ok m v a) big_view_trace.
Proof. unfold big_check_signature. big_view. Qed.
Hint Resolve Big_getSpbInstance_view big_check_signature_view : go.

Lemma Big_advanceView_view c v qc : spec_at c (Big_advanceView v qc) big_view_trace.
Proof.
  intros r c' es. unfold Big_advanceView, Big_generatorBlock, big_broadcast, generatorBlock. gom.
  destruct (decide (v <= bc_view c)) as [?|Hlt]; [intros [= <- <- <-]; unfold big_view_trace; simpl; lia|].
  destruct (GetBatch _) as [batch pool]. simpl. destruct (NewProposeMsg _ _) as [p|e|] eqn:Ep.
  - apply NewProposeMsg_fields in Ep as (Ev & Eh & _ & _). intros [= <- <- <-].
    unfold big_view_trace. csimpl. rewrite Ev, Eh. simpl. lia.
  - intros [= <- <- <-]. unfold big_view_trace. simpl. lia.
  - intros [= <- <- <-]. unfold big_view_trace. simpl. lia.
Qed.
Hint Resolve Big_advanceView_view : go.

Lemma Big_handle_view m c : spec_at c (Big_handle m) big_view_trace.
Proof.
  destruct m; simpl; unfold Big_handleProposeMsg, Big_handleVoteMsg, Big_handleSpeedVoteMsg, Big_handleElectMsg,
    Big_handleReportMsg, Big_processCoin, goBig, big_broadcast; big_view.
Qed.
Lemma Big_processCoin_seg_view pc c : spec_at c (Big_processCoin_seg pc) big_view_trace.
Proof. destruct pc; simpl; unfold big_commit_digest, big_broadcast; big_view. Qed.

Lemma big_case_outputs env t s s' effs : big_case env t s s' effs -> omap h1_view effs = [].
Proof.
  assert (forall (f : Eff BigTask -> option Z) l, (forall t, f (Spawn t) = None) -> omap f (Spawn <$> l) = []) as Hsp.
  { intros f l Hf. induction l as [|x l IH]; csimpl; [done|]. by rewrite Hf. }
  intros Hc. destruct Hc as [| | | |p s|p s| | | | | | |v batch m s _ _ Hm| | |s| | | |s effs He|]; try done.
  - rewrite !list_fmap_compose, !omap_app, !Hsp by done. done.
  - rewrite !list_fmap_compose, !omap_app, !Hsp by done. done.
  - apply NewProposeMsg_fields in Hm as (_ & Eh & _ & _). csimpl. by rewrite Eh.
  - by rewrite list_fmap_compose, Hsp.
  - rewrite He. by case_decide.
Qed.

Lemma big_run_task_view g c c' effs : big_run_task g c = (Ok tt, c', effs) -> big_view_trace c c' effs.
Proof.
  unfold big_run_task. destruct (big_instance c _ _) as [s|] eqn:Ei; [|done].
  destruct (big_step _ _ _) as [[r st] effs0] eqn:Es. intros [= -> <- <-].
  apply big_step_case, big_case_outputs in Es. unfold big_view_trace.
  assert (omap h1_view (Eff_map (GoBig (bg_view g) (bg_node g)) <$> effs0) = omap h1_view effs0) as ->.
  { clear. induction effs0 as [|e l IH]; csimpl; [done|]. rewrite IH. by destruct e. }
  rewrite Es. simpl. lia.
Qed.
End props.

(** C13. A big-block node, too, makes at most one first-height proposal per view,
    with increasing views that never exceed its own, whatever messages arrive
    and however its goroutines interleave. *)
Theorem big_one_proposal_per_view `{!DB D} `{P : Prims} `{C : BlockCodec} nodeID committee parameters sigService
    (nd : LNode (BigCore D) BigGo MainPC) :
  bigcore_reachable nodeID committee parameters sigService nd ->
  StronglySorted Z.lt (omap h1_view (ln_out nd)) /\
  Forall (fun v => 0 <= v <= bc_view (ln_core nd)) (omap h1_view (ln_out nd)).
Proof.
  intros (nd0 & [txpool store c effs _ Hrun] & Hr).
  apply (loop_trace _ _ _ _ _ _ big_view_trace) in Hr as (effs' & Eo & Hb); eauto using Big_handle_view,
    Big_processCoin_seg_view, big_run_task_view.
  2: done.
  2: { by intros ? ? [[? ->]|[? ->]]; apply big_view_same. }
  assert (between (-1) (omap h1_view (ln_out nd)) (bc_view (ln_core nd))) as H.
  { rewrite Eo, omap_app, !omap_outputs by done. eapply between_app; [|exact Hb]. clear Hb Eo. simpl.
    revert Hrun. unfold Big_Run_first, Big_generatorBlock, big_broadcast, generatorBlock. gom.
    destruct (GetBatch _) as [batch pool]. destruct (NewProposeMsg _ _) as [p|e|] eqn:Ep; [|done..].
    apply NewProposeMsg_fields in Ep as (Ev & Eh & _ & _). intros [= <- <-]. simpl in *. csimpl. rewrite Eh, Ev.
    simpl. lia. }
  apply between_sorted in H as [H1 H2]. split; [done|]. eapply Forall_impl; [exact H2|]. simpl. lia.
Qed.

(** C40. In the big-block variant a speed vote is handed to the instance of its
    author, and that instance drops it unless the author is the proposer the
    vote names: other nodes' speed votes never count. *)
Theorem speed_votes_misrouted `{!DB D} `{P : Prims} `{C : BlockCodec} (c : BigCore D) sv r c' effs g :
  Big_handle (MSpeedVote sv) c = (r, c', effs) -> g ∈ spawned effs ->
  bg_node g = sv_Author sv /\ bg_view g = sv_View sv /\
  forall env s pool, bs_Proposer s = bg_node g -> sv_Author sv <> sv_Proposer sv ->
    big_step env (bg_task g) {| bst_spb := s; bst_pool := pool |}
    = (Ok tt, {| bst_spb := s; bst_pool := pool |}, []).
Proof.
  intros Hh Hg. assert (g = GoBig (sv_View sv) (sv_Author sv) (BSpeedVote sv)) as ->.
  { revert Hh Hg. simpl. unfold Big_handleSpeedVoteMsg, big_check_signature, goBig, Big_getSpbInstance, big_broadcast. gom.
    destruct (SpeedVoteMsg_Verify _ _) as [[]|e|]; [|intros [= <- <- <-]; set_solver..].
    destruct (decide _); [destruct (NewElectMsg _ _ _)|]; repeat case_match; intros; simplify_eq; set_solver. }
  simpl. split_and!; [done..|]. intros env s pool Es Hne. unfold Big_processSpeedVoteMsg. gom.
  rewrite decide_True by (simpl; left; congruence). done.
Qed.

(** ** A concrete node *)

Module BigCoreDemo.
Definition core0 : BigCore CoreDemo.MemDB :=
  NewBigCore 1 CoreDemo.committee DefaultParameters SpbDemo.pool mem_store_empty (CoreDemo.service 1).

Definition first := Big_Run_first core0.

Definition node0 : LNode (BigCore CoreDemo.MemDB) BigGo MainPC := {|
  ln_core := st_of first; ln_recv := selfs (eff_of first); ln_tasks := []; ln_main := Idle;
  ln_out := outputs (eff_of first) |}.

(** The node handles its own proposal and a level-2 report of node 3, which
    moves it to view 1. *)
Definition run (nd : LNode (BigCore CoreDemo.MemDB) BigGo MainPC) : option (LNode (BigCore CoreDemo.MemDB) BigGo MainPC) :=
  do_lacts Idle Big_handle Big_processCoin_seg big_run_task (fun _ => None) is_idle nd
    [LDeliver (MReport (CoreDemo.report LEVEL_2)); LHandle; LHandle].
Definition advanced : LNode (BigCore CoreDemo.MemDB) BigGo MainPC := default node0 (run node0).

(** A speed vote of node 3 for proposer 2. *)
Definition speed : SpeedVoteMsg :=
  CoreDemo.ok (SpbDemo.speed 3) (NewSpeedVoteMsg 3 (CoreDemo.qc_for HEIGHT_2 []) (CoreDemo.service 3)).
Definition handled := Big_handle (MSpeedVote speed) core0.
End BigCoreDemo.

Lemma first_ok : BigCoreDemo.first = (Ok tt, st_of BigCoreDemo.first, eff_of BigCoreDemo.first).
Proof.
  assert (res_of BigCoreDemo.first = Ok tt) as <- by (vm_compute; reflexivity). apply surjective_pairing3.
Qed.

Lemma is_idle_spec pc : is_idle pc = true <-> pc = Idle.
Proof. by destruct pc. Qed.

Lemma big_advanced_run : BigCoreDemo.run BigCoreDemo.node0 = Some BigCoreDemo.advanced.
Proof. apply (default_Some BigCoreDemo.node0). vm_compute. reflexivity. Qed.

Lemma big_advanced_reachable :
  bigcore_reachable 1 CoreDemo.committee DefaultParameters (CoreDemo.service 1) BigCoreDemo.advanced.
Proof.
  exists BigCoreDemo.node0. split.
  - apply (bigcore_init_run 1 CoreDemo.committee DefaultParameters (CoreDemo.service 1) SpbDemo.pool mem_store_empty);
      [vm_decide|exact first_ok].
  - exact (do_lacts_steps _ _ _ _ _ bigcore_env_change _ is_idle_spec _ _ _ big_advanced_run).
Qed.

Lemma big_advanced_views : omap h1_view (ln_out BigCoreDemo.advanced) = [0; 1].
Proof. vm_compute. reflexivity. Qed.

(** The node proposed in views 0 and 1. *)
Lemma big_one_proposal_per_view_witness :
  omap h1_view (ln_out BigCoreDemo.advanced) = [0; 1] /\ StronglySorted Z.lt (omap h1_view (ln_out BigCoreDemo.advanced)).
Proof.
  split; [exact big_advanced_views|].
  apply (big_one_proposal_per_view 1 CoreDemo.committee DefaultParameters (CoreDemo.service 1) BigCoreDemo.advanced
    big_advanced_reachable).
Defined.

Lemma handled_spawns : spawned (eff_of BigCoreDemo.handled) = [GoBig 0 3 (BSpeedVote BigCoreDemo.speed)].
Proof. vm_compute. reflexivity. Qed.

Lemma speed_votes_misrouted_witness :
  big_step SpbDemo.env (BSpeedVote BigCoreDemo.speed) {| bst_spb := NewBigSPB 3 0; bst_pool := SpbDemo.pool |}
  = (Ok tt, {| bst_spb := NewBigSPB 3 0; bst_pool := SpbDemo.pool |}, []).
Proof.
  refine (proj2 (proj2 (speed_votes_misrouted BigCoreDemo.core0 BigCoreDemo.speed _ _ _
    (GoBig 0 3 (BSpeedVote BigCoreDemo.speed)) (surjective_pairing3 BigCoreDemo.handled) _)) SpbDemo.env (NewBigSPB 3 0) SpbDemo.pool eq_refl _).
  - rewrite handled_spawns. set_solver.
  - vm_decide.
Defined.
