(* ===== verification/DagSpb.v ===== *)
(** * Strong provable broadcast, DAG variant

    Models [src/core/dag_bitspb.go].  It differs from the big-block variant in
    two places: a height-2 proposal does not wait for the height-1 block, and
    the height-1 certificate is signalled to the main loop ([callBack <- s],
    the item [DCallBack]), which makes the height-2 proposal from the
    certificates of all proposers. *)
From S2P Require Import Prelude Sha256 Crypto Committee Pool Message Transmitor Spb.

Record DAGBigSPB := {
  ds_Proposer : NodeID;
  ds_View : Z;
  ds_preQc : option BlockQC;
  ds_blockHash : Digest * Digest;
  ds_blockQcs : option BlockQC * option BlockQC;
  ds_unHandlePropose : list ProposeMsg;
  ds_unHandleVote : list VoteMsg * list VoteMsg;
  ds_unHandleSpeedVote : list SpeedVoteMsg;
  ds_voteNums : Z * Z;
  ds_speedVoteNums : Z;
  ds_isSpeedCert : bool;
}.

Definition NewDAGBigSPB (Proposer : NodeID) (View : Z) : DAGBigSPB := {|
  ds_Proposer := Proposer; ds_View := View; ds_preQc := None; ds_blockHash := (Digest_zero, Digest_zero);
  ds_blockQcs := (None, None); ds_unHandlePropose := []; ds_unHandleVote := ([], []); ds_unHandleSpeedVote := [];
  ds_voteNums := (0, 0); ds_speedVoteNums := 0; ds_isSpeedCert := false;
|}.

Inductive DagTask : Type :=
| DPropose (p : ProposeMsg)
| DProposeFlush (p : ProposeMsg)
| DProposeVote (p : ProposeMsg)
| DVote (v : VoteMsg)
| DVoteCount (v : VoteMsg)
| DVoteQC (v : VoteMsg)
| DVoteNext (v : VoteMsg)
| DVoteFlush
| DSpeedVote (sv : SpeedVoteMsg)
| DSpeedCount
| DSpeedStore
| DCallBack.

Section dag_spb.
Context `{P : Prims} (env : SpbEnv).

(** An instance and the pool of its node. *)
Record DagSt := { dst_spb : DAGBigSPB; dst_pool : Pool }.

Definition DagM := GoM DagSt (Eff DagTask).

Definition on_dag (f : DAGBigSPB -> DAGBigSPB) : DagM unit :=
  modify (fun st => {| dst_spb := f (dst_spb st); dst_pool := dst_pool st |}).

(** *** processProposeMsg *)

Definition dag_set_height1 (B : Block) (s : DAGBigSPB) : DAGBigSPB := {|
  ds_Proposer := ds_Proposer s; ds_View := ds_View s; ds_preQc := b_Qc B;
  ds_blockHash := set2 (ds_blockHash s) HEIGHT_1 (Block_Hash B); ds_blockQcs := ds_blockQcs s; ds_unHandlePropose := ds_unHandlePropose s;
  ds_unHandleVote := ds_unHandleVote s; ds_unHandleSpeedVote := ds_unHandleSpeedVote s; ds_voteNums := ds_voteNums s;
  ds_speedVoteNums := ds_speedVoteNums s; ds_isSpeedCert := ds_isSpeedCert s |}.

Definition dag_set_height2 (B : Block) (s : DAGBigSPB) : DAGBigSPB := {|
  ds_Proposer := ds_Proposer s; ds_View := ds_View s; ds_preQc := ds_preQc s;
  ds_blockHash := set2 (ds_blockHash s) HEIGHT_2 (Block_Hash B); ds_blockQcs := ds_blockQcs s; ds_unHandlePropose := ds_unHandlePropose s;
  ds_unHandleVote := ds_unHandleVote s; ds_unHandleSpeedVote := ds_unHandleSpeedVote s; ds_voteNums := ds_voteNums s;
  ds_speedVoteNums := ds_speedVoteNums s; ds_isSpeedCert := ds_isSpeedCert s |}.

(** Under [hMutex]. *)
Definition DAG_processProposeMsg (p : ProposeMsg) : DagM unit :=
  match p_B p with
  | None => panic
  | Some B =>
      if decide (p_Height p = HEIGHT_1) then
        _ ← on_dag (dag_set_height1 B);
        emit (Spawn (DProposeFlush p))
      else if decide (p_Height p = HEIGHT_2) then
        _ ← on_dag (dag_set_height2 B);
        emit (Spawn (DProposeFlush p))
      else emit (Spawn (DProposeVote p))
  end.

(** Under [uMutex]: what waited is started again, and stays kept. *)
Definition DAG_processProposeMsg_flush (p : ProposeMsg) : DagM unit :=
  st ← get;
  _ ← (if decide (p_Height p = HEIGHT_1) then
         emit_all ((Spawn ∘ DPropose <$> ds_unHandlePropose (dst_spb st))
                   ++ (Spawn ∘ DVote <$> (ds_unHandleVote (dst_spb st)).1))
       else emit_all (Spawn ∘ DVote <$> (ds_unHandleVote (dst_spb st)).2));
  emit (Spawn (DProposeVote p)).

(** The vote goes to everybody. *)
Definition DAG_processProposeMsg_vote (p : ProposeMsg) : DagM unit :=
  match p_B p with
  | None => panic
  | Some B =>
      vote ← lift (NewVoteMsg (env_nodeID env) B (env_sigService env));
      _ ← emit (Send (env_nodeID env) NONE (MVote vote));
      emit (Self (MVote vote))
  end.

(** *** processVoteMsg *)

Definition dag_keep_vote (v : VoteMsg) (l : list VoteMsg) (s : DAGBigSPB) : DAGBigSPB := {|
  ds_Proposer := ds_Proposer s; ds_View := ds_View s; ds_preQc := ds_preQc s;
  ds_blockHash := ds_blockHash s; ds_blockQcs := ds_blockQcs s; ds_unHandlePropose := ds_unHandlePropose s;
  ds_unHandleVote := set2 (ds_unHandleVote s) (v_Height v) (l ++ [v]); ds_unHandleSpeedVote := ds_unHandleSpeedVote s; ds_voteNums := ds_voteNums s;
  ds_speedVoteNums := ds_speedVoteNums s; ds_isSpeedCert := ds_isSpeedCert s |}.

(** Under [hMutex]: a vote for another block than the recorded one waits. *)
Definition DAG_processVoteMsg (v : VoteMsg) : DagM unit :=
  st ← get;
  match get2 (ds_blockHash (dst_spb st)) (v_Height v), get2 (ds_unHandleVote (dst_spb st)) (v_Height v) with
  | Some hash, Some l =>
      if decide (hash <> v_BlockHash v) then on_dag (dag_keep_vote v l)
      else emit (Spawn (DVoteCount v))
  | _, _ => panic
  end.

Definition dag_set_voteNums (n : Z * Z) (s : DAGBigSPB) : DAGBigSPB := {|
  ds_Proposer := ds_Proposer s; ds_View := ds_View s; ds_preQc := ds_preQc s;
  ds_blockHash := ds_blockHash s; ds_blockQcs := ds_blockQcs s; ds_unHandlePropose := ds_unHandlePropose s;
  ds_unHandleVote := ds_unHandleVote s; ds_unHandleSpeedVote := ds_unHandleSpeedVote s; ds_voteNums := n;
  ds_speedVoteNums := ds_speedVoteNums s; ds_isSpeedCert := ds_isSpeedCert s |}.

Definition DAG_processVoteMsg_count (v : VoteMsg) : DagM unit :=
  st ← get;
  match get2 (ds_voteNums (dst_spb st)) (v_Height v) with
  | None => panic
  | Some n =>
      let nums := wrap32 (n + 1) in
      _ ← on_dag (dag_set_voteNums (set2 (ds_voteNums (dst_spb st)) (v_Height v) nums));
      if decide (nums = wrap32 (HightThreshold (env_committee env))) then emit (Spawn (DVoteQC v))
      else mret tt
  end.

Definition dag_vote_qc (s : DAGBigSPB) (v : VoteMsg) : BlockQC := {|
  qc_View := ds_View s; qc_Height := v_Height v; qc_Proposer := v_Proposer v;
  qc_ParentBlockHash := v_BlockHash v; qc_Shares := ∅ |}.

Definition dag_set_qc (h : Z) (qc : BlockQC) (s : DAGBigSPB) : DAGBigSPB := {|
  ds_Proposer := ds_Proposer s; ds_View := ds_View s; ds_preQc := ds_preQc s;
  ds_blockHash := ds_blockHash s; ds_blockQcs := set2 (ds_blockQcs s) h (Some qc); ds_unHandlePropose := ds_unHandlePropose s;
  ds_unHandleVote := ds_unHandleVote s; ds_unHandleSpeedVote := ds_unHandleSpeedVote s; ds_voteNums := ds_voteNums s;
  ds_speedVoteNums := ds_speedVoteNums s; ds_isSpeedCert := ds_isSpeedCert s |}.

(** Under [hMutex]. *)
Definition DAG_processVoteMsg_qc (v : VoteMsg) : DagM unit :=
  st ← get;
  _ ← on_dag (dag_set_qc (v_Height v) (dag_vote_qc (dst_spb st) v));
  emit (Spawn (DVoteNext v)).

(** The main loop is told of the first certificate; everybody votes to be
    speedy on the second. *)
Definition DAG_processVoteMsg_next (v : VoteMsg) : DagM unit :=
  st ← get;
  let qc := dag_vote_qc (dst_spb st) v in
  if decide (v_Height v = HEIGHT_1) then emit (Spawn DCallBack)
  else if decide (v_Height v = HEIGHT_2) then
    sv ← lift (NewSpeedVoteMsg (env_nodeID env) qc (env_sigService env));
    _ ← emit (Send (env_nodeID env) NONE (MSpeedVote sv));
    _ ← emit (Self (MSpeedVote sv));
    emit (Spawn DVoteFlush)
  else mret tt.

(** Under [uMutex]. *)
Definition DAG_processVoteMsg_flush : DagM unit :=
  st ← get;
  emit_all (Spawn ∘ DSpeedVote <$> ds_unHandleSpeedVote (dst_spb st)).

(** *** processSpeedVoteMsg *)

Definition dag_keep_speed (sv : SpeedVoteMsg) (s : DAGBigSPB) : DAGBigSPB := {|
  ds_Proposer := ds_Proposer s; ds_View := ds_View s; ds_preQc := ds_preQc s;
  ds_blockHash := ds_blockHash s; ds_blockQcs := ds_blockQcs s; ds_unHandlePropose := ds_unHandlePropose s;
  ds_unHandleVote := ds_unHandleVote s; ds_unHandleSpeedVote := ds_unHandleSpeedVote s ++ [sv]; ds_voteNums := ds_voteNums s;
  ds_speedVoteNums := ds_speedVoteNums s; ds_isSpeedCert := ds_isSpeedCert s |}.

Definition dag_set_speed (n : Z) (cert : bool) (s : DAGBigSPB) : DAGBigSPB := {|
  ds_Proposer := ds_Proposer s; ds_View := ds_View s; ds_preQc := ds_preQc s;
  ds_blockHash := ds_blockHash s; ds_blockQcs := ds_blockQcs s; ds_unHandlePropose := ds_unHandlePropose s;
  ds_unHandleVote := ds_unHandleVote s; ds_unHandleSpeedVote := ds_unHandleSpeedVote s; ds_voteNums := ds_voteNums s;
  ds_speedVoteNums := n; ds_isSpeedCert := cert |}.

Definition DAG_processSpeedVoteMsg (sv : SpeedVoteMsg) : DagM unit :=
  st ← get;
  if decide (sv_Proposer sv <> ds_Proposer (dst_spb st) \/ sv_View sv <> ds_View (dst_spb st)) then mret tt
  else if decide ((ds_blockQcs (dst_spb st)).2 = None) then on_dag (dag_keep_speed sv)
  else emit (Spawn DSpeedCount).

Definition DAG_processSpeedVoteMsg_count : DagM unit :=
  st ← get;
  let nums := wrap32 (ds_speedVoteNums (dst_spb st) + 1) in
  _ ← on_dag (dag_set_speed nums (ds_isSpeedCert (dst_spb st)));
  if decide (nums = wrap32 (HightThreshold (env_committee env))) then emit (Spawn DSpeedStore)
  else mret tt.

Definition DAG_processSpeedVoteMsg_store : DagM unit :=
  on_dag (fun s => dag_set_speed (ds_speedVoteNums s) true s).

(** *** What the main loop reads *)

Definition DAG_SpeedCert (s : DAGBigSPB) : bool := ds_isSpeedCert s.

Definition DAG_DecCert (s : DAGBigSPB) : bool :=
  bool_decide ((ds_blockQcs s).1 <> None /\ (ds_blockQcs s).2 <> None).

Definition DAG_BlockHash (s : DAGBigSPB) (height : Z) : Digest :=
  default Digest_zero (get2 (ds_blockHash s) height).

Definition DAG_GetBlockQC (s : DAGBigSPB) (height : Z) : option BlockQC :=
  default None (get2 (ds_blockQcs s) height).

Definition DAG_QCLEvel (s : DAGBigSPB) : Z * option BlockQC :=
  match ds_blockQcs s with
  | (Some _, Some qc2) => (LEVEL_2, Some qc2)
  | (Some qc1, None) => (LEVEL_1, Some qc1)
  | (None, _) => (LEVEL_0, ds_preQc s)
  end.

(** [DCallBack] is not a piece of a goroutine: the main loop receives it. *)
Definition dag_step (t : DagTask) : DagM unit :=
  match t with
  | DPropose p => DAG_processProposeMsg p
  | DProposeFlush p => DAG_processProposeMsg_flush p
  | DProposeVote p => DAG_processProposeMsg_vote p
  | DVote v => DAG_processVoteMsg v
  | DVoteCount v => DAG_processVoteMsg_count v
  | DVoteQC v => DAG_processVoteMsg_qc v
  | DVoteNext v => DAG_processVoteMsg_next v
  | DVoteFlush => DAG_processVoteMsg_flush
  | DSpeedVote sv => DAG_processSpeedVoteMsg sv
  | DSpeedCount => DAG_processSpeedVoteMsg_count
  | DSpeedStore => DAG_processSpeedVoteMsg_store
  | DCallBack => mret tt
  end.
End dag_spb.
