(* ===== verification/DagCore.v ===== *)
(** * The DAG protocol: the main loop of a node

    Models [src/core/dag_bigcore.go].  Blocks reference the certificates of the
    round before; the main loop also receives the instances whose first block
    is certified ([callBackSpb], the items [DCallBack]).  Every read of an
    instance is a piece of its own: [DRef] walks the instances of a view and
    collects their certificates. *)
From S2P Require Import Prelude Sha256 Crypto Committee Pool Message Store DagCommitor Elector Transmitor Spb DagSpb Core.

Record DagGo := GoDag { dg_gview : Z; dg_gnode : NodeID; dg_gtask : DagTask }.

(** Where the main loop stands.  [DRef view height qview qheight rest acc]: the
    block of ([view], [height]) is being prepared, the certificates of
    [qheight] in [qview] of the nodes [rest] are still to be read. *)
Inductive DagPC :=
| DIdle
| DSpeed (leader : NodeID) (view : Z)
| DSpeedCommit (leader : NodeID) (view : Z)
| DWeakCommit (leader : NodeID) (view : Z)
| DRef (view height qview qheight : Z) (rest : list NodeID) (acc : list BlockQC).

Section dagcore.
Context {D : Type} `{!DB D} `{P : Prims} `{C : BlockCodec}.

Record DAGBigCore := {
  dg_nodeID : NodeID;
  dg_view : Z;
  dg_height : Z;
  dg_committee : Committee;
  dg_parameters : Parameters;
  dg_txpool : Pool;
  dg_store : Store D;
  dg_sigService : SigService;
  dg_eletor : Elector;
  dg_commitor : DAGCommitor;
  dg_weakVotes : gmap Z (gmap NodeID Z);
  dg_spbInstances : gmap Z (gmap NodeID DAGBigSPB);
  dg_speedVoteNums : gmap Z (gmap NodeID Z);
  dg_reportNums : gmap Z (Z * Z * Z);
}.

Definition NewDAGBigCore (nodeID : NodeID) (committee : Committee) (parameters : Parameters) (txpool : Pool)
    (store : Store D) (sigService : SigService) : DAGBigCore := {|
  dg_nodeID := nodeID; dg_view := 0; dg_height := HEIGHT_1; dg_committee := committee; dg_parameters := parameters;
  dg_txpool := txpool; dg_store := store; dg_sigService := sigService;
  dg_eletor := NewElector sigService committee; dg_commitor := NewDAGCommitor; dg_weakVotes := ∅;
  dg_spbInstances := ∅; dg_speedVoteNums := ∅; dg_reportNums := ∅;
|}.

(** Assignments to one field. *)
Definition dg_set_view (x : Z) (c : DAGBigCore) : DAGBigCore := {|
  dg_nodeID := dg_nodeID c; dg_view := x; dg_height := dg_height c; dg_committee := dg_committee c;
  dg_parameters := dg_parameters c; dg_txpool := dg_txpool c; dg_store := dg_store c;
  dg_sigService := dg_sigService c; dg_eletor := dg_eletor c; dg_commitor := dg_commitor c;
  dg_weakVotes := dg_weakVotes c; dg_spbInstances := dg_spbInstances c; dg_speedVoteNums := dg_speedVoteNums c;
  dg_reportNums := dg_reportNums c |}.
Definition dg_set_height (x : Z) (c : DAGBigCore) : DAGBigCore := {|
  dg_nodeID := dg_nodeID c; dg_view := dg_view c; dg_height := x; dg_committee := dg_committee c;
  dg_parameters := dg_parameters c; dg_txpool := dg_txpool c; dg_store := dg_store c;
  dg_sigService := dg_sigService c; dg_eletor := dg_eletor c; dg_commitor := dg_commitor c;
  dg_weakVotes := dg_weakVotes c; dg_spbInstances := dg_spbInstances c; dg_speedVoteNums := dg_speedVoteNums c;
  dg_reportNums := dg_reportNums c |}.
Definition dg_set_txpool (x : Pool) (c : DAGBigCore) : DAGBigCore := {|
  dg_nodeID := dg_nodeID c; dg_view := dg_view c; dg_height := dg_height c; dg_committee := dg_committee c;
  dg_parameters := dg_parameters c; dg_txpool := x; dg_store := dg_store c; dg_sigService := dg_sigService c;
  dg_eletor := dg_eletor c; dg_commitor := dg_commitor c; dg_weakVotes := dg_weakVotes c;
  dg_spbInstances := dg_spbInstances c; dg_speedVoteNums := dg_speedVoteNums c; dg_reportNums := dg_reportNums c |}.
Definition dg_set_store (x : Store D) (c : DAGBigCore) : DAGBigCore := {|
  dg_nodeID := dg_nodeID c; dg_view := dg_view c; dg_height := dg_height c; dg_committee := dg_committee c;
  dg_parameters := dg_parameters c; dg_txpool := dg_txpool c; dg_store := x; dg_sigService := dg_sigService c;
  dg_eletor := dg_eletor c; dg_commitor := dg_commitor c; dg_weakVotes := dg_weakVotes c;
  dg_spbInstances := dg_spbInstances c; dg_speedVoteNums := dg_speedVoteNums c; dg_reportNums := dg_reportNums c |}.
Definition dg_set_eletor (x : Elector) (c : DAGBigCore) : DAGBigCore := {|
  dg_nodeID := dg_nodeID c; dg_view := dg_view c; dg_height := dg_height c; dg_committee := dg_committee c;
  dg_parameters := dg_parameters c; dg_txpool := dg_txpool c; dg_store := dg_store c;
  dg_sigService := dg_sigService c; dg_eletor := x; dg_commitor := dg_commitor c;
  dg_weakVotes := dg_weakVotes c; dg_spbInstances := dg_spbInstances c; dg_speedVoteNums := dg_speedVoteNums c;
  dg_reportNums := dg_reportNums c |}.
Definition dg_set_commitor (x : DAGCommitor) (c : DAGBigCore) : DAGBigCore := {|
  dg_nodeID := dg_nodeID c; dg_view := dg_view c; dg_height := dg_height c; dg_committee := dg_committee c;
  dg_parameters := dg_parameters c; dg_txpool := dg_txpool c; dg_store := dg_store c;
  dg_sigService := dg_sigService c; dg_eletor := dg_eletor c; dg_commitor := x; dg_weakVotes := dg_weakVotes c;
  dg_spbInstances := dg_spbInstances c; dg_speedVoteNums := dg_speedVoteNums c; dg_reportNums := dg_reportNums c |}.
Definition dg_set_weakVotes (x : gmap Z (gmap NodeID Z)) (c : DAGBigCore) : DAGBigCore := {|
  dg_nodeID := dg_nodeID c; dg_view := dg_view c; dg_height := dg_height c; dg_committee := dg_committee c;
  dg_parameters := dg_parameters c; dg_txpool := dg_txpool c; dg_store := dg_store c;
  dg_sigService := dg_sigService c; dg_eletor := dg_eletor c; dg_commitor := dg_commitor c; dg_weakVotes := x;
  dg_spbInstances := dg_spbInstances c; dg_speedVoteNums := dg_speedVoteNums c; dg_reportNums := dg_reportNums c |}.
Definition dg_set_spbInstances (x : gmap Z (gmap NodeID DAGBigSPB)) (c : DAGBigCore) : DAGBigCore := {|
  dg_nodeID := dg_nodeID c; dg_view := dg_view c; dg_height := dg_height c; dg_committee := dg_committee c;
  dg_parameters := dg_parameters c; dg_txpool := dg_txpool c; dg_store := dg_store c;
  dg_sigService := dg_sigService c; dg_eletor := dg_eletor c; dg_commitor := dg_commitor c;
  dg_weakVotes := dg_weakVotes c; dg_spbInstances := x; dg_speedVoteNums := dg_speedVoteNums c;
  dg_reportNums := dg_reportNums c |}.
Definition dg_set_speedVoteNums (x : gmap Z (gmap NodeID Z)) (c : DAGBigCore) : DAGBigCore := {|
  dg_nodeID := dg_nodeID c; dg_view := dg_view c; dg_height := dg_height c; dg_committee := dg_committee c;
  dg_parameters := dg_parameters c; dg_txpool := dg_txpool c; dg_store := dg_store c;
  dg_sigService := dg_sigService c; dg_eletor := dg_eletor c; dg_commitor := dg_commitor c;
  dg_weakVotes := dg_weakVotes c; dg_spbInstances := dg_spbInstances c; dg_speedVoteNums := x;
  dg_reportNums := dg_reportNums c |}.
Definition dg_set_reportNums (x : gmap Z (Z * Z * Z)) (c : DAGBigCore) : DAGBigCore := {|
  dg_nodeID := dg_nodeID c; dg_view := dg_view c; dg_height := dg_height c; dg_committee := dg_committee c;
  dg_parameters := dg_parameters c; dg_txpool := dg_txpool c; dg_store := dg_store c;
  dg_sigService := dg_sigService c; dg_eletor := dg_eletor c; dg_commitor := dg_commitor c;
  dg_weakVotes := dg_weakVotes c; dg_spbInstances := dg_spbInstances c; dg_speedVoteNums := dg_speedVoteNums c;
  dg_reportNums := x |}.

Definition DagCoreM := GoM DAGBigCore (Eff DagGo).

(** *** Helpers *)

Definition dag_instance (c : DAGBigCore) (view : Z) (node : NodeID) : option DAGBigSPB :=
  dg_spbInstances c !! view ≫= fun m => m !! node.

Definition dag_set_instance (view : Z) (node : NodeID) (s : DAGBigSPB) (c : DAGBigCore) : DAGBigCore :=
  dg_set_spbInstances (<[view := <[node := s]> (default ∅ (dg_spbInstances c !! view))]> (dg_spbInstances c)) c.

Definition DAG_getSpbInstance (view : Z) (node : NodeID) : DagCoreM DAGBigSPB :=
  c ← get;
  match dag_instance c view node with
  | Some s => mret s
  | None => _ ← modify (dag_set_instance view node (NewDAGBigSPB node view)); mret (NewDAGBigSPB node view)
  end.

Definition goDag (view : Z) (node : NodeID) (t : DagTask) : DagCoreM unit :=
  _ ← DAG_getSpbInstance view node;
  emit (Spawn (GoDag view node t)).

Definition dag_broadcast (m : ConsensusMessage) : DagCoreM unit :=
  c ← get;
  _ ← emit (Send (dg_nodeID c) NONE m);
  emit (Self m).

Definition dag_check_signature (ok : Res bool) (m : ConsensusMessage) (view author : Z) : DagCoreM unit :=
  b ← lift ok;
  if (b : bool) then mret tt else throw (ErrSignature (MsgType m) view author).

(** The entry of a view, made when it is missing. *)
Definition weak_votes (view : Z) : DagCoreM (gmap NodeID Z) :=
  c ← get;
  match dg_weakVotes c !! view with
  | Some votes => mret votes
  | None => _ ← modify (fun c => dg_set_weakVotes (<[view := ∅]> (dg_weakVotes c)) c); mret ∅
  end.

Definition addWeakVotes (view : Z) (node : NodeID) : DagCoreM unit :=
  votes ← weak_votes view;
  let votes := <[node := wrap64 (default 0 (votes !! node) + 1)]> votes in
  modify (fun c => dg_set_weakVotes (<[view := votes]> (dg_weakVotes c)) c).

Definition getWeakVotes (view : Z) (node : NodeID) : DagCoreM Z :=
  votes ← weak_votes view;
  mret (default 0 (votes !! node)).

Fixpoint addWeakVotes_all (qcs : list BlockQC) : DagCoreM unit :=
  match qcs with
  | [] => mret tt
  | qc :: qcs => _ ← addWeakVotes (qc_View qc) (qc_Proposer qc); addWeakVotes_all qcs
  end.

Definition DAG_generatorBlock (view height : Z) (references : list BlockQC) : DagCoreM Block :=
  c ← get;
  let '(batch, txpool) := GetBatch (dg_txpool c) in
  _ ← modify (dg_set_txpool txpool);
  mret {| b_Author := dg_nodeID c; b_View := view; b_Height := height; b_Batch := batch; b_Qc := None;
          b_References := references |}.

(** *** advanceView *)

(** The guard: the next view at height 1, or the next height of this view. *)
Definition next_round (c : DAGBigCore) (view height : Z) : Prop :=
  (view = wrap64 (dg_view c + 1) /\ height = HEIGHT_1) \/ (view = dg_view c /\ height = (dg_height c + 1) mod 256).

#[global] Instance next_round_dec c view height : Decision (next_round c view height).
Proof. unfold next_round. apply _. Defined.

(** [getReference] runs over the node numbers below the committee's size. *)
Definition all_nodes (c : DAGBigCore) : list NodeID := seqZ 0 (Committee_Size (dg_committee c)).

(** [advanceView] up to the first read of an instance. *)
Definition DAG_advanceView (view height : Z) : DagCoreM DagPC :=
  c ← get;
  if decide (next_round c view height) then
    if decide (height = HEIGHT_1) then mret (DRef view height (wrap64 (view - 1)) HEIGHT_2 (all_nodes c) [])
    else if decide (height = HEIGHT_2) then mret (DRef view height view HEIGHT_1 (all_nodes c) [])
    else mret DIdle
  else mret DIdle.

(** The certificates are there: the block is made and proposed. *)
Definition DAG_propose (view height : Z) (references : list BlockQC) : DagCoreM unit :=
  c ← get;
  if decide (HightThreshold (dg_committee c) <= Z.of_nat (length references)) then
    block ← DAG_generatorBlock view height references;
    _ ← modify (dg_set_view view);
    _ ← modify (dg_set_height height);
    propose ← lift (NewProposeMsg block (dg_sigService c));
    dag_broadcast (MPropose propose)
  else mret tt.

(** *** Handlers *)

Definition DAG_handleProposeMsg (p : ProposeMsg) : DagCoreM unit :=
  c ← get;
  _ ← dag_check_signature (ProposeMsg_Verify p (dg_committee c)) (MPropose p) (p_View p) (p_Author p);
  _ ← match p_DocG p with
      | None => mret tt
      | Some d => ok ← lift (DocGQCMsg_Verify d (dg_committee c)); if (ok : bool) then mret tt else throw ErrDocG
      end;
  match p_B p with
  | None => panic
  | Some B =>
      st ← lift (storeBlock (dg_store c) B);
      _ ← modify (dg_set_store st);
      _ ← (if decide (p_Height p = HEIGHT_2) then addWeakVotes_all (b_References B) else mret tt);
      goDag (p_View p) (p_Author p) (DPropose p)
  end.

Definition DAG_handleVoteMsg (v : VoteMsg) : DagCoreM unit :=
  c ← get;
  _ ← dag_check_signature (VoteMsg_Verify v (dg_committee c)) (MVote v) (v_View v) (v_Author v);
  goDag (v_View v) (v_Proposer v) (DVote v).

Definition DAG_handleSpeedVoteMsg (sv : SpeedVoteMsg) : DagCoreM unit :=
  c ← get;
  _ ← dag_check_signature (SpeedVoteMsg_Verify sv (dg_committee c)) (MSpeedVote sv) (sv_View sv) (sv_Author sv);
  let nodes := default ∅ (dg_speedVoteNums c !! sv_View sv) in
  let nodes := <[sv_Author sv := wrap64 (default 0 (nodes !! sv_Author sv) + 1)]> nodes in
  _ ← modify (fun c => dg_set_speedVoteNums (<[sv_View sv := nodes]> (dg_speedVoteNums c)) c);
  _ ← (if decide (default 0 (nodes !! dg_nodeID c) = HightThreshold (dg_committee c)) then
         match NewElectMsg (dg_nodeID c) (sv_View sv) (dg_sigService c) with
         | Ok elect => dag_broadcast (MElect elect)
         | _ => panic
         end
       else mret tt);
  goDag (sv_View sv) (sv_Proposer sv) (DSpeedVote sv).

(** [processCoin] up to its first read of the instance. *)
Definition DAG_processCoin (leader : NodeID) (view : Z) : DagCoreM DagPC :=
  _ ← DAG_getSpbInstance view leader; mret (DSpeed leader view).

Definition DAG_handleElectMsg (e : ElectMsg) : DagCoreM DagPC :=
  c ← get;
  if negb (ElectMsg_Verify e) then throw (ErrSignature ElectType (e_View e) (e_Author e)) else
  let '(r, eletor) := Elector_Add (dg_eletor c) e in
  _ ← modify (dg_set_eletor eletor);
  leader ← lift r;
  if decide (leader <> NONE) then DAG_processCoin leader (e_View e) else mret DIdle.

Definition dag_commit_digest (d : Digest) : DagCoreM unit :=
  c ← get;
  block ← lift (getBlock (dg_store c) d);
  modify (fun c => dg_set_commitor (DAGCommitor_Commit (dg_commitor c) block) c).

(** The rest of [processCoin] and of [advanceView], one read at a time. *)
Definition DAG_seg (pc : DagPC) : DagCoreM DagPC :=
  match pc with
  | DIdle => mret DIdle
  | DSpeed leader view =>
      s ← DAG_getSpbInstance view leader;
      if DAG_SpeedCert s then mret (DSpeedCommit leader view) else
      weak ← getWeakVotes view leader;
      c ← get;
      if decide (LowThreshold (dg_committee c) <= weak) then mret (DWeakCommit leader view)
      else DAG_advanceView (wrap64 (view + 1)) HEIGHT_1
  | DSpeedCommit leader view =>
      s ← DAG_getSpbInstance view leader;
      _ ← dag_commit_digest (DAG_BlockHash s HEIGHT_2);
      DAG_advanceView (wrap64 (view + 1)) HEIGHT_1
  | DWeakCommit leader view =>
      s ← DAG_getSpbInstance view leader;
      _ ← dag_commit_digest (DAG_BlockHash s HEIGHT_1);
      DAG_advanceView (wrap64 (view + 1)) HEIGHT_1
  | DRef view height qview qheight [] acc => _ ← DAG_propose view height acc; mret DIdle
  | DRef view height qview qheight (i :: rest) acc =>
      s ← DAG_getSpbInstance qview i;
      mret (DRef view height qview qheight rest
              (match DAG_GetBlockQC s qheight with Some qc => acc ++ [qc] | None => acc end))
  end.

Definition DAG_handleReportMsg (r : ReportMsg) : DagCoreM DagPC :=
  c ← get;
  _ ← dag_check_signature (ReportMsg_Verify r (dg_committee c)) (MReport r) (r_View r) (r_Author r);
  let nums := default (0, 0, 0) (dg_reportNums c !! r_View r) in
  match get3 nums (r_Level r) with
  | None => panic
  | Some n =>
      let nums := set3 nums (r_Level r) (wrap64 (n + 1)) in
      _ ← modify (fun c => dg_set_reportNums (<[r_View r := nums]> (dg_reportNums c)) c);
      if decide (report_quorum nums (HightThreshold (dg_committee c))) then
        DAG_advanceView (wrap64 (r_View r + 1)) HEIGHT_1
      else mret DIdle
  end.

Definition DAG_handle (m : ConsensusMessage) : DagCoreM DagPC :=
  match m with
  | MPropose p => _ ← DAG_handleProposeMsg p; mret DIdle
  | MVote v => _ ← DAG_handleVoteMsg v; mret DIdle
  | MSpeedVote sv => _ ← DAG_handleSpeedVoteMsg sv; mret DIdle
  | MElect e => DAG_handleElectMsg e
  | MReport r => DAG_handleReportMsg r
  | MFinVote _ | MCoin _ => mret DIdle
  end.

(** The other case of the [select]: a certified instance is received. *)
Definition DAG_callBack (g : DagGo) : option (DagCoreM DagPC) :=
  match dg_gtask g with
  | DCallBack => Some (DAG_advanceView (dg_gview g) HEIGHT_2)
  | _ => None
  end.

Definition DAG_Run_first : DagCoreM unit :=
  c ← get;
  block ← DAG_generatorBlock (dg_view c) (dg_height c) [];
  propose ← lift (NewProposeMsg block (dg_sigService c));
  dag_broadcast (MPropose propose).

Definition dag_env_of (c : DAGBigCore) : SpbEnv :=
  {| env_nodeID := dg_nodeID c; env_committee := dg_committee c; env_sigService := dg_sigService c |}.

(** One piece of a goroutine, on its instance and the pool of the node. *)
Definition dag_run_task (g : DagGo) : DagCoreM unit := fun c =>
  match dag_instance c (dg_gview g) (dg_gnode g) with
  | None => (Panic, c, [])
  | Some s =>
      let '(r, st, effs) := dag_step (dag_env_of c) (dg_gtask g) {| dst_spb := s; dst_pool := dg_txpool c |} in
      (r, dag_set_instance (dg_gview g) (dg_gnode g) (dst_spb st) (dg_set_txpool (dst_pool st) c),
       Eff_map (GoDag (dg_gview g) (dg_gnode g)) <$> effs)
  end.
End dagcore.
Arguments DAGBigCore D {_}.
Arguments DagCoreM D {_} _.
