(* ===== verification/DagCoreProps.v ===== *)
(** * Guarantees of a DAG node

    In which rounds a node proposes and what its proposals reference, in every
    execution of [DagCore] under [Loop]. *)
From Stdlib Require Import Sorted.
From S2P Require Import Prelude Sha256 Crypto Committee Pool Message Store DagCommitor Elector Transmitor Spb SpbExec Core CoreExec CoreInst CoreProps DagSpb DagCore Loop.

(** ** Rounds *)

(** Where the guard of [advanceView] lets a node go from a round: to the second
    height of its view if it is at the first, or to the first height of the
    next view, from either height.  A node may therefore leave out the second
    height of a view. *)
Definition round_move (r r' : Z * Z) : Prop :=
  (r'.1 = wrap64 (r.1 + 1) /\ r'.2 = HEIGHT_1) \/ (r'.1 = r.1 /\ r.2 = HEIGHT_1 /\ r'.2 = HEIGHT_2).

Fixpoint round_path (r : Z * Z) (l : list (Z * Z)) (r' : Z * Z) : Prop :=
  match l with
  | [] => r = r'
  | x :: l => round_move r x /\ round_path x l r'
  end.

Lemma round_path_snoc r l r' x : round_path r l r' -> round_move r' x -> round_path r (l ++ [x]) x.
Proof. revert r. induction l as [|y l IH]; intros r; simpl; [by intros ->|]. intros [? ?] ?. split; [done|]. by apply IH. Qed.

Definition round_lt (r r' : Z * Z) : Prop := r.1 < r'.1 \/ (r.1 = r'.1 /\ r.2 < r'.2).

#[global] Instance round_lt_trans : Transitive round_lt.
Proof. unfold round_lt. intros r1 r2 r3. lia. Qed.

(** Below the largest view rounds increase. *)
Lemma round_path_sorted r l r' :
  round_path r l r' -> 0 <= r.1 -> Forall (fun x => x.1 < 2 ^ 63 - 1) (r :: l) -> StronglySorted round_lt (r :: l).
Proof.
  revert r. induction l as [|x l IH]; intros r; simpl; [by repeat constructor|].
  intros [Hs Hp] H0 [Hr Hl]%Forall_cons. simpl in *.
  assert (0 <= x.1 /\ round_lt r x) as [Hx Hlt].
  { unfold round_lt. destruct Hs as [[E1 E2]|(E1 & E2 & E3)].
    - rewrite (wrap_small 64) in E1 by (simpl; lia). lia.
    - rewrite E1, E2, E3. unfold HEIGHT_1, HEIGHT_2. lia. }
  specialize (IH x Hp Hx Hl). constructor; [done|]. apply StronglySorted_inv in IH as [_ IH].
  constructor; [done|]. eapply Forall_impl; [exact IH|]. intros y ?. by transitivity x.
Qed.

Definition proposal {T} (e : Eff T) : option ProposeMsg :=
  match e with Send _ _ (MPropose p) => Some p | _ => None end.

Definition round_of (p : ProposeMsg) : Z * Z := (p_View p, p_Height p).

(** The round whose certificates a proposal of a round references. *)
Definition referenced_round (r : Z * Z) : Z * Z :=
  if decide (r.2 = HEIGHT_1) then (wrap64 (r.1 - 1), HEIGHT_2) else (r.1, HEIGHT_1).

Definition certifies (r : Z * Z) (qc : BlockQC) : Prop := (qc_View qc, qc_Height qc) = r.

(** A proposal that references a quorum of certificates of that round. *)
Definition references_quorum (committee : Committee) (p : ProposeMsg) : Prop :=
  exists B, p_B p = Some B /\ HightThreshold committee <= Z.of_nat (length (b_References B)) /\
    Forall (certifies (referenced_round (round_of p))) (b_References B).

Section props.
Context {D : Type} `{!DB D} `{P : Prims} `{C : BlockCodec}.

Definition dagcore_env_change (c c' : DAGBigCore D) : Prop :=
  (exists pool, c' = dg_set_txpool pool c) \/ (exists com, c' = dg_set_commitor com c).

Abbreviation dagcore_step := (loop_step DIdle DAG_handle DAG_seg dag_run_task DAG_callBack dagcore_env_change).

Inductive dagcore_init (nodeID : NodeID) (committee : Committee) (parameters : Parameters) (sigService : SigService)
    : LNode (DAGBigCore D) DagGo DagPC -> Prop :=
| dagcore_init_run txpool store c effs :
    Faults parameters <= nodeID ->
    DAG_Run_first (NewDAGBigCore nodeID committee parameters txpool store sigService) = (Ok tt, c, effs) ->
    dagcore_init nodeID committee parameters sigService
      {| ln_core := c; ln_recv := selfs effs; ln_tasks := []; ln_main := DIdle; ln_out := outputs effs |}.

Definition dagcore_reachable nodeID committee parameters sigService (nd : LNode (DAGBigCore D) DagGo DagPC) : Prop :=
  exists nd0, dagcore_init nodeID committee parameters sigService nd0 /\ rtc dagcore_step nd0 nd.

(** The certificates an instance holds are of its own view, each at its
    height. *)
Record inst_ok (v : Z) (s : DAGBigSPB) : Prop := {
  io_view : ds_View s = v;
  io_qc1 q : (ds_blockQcs s).1 = Some q -> certifies (v, HEIGHT_1) q;
  io_qc2 q : (ds_blockQcs s).2 = Some q -> certifies (v, HEIGHT_2) q;
}.
Definition insts_ok (c : DAGBigCore D) : Prop := forall v n s, dag_instance c v n = Some s -> inst_ok v s.

(** Everything but the proposal itself leaves the round alone. *)
Definition still (c c' : DAGBigCore D) (effs : list (Eff DagGo)) : Prop :=
  dg_view c' = dg_view c /\ dg_height c' = dg_height c /\ dg_committee c' = dg_committee c /\ omap proposal effs = [] /\
  (insts_ok c -> insts_ok c').

#[global] Instance still_trace : Trace still.
Proof.
  split; unfold still; [done|]. intros c1 c2 c3 e1 e2 (A1 & A2 & A3 & A4 & A5) (B1 & B2 & B3 & B4 & B5).
  rewrite omap_app, A4, B4. split_and!; [congruence..|done|auto].
Qed.

Lemma still_same c c' :
  dg_view c' = dg_view c -> dg_height c' = dg_height c -> dg_committee c' = dg_committee c ->
  dg_spbInstances c' = dg_spbInstances c -> still c c' [].
Proof. intros ??? E. split_and!; [done..|]. unfold insts_ok, dag_instance. by rewrite E. Qed.
Lemma still_out c e : proposal e = None -> still c c [e].
Proof. intros E. split_and!; [done..| |done]. csimpl. by rewrite E. Qed.

Lemma dag_instance_set c v n s v' n' :
  dag_instance (dag_set_instance (D := D) v n s c) v' n' = if decide (v = v' /\ n = n') then Some s else dag_instance c v' n'.
Proof.
  unfold dag_instance, dag_set_instance. simpl. destruct (decide (v = v')) as [<-|Hv].
  - rewrite lookup_insert_eq. simpl. destruct (decide (n = n')) as [<-|Hn].
    + by rewrite lookup_insert_eq, decide_True.
    + rewrite lookup_insert_ne by done. rewrite decide_False by tauto. by destruct (dg_spbInstances c !! v).
  - rewrite lookup_insert_ne by done. by rewrite decide_False by tauto.
Qed.

Lemma insts_ok_set c v n s : inst_ok v s -> insts_ok c -> insts_ok (dag_set_instance v n s c).
Proof. intros Hs Hc v' n' s'. rewrite dag_instance_set. case_decide as E; [|apply Hc]. destruct E as [<- <-]. by intros [= <-]. Qed.

Lemma new_inst_ok v n : inst_ok v (NewDAGBigSPB n v).
Proof. by split. Qed.

Ltac still := repeat first [solve [eauto with go] | spec_step | by apply still_same | by apply still_out].

Lemma DAG_getSpbInstance_spec c v n r c' es :
  DAG_getSpbInstance v n c = (r, c', es) -> still c c' es /\ (insts_ok c -> exists s, r = Ok s /\ inst_ok v s).
Proof.
  unfold DAG_getSpbInstance. gom. destruct (dag_instance c v n) as [s|] eqn:E; gom; intros [= <- <- <-].
  - split; [by apply still_same|]. intros H. exists s. split; [done|]. by eapply H.
  - split; [|intros _; eexists; split; [done|apply new_inst_ok]].
    split_and!; [done..|]. apply insts_ok_set, new_inst_ok.
Qed.
Lemma DAG_getSpbInstance_still c v n : spec_at c (DAG_getSpbInstance v n) still.
Proof. intros r c' es H. by apply DAG_getSpbInstance_spec in H as [? _]. Qed.
Lemma dag_check_signature_still c ok m v a : spec_at c (dag_check_signature ok m v a) still.
Proof. unfold dag_check_signature. still. Qed.
Lemma addWeakVotes_all_still c qcs : spec_at c (addWeakVotes_all qcs) still.
Proof.
  revert c. induction qcs as [|qc qcs IH]; intros c; simpl; [still|]. unfold addWeakVotes, weak_votes. still.
Qed.
Lemma DAG_advanceView_still c v h : spec_at c (DAG_advanceView v h) still.
Proof. unfold DAG_advanceView. still. Qed.
Hint Resolve DAG_getSpbInstance_still dag_check_signature_still addWeakVotes_all_still DAG_advanceView_still : go.

Lemma DAG_handle_still m c : spec_at c (DAG_handle m) still.
Proof.
  destruct m; simpl; unfold DAG_handleProposeMsg, DAG_handleVoteMsg, DAG_handleSpeedVoteMsg, DAG_handleElectMsg,
    DAG_handleReportMsg, DAG_processCoin, goDag, dag_broadcast; still.
Qed.

Lemma DAG_seg_still pc c :
  match pc with DRef _ _ _ _ [] _ => True | _ => spec_at c (DAG_seg pc) still end.
Proof.
  destruct pc as [| | | |v h qv qh [|i rest] acc]; simpl; try done;
    unfold dag_commit_digest, getWeakVotes, weak_votes; still.
Qed.

(** *** Goroutines *)

Lemma omap_spawn {T A} (f : Eff T -> option A) (l : list T) : (forall t, f (Spawn t) = None) -> omap f (Spawn <$> l) = [].
Proof. intros Hf. induction l as [|x l IH]; csimpl; [done|]. by rewrite Hf. Qed.

Definition quiet (st st' : DagSt) (effs : list (Eff DagTask)) : Prop :=
  omap proposal effs = [] /\ forall v, inst_ok v (dst_spb st) -> inst_ok v (dst_spb st').

#[global] Instance quiet_trace : Trace quiet.
Proof. split; unfold quiet; [done|]. intros s1 s2 s3 e1 e2 [E1 F1] [E2 F2]. rewrite omap_app, E1, E2. auto. Qed.

Lemma emit_all_quiet st l : omap proposal l = [] -> spec_at st (emit_all l) quiet.
Proof. by intros E r st' es [= <- <- <-]. Qed.

Lemma quiet_same st s' :
  ds_View s' = ds_View (dst_spb st) -> ds_blockQcs s' = ds_blockQcs (dst_spb st) ->
  quiet st {| dst_spb := s'; dst_pool := dst_pool st |} [].
Proof. intros E1 E2. split; [done|]. intros v [H1 H2 H3]. split; simpl; rewrite ?E1, ?E2; auto. Qed.

Lemma quiet_qc st v :
  quiet st {| dst_spb := dag_set_qc (v_Height v) (dag_vote_qc (dst_spb st) v) (dst_spb st); dst_pool := dst_pool st |} [].
Proof.
  split; [done|]. intros w [H1 H2 H3]. split; simpl; [done|..]; unfold set2, certifies, HEIGHT_1, HEIGHT_2 in *;
    repeat case_decide; simpl; auto; intros q [= <-]; simpl; congruence.
Qed.

(** A goroutine never proposes. *)
Lemma dag_step_quiet env t st : spec_at st (dag_step env t) quiet.
Proof.
  destruct t as [p|p|p|v|v|v|v| |sv| | |]; simpl; unfold DAG_processProposeMsg, DAG_processProposeMsg_flush,
    DAG_processProposeMsg_vote, DAG_processVoteMsg, DAG_processVoteMsg_count, DAG_processVoteMsg_next,
    DAG_processVoteMsg_flush, DAG_processSpeedVoteMsg, DAG_processSpeedVoteMsg_count, DAG_processSpeedVoteMsg_store,
    on_dag.
  6: { intros r st' es. unfold DAG_processVoteMsg_qc, on_dag. gom. intros [= <- <- <-].
       split; [done|]. apply (quiet_qc st v). }
  all: repeat first [spec_step | by apply quiet_same | done
      | apply emit_all_quiet; rewrite !list_fmap_compose, ?omap_app, !omap_spawn by done; done].
Qed.

Lemma dag_run_task_still g c c' effs : dag_run_task g c = (Ok tt, c', effs) -> still c c' effs.
Proof.
  unfold dag_run_task. destruct (dag_instance c _ _) as [s|] eqn:Ei; [|done].
  destruct (dag_step _ _ _) as [[r st] effs0] eqn:Es. intros [= -> <- <-]. apply dag_step_quiet in Es as [Es Hi].
  split_and!; [done..| |intros Hc; apply insts_ok_set; [eapply Hi, Hc|]; done]. rewrite <- Es. clear. induction effs0 as [|e l IH]; csimpl; [done|]. rewrite IH. by destruct e.
Qed.

(** *** Where the main loop goes *)

Definition round (c : DAGBigCore D) : Z * Z := (dg_view c, dg_height c).
Definition height_ok (r : Z * Z) : Prop := r.2 = HEIGHT_1 \/ r.2 = HEIGHT_2.

Definition pc_ok (r : Z * Z) (pc : DagPC) : Prop :=
  match pc with
  | DRef v h qv qh _ acc =>
      round_move r (v, h) /\ referenced_round (v, h) = (qv, qh) /\ Forall (certifies (qv, qh)) acc
  | _ => True
  end.

(** [m] ends where a proposal that follows the round of [c] is prepared. *)
Definition leads (c : DAGBigCore D) (m : DagCoreM D DagPC) : Prop :=
  insts_ok c -> height_ok (round c) -> forall pc c' es, m c = (Ok pc, c', es) -> pc_ok (round c) pc.

Lemma still_round c c' es : still c c' es -> round c' = round c.
Proof. intros (E1 & E2 & _). unfold round. congruence. Qed.
Lemma still_insts c c' es : still c c' es -> insts_ok c -> insts_ok c'.
Proof. by intros (_ & _ & _ & _ & H). Qed.

Lemma leads_ret c pc : pc_ok (round c) pc -> leads c (mret pc).
Proof. by intros H _ _ pc' c' es [= <- <- <-]. Qed.
Lemma leads_fail c (m : DagCoreM D DagPC) : (m c).1.1 = Panic \/ (exists e, (m c).1.1 = Err e) -> leads c m.
Proof. intros H _ _ pc c' es E. rewrite E in H. naive_solver. Qed.
Lemma leads_bind {A} c (m : DagCoreM D A) (k : A -> DagCoreM D DagPC) :
  spec_at c m still -> (forall a c', round c' = round c -> leads c' (k a)) -> leads c (m ≫= k).
Proof.
  intros Hm Hk Hi Hh pc c' es. unfold mbind, GoM_bind. destruct (m c) as [[[a|e|] c1] es1] eqn:E; [|done..].
  simpl. destruct (k a c1) as [[r2 c2] es2] eqn:E2. intros [= -> <- <-].
  apply Hm in E. pose proof (still_insts _ _ _ E Hi) as Hi'. apply still_round in E. specialize (Hk a c1 E).
  rewrite <- E. eapply Hk; [done|by rewrite E|exact E2].
Qed.

Lemma DAG_advanceView_leads c v h : leads c (DAG_advanceView v h).
Proof.
  intros _ Hh pc c' es. unfold DAG_advanceView. gom. case_decide as Hn; [|by intros [= <- <- <-]].
  assert (h = HEIGHT_1 \/ h = HEIGHT_2 -> round_move (round c) (v, h)) as Hs.
  { unfold next_round, height_ok, round_move, round, HEIGHT_1, HEIGHT_2 in *. simpl in *.
    intros Hv. destruct Hn as [?|[? ->]]; [tauto|]. right. split; [done|]. destruct Hh as [E|E]; rewrite E in *; [done|]. exfalso. destruct Hv as [[=]|[=]]. }
  unfold referenced_round. repeat case_decide; intros [= <- <- <-]; simpl; subst; split_and?; auto.
Qed.

Ltac leads :=
  repeat match goal with
  | |- leads _ (mret _) => apply leads_ret; by simpl
  | |- leads _ (throw _) => apply leads_fail; right; by eexists
  | |- leads _ panic => apply leads_fail; by left
  | |- leads _ (DAG_advanceView _ _) => apply DAG_advanceView_leads
  | |- leads _ (mbind _ _) => apply leads_bind; [by still|intros ? ? ?]
  | |- leads _ (if _ then _ else _) => case_match
  | |- leads _ (match _ with _ => _ end) => case_match
  end.

Lemma DAG_handle_leads m c : leads c (DAG_handle m).
Proof.
  destruct m; simpl; unfold DAG_handleProposeMsg, DAG_handleVoteMsg, DAG_handleSpeedVoteMsg, DAG_handleElectMsg,
    DAG_handleReportMsg, DAG_processCoin, goDag, dag_broadcast; leads.
Qed.

Lemma DAG_callBack_leads g m c : DAG_callBack g = Some m -> leads c m.
Proof. unfold DAG_callBack. destruct (dg_gtask g); intros; simplify_eq. apply DAG_advanceView_leads. Qed.
Lemma DAG_callBack_still g m c : DAG_callBack g = Some m -> spec_at c m still.
Proof. unfold DAG_callBack. destruct (dg_gtask g); intros; simplify_eq. still. Qed.

Lemma DAG_seg_leads pc c :
  pc_ok (round c) pc -> match pc with DRef _ _ _ _ [] _ => True | _ => leads c (DAG_seg pc) end.
Proof.
  destruct pc as [| | | |v h qv qh [|i rest] acc]; simpl; try done; intros Hpc;
    unfold dag_commit_digest, getWeakVotes, weak_votes; [leads..|].
  intros Hi Hh pc c' es. unfold mbind, GoM_bind.
  destruct (DAG_getSpbInstance qv i c) as [[r c1] es1] eqn:E. apply DAG_getSpbInstance_spec in E as [_ Hs].
  destruct (Hs Hi) as (s & -> & [_ H1 H2]). intros [= <- <- <-]. simpl. destruct Hpc as (Hm & Er & Ha).
  split_and!; [done..|]. destruct (DAG_GetBlockQC s qh) as [q|] eqn:Eq; [|done]. apply Forall_app. split; [done|].
  apply Forall_singleton. revert Er Eq. unfold referenced_round, DAG_GetBlockQC, get2. simpl.
  case_decide; intros [= _ <-]; simpl; [apply H2|apply H1].
Qed.

(** *** The proposal *)

Lemma NewProposeMsg_total B sig e : NewProposeMsg B sig <> Err e.
Proof.
  unfold NewProposeMsg, ProposeMsg_Hash. simpl. unfold RequestSignature, SigService_serve. simpl.
  by destruct (decide _).
Qed.

(** The block is proposed in the prepared round with a quorum of references,
    or nothing happens. *)
Lemma DAG_propose_spec v h refs c r c' effs :
  DAG_propose v h refs c = (r, c', effs) -> r <> Panic ->
  still c c' effs \/
  (round c' = (v, h) /\ dg_committee c' = dg_committee c /\
    (insts_ok c -> insts_ok c') /\
    exists p, omap proposal effs = [p] /\ round_of p = (v, h) /\
      (Forall (certifies (referenced_round (v, h))) refs -> references_quorum (dg_committee c) p)).
Proof.
  unfold DAG_propose, DAG_generatorBlock, dag_broadcast. gom. case_decide as Hq; [|intros [= <- <- <-] _; left; by apply still_same].
  destruct (GetBatch _) as [batch pool]. simpl. destruct (NewProposeMsg _ _) as [p|e|] eqn:Ep.
  - apply NewProposeMsg_fields in Ep as (Ev & Eh & Eb & _). intros [= <- <- <-] _. right.
    split_and!; [done..|]. exists p. unfold references_quorum, round_of. rewrite Ev, Eh. split_and!; [done..|].
    intros Hr. eexists. by rewrite Eb.
  - by destruct (NewProposeMsg_total _ _ e Ep).
  - by intros [= <- <- <-].
Qed.

(** *** The invariant *)

Definition rounds (committee : Committee) (out : list (Eff DagGo)) (r : Z * Z) : Prop :=
  exists p0 ps, omap proposal out = p0 :: ps /\ round_of p0 = (0, HEIGHT_1) /\
    round_path (0, HEIGHT_1) (round_of <$> ps) r /\ Forall (references_quorum committee) ps.

Record dag_inv (committee : Committee) (nd : LNode (DAGBigCore D) DagGo DagPC) : Prop := {
  di_committee : dg_committee (ln_core nd) = committee;
  di_insts : insts_ok (ln_core nd);
  di_height : height_ok (round (ln_core nd));
  di_main : pc_ok (round (ln_core nd)) (ln_main nd);
  di_rounds : rounds committee (ln_out nd) (round (ln_core nd));
}.

Lemma rounds_still committee out c c' effs :
  still c c' effs -> rounds committee out (round c) -> rounds committee (out ++ outputs effs) (round c').
Proof.
  intros Hs. rewrite (still_round _ _ _ Hs). destruct Hs as (_ & _ & _ & E & _). unfold rounds.
  by rewrite omap_app, omap_outputs, E, app_nil_r.
Qed.

Lemma rounds_propose committee out effs p r r' :
  rounds committee out r -> round_move r r' -> omap proposal effs = [p] -> round_of p = r' ->
  references_quorum committee p -> rounds committee (out ++ outputs effs) r'.
Proof.
  intros (p0 & ps & E & E0 & Hp & Hq) Hs Ee <- Hr. exists p0, (ps ++ [p]).
  rewrite omap_app, omap_outputs, E, Ee by done. split_and!; [done|done| |].
  - rewrite fmap_app. by apply round_path_snoc with (r' := r).
  - apply Forall_app. auto.
Qed.

(** A part that leaves the round alone and leads well keeps the invariant. *)
Lemma dag_inv_still committee nd c' effs recv tasks pc :
  dag_inv committee nd -> still (ln_core nd) c' effs -> pc_ok (round (ln_core nd)) pc ->
  dag_inv committee {| ln_core := c'; ln_recv := recv; ln_tasks := tasks; ln_main := pc;
                       ln_out := ln_out nd ++ outputs effs |}.
Proof.
  intros [I1 I0 I2 I3 I4] Hs Hpc. pose proof (still_round _ _ _ Hs) as E. split; simpl.
  - destruct Hs as (_ & _ & -> & _). done.
  - by eapply still_insts.
  - by rewrite E.
  - by rewrite E.
  - by eapply rounds_still.
Qed.

Lemma leads_next c (m : DagCoreM D DagPC) r c' effs :
  leads c m -> insts_ok c -> height_ok (round c) -> m c = (r, c', effs) -> pc_ok (round c) (loop_next DIdle r).
Proof. intros Hl Hi Hh E. destruct r; simpl; [by eapply Hl|done..]. Qed.

Lemma dag_inv_seg committee nd r c' effs recv tasks :
  dag_inv committee nd -> DAG_seg (ln_main nd) (ln_core nd) = (r, c', effs) -> r <> Panic ->
  dag_inv committee {| ln_core := c'; ln_recv := recv; ln_tasks := tasks; ln_main := loop_next DIdle r;
                       ln_out := ln_out nd ++ outputs effs |}.
Proof.
  intros HI E Hr. pose proof (DAG_seg_still (ln_main nd) (ln_core nd)) as Hs.
  pose proof (DAG_seg_leads (ln_main nd) (ln_core nd) (di_main _ _ HI)) as Hl.
  destruct (ln_main nd) as [| | | |v h qv qh [|i rest] acc] eqn:Em;
    try (eapply dag_inv_still; [done|by eapply Hs|]; eapply leads_next; [done|apply HI|apply HI|done]).
  pose proof (di_main _ _ HI) as Hm. rewrite Em in Hm. simpl in Hm. destruct Hm as (Hm & Hqr & Hacc).
  revert E. simpl. unfold mbind, GoM_bind. destruct (DAG_propose _ _ _ _) as [[r1 c1] e1] eqn:Ep. intros E.
  assert (r1 <> Panic /\ c1 = c' /\ e1 = effs /\ loop_next DIdle r = DIdle) as (Hr1 & -> & -> & ->).
  { destruct r1 as [[]|e|]; simpl in E; rewrite ?app_nil_r in E; simplify_eq/=; done. }
  destruct (DAG_propose_spec _ _ _ _ _ _ _ Ep Hr1) as [Es|(Er & Ec & Hi & p & Eo & Eq & Hq)].
  - by eapply dag_inv_still.
  - destruct HI as [I1 I0 I2 I3 I4]. split; simpl; [by rewrite Ec|auto| |done|].
    + rewrite Er. destruct Hm as [[_ ?]|(_ & _ & ?)]; [by left|by right].
    + rewrite Er. eapply rounds_propose; eauto. rewrite <- I1. apply Hq. by rewrite Hqr.
Qed.

Lemma dag_inv_step committee nd nd' : dag_inv committee nd -> dagcore_step nd nd' -> dag_inv committee nd'.
Proof.
  intros HI Hs. destruct Hs as [nd m|nd m rest r c' effs Em _ E _|nd r c' effs _ E Hr|nd l1 g l2 c' effs _ _ E
                               |nd l1 g l2 m r c' effs Em _ Ec E _|nd c' E].
  - by destruct HI; split.
  - eapply dag_inv_still; [done|by eapply DAG_handle_still|]. eapply leads_next; [apply DAG_handle_leads|apply HI|apply HI|done].
  - by eapply dag_inv_seg.
  - eapply dag_inv_still; [done|by eapply dag_run_task_still|apply HI].
  - eapply dag_inv_still; [done|by eapply DAG_callBack_still|].
    eapply leads_next; [by eapply DAG_callBack_leads|apply HI|apply HI|done].
  - destruct HI. by destruct E as [[? ->]|[? ->]]; split.
Qed.

Lemma dag_inv_init nodeID committee parameters sigService nd :
  dagcore_init nodeID committee parameters sigService nd -> dag_inv committee nd.
Proof.
  intros [txpool store c effs _ Hrun]. revert Hrun. unfold DAG_Run_first, DAG_generatorBlock, dag_broadcast. gom.
  destruct (GetBatch _) as [batch pool]. destruct (NewProposeMsg _ _) as [p|e|] eqn:Ep; [|done..].
  apply NewProposeMsg_fields in Ep as (Ev & Eh & _ & _). intros [= <- <-]. simpl in *.
  split; simpl; [done| |by left|done|].
  { intros v n s. unfold dag_instance. simpl. by rewrite lookup_empty. }
  exists p, []. unfold round_of. rewrite Ev, Eh. split_and!; done.
Qed.
End props.

(** C14. A DAG node's proposals move forward through the rounds: the first is
    that of view 0 at the first height, and each of the others is made either at the second
    height of the view whose first height came before it, or at the first height
    of the next view (after the first or the second height of the view before,
    so the second height may be left out).  Each proposal after the first
    references at least [HightThreshold] certificates: those of height 1 of its
    own view at height 2, those of height 2 of the view before at height 1.
    The last proposal is that of the node's current round, and until the view
    counter overflows no round is proposed in twice.  This holds whatever
    messages arrive and however goroutines interleave. *)
Theorem dag_rounds `{!DB D} `{P : Prims} `{C : BlockCodec} nodeID committee parameters sigService
    (nd : LNode (DAGBigCore D) DagGo DagPC) :
  dagcore_reachable nodeID committee parameters sigService nd ->
  exists p0 ps, omap proposal (ln_out nd) = p0 :: ps /\ round_of p0 = (0, HEIGHT_1) /\
    round_path (0, HEIGHT_1) (round_of <$> ps) (dg_view (ln_core nd), dg_height (ln_core nd)) /\
    Forall (references_quorum committee) ps /\
    (Forall (fun p => p_View p < 2 ^ 63 - 1) (p0 :: ps) -> StronglySorted round_lt (round_of <$> p0 :: ps)).
Proof.
  intros (nd0 & Hi & Hr). assert (dag_inv committee nd) as HI.
  { apply dag_inv_init in Hi. induction Hr; eauto using dag_inv_step. }
  destruct HI as [_ _ _ _ (p0 & ps & Ep & E0 & Hp & Hq)]. exists p0, ps. split_and!; [done..|].
  intros Hv. csimpl. rewrite E0. eapply round_path_sorted; [done|done|].
  rewrite <- E0, <- fmap_cons. by apply Forall_fmap.
Qed.

(** ** A concrete node

    Node 1 of four gets the blocks of nodes 0 and 2 and the votes of nodes 0, 2
    and 3 for these and its own, at both heights, and then a report. *)
Module DagDemo.
Definition core0 : DAGBigCore CoreDemo.MemDB :=
  NewDAGBigCore 1 CoreDemo.committee DefaultParameters SpbDemo.pool mem_store_empty (CoreDemo.service 1).

Definition first := DAG_Run_first core0.

Definition node0 : LNode (DAGBigCore CoreDemo.MemDB) DagGo DagPC := {|
  ln_core := st_of first; ln_recv := selfs (eff_of first); ln_tasks := []; ln_main := DIdle;
  ln_out := outputs (eff_of first) |}.

Definition is_didle (pc : DagPC) : bool := match pc with DIdle => true | _ => false end.

Definition signed {A} (f : A -> ConsensusMessage) (r : Res A) : list ConsensusMessage :=
  match r with Ok m => [f m] | _ => [] end.

(** The blocks of a height: those of nodes 0 and 2, and the node's last own. *)
Definition foreign (h : Z) : list Block := [demo_block 0 0 h 5; demo_block 2 0 h 6].
Definition own (nd : LNode (DAGBigCore CoreDemo.MemDB) DagGo DagPC) : list Block :=
  match last (omap proposal (ln_out nd)) with Some p => option_list (p_B p) | None => [] end.

Definition messages (h : Z) (nd : LNode (DAGBigCore CoreDemo.MemDB) DagGo DagPC) : list ConsensusMessage :=
  (foreign h ≫= fun B => signed MPropose (NewProposeMsg B (CoreDemo.service (Z.to_nat (b_Author B))))) ++
  ((foreign h ++ own nd) ≫= fun B => [0; 2; 3] ≫= fun i => signed MVote (NewVoteMsg i B (CoreDemo.service (Z.to_nat i)))).

Definition deliver (ms : list ConsensusMessage) (nd : LNode (DAGBigCore CoreDemo.MemDB) DagGo DagPC) :=
  do_lacts DIdle DAG_handle DAG_seg dag_run_task DAG_callBack is_didle nd (LDeliver <$> ms)
  ≫= do_all DIdle DAG_handle DAG_seg dag_run_task DAG_callBack is_didle 400.

Definition run (nd : LNode (DAGBigCore CoreDemo.MemDB) DagGo DagPC) : option (LNode (DAGBigCore CoreDemo.MemDB) DagGo DagPC) :=
  nd1 ← deliver (messages HEIGHT_1 nd) nd;
  nd2 ← deliver (messages HEIGHT_2 nd1) nd1;
  deliver (signed MReport (NewReportMsg 3 0 LEVEL_2 None (CoreDemo.service 3))) nd2.

Definition moved : LNode (DAGBigCore CoreDemo.MemDB) DagGo DagPC := default node0 (run node0).
End DagDemo.

Lemma dag_first_ok : DagDemo.first = (Ok tt, st_of DagDemo.first, eff_of DagDemo.first).
Proof.
  assert (res_of DagDemo.first = Ok tt) as <- by (vm_compute; reflexivity). apply surjective_pairing3.
Qed.

Lemma is_didle_spec pc : DagDemo.is_didle pc = true <-> pc = DIdle.
Proof. by destruct pc. Qed.

Lemma dag_deliver_steps ms nd nd' :
  DagDemo.deliver ms nd = Some nd' ->
  rtc (loop_step DIdle DAG_handle DAG_seg dag_run_task DAG_callBack dagcore_env_change) nd nd'.
Proof.
  unfold DagDemo.deliver. destruct (do_lacts _ _ _ _ _ _ _ _) as [nd1|] eqn:E1; [|done].
  cbn [mbind option_bind]. intros E2.
  apply (do_lacts_steps _ _ _ _ _ dagcore_env_change _ is_didle_spec) in E1.
  apply (do_all_steps _ _ _ _ _ dagcore_env_change _ is_didle_spec) in E2. by etransitivity.
Qed.

Lemma dag_run_steps nd nd' :
  DagDemo.run nd = Some nd' ->
  rtc (loop_step DIdle DAG_handle DAG_seg dag_run_task DAG_callBack dagcore_env_change) nd nd'.
Proof.
  unfold DagDemo.run. intros (nd1 & E1 & (nd2 & E2 & E3)%bind_Some)%bind_Some.
  apply dag_deliver_steps in E1, E2, E3. by repeat (etransitivity; [eassumption|]).
Qed.

Lemma dag_run_moved : DagDemo.run DagDemo.node0 = Some DagDemo.moved.
Proof. apply (default_Some DagDemo.node0). vm_compute. reflexivity. Qed.

Lemma dag_moved_reachable :
  dagcore_reachable 1 CoreDemo.committee DefaultParameters (CoreDemo.service 1) DagDemo.moved.
Proof.
  exists DagDemo.node0. split; [|exact (dag_run_steps _ _ dag_run_moved)].
  apply (dagcore_init_run 1 CoreDemo.committee DefaultParameters (CoreDemo.service 1) SpbDemo.pool mem_store_empty);
    [vm_decide|exact dag_first_ok].
Qed.

Lemma dag_moved_rounds :
  round_of <$> omap proposal (ln_out DagDemo.moved) = [(0, HEIGHT_1); (0, HEIGHT_2); (1, HEIGHT_1)].
Proof. vm_compute. reflexivity. Qed.

(** The node proposed at the second height and in the next view, each time with
    a quorum of references. *)
Lemma dag_rounds_witness :
  exists p0 p1 p2, omap proposal (ln_out DagDemo.moved) = [p0; p1; p2] /\
    round_of p1 = (0, HEIGHT_2) /\ round_of p2 = (1, HEIGHT_1) /\
    references_quorum CoreDemo.committee p1 /\ references_quorum CoreDemo.committee p2.
Proof.
  destruct (dag_rounds 1 CoreDemo.committee DefaultParameters (CoreDemo.service 1) DagDemo.moved dag_moved_reachable)
    as (p0 & ps & E & _ & _ & Hq & _).
  pose proof dag_moved_rounds as Er. rewrite E in Er. destruct ps as [|p1 [|p2 [|p3 ps]]]; try discriminate Er.
  injection Er as _ _ E1v E1h E2v E2h. apply Forall_cons in Hq as [Hq1 Hq]. apply Forall_cons in Hq as [Hq2 _].
  exists p0, p1, p2. rewrite E. unfold round_of. rewrite E1v, E1h, E2v, E2h. split_and!; [reflexivity..|exact Hq1|exact Hq2].
Defined.
