(* ===== verification/Startup.v ===== *)
(** * Start-up: from files to a running node

    Models [src/node/node.go], [src/core/consensus.go] and the [run] command of
    [src/main.go].  The outcomes of the dials that wait for the other nodes and
    the opened database are arguments; a node that still waits for a peer has
    not started ([None]). *)
From stdpp Require Import sorting.
From S2P Require Import Prelude Sha256 Crypto Json JsonText TsKeys Committee Pool Config ConfigProps Logger Message Store Commitor DagCommitor Elector Transmitor Spb Core BigSpb BigCore DagSpb DagCore SpbExec CoreExec.

Definition PAC_LEAN : Z := 0.
Definition PAC_BIG : Z := 1.
Definition PAC_BIG_DAG : Z := 2.

Section startup.
Context {D : Type} `{!DB D} {P : Prims} {K : Kyber P} `{C : BlockCodec}.

(** The core that [Consensus] starts. *)
Inductive Corer :=
| Lean (corer : Core D)
| Big (corer : BigCore D)
| Dag (corer : DAGBigCore D).

(** [strings.Split(s, ":")] *)
Fixpoint split_colon (s : bytes) : list bytes :=
  match s with
  | [] => [[]]
  | b :: s =>
      match split_colon s with
      | [] => [[b]]
      | w :: ws => if decide (b = Byte.x3a) then [] :: w :: ws else (b :: w) :: ws
      end
  end.

(** The address the node listens on: the port of its own entry. *)
Definition listen_addr (committee : Committee) (id : NodeID) : Res bytes :=
  match split_colon (bs (Address committee id)) !! 1%nat with
  | None => Panic
  | Some port => Ok (Byte.x3a :: port)
  end.

(** One goroutine per peer dials until it answers, [tries] times so far. *)
Fixpoint dial_until (dial : nat -> bool) (tries : nat) : bool :=
  match tries with
  | O => false
  | S n => dial_until dial n || dial n
  end.

Definition all_online (dial : string -> nat -> bool) (tries : nat) (addrs : list string) : bool :=
  forallb (fun addr => dial_until (dial addr) tries) addrs.

Definition Consensus (dial : string -> nat -> bool) (tries : nat) (order : list (NodeID * Authority)) (id : NodeID)
    (committee : Committee) (parameters : Committee.Parameters) (txpool : Pool.Pool) (store : Store D) (sigService : SigService)
    : option (Res Corer) :=
  match listen_addr committee id with
  | Panic => Some Panic
  | Err e => Some (Err e)
  | Ok _ =>
      if all_online dial tries (BroadCast order id) then
        Some (if decide (Protocol parameters = PAC_LEAN) then
                Ok (Lean (NewCore id committee parameters txpool store sigService))
              else if decide (Protocol parameters = PAC_BIG) then
                Ok (Big (NewBigCore id committee parameters txpool store sigService))
              else if decide (Protocol parameters = PAC_BIG_DAG) then
                Ok (Dag (NewDAGBigCore id committee parameters txpool store sigService))
              else Panic)
      else None
  end.

(** What [NewNode] reads before it starts the parts. *)
Record Setup := {
  su_priKey : PrivateKey;
  su_shareKey : SecretShareKey;
  su_committee : Committee;
  su_pool : PoolParameters.t;
  su_core : Committee.Parameters;
}.

Definition read_setup (fs : FS) (visit : gmap bytes json -> list (bytes * json))
    (keysFile tssKeyFile committeeFile parametersFile : bytes) : Res Setup :=
  '(_, priKey) ← GenKeysFromFile fs keysFile;
  shareKey ← GenTsKeyFromFile fs tssKeyFile;
  committee ← GenCommitteeFromFile fs committeeFile visit;
  '(poolParameters, coreParameters) ← GenParamatersFromFile fs parametersFile;
  Ok {| su_priKey := priKey; su_shareKey := shareKey; su_committee := committee; su_pool := poolParameters;
        su_core := coreParameters |}.

(** [order] is the order in which the committee is visited by the broadcast.
    The log files are set up first; the node starts with its loggers. *)
Definition NewNode (fs : FS) (lg : Loggers) (visit : gmap bytes json -> list (bytes * json))
    (order : Committee -> list (NodeID * Authority)) (dial : string -> nat -> bool) (tries : nat) (opened : Res D)
    (keysFile tssKeyFile committeeFile parametersFile logPath : bytes) (logLevel nodeID : Z)
    : option (Res (Corer * Loggers)) :=
  match '(fs, lg) ← init_logs logPath logLevel nodeID fs lg;
        su ← read_setup fs visit keysFile tssKeyFile committeeFile parametersFile;
        Ok (su, lg) with
  | Panic => Some Panic
  | Err e => Some (Err e)
  | Ok (su, lg) =>
      match NewPool (su_pool su) (Committee_Size (su_committee su)) nodeID, opened with
      | Ok txpool, Ok d =>
          started ← Consensus dial tries (order (su_committee su)) nodeID (su_committee su) (su_core su) txpool {| db := d |}
            {| PriKey := su_priKey su; ShareKey := su_shareKey su |};
          Some (corer ← started; Ok (corer, lg))
      | _, _ => Some Panic
      end
  end.

(** ** The commands of [main] *)

Inductive Command :=
| keyCmd (path : bytes) (nodes : Z)
| tssKeyCmd (path : bytes) (N T : Z)
| runCmd (keyFile tssKeyFile committeeFile parametersFile logPath : bytes) (logLevel nodeID : Z)
| deployCmd (nodes : Z).

(** What a command leaves: files, a running node, a node that waits for its
    peers, or the help text. *)
Inductive Outcome := Wrote (fs : FS) | Running (corer : Corer) (lg : Loggers) | Waiting | Usage.

(** [generated] and [random] are what the key generators draw.  [deploy] is
    declared without a [Run] function: only its help is printed. *)
Definition main (generated : Z -> Res (bytes * bytes)) (random : Seed) (visit : gmap bytes json -> list (bytes * json))
    (order : Committee -> list (NodeID * Authority)) (dial : string -> nat -> bool) (tries : nat) (opened : Res D)
    (cmd : Command) (fs : FS) : Res Outcome :=
  match cmd with
  | keyCmd path nodes => fs' ← GenerateKeyFiles generated nodes path fs; Ok (Wrote fs')
  | tssKeyCmd path N T => fs' ← GenerateTsKeyFiles random N T path fs; Ok (Wrote fs')
  | runCmd keyFile tssKeyFile committeeFile parametersFile logPath logLevel nodeID =>
      match NewNode fs initial_loggers visit order dial tries opened keyFile tssKeyFile committeeFile parametersFile logPath
              logLevel nodeID with
      | None => Ok Waiting
      | Some (Ok (c, lg)) => Ok (Running c lg)
      | Some _ => Panic
      end
  | deployCmd _ => Ok Usage
  end.

(** The [run] command of node [n] in a network whose files are under [path],
    with the default level. *)
Definition run_node (path cfile pfile logPath : bytes) (n : Z) : Command :=
  runCmd (node_key_file path n) (ts_key_file path n) cfile pfile logPath DeployLevel n.

(** ** What a core was started with *)

Definition corer_id (c : Corer) : NodeID :=
  match c with Lean c => c_nodeID c | Big c => bc_nodeID c | Dag c => dg_nodeID c end.
Definition corer_committee (c : Corer) : Committee :=
  match c with Lean c => c_committee c | Big c => bc_committee c | Dag c => dg_committee c end.
Definition corer_service (c : Corer) : SigService :=
  match c with Lean c => c_sigService c | Big c => bc_sigService c | Dag c => dg_sigService c end.
Definition corer_protocol (c : Corer) : Z :=
  match c with Lean _ => PAC_LEAN | Big _ => PAC_BIG | Dag _ => PAC_BIG_DAG end.

(** What lets a node start once its files are read: the port of its address,
    peers that answer in time, a database, a pool size and a protocol that exist. *)
Record can_start (order : Committee -> list (NodeID * Authority)) (dial : string -> nat -> bool) (tries : nat) (opened : Res D)
    (su : Setup) (id : NodeID) : Prop := {
  cs_addr : exists port, listen_addr (su_committee su) id = Ok port;
  cs_peers : Forall (fun addr => dial_until (dial addr) tries = true) (BroadCast (order (su_committee su)) id);
  cs_store : exists d, opened = Ok d;
  cs_pool : 0 <= PoolParameters.MaxQueueSize (su_pool su);
  cs_protocol : Protocol (su_core su) ∈ [PAC_LEAN; PAC_BIG; PAC_BIG_DAG];
}.

Lemma all_online_true dial tries addrs :
  Forall (fun addr => dial_until (dial addr) tries = true) addrs -> all_online dial tries addrs = true.
Proof. induction 1 as [|addr addrs H _ IH]; simpl; [done|]. by rewrite H, IH. Qed.

(** Reading does not depend on files that were not there. *)
Lemma readFromFile_ext fs fs' f m : fs_ext fs fs' -> readFromFile fs f = Ok m -> readFromFile fs' f = Ok m.
Proof.
  intros Hx. unfold readFromFile. destruct (open_read fs f) as [text|] eqn:E; [|done]. by rewrite (Hx _ _ E).
Qed.

Lemma reader_ext {A} fs fs' f (k : gmap bytes json -> Res A) x :
  fs_ext fs fs' -> (readFromFile fs f ≫= k) = Ok x -> (readFromFile fs' f ≫= k) = Ok x.
Proof. intros Hx. destruct (readFromFile fs f) eqn:E; [|done..]. by rewrite (readFromFile_ext _ _ _ _ Hx E). Qed.

Lemma GenParamaters_ext fs fs' f x : fs_ext fs fs' -> GenParamatersFromFile fs f = Ok x -> GenParamatersFromFile fs' f = Ok x.
Proof.
  intros Hx. unfold GenParamatersFromFile. destruct (open_read fs f) as [text|] eqn:E; [|done]. by rewrite (Hx _ _ E).
Qed.

Lemma read_setup_ext fs fs' visit kf tf cf pf su :
  fs_ext fs fs' -> read_setup fs visit kf tf cf pf = Ok su -> read_setup fs' visit kf tf cf pf = Ok su.
Proof.
  intros Hx. unfold read_setup.
  destruct (GenKeysFromFile fs kf) as [[pk sk]| |] eqn:E1; [|done..]. apply (reader_ext _ fs') in E1; [|done].
  unfold GenKeysFromFile at 1. rewrite E1. cbn [mbind Res_bind].
  destruct (GenTsKeyFromFile fs tf) as [k| |] eqn:E2; [|done..]. apply (reader_ext _ fs') in E2; [|done].
  unfold GenTsKeyFromFile at 1. rewrite E2. cbn [mbind Res_bind].
  destruct (GenCommitteeFromFile fs cf visit) as [c| |] eqn:E3; [|done..]. apply (reader_ext _ fs') in E3; [|done].
  unfold GenCommitteeFromFile at 1. rewrite E3. cbn [mbind Res_bind].
  destruct (GenParamatersFromFile fs pf) as [x| |] eqn:E4; [|done..]. by rewrite (GenParamaters_ext _ _ _ _ Hx E4).
Qed.

Lemma run_starts generated random visit order dial tries opened kf tf cf pf logPath logLevel nodeID fs su :
  read_setup fs visit kf tf cf pf = Ok su -> can_start order dial tries opened su nodeID ->
  Forall (fun name => log_file name logPath nodeID ∉ denied fs) log_names ->
  exists c lg, main generated random visit order dial tries opened (runCmd kf tf cf pf logPath logLevel nodeID) fs = Ok (Running c lg) /\
  corer_id c = nodeID /\ corer_committee c = su_committee su /\
  corer_service c = {| PriKey := su_priKey su; ShareKey := su_shareKey su |} /\
  corer_protocol c = Protocol (su_core su).
Proof.
  intros E [[port Ea] Hp%all_online_true [d ->] Hq Hpr] Hlogs.
  destruct (init_logs_routes logPath logLevel nodeID fs initial_loggers eq_refl eq_refl Hlogs) as (fs' & lg & El & Hx & _).
  simpl. unfold NewNode, NewPool, newTxQueue, Consensus. rewrite El. cbn [mbind Res_bind].
  rewrite (read_setup_ext _ _ _ _ _ _ _ _ Hx E). cbn [mbind Res_bind]. rewrite decide_False by lia. simpl. rewrite Ea, Hp.
  repeat (case_decide; [by eexists _, _|]). repeat (apply elem_of_cons in Hpr as [?|Hpr]; [done|]). by apply elem_of_nil in Hpr.
Qed.

Lemma keys_wrote generated random visit order dial tries opened path N fs fs' :
  main generated random visit order dial tries opened (keyCmd path N) fs = Ok (Wrote fs') ->
  GenerateKeyFiles generated N path fs = Ok fs'.
Proof. simpl. by destruct (GenerateKeyFiles _ _ _ _); intros [= ->]. Qed.

Lemma ts_keys_wrote generated random visit order dial tries opened path N T fs fs' :
  main generated random visit order dial tries opened (tssKeyCmd path N T) fs = Ok (Wrote fs') ->
  GenerateTsKeyFiles random N T path fs = Ok fs'.
Proof. simpl. by destruct (GenerateTsKeyFiles _ _ _ _ _); intros [= ->]. Qed.
End startup.

(** ** Nodes started from generated files *)

Section started.
Context {D : Type} `{!DB D} {P : Prims} {PL : PrimsLaws P} {K : Kyber P} {L : KyberLaws K} `{C : BlockCodec}.
Context (generated : Z -> Res (bytes * bytes)) (random : Seed) (visit : gmap bytes json -> list (bytes * json))
  (order : Committee -> list (NodeID * Authority)) (dial : string -> nat -> bool) (tries : nat) (opened : Res D).
Abbreviation run := (main generated random visit order dial tries opened).

(** The files of a network: keys and threshold keys of [N] nodes under [path],
    written by the two key commands, a committee file and a parameter file. *)
Record network_files (N T : Z) (path cfile pfile : bytes) (c : Committee) (p : Config.Parameters) (fs : FS) : Prop := {
  nf_write : exists fs0 fs1 fs2 fs3 members,
    run (keyCmd path N) fs0 = Ok (Wrote fs1) /\ run (tssKeyCmd path N T) fs1 = Ok (Wrote fs2) /\
    range_order c members /\ savetoFile fs2 cfile (JMap (committee_data members)) = Ok fs3 /\
    savetoFile fs3 pfile (Parameters_json p) = Ok fs;
  nf_apart : cfile <> pfile /\ forall i, (node_key_file path i ∉ [cfile; pfile]) /\ (ts_key_file path i ∉ [cfile; pfile]);
  nf_sizes : N < 2 ^ 53 /\ - 2 ^ 53 < T < 2 ^ 53 /\ marshals random N T;
  nf_committee : consistent c;
  nf_ints : pool_ints (Pool p) /\ consensus_ints (Config.Consensus p);
}.

(** What node [i] reads there. *)
Definition setup_of (N T : Z) (c : Committee) (p : Config.Parameters) (pri : bytes) (s : PriShare) : Setup := {|
  su_priKey := {| Prikey := pri |};
  su_shareKey := {| sk_PubPoly := (GenTSKeys T N random).2; sk_PriShare := s; sk_N := N; sk_T := T |};
  su_committee := c; su_pool := Pool p; su_core := Config.Consensus p |}.

Context (visits_all : forall m, visit m ≡ₚ map_to_list m).

Lemma network_files_setup N T path cfile pfile c p fs i :
  network_files N T path cfile pfile c p fs -> 0 <= i < N ->
  exists pub pri s, generated i = Ok (pub, pri) /\ (GenTSKeys T N random).1 !! Z.to_nat i = Some s /\
  read_setup fs visit (node_key_file path i) (ts_key_file path i) cfile pfile = Ok (setup_of N T c p pri s).
Proof.
  intros [(fs0 & fs1 & fs2 & fs3 & members & H1%keys_wrote & H2%ts_keys_wrote & Ho & H3 & H4) [Hcp Hap] (HN & HT & Hm) Hc [Hp1 Hp2]] Hi.
  destruct (Hap i) as [Hap1 Hap2].
  assert (forall g j, g ∉ [cfile; pfile] -> holds fs2 g j -> holds fs g j) as Hkeep.
  { intros g j Hg Hh. eapply save_other; [exact H4|set_solver|]. eapply save_other; [exact H3|set_solver|done]. }
  destruct (key_files_saved _ _ _ _ _ _ H1 Hi) as (pub & pri & Eg & Hk).
  apply ts_files_saved in H2 as [H2 Hk2]; [|done|lia|done]. destruct (H2 i Hi) as (s & Es & share & pt & E1 & E2 & Hts).
  exists pub, pri, s. split_and!; [done..|]. unfold read_setup.
  rewrite (node_keys_read _ _ pri pub).
  2: { apply Hkeep; [done|]. apply Hk2; [|done]. intros i'. apply node_ts_file. }
  cbn [mbind Res_bind]. rewrite (ts_file_read random N T _ _ s); [|lia|done|exists share, pt; auto]. cbn [mbind Res_bind].
  rewrite (committee_read _ _ c members); [|done..|].
  2: { eapply save_other; [exact H4|done|]. eapply save_holds; [|exact H3]. apply (document_JMap 1); [lia|].
       by eapply committee_data_ok. }
  cbn [mbind Res_bind]. rewrite (parameters_read _ _ p); [done..|]. eapply save_holds; [|exact H4]. apply Parameters_document.
Qed.

(** C18. A network made with the commands of the program works together: from
    the files that [keys] and [threshold_keys] wrote, with a committee file
    that lists the generated public keys and a parameter file, the command
    [run] starts each node once its peers answer; the nodes run the protocol
    the parameters name, and every signed message of one verifies at every
    other. *)
Theorem started_nodes_verify N T path cfile pfile logPath c p fs i j pub pri :
  network_files N T path cfile pfile c p fs -> 0 <= i < N -> 0 <= j < N ->
  generated i = Ok (pub, pri) -> keypair pri pub -> Committee_Name c i = {| Pubkey := pub |} ->
  (forall pri s, can_start order dial tries opened (setup_of N T c p pri s) i) ->
  (forall pri s, can_start order dial tries opened (setup_of N T c p pri s) j) ->
  (forall name k, log_file name logPath k ∉ denied fs) ->
  exists ci cj lgi lgj, run (run_node path cfile pfile logPath i) fs = Ok (Running ci lgi) /\
    run (run_node path cfile pfile logPath j) fs = Ok (Running cj lgj) /\ corer_id ci = i /\ corer_id cj = j /\
    corer_protocol ci = Protocol (Config.Consensus p) /\ corer_protocol cj = Protocol (Config.Consensus p) /\
    all_verify (corer_committee cj) (corer_service ci) i.
Proof.
  intros Hf Hi Hj Eg Hkp Hn Si Sj Hlog.
  assert (forall k, Forall (fun name => log_file name logPath k ∉ denied fs) log_names) as Hl by (intros k; by apply Forall_forall).
  destruct (network_files_setup _ _ _ _ _ _ _ _ i Hf Hi) as (pub' & pri' & s & Eg' & _ & Er).
  destruct (network_files_setup _ _ _ _ _ _ _ _ j Hf Hj) as (_ & pri2 & s2 & _ & _ & Er2).
  rewrite Eg in Eg'. injection Eg' as <- <-.
  destruct (run_starts generated random _ _ _ _ _ _ _ _ _ logPath DeployLevel _ _ _ Er (Si _ _) (Hl i)) as (ci & lgi & Hci & Ei & _ & Esv & Epi).
  destruct (run_starts generated random _ _ _ _ _ _ _ _ _ logPath DeployLevel _ _ _ Er2 (Sj _ _) (Hl j)) as (cj & lgj & Hcj & Ej & Ec & _ & Epj).
  exists ci, cj, lgi, lgj. split_and!; [done..|]. apply (registered_all_verify _ _ _ pub). rewrite Ec, Esv. split; [exact Hkp|exact Hn].
Qed.
End started.

(** ** A concrete network of four nodes *)

Module StartDemo.
Definition committee : Committee := {| Authorities := list_to_map
  ((fun i => (i, default_authority (replicate 32 (byte_of_Z i)) i)) <$> seqZ 0 4) |}.
Definition order (c : Committee) : list (NodeID * Authority) := map_to_list (Authorities c).
Definition fs3 : FS := ConfigDemo.saved (savetoFile ConfigDemo.fs2 (bs "c") (JMap (committee_data (order committee)))).
Definition fs4 : FS := ConfigDemo.saved (savetoFile fs3 (bs "p") (Parameters_json GenDefaultParameters)).

(** The peers answer the second dial. *)
Definition dial (_ : string) (k : nat) : bool := Nat.eqb k 1.
Definition opened : Res CoreDemo.MemDB := Ok (db mem_store_empty).
Definition run := main (K := demo_kyber) ConfigDemo.generated tt map_to_list order dial 2 opened.
End StartDemo.

Lemma demo_files :
  network_files (K := demo_kyber) ConfigDemo.generated tt map_to_list StartDemo.order StartDemo.dial 2 StartDemo.opened
    4 3 [] (bs "c") (bs "p") StartDemo.committee GenDefaultParameters StartDemo.fs4.
Proof.
  split.
  - exists ConfigDemo.fs0, ConfigDemo.fs1, ConfigDemo.fs2, StartDemo.fs3, (StartDemo.order StartDemo.committee).
    split_and!; [reflexivity..|unfold range_order; reflexivity|reflexivity|reflexivity].
  - split; [vm_decide|]. intros i. split; intros H; repeat (apply elem_of_cons in H as [H|H]; [done|]); by apply elem_of_nil in H.
  - split_and!; [lia..|]. split; [by eexists|]. by repeat (constructor; [by eexists|]).
  - vm_decide.
  - split; vm_decide.
Qed.

Lemma started_nodes_verify_witness :
  exists c1 c2 lg1 lg2, StartDemo.run (run_node [] (bs "c") (bs "p") [] 1) StartDemo.fs4 = Ok (Running c1 lg1) /\
    StartDemo.run (run_node [] (bs "c") (bs "p") [] 2) StartDemo.fs4 = Ok (Running c2 lg2) /\
    corer_id c1 = 1 /\ corer_id c2 = 2 /\ corer_protocol c1 = PAC_LEAN /\ corer_protocol c2 = PAC_LEAN /\
    all_verify (corer_committee c2) (corer_service c1) 1.
Proof.
  refine (started_nodes_verify (PL := demo_laws sha256 sha256_length) (K := demo_kyber) ConfigDemo.generated tt map_to_list
    StartDemo.order StartDemo.dial 2 StartDemo.opened _ 4 3 [] (bs "c") (bs "p") [] StartDemo.committee GenDefaultParameters
    StartDemo.fs4 1 2 (replicate 32 (byte_of_Z 1)) (replicate 64 (byte_of_Z 1)) demo_files _ _ _ _ _ _ _ _).
  - done.
  - lia.
  - lia.
  - reflexivity.
  - split; reflexivity.
  - reflexivity.
  - intros pri s. split; [eexists; vm_compute; reflexivity|repeat constructor|by eexists|done|vm_decide].
  - intros pri s. split; [eexists; vm_compute; reflexivity|repeat constructor|by eexists|done|vm_decide].
  - intros name k. by apply not_elem_of_empty.
Defined.
